(** * NumPyTorch: a shallow embedding of [nn/modules.py] and [nn/functional.py]

    The development follows the layout of the Python sources:

    - [Py]        exceptions and the error monad every fallible call lives in;
    - [Patch]     the patch-transform kernel ([get_im2col_indices],
                  [im2col_indices], [col2im_indices]);
    - [Tensor]    float64 arrays with numpy's broadcasting and reductions;
    - one module per layer class ([Linear], [SoftmaxLayer], [LeakyReLULayer],
      [DropoutLayer], [BatchNormLayer], [BatchNorm2d], [Conv2d],
      [ConvTranspose2d], [MaxPool2d], [Flatten], [Sequential], ...), each
      with the methods of the class;
    - [Serial]    the attribute-reflection based [state_dict] /
                  [load_state_dict], and [ModuleList];
    - [Inputs]    the inputs and the auxiliary notions the theorems are
                  stated with;
    - the theorems: the patch transform ([PatchFacts], [PatchTheorems],
      [Im2colFacts]), the layers ([LayerFacts], [FlattenFacts],
      [SequentialFacts], [PoolFacts], [Conv2dFacts], [ActivationFacts],
      [LinearForwardFacts], [ConvTransposeFacts], [ShapeErrorFacts]) and the
      serialization ([SerialFacts], [ModuleListFacts], [LoadFacts],
      [RoundTripFacts], [LoadExportFacts]).

    Python integers are [Z]; float64 array entries are primitive binary64
    floats; arrays are nested lists in row-major order. *)

From Stdlib Require Import ZArith List Bool Lia Floats.
From Stdlib Require Ascii String DecimalString DecimalNat.
Import ListNotations.

Set Implicit Arguments.
Local Open Scope Z_scope.

(* ================================================================== *)
(** * Python exceptions and results *)
(* ================================================================== *)

Module Py.

Inductive exn : Type :=
| ValueError
| IndexError
| ZeroDivisionError
| AttributeError
| TypeError
| NotImplementedError.

Inductive Result (A : Type) : Type :=
| Ok (a : A)
| Raise (e : exn).

Arguments Ok {A} a.
Arguments Raise {A} e.

Definition bind {A B} (c : Result A) (k : A -> Result B) : Result B :=
  match c with
  | Ok a => k a
  | Raise e => Raise e
  end.

Definition guard (b : bool) (e : exn) : Result unit :=
  if b then Ok tt else Raise e.

(** [a // b] on Python integers: floor division, [ZeroDivisionError] on 0. *)
Definition floordiv (a b : Z) : Result Z :=
  if b =? 0 then Raise ZeroDivisionError else Ok (a / b).

(** A Python argument that is either one [int] or a 2-tuple of them. *)
Inductive int_or_pair : Type :=
| AnInt (z : Z)
| APair (p : Z * Z).

(** [x if isinstance(x, tuple) else (x, x)] and its [isinstance(x, int)] twin. *)
Definition as_pair (a : int_or_pair) : Z * Z :=
  match a with
  | AnInt z => (z, z)
  | APair p => p
  end.

(** Index normalisation of a Python sequence of length [len]: negative
    indices count from the end. *)
Definition in_bounds (len : nat) (v : Z) : bool :=
  (- Z.of_nat len <=? v) && (v <? Z.of_nat len).

Definition norm_index (len : nat) (v : Z) : nat :=
  Z.to_nat (if v <? 0 then v + Z.of_nat len else v).

(** [l[start:stop]] with Python's clamping of both ends. *)
Definition clamp_index (len : nat) (v : Z) : nat :=
  let v' := if v <? 0 then v + Z.of_nat len else v in
  Z.to_nat (Z.max 0 (Z.min v' (Z.of_nat len))).

Definition slice {A} (start stop : Z) (l : list A) : list A :=
  let a := clamp_index (length l) start in
  let b := clamp_index (length l) stop in
  firstn (b - a) (skipn a l).

End Py.

Import Py.

Declare Scope py_scope.
Delimit Scope py_scope with py.
Notation "x <- c1 ;; c2" := (bind c1 (fun x => c2))
  (at level 61, c1 at next level, right associativity) : py_scope.
Notation "' pat <- c1 ;; c2" := (bind c1 (fun x => match x with pat => c2 end))
  (at level 61, pat pattern, c1 at next level, right associativity) : py_scope.
Local Open Scope py_scope.

(** Array entries: anything with a zero and an addition.  The patch kernel
    only moves and adds entries, so it is stated once for every such
    carrier. *)
Class Arith (F : Type) : Type := {
  zero : F;
  add : F -> F -> F
}.

#[export] Instance Z_Arith : Arith Z := {| zero := 0; add := Z.add |}.

#[export] Instance float_Arith : Arith float :=
  {| zero := 0%float; add := PrimFloat.add |}.

(* ================================================================== *)
(** * The patch-transform kernel *)
(* ================================================================== *)

Module Patch.

Section Kernel.
Context {F : Type} {AF : Arith F}.

Definition arr2 := list (list F).
Definition arr3 := list (list (list F)).
Definition arr4 := list (list (list (list F))).

(** [tab n f] is the array [[f 0, ..., f (n-1)]]. *)
Definition tab {A} (n : nat) (f : nat -> A) : list A := map f (seq 0 n).

Definition get2 (a : arr2) (r c : nat) : F := nth c (nth r a []) zero.
Definition get3 (a : arr3) (c h w : nat) : F := nth w (nth h (nth c a []) []) zero.
Definition get4 (a : arr4) (n c h w : nat) : F := get3 (nth n a []) c h w.

(** [x.shape] of a rectangular 4-D array (an empty axis hides the ones
    after it, which then read as 0). *)
Definition shape4 (x : arr4) : Z * Z * Z * Z :=
  let img := hd [] x in
  let plane := hd [] img in
  (Z.of_nat (length x), Z.of_nat (length img),
   Z.of_nat (length plane), Z.of_nat (length (hd [] plane))).

(** ** numpy primitives used by the kernel *)

(** [np.arange(n)]: empty when [n <= 0]. *)
Definition np_arange (n : Z) : list Z := map Z.of_nat (seq 0 (Z.to_nat n)).

(** [np.repeat(a, n)]: every entry [n] times in a row.  A negative count
    is a [ValueError] (also over an empty array, where numpy versions
    differ). *)
Definition np_repeat (a : list Z) (n : Z) : Result (list Z) :=
  if n <? 0 then Raise ValueError
  else Ok (flat_map (fun v => repeat v (Z.to_nat n)) a).

(** [np.tile(a, n)]: the whole array [n] times; a negative count as for
    [np_repeat]. *)
Definition np_tile (a : list Z) (n : Z) : Result (list Z) :=
  if n <? 0 then Raise ValueError
  else Ok (concat (repeat a (Z.to_nat n))).

(** [u.reshape(-1, 1) + v.reshape(1, -1)]. *)
Definition outer_add (u v : list Z) : list (list Z) :=
  map (fun a => map (fun b => a + b) v) u.

(** [np.zeros((N, C, H, W))]. *)
Definition np_zeros4 (N C H W : Z) : Result arr4 :=
  if (N <? 0) || (C <? 0) || (H <? 0) || (W <? 0) then Raise ValueError
  else Ok (repeat (repeat (repeat (repeat zero (Z.to_nat W)) (Z.to_nat H))
                     (Z.to_nat C)) (Z.to_nat N)).

(** [np.pad(x, ((0,0),(0,0),(p_h,p_h),(p_w,p_w)), mode='constant')]. *)
Definition np_pad4 (x : arr4) (p_h p_w : Z) : Result arr4 :=
  if (p_h <? 0) || (p_w <? 0) then Raise ValueError
  else
    let '(_, _, _, W) := shape4 x in
    let zrow := repeat zero (Z.to_nat (W + 2 * p_w)) in
    let side := repeat zero (Z.to_nat p_w) in
    let band := repeat zrow (Z.to_nat p_h) in
    Ok (map (map (fun plane =>
                    band ++ map (fun row => side ++ row ++ side) plane ++ band)) x).

(** Row-major flattening. *)
Definition ravel2 {A} (a : list (list A)) : list A := concat a.
Definition ravel3 {A} (a : list (list (list A))) : list A := concat (map (@concat A) a).

(** The [w] entries of [flat] from position [q * w] on. *)
Definition chunk {A} (w q : nat) (flat : list A) : list A :=
  firstn w (skipn (q * w) flat).

(** [flat.reshape(rows, -1)]. *)
Definition np_reshape2 (rows : Z) (flat : list F) : Result arr2 :=
  if rows <=? 0 then Raise ValueError
  else
    let r := Z.to_nat rows in
    let len := length flat in
    if negb (len mod r =? 0)%nat then Raise ValueError
    else Ok (tab r (fun q => chunk (len / r) q flat)).

(** [flat.reshape(a, -1, n)]; the inferred middle side comes back too. *)
Definition np_reshape3 (a n : Z) (flat : list F) : Result (nat * arr3) :=
  if (a <? 0) || (n <? 0) || (a * n =? 0) then Raise ValueError
  else
    let a' := Z.to_nat a in
    let n' := Z.to_nat n in
    let len := length flat in
    if negb (len mod (a' * n') =? 0)%nat then Raise ValueError
    else
      let m := (len / (a' * n'))%nat in
      Ok (m, tab a' (fun q => tab m (fun p => chunk n' (q * m + p) flat))).

(** [t.transpose(1, 2, 0)] of a [(d0, d1, d2)] array: the result has shape
    [(d1, d2, d0)] and entry [[r][l][n]] is [t[n][r][l]]. *)
Definition transpose_120 (d0 d1 d2 : nat) (t : arr3) : arr3 :=
  tab d1 (fun r => tab d2 (fun l => tab d0 (fun n => get3 t n r l))).

(** [t.transpose(2, 0, 1)] of a [(d0, d1, d2)] array: the result has shape
    [(d2, d0, d1)] and entry [[n][r][l]] is [t[r][l][n]]. *)
Definition transpose_201 (d0 d1 d2 : nat) (t : arr3) : arr3 :=
  tab d2 (fun n => tab d0 (fun r => tab d1 (fun l => get3 t r l n))).

(** ** get_im2col_indices *)

Definition get_im2col_indices (x_shape : Z * Z * Z * Z) (field_height field_width : Z)
    (padding stride : Z * Z) : Result (list Z * list (list Z) * list (list Z)) :=
  let '(N, C, H, W) := x_shape in
  let '(pad_h, pad_w) := padding in
  let '(stride_h, stride_w) := stride in
  (* Calculate output spatial dimensions *)
  qh <- floordiv (H + 2 * pad_h - field_height) stride_h ;;
  let out_height := qh + 1 in
  qw <- floordiv (W + 2 * pad_w - field_width) stride_w ;;
  let out_width := qw + 1 in
  (* Generate offset grid *)
  i0 <- np_repeat (np_arange field_height) field_width ;;
  i0 <- np_tile i0 C ;;
  r1 <- np_repeat (np_arange out_height) out_width ;;
  let i1 := map (Z.mul stride_h) r1 in
  j0 <- np_tile (np_arange field_width) (field_height * C) ;;
  t1 <- np_tile (np_arange out_width) out_height ;;
  let j1 := map (Z.mul stride_w) t1 in
  let i := outer_add i0 i1 in
  let j := outer_add j0 j1 in
  k <- np_repeat (np_arange C) (field_height * field_width) ;;
  Ok (k, i, j).

(** ** Fancy indexing with [(slice(None), k, i, j)]

    [k] is an [(R, 1)] column and [i], [j] are [(R, L)] grids; the index
    broadcasts to [(N, R, L)].  numpy validates every index before it reads
    or writes. *)
Definition indices_ok (a : arr4) (k : list Z) (i j : list (list Z)) : bool :=
  let '(_, C, Hp, Wp) := shape4 a in
  forallb (in_bounds (Z.to_nat C)) k
  && forallb (forallb (in_bounds (Z.to_nat Hp))) i
  && forallb (forallb (in_bounds (Z.to_nat Wp))) j.

Definition idx_k (C : nat) (k : list Z) (r : nat) : nat :=
  norm_index C (nth r k 0).
Definition idx_ij (side : nat) (i : list (list Z)) (r l : nat) : nat :=
  norm_index side (nth l (nth r i []) 0).

(** [a[:, k, i, j]], of shape [(N, R, L)]. *)
Definition fancy_gather (a : arr4) (k : list Z) (i j : list (list Z)) : Result arr3 :=
  let '(_, C, Hp, Wp) := shape4 a in
  let '(C, Hp, Wp) := (Z.to_nat C, Z.to_nat Hp, Z.to_nat Wp) in
  let R := length k in
  let L := length (hd [] i) in
  if indices_ok a k i j
  then Ok (map (fun img =>
                  tab R (fun r => tab L (fun l =>
                    get3 img (idx_k C k r) (idx_ij Hp i r l) (idx_ij Wp j r l)))) a)
  else Raise IndexError.

(** In-place update of one position of a list (no effect past the end). *)
Fixpoint upd {A} (n : nat) (f : A -> A) (l : list A) : list A :=
  match l, n with
  | [], _ => []
  | x :: t, O => f x :: t
  | x :: t, S n' => x :: upd n' f t
  end.

Definition upd3 (img : arr3) (c h w : nat) (v : F) : arr3 :=
  upd c (upd h (upd w (fun old => add old v))) img.

(** The index pairs [(r, l)] of an [(R, L)] grid in C order. *)
Definition grid (R L : nat) : list (nat * nat) := list_prod (seq 0 R) (seq 0 L).

(** One sample of [np.add.at]: every [(r, l)] adds its value at
    [(k[r], i[r][l], j[r][l])], repeated positions accumulating. *)
Definition scatter_add (C Hp Wp : nat) (k : list Z) (i j : list (list Z))
    (val : nat -> nat -> F) (R L : nat) (img : arr3) : arr3 :=
  fold_left (fun acc '(r, l) =>
               upd3 acc (idx_k C k r) (idx_ij Hp i r l) (idx_ij Wp j r l) (val r l))
            (grid R L) img.

(** [np.add.at(a, (slice(None), k, i, j), vals)] where [vals] has shape
    [(N, A, M)] and must broadcast to the index shape [(N, R, L)]. *)
Definition np_add_at (a : arr4) (k : list Z) (i j : list (list Z))
    (A M : nat) (vals : arr3) : Result arr4 :=
  let '(_, C, Hp, Wp) := shape4 a in
  let '(C, Hp, Wp) := (Z.to_nat C, Z.to_nat Hp, Z.to_nat Wp) in
  let R := length k in
  let L := length (hd [] i) in
  _ <- guard (((A =? R) || (A =? 1)) && ((M =? L) || (M =? 1)))%nat ValueError ;;
  _ <- guard (indices_ok a k i j) IndexError ;;
  let pick (side n : nat) := if (side =? 1)%nat then O else n in
  Ok (map (fun '(n, img) =>
             scatter_add C Hp Wp k i j
               (fun r l => get3 vals n (pick A r) (pick M l)) R L img)
          (combine (seq 0 (length a)) a)).

(** ** im2col_indices *)

Definition im2col_indices (x : arr4) (field_height field_width : Z)
    (padding stride : int_or_pair) : Result arr2 :=
  let stride := as_pair stride in
  let padding := as_pair padding in
  let '(p_h, p_w) := padding in
  let '(s_h, s_w) := stride in
  (* Add padding around the input *)
  x_padded <- np_pad4 x p_h p_w ;;
  '(k, i, j) <- get_im2col_indices (shape4 x) field_height field_width padding stride ;;
  (* Extract patches from padded input using fancy indexing *)
  cols <- fancy_gather x_padded k i j ;;
  let '(_, C, _, _) := shape4 x in
  (* Reshape extracted patches into columns *)
  let cols := transpose_120 (length x) (length k) (length (hd [] i)) cols in
  np_reshape2 (field_height * field_width * C) (ravel3 cols).

(** ** col2im_indices *)

Definition col2im_indices (cols : arr2) (x_shape : Z * Z * Z * Z)
    (field_height field_width : Z) (padding stride : Z * Z) : Result arr4 :=
  let '(N, C, H, W) := x_shape in
  let '(pad_h, pad_w) := padding in
  let '(stride_h, stride_w) := stride in
  let H_padded := H + 2 * pad_h in
  let W_padded := W + 2 * pad_w in
  x_padded <- np_zeros4 N C H_padded W_padded ;;
  '(k, i, j) <- get_im2col_indices x_shape field_height field_width padding stride ;;
  '(M, cols_reshaped) <- np_reshape3 (C * field_height * field_width) N (ravel2 cols) ;;
  let A := Z.to_nat (C * field_height * field_width) in
  let cols_reshaped := transpose_201 A M (Z.to_nat N) cols_reshaped in
  x_padded <- np_add_at x_padded k i j A M cols_reshaped ;;
  (* Trim padding to get the original x dimensions back *)
  if negb (pad_h =? 0) || negb (pad_w =? 0)
  then Ok (map (map (fun plane =>
                       map (slice pad_w (- pad_w)) (slice pad_h (- pad_h) plane)))
               x_padded)
  else Ok x_padded.

End Kernel.

(** ** Geometry of a patch transform

    The parameters of one [im2col]/[col2im] call and the quantities the
    source derives from them; used to state the theorems. *)
Record geometry : Type := {
  batch : nat; chans : nat; height : nat; width : nat;
  field_h : nat; field_w : nat;
  pad_h : nat; pad_w : nat;
  stride_h : nat; stride_w : nat
}.

Definition x_shape (g : geometry) : Z * Z * Z * Z :=
  (Z.of_nat (batch g), Z.of_nat (chans g), Z.of_nat (height g), Z.of_nat (width g)).
Definition padding (g : geometry) : Z * Z := (Z.of_nat (pad_h g), Z.of_nat (pad_w g)).
Definition stride (g : geometry) : Z * Z := (Z.of_nat (stride_h g), Z.of_nat (stride_w g)).

Definition padded_h (g : geometry) : nat := (height g + 2 * pad_h g)%nat.
Definition padded_w (g : geometry) : nat := (width g + 2 * pad_w g)%nat.
(** [(H + 2 * pad - field) // stride + 1] *)
Definition out_h (g : geometry) : nat :=
  ((padded_h g - field_h g) / stride_h g + 1)%nat.
Definition out_w (g : geometry) : nat :=
  ((padded_w g - field_w g) / stride_w g + 1)%nat.
(** Rows of the column matrix: one per (channel, field row, field column). *)
Definition n_rows (g : geometry) : nat := (chans g * (field_h g * field_w g))%nat.
(** Output locations of one sample: one per (out row, out column). *)
Definition n_locs (g : geometry) : nat := (out_h g * out_w g)%nat.

(** Channel, padded row and padded column that entry [(r, l)] of the index
    grids points at. *)
Definition k_of (g : geometry) (r : nat) : nat := (r / (field_h g * field_w g))%nat.
Definition i_of (g : geometry) (r l : nat) : nat :=
  ((r mod (field_h g * field_w g)) / field_w g + stride_h g * (l / out_w g))%nat.
Definition j_of (g : geometry) (r l : nat) : nat :=
  (r mod field_w g + stride_w g * (l mod out_w g))%nat.

(** The grid entries [(r, l)] whose patch position lands on entry
    [(c, h, w)] of the unpadded image: the windows covering it. *)
Definition covers (g : geometry) (c h w : nat) (p : nat * nat) : bool :=
  ((k_of g (fst p) =? c)
   && (i_of g (fst p) (snd p) =? h + pad_h g)
   && (j_of g (fst p) (snd p) =? w + pad_w g))%nat.

Definition covering (g : geometry) (c h w : nat) : list (nat * nat) :=
  filter (covers g c h w) (grid (n_rows g) (n_locs g)).

(** The call is inside numpy's domain: non-empty batch, channels and
    field, positive strides, a field that fits the padded image, and a
    padding that is zero on both axes or on neither. *)
Definition geometry_ok (g : geometry) : Prop :=
  (0 < batch g /\ 0 < chans g /\ 0 < field_h g /\ 0 < field_w g
   /\ 0 < stride_h g /\ 0 < stride_w g
   /\ field_h g <= padded_h g /\ field_w g <= padded_w g
   /\ (pad_h g = 0 <-> pad_w g = 0))%nat.

(** Every row and column of the unpadded image lies in exactly one window
    position along its axis. *)
Definition tiles_axis (side pad field stride out : nat) : Prop :=
  (field <= stride)%nat /\
  forall p, (pad <= p < pad + side)%nat ->
            (p mod stride < field)%nat /\ (p / stride < out)%nat.

Definition tiles (g : geometry) : Prop :=
  tiles_axis (height g) (pad_h g) (field_h g) (stride_h g) (out_h g)
  /\ tiles_axis (width g) (pad_w g) (field_w g) (stride_w g) (out_w g).

(** Rectangular arrays of a given shape. *)
Section Shapes.
Context {F : Type} {AF : Arith F}.

Definition rect2 (R W : nat) (a : @arr2 F) : Prop :=
  length a = R /\ Forall (fun row => length row = W) a.
Definition rect3 (C H W : nat) (a : @arr3 F) : Prop :=
  length a = C /\ Forall (rect2 H W) a.
Definition rect4 (N C H W : nat) (a : @arr4 F) : Prop :=
  length a = N /\ Forall (rect3 C H W) a.

(** One write of the scatter, and the test whether grid entry [p] writes
    at [(c, h, w)]. *)
Definition step (C Hp Wp : nat) (k : list Z) (i j : list (list Z))
    (val : nat -> nat -> F) (acc : @arr3 F) (p : nat * nat) : @arr3 F :=
  let '(r, l) := p in
  upd3 acc (idx_k C k r) (idx_ij Hp i r l) (idx_ij Wp j r l) (val r l).

Definition hits (C Hp Wp : nat) (k : list Z) (i j : list (list Z))
    (c h w : nat) (p : nat * nat) : bool :=
  let '(r, l) := p in
  ((idx_k C k r =? c) && (idx_ij Hp i r l =? h) && (idx_ij Wp j r l =? w))%nat.

(** The zero-padded copy of [x] that [im2col_indices] reads. *)
Definition padded (g : geometry) (x : @arr4 F) : @arr4 F :=
  let zrow := repeat zero (padded_w g) in
  let side := repeat zero (pad_w g) in
  let band := repeat zrow (pad_h g) in
  map (map (fun plane => band ++ map (fun row => side ++ row ++ side) plane ++ band)) x.

(** What the last lines of [col2im_indices] return for a padded buffer. *)
Definition trimmed (g : geometry) (xp : @arr4 F) : @arr4 F :=
  if negb (Z.of_nat (pad_h g) =? 0) || negb (Z.of_nat (pad_w g) =? 0)
  then map (map (fun plane =>
                   map (slice (Z.of_nat (pad_w g)) (- Z.of_nat (pad_w g)))
                       (slice (Z.of_nat (pad_h g)) (- Z.of_nat (pad_h g)) plane))) xp
  else xp.

(** [col2im_indices(im2col_indices(x, ...), x.shape, ...)]. *)
Definition round_trip (x : @arr4 F) (field_height field_width : Z)
    (padding stride : Z * Z) : Result (@arr4 F) :=
  cols <- im2col_indices x field_height field_width (APair padding) (APair stride) ;;
  col2im_indices cols (shape4 x) field_height field_width padding stride.

End Shapes.

(** The index grids of a geometry, in closed form. *)
Definition grid_k (g : geometry) : list Z :=
  tab (n_rows g) (fun r => Z.of_nat (k_of g r)).
Definition grid_i (g : geometry) : list (list Z) :=
  tab (n_rows g) (fun r => tab (n_locs g) (fun l => Z.of_nat (i_of g r l))).
Definition grid_j (g : geometry) : list (list Z) :=
  tab (n_rows g) (fun r => tab (n_locs g) (fun l => Z.of_nat (j_of g r l))).

(** The one grid entry covering [(c, h, w)] when the windows tile the image. *)
Definition the_row (g : geometry) (c h w : nat) : nat :=
  (c * (field_h g * field_w g)
   + ((h + pad_h g) mod stride_h g) * field_w g
   + (w + pad_w g) mod stride_w g)%nat.
Definition the_loc (g : geometry) (h w : nat) : nat :=
  (((h + pad_h g) / stride_h g) * out_w g + (w + pad_w g) / stride_w g)%nat.

End Patch.

(* ================================================================== *)
(** * float64 tensors *)
(* ================================================================== *)

Module Tensor.

Definition ten1 := list float.
Definition ten2 := list ten1.
Definition ten3 := list ten2.
Definition ten4 := list ten3.

(** A float64 [ndarray] of rank 0 to 4 (or a Python float, rank 0). *)
Inductive tensor : Type :=
| T0 (x : float)
| T1 (a : ten1)
| T2 (a : ten2)
| T3 (a : ten3)
| T4 (a : ten4).

Definition rank (t : tensor) : nat :=
  match t with T0 _ => 0 | T1 _ => 1 | T2 _ => 2 | T3 _ => 3 | T4 _ => 4 end%nat.

(** Elementwise application of a unary function ([np.exp], [np.sqrt], ...). *)
Definition tmap (f : float -> float) (t : tensor) : tensor :=
  match t with
  | T0 x => T0 (f x)
  | T1 a => T1 (map f a)
  | T2 a => T2 (map (map f) a)
  | T3 a => T3 (map (map (map f)) a)
  | T4 a => T4 (map (map (map (map f))) a)
  end.

(** ** Broadcasting

    numpy aligns the shapes at their last axis and stretches every axis of
    side 1; sides that differ otherwise are a [ValueError]. *)
Fixpoint zip_with {A B C} (f : A -> B -> Result C) (la : list A) (lb : list B)
  : Result (list C) :=
  match la, lb with
  | x :: la', y :: lb' =>
      z <- f x y ;; zs <- zip_with f la' lb' ;; Ok (z :: zs)
  | _, _ => Ok []
  end.

Fixpoint map_result {A C} (f : A -> Result C) (la : list A) : Result (list C) :=
  match la with
  | [] => Ok []
  | x :: la' => z <- f x ;; zs <- map_result f la' ;; Ok (z :: zs)
  end.

(** One axis: equal sides pair up, a side of 1 is stretched. *)
Definition bzip {A B C} (f : A -> B -> Result C) (la : list A) (lb : list B)
  : Result (list C) :=
  if (length la =? length lb)%nat then zip_with f la lb
  else match la, lb with
       | [x], _ => map_result (fun y => f x y) lb
       | _, [y] => map_result (fun x => f x y) la
       | _, _ => Raise ValueError
       end.

Definition bcast1 (f : float -> float -> float) : ten1 -> ten1 -> Result ten1 :=
  bzip (fun x y => Ok (f x y)).
Definition bcast2 (f : float -> float -> float) : ten2 -> ten2 -> Result ten2 :=
  bzip (bcast1 f).
Definition bcast3 (f : float -> float -> float) : ten3 -> ten3 -> Result ten3 :=
  bzip (bcast2 f).
Definition bcast4 (f : float -> float -> float) : ten4 -> ten4 -> Result ten4 :=
  bzip (bcast3 f).

(** The rank-4 view of a tensor (axes of side 1 in front), and back. *)
Definition promote (t : tensor) : ten4 :=
  match t with
  | T0 x => [[[[x]]]]
  | T1 a => [[[a]]]
  | T2 a => [[a]]
  | T3 a => [a]
  | T4 a => a
  end.

Definition demote (r : nat) (a : ten4) : tensor :=
  match r with
  | 0%nat => T0 (hd 0%float (hd [] (hd [] (hd [] a))))
  | 1%nat => T1 (hd [] (hd [] (hd [] a)))
  | 2%nat => T2 (hd [] (hd [] a))
  | 3%nat => T3 (hd [] a)
  | _ => T4 a
  end.

(** An elementwise binary operation with broadcasting ([a + b], [a * b], ...). *)
Definition tbin (f : float -> float -> float) (a b : tensor) : Result tensor :=
  r <- bcast4 f (promote a) (promote b) ;;
  Ok (demote (Nat.max (rank a) (rank b)) r).

Definition tadd := tbin PrimFloat.add.
Definition tsub := tbin PrimFloat.sub.
Definition tmul := tbin PrimFloat.mul.
Definition tdiv := tbin PrimFloat.div.

(** ** Reductions *)

(** [np.sum] of a run of entries: the first entry, then one addition per
    further entry; 0 for an empty run.  numpy adds a long contiguous run in
    blocks, in an order of its own; the result is the same float whenever
    no addition rounds. *)
Definition vsum (l : list float) : float :=
  match l with
  | [] => 0%float
  | x :: t => fold_left PrimFloat.add t x
  end.

(** The larger of two entries, a NaN winning.  Between a zero and a zero of
    the other sign, which compare equal, the first is kept; which one
    numpy keeps depends on the loop it runs. *)
Definition np_max_pair (a b : float) : float :=
  if PrimFloat.leb b a || PrimFloat.is_nan a then a else b.

(** [np.max] of a run of entries ([ValueError] on an empty one). *)
Definition vmax (l : list float) : Result float :=
  match l with
  | [] => Raise ValueError
  | x :: t => Ok (fold_left np_max_pair t x)
  end.

Definition float_of_nat (n : nat) : float :=
  PrimFloat.of_uint63 (Uint63.of_Z (Z.of_nat n)).

(** Columns of a matrix (rows of its transpose), as wide as the first row. *)
Definition columns {A} (d : A) (m : list (list A)) : list (list A) :=
  map (fun c => map (fun row => nth c row d) m) (seq 0 (length (hd [] m))).

(** [a.T] of a 2-D array. *)
Definition transpose2 (m : ten2) : ten2 := columns 0%float m.

(** [np.sum(t, axis=0)] *)
Definition sum_axis0 (t : tensor) : Result tensor :=
  match t with
  | T0 _ => Raise ValueError
  | T1 a => Ok (T0 (vsum a))
  | T2 a => Ok (T1 (map vsum (columns 0%float a)))
  | T3 a => Ok (T2 (map (fun rows => map vsum (columns 0%float rows)) (columns [] a)))
  | T4 a =>
      Ok (T3 (map (fun planes =>
                     map (fun rows => map vsum (columns 0%float rows)) (columns [] planes))
                  (columns [] a)))
  end.

(** [t.shape[0]] *)
Definition shape0 (t : tensor) : Result nat :=
  match t with
  | T0 _ => Raise IndexError
  | T1 a => Ok (length a)
  | T2 a => Ok (length a)
  | T3 a => Ok (length a)
  | T4 a => Ok (length a)
  end.

(** [np.mean(t, axis=0)]: the sum divided by the count. *)
Definition mean_axis0 (t : tensor) : Result tensor :=
  s <- sum_axis0 t ;;
  n <- shape0 t ;;
  tdiv s (T0 (float_of_nat n)).

(** [np.var(t, axis=0)]: the mean of the squared deviations. *)
Definition var_axis0 (t : tensor) : Result tensor :=
  m <- mean_axis0 t ;;
  d <- tsub t m ;;
  sq <- tmul d d ;;
  mean_axis0 sq.

(** [np.sum(t, axis=1, keepdims=True)] and [np.max(t, axis=1, keepdims=True)]
    of a 2-D or 3-D array. *)
Definition sum_axis1_keep (t : tensor) : Result tensor :=
  match t with
  | T2 a => Ok (T2 (map (fun row => [vsum row]) a))
  | T3 a => Ok (T3 (map (fun rows => [map vsum (columns 0%float rows)]) a))
  | _ => Raise ValueError
  end.

Definition max_axis1_keep (t : tensor) : Result tensor :=
  match t with
  | T2 a => r <- map_result (fun row => m <- vmax row ;; Ok [m]) a ;; Ok (T2 r)
  | T3 a =>
      r <- map_result (fun rows =>
                         match rows with
                         | [] => Raise ValueError
                         | _ => m <- map_result vmax (columns 0%float rows) ;; Ok [m]
                         end) a ;;
      Ok (T3 r)
  | _ => Raise ValueError
  end.

(** The entries of channel [c] of a 4-D array, over batch, rows and columns. *)
Definition channel (a : ten4) (c : nat) : list float :=
  flat_map (fun img => concat (nth c img [])) a.

(** [np.sum(t, axis=(0, 2, 3))] of a 4-D array, one entry per channel. *)
Definition sum_axis023 (t : tensor) : Result ten1 :=
  match t with
  | T4 a => Ok (map (fun c => vsum (channel a c)) (seq 0 (length (hd [] a))))
  | _ => Raise ValueError
  end.

(** [np.mean(t, axis=(0, 2, 3))], the sum taken as [vsum] takes it. *)
Definition mean_axis023 (t : tensor) : Result ten1 :=
  match t with
  | T4 a =>
      Ok (map (fun c => let e := channel a c in
                        PrimFloat.div (vsum e) (float_of_nat (length e)))
              (seq 0 (length (hd [] a))))
  | _ => Raise ValueError
  end.

(** A per-channel vector as a [(1, C, 1, 1)] array: [keepdims=True] of the
    reductions above and [v.reshape(1, C, 1, 1)]. *)
Definition per_channel (v : ten1) : tensor := T4 [map (fun x => [[x]]) v].

(** [np.var(t, axis=(0, 2, 3), keepdims=True)] *)
Definition var_axis023_keep (t : tensor) : Result tensor :=
  m <- mean_axis023 t ;;
  d <- tsub t (per_channel m) ;;
  sq <- tmul d d ;;
  v <- mean_axis023 sq ;;
  Ok (per_channel v).

(** [t.ravel()]: the entries in row-major order. *)
Definition ravel (t : tensor) : ten1 :=
  match t with
  | T0 x => [x]
  | T1 a => a
  | T2 a => concat a
  | T3 a => concat (map (@concat float) a)
  | T4 a => concat (map (fun img => concat (map (@concat float) img)) a)
  end.

(** Whether every entry passes a test. *)
Definition all_entries (p : float -> bool) (t : tensor) : bool := forallb p (ravel t).

(** [t.reshape(1, C, 1, 1)]: any array with [C] entries. *)
Definition reshape_1C11 (C : Z) (t : tensor) : Result tensor :=
  let v := ravel t in
  if (Z.of_nat (length v) =? C)%Z then Ok (per_channel v) else Raise ValueError.

(** [t.squeeze(-1)] and [t[..., np.newaxis]]. *)
Definition squeeze_last (t : tensor) : Result tensor :=
  let one {A} (row : list A) (d : A) : Result A :=
    match row with [x] => Ok x | _ => Raise ValueError end in
  match t with
  | T0 _ => Raise ValueError
  | T1 a => x <- one a 0%float ;; Ok (T0 x)
  | T2 a => r <- map_result (fun row => one row 0%float) a ;; Ok (T1 r)
  | T3 a => r <- map_result (map_result (fun row => one row 0%float)) a ;; Ok (T2 r)
  | T4 a =>
      r <- map_result (map_result (map_result (fun row => one row 0%float))) a ;;
      Ok (T3 r)
  end.

Definition newaxis_last (t : tensor) : Result tensor :=
  match t with
  | T0 x => Ok (T1 [x])
  | T1 a => Ok (T2 (map (fun x => [x]) a))
  | T2 a => Ok (T3 (map (map (fun x => [x])) a))
  | T3 a => Ok (T4 (map (map (map (fun x => [x]))) a))
  | T4 _ => Raise ValueError
  end.

(** [a.dot(b)] and [a @ b] of two 2-D arrays, every entry a sum of
    products taken left to right (other ranks are left out and answer
    [ValueError]).  The BLAS routine behind numpy adds the products in an
    order of its own, so an entry can differ in the last place; the shape
    and the [ValueError] do not depend on it. *)
Definition dot_row (u v : ten1) : float :=
  vsum (map (fun '(x, y) => PrimFloat.mul x y) (combine u v)).

Definition dot (a b : tensor) : Result tensor :=
  match a, b with
  | T2 x, T2 y =>
      if (length (hd [] x) =? length y)%nat
      then Ok (T2 (map (fun row => map (dot_row row) (transpose2 y)) x))
      else Raise ValueError
  | _, _ => Raise ValueError
  end.

(** [t.T] *)
Definition transpose (t : tensor) : tensor :=
  match t with
  | T2 a => T2 (transpose2 a)
  | _ => t
  end.

(** [np.zeros_like(t)] *)
Definition zeros_like (t : tensor) : tensor := tmap (fun _ => 0%float) t.
Definition ones_like (t : tensor) : tensor := tmap (fun _ => 1%float) t.

(** ** Reshaping

    numpy takes a negative side as the one to infer, allows one of them,
    and wants the sides to multiply to the number of entries; everything
    else is a [ValueError]. *)
Definition fix_unknown_dimension (dims : list Z) (size : nat) : Result (list nat) :=
  let known := fold_left Z.mul (List.filter (fun d => 0 <=? d) dims) 1 in
  match length (List.filter (fun d => d <? 0) dims) with
  | O =>
      if known =? Z.of_nat size then Ok (map Z.to_nat dims) else Raise ValueError
  | 1%nat =>
      if (known =? 0) || negb (Z.of_nat size mod known =? 0) then Raise ValueError
      else Ok (map (fun d => Z.to_nat (if d <? 0 then Z.of_nat size / known else d)) dims)
  | _ => Raise ValueError
  end.

(** The arrays of a given shape over a row-major run of entries. *)
Definition build2 (d0 d1 : nat) (flat : ten1) : ten2 :=
  Patch.tab d0 (fun a => Patch.chunk d1 a flat).
Definition build3 (d0 d1 d2 : nat) (flat : ten1) : ten3 :=
  Patch.tab d0 (fun a => Patch.tab d1 (fun b => Patch.chunk d2 (a * d1 + b) flat)).
Definition build4 (d0 d1 d2 d3 : nat) (flat : ten1) : ten4 :=
  Patch.tab d0 (fun a => Patch.tab d1 (fun b => Patch.tab d2 (fun c =>
    Patch.chunk d3 ((a * d1 + b) * d2 + c) flat))).

(** [t.reshape(d0, d1)], [t.reshape(d0, d1, d2)] and [t.reshape(d0, d1, d2, d3)]. *)
Definition reshape2 (d0 d1 : Z) (t : tensor) : Result tensor :=
  shape <- fix_unknown_dimension [d0; d1] (length (ravel t)) ;;
  match shape with
  | [a; b] => Ok (T2 (build2 a b (ravel t)))
  | _ => Raise ValueError
  end.

Definition reshape3 (d0 d1 d2 : Z) (t : tensor) : Result tensor :=
  shape <- fix_unknown_dimension [d0; d1; d2] (length (ravel t)) ;;
  match shape with
  | [a; b; c] => Ok (T3 (build3 a b c (ravel t)))
  | _ => Raise ValueError
  end.

Definition reshape4 (d0 d1 d2 d3 : Z) (t : tensor) : Result tensor :=
  shape <- fix_unknown_dimension [d0; d1; d2; d3] (length (ravel t)) ;;
  match shape with
  | [a; b; c; d] => Ok (T4 (build4 a b c d (ravel t)))
  | _ => Raise ValueError
  end.

(** [t.transpose(3, 0, 1, 2)] of a 4-D array: entry [[n][f][h][w]] of the
    result is [t[f][h][w][n]]. *)
Definition transpose_3012 (a : ten4) : ten4 :=
  let d0 := length a in
  let d1 := length (hd [] a) in
  let d2 := length (hd [] (hd [] a)) in
  let d3 := length (hd [] (hd [] (hd [] a))) in
  Patch.tab d3 (fun n => Patch.tab d0 (fun f => Patch.tab d1 (fun h => Patch.tab d2 (fun w =>
    nth n (nth w (nth h (nth f a []) []) []) 0%float)))).

End Tensor.

(* ================================================================== *)
(** * The layers *)
(* ================================================================== *)

Import Tensor.

(** [np.exp] and [**] on float64 are the C library's; primitive floats have
    neither, so the layers that use them take them as given. *)
Class Exp : Type := { np_exp : float -> float }.
Class Power : Type := { np_power : float -> float -> float }.

(** [np.maximum(x1, x2)], which lets a NaN in [x1] through. *)
Definition np_maximum := tbin np_max_pair.

(** [np.sqrt] *)
Definition np_sqrt := tmap PrimFloat.sqrt.

(** [a.shape] *)
Definition shape (t : tensor) : list nat :=
  match t with
  | T0 _ => []
  | T1 a => [length a]
  | T2 a => [length a; length (hd [] a)]
  | T3 a => [length a; length (hd [] a); length (hd [] (hd [] a))]
  | T4 a => [length a; length (hd [] a); length (hd [] (hd [] a));
             length (hd [] (hd [] (hd [] a)))]
  end.

Definition same_shape (a b : tensor) : bool :=
  if list_eq_dec Nat.eq_dec (shape a) (shape b) then true else false.

(** [a += b] and [a /= b]: in place, so the result keeps the shape of [a]. *)
Definition in_place (f : float -> float -> float) (a b : tensor) : Result tensor :=
  r <- tbin f a b ;;
  if same_shape r a then Ok r else Raise ValueError.

(** The class [Parameter] (a reserved word here, hence the shorter name). *)
Module Param.

Record t : Type := {
  value : tensor;
  grad : tensor;
  is_bias : bool
}.

(** [Parameter(input_array, is_bias)] *)
Definition new (input_array : tensor) (is_bias : bool) : t :=
  {| value := input_array; grad := zeros_like input_array; is_bias := is_bias |}.

Definition set_grad (p : t) (g : tensor) : t :=
  {| value := value p; grad := g; is_bias := is_bias p |}.

End Param.

(** What a layer computes with when it was never given an input:
    arithmetic on [None] is a [TypeError]. *)
Definition cached (o : option tensor) : Result tensor :=
  match o with
  | Some t => Ok t
  | None => Raise TypeError
  end.

(** Reading an attribute off [None], or an attribute that [__init__] never
    set, is an [AttributeError]. *)
Definition present (o : option tensor) : Result tensor :=
  match o with
  | Some t => Ok t
  | None => Raise AttributeError
  end.

Module Linear.

Record t : Type := {
  in_features : Z;
  out_features : Z;
  weight : Param.t;
  bias : Param.t;
  prev_inp : option tensor
}.

Definition forward (self : t) (inp : tensor) : Result (t * tensor) :=
  (* Store input for backward pass *)
  let self := {| in_features := in_features self; out_features := out_features self;
                 weight := weight self; bias := bias self; prev_inp := Some inp |} in
  (* Compute output *)
  y <- dot inp (transpose (Param.value (weight self))) ;;
  out <- tadd y (Param.value (bias self)) ;;
  Ok (self, out).

Definition backward (self : t) (grad : tensor) : Result (t * tensor) :=
  (* Compute gradients *)
  grad_input <- dot grad (Param.value (weight self)) ;;
  prev <- cached (prev_inp self) ;;
  grad_weight <- dot (transpose grad) prev ;;
  grad_bias <- sum_axis0 grad ;;
  (* Update gradients in Parameter instances *)
  wg <- in_place PrimFloat.add (Param.grad (weight self)) grad_weight ;;
  bg <- in_place PrimFloat.add (Param.grad (bias self)) grad_bias ;;
  Ok ({| in_features := in_features self; out_features := out_features self;
         weight := Param.set_grad (weight self) wg;
         bias := Param.set_grad (bias self) bg;
         prev_inp := prev_inp self |},
      grad_input).

End Linear.

Module SoftmaxLayer.
Section WithMath.
Context {libm : Exp}.

Record t : Type := { last_output : option tensor }.

Definition forward (self : t) (inp : tensor) : Result (t * tensor) :=
  let exps := tmap np_exp inp in
  s <- sum_axis1_keep exps ;;
  out <- tdiv exps s ;;
  Ok ({| last_output := Some out |}, out).

End WithMath.
End SoftmaxLayer.

(** [nn/functional.py] *)
Module Functional.
Section WithMath.
Context {libm : Exp}.

(** [softmax(x, dim=1)], with [dim] left at its default. *)
Definition softmax (x : tensor) : Result tensor :=
  (* Shift input for numerical stability *)
  m <- max_axis1_keep x ;;
  d <- tsub x m ;;
  let e_x := tmap np_exp d in
  s <- sum_axis1_keep e_x ;;
  tdiv e_x s.

End WithMath.
End Functional.

Module ReLU.

Record t : Type := { prev_inp : option tensor }.

Definition forward (self : t) (inp : tensor) : Result (t * tensor) :=
  out <- np_maximum inp (T0 0%float) ;;
  Ok ({| prev_inp := Some inp |}, out).

Definition backward (self : t) (grad : tensor) : Result (t * tensor) :=
  prev <- cached (prev_inp self) ;;
  out <- tmul grad (tmap (fun x => if PrimFloat.leb 0 x then 1 else 0)%float prev) ;;
  Ok (self, out).

End ReLU.

Module Sigmoid.
Section WithMath.
Context {libm : Exp}.

Record t : Type := { prev_inp : option tensor }.

Definition forward (self : t) (inp : tensor) : Result (t * tensor) :=
  let e := tmap np_exp (tmap PrimFloat.opp inp) in
  d <- tadd (T0 1%float) e ;;
  out <- tdiv (T0 1%float) d ;;
  Ok ({| prev_inp := Some inp |}, out).

Definition backward (self : t) (grad : tensor) : Result (t * tensor) :=
  prev <- cached (prev_inp self) ;;
  '(self, sigmoid_output) <- forward self prev ;;
  a <- tmul grad sigmoid_output ;;
  b <- tsub (T0 1%float) sigmoid_output ;;
  out <- tmul a b ;;
  Ok (self, out).

End WithMath.
End Sigmoid.

Module LeakyReLULayer.

Record t : Type := {
  prev_inp : option tensor;
  leak : float
}.

(** [LeakyReLULayer(leak=0.01)] *)
Definition default_leak : float := 0x1.47ae147ae147bp-7%float.
Definition new (leak : float) : t := {| prev_inp := None; leak := leak |}.

Definition forward (self : t) (inp : tensor) : Result (t * tensor) :=
  out <- np_maximum (tmap (PrimFloat.mul (leak self)) inp) inp ;;
  Ok ({| prev_inp := Some inp; leak := leak self |}, out).

(** The two masked assignments rewrite the cached array one after the
    other; the second one reads what the first one wrote. *)
Definition backward (self : t) (grad : tensor) : Result (t * tensor) :=
  prev <- cached (prev_inp self) ;;
  (* self.prev_inp[self.prev_inp < 0] = self.leak *)
  let prev := tmap (fun x => if PrimFloat.ltb x 0 then leak self else x) prev in
  (* self.prev_inp[self.prev_inp >= 0] = 1 *)
  let prev := tmap (fun x => if PrimFloat.leb 0 x then 1%float else x) prev in
  out <- tmul grad prev ;;
  Ok ({| prev_inp := Some prev; leak := leak self |}, out).

End LeakyReLULayer.

Module DropoutLayer.

Record t : Type := {
  dropout_rate : float;
  filter : option tensor;
  if_train : bool
}.

(** [DropoutLayer(dropout_rate=0.3)] *)
Definition new (dropout_rate : float) : t :=
  {| dropout_rate := dropout_rate; filter := None; if_train := true |}.

(** [np.random.binomial(n=1, p=p, size=inp.shape)] rejects a [p] outside
    [0, 1]; the array it draws, of 0s and 1s in the shape of [inp], is the
    argument [draw]. *)
Definition binomial_ok (p : float) : bool :=
  PrimFloat.leb 0 p && PrimFloat.leb p 1.

Definition forward (self : t) (inp : tensor) (train : bool) (draw : tensor)
  : Result (t * tensor) :=
  if train then
    (* Generate a binary mask with dropout probability *)
    _ <- guard (binomial_ok (1 - dropout_rate self)%float) ValueError ;;
    out <- tmul inp draw ;;
    Ok ({| dropout_rate := dropout_rate self; filter := Some draw; if_train := train |},
        out)
  else
    Ok ({| dropout_rate := dropout_rate self; filter := filter self; if_train := train |},
        inp).

Definition backward (self : t) (grad : tensor) : Result (t * tensor) :=
  if if_train self then
    f <- cached (filter self) ;;
    out <- tmul grad f ;;
    Ok (self, out)
  else Ok (self, grad).

End DropoutLayer.

Module BatchNormLayer.
Section WithMath.
Context {libp : Power}.

Record t : Type := {
  eps : float;
  momentum : float;
  n_features : Z;
  if_train : bool;
  (* Learnable parameters for scaling and shifting *)
  gamma : Param.t;
  beta : Param.t;
  (* Variables to track running statistics during training *)
  running_mean : tensor;
  running_var : tensor;
  out_ : option tensor;
  prev_inp : option tensor;
  sample_mean : option tensor;
  sample_var : option tensor
}.

Definition forward (self : t) (inp : tensor) (train : bool) : Result (t * tensor) :=
  inp <- squeeze_last inp ;;
  if train then
    (* Compute sample mean and variance *)
    sample_mean <- mean_axis0 inp ;;
    sample_var <- var_axis0 inp ;;
    (* Normalize the input using batch statistics *)
    centred <- tsub inp sample_mean ;;
    shifted <- tadd sample_var (T0 (eps self)) ;;
    out_ <- tdiv centred (np_sqrt shifted) ;;
    (* Update running statistics using momentum *)
    m1 <- tmul (T0 (momentum self)) (running_mean self) ;;
    m2 <- tmul (T0 (1 - momentum self)%float) sample_mean ;;
    running_mean <- tadd m1 m2 ;;
    v1 <- tmul (T0 (momentum self)) (running_var self) ;;
    v2 <- tmul (T0 (1 - momentum self)%float) sample_var ;;
    running_var <- tadd v1 v2 ;;
    (* Scale and shift the normalized output *)
    scaled <- tmul (Param.value (gamma self)) out_ ;;
    out <- tadd scaled (Param.value (beta self)) ;;
    out <- newaxis_last out ;;
    Ok ({| eps := eps self; momentum := momentum self; n_features := n_features self;
           if_train := if_train self; gamma := gamma self; beta := beta self;
           running_mean := running_mean; running_var := running_var;
           out_ := Some out_; prev_inp := Some inp;
           sample_mean := Some sample_mean; sample_var := Some sample_var |},
        out)
  else
    (* During inference, use running statistics to normalize the input *)
    shifted <- tadd (running_var self) (T0 (eps self)) ;;
    scale <- tdiv (Param.value (gamma self)) (np_sqrt shifted) ;;
    a <- tmul inp scale ;;
    b <- tmul (running_mean self) scale ;;
    c <- tsub (Param.value (beta self)) b ;;
    out <- tadd a c ;;
    out <- newaxis_last out ;;
    Ok ({| eps := eps self; momentum := momentum self; n_features := n_features self;
           if_train := if_train self; gamma := gamma self; beta := beta self;
           running_mean := running_mean self; running_var := running_var self;
           out_ := out_ self; prev_inp := Some inp;
           sample_mean := sample_mean self; sample_var := sample_var self |},
        out).

Definition backward (self : t) (grad : tensor) : Result (t * tensor) :=
  grad <- squeeze_last grad ;;
  prev <- present (prev_inp self) ;;
  N <- shape0 prev ;;
  let N := T0 (float_of_nat N) in
  dout_ <- tmul (Param.value (gamma self)) grad ;;
  (* Compute gradients for backpropagation *)
  s_mean <- cached (sample_mean self) ;;
  centred <- tsub prev s_mean ;;
  d1 <- tmul dout_ centred ;;
  d2 <- tmul d1 (T0 (-0.5)%float) ;;
  s_var <- cached (sample_var self) ;;
  shifted <- tadd s_var (T0 (eps self)) ;;
  d3 <- tmul d2 (tmap (fun v => np_power v (-1.5)%float) shifted) ;;
  dvar <- sum_axis0 d3 ;;
  dx_ <- tdiv (T0 1%float) (np_sqrt shifted) ;;
  twice <- tmul (T0 2%float) centred ;;
  dvar_ <- tdiv twice N ;;
  t1 <- tmul dout_ dx_ ;;
  t2 <- tmul dvar dvar_ ;;
  di <- tadd t1 t2 ;;
  sdi <- sum_axis0 di ;;
  dmean <- tmul (T0 (-1)%float) sdi ;;
  dmean_ <- tdiv (ones_like prev) N ;;
  t3 <- tmul dmean dmean_ ;;
  dx <- tadd di t3 ;;
  normed <- cached (out_ self) ;;
  g1 <- tmul grad normed ;;
  gamma_grad <- sum_axis0 g1 ;;
  beta_grad <- sum_axis0 grad ;;
  out <- newaxis_last dx ;;
  (* self.gamma.grad = ...; self.beta.grad = ... *)
  Ok ({| eps := eps self; momentum := momentum self; n_features := n_features self;
         if_train := if_train self;
         gamma := Param.set_grad (gamma self) gamma_grad;
         beta := Param.set_grad (beta self) beta_grad;
         running_mean := running_mean self; running_var := running_var self;
         out_ := out_ self; prev_inp := prev_inp self;
         sample_mean := sample_mean self; sample_var := sample_var self |},
      out).

End WithMath.
End BatchNormLayer.

Module BatchNorm2d.

Record t : Type := {
  eps : float;
  momentum : float;
  num_features : Z;
  (* Learnable parameters for scaling and shifting *)
  gamma : Param.t;
  beta : Param.t;
  (* Variables to track running statistics during training *)
  running_mean : tensor;
  running_var : tensor;
  (* set by forward; no such attribute ([None] here) before its first call *)
  sample_mean : option tensor;
  sample_var : option tensor;
  out_ : option tensor
}.

(** [BatchNorm2d(num_features, eps=1e-5, momentum=0.9)] *)
Definition new (num_features : Z) (eps momentum : float) : t :=
  let n := Z.to_nat num_features in
  {| eps := eps; momentum := momentum; num_features := num_features;
     gamma := Param.new (T1 (repeat 1%float n)) false;
     beta := Param.new (T1 (repeat 0%float n)) false;
     running_mean := T1 (repeat 0%float n);
     running_var := T1 (repeat 1%float n);
     sample_mean := None; sample_var := None; out_ := None |}.

Definition forward (self : t) (inp : tensor) (train : bool) : Result (t * tensor) :=
  '(sample_mean, sample_var, running_mean, running_var) <-
     (if train then
        m <- mean_axis023 inp ;;
        let sample_mean := per_channel m in
        sample_var <- var_axis023_keep inp ;;
        (* Update running statistics *)
        m1 <- tmul (T0 (momentum self)) (running_mean self) ;;
        m2 <- tmul (T0 (1 - momentum self)%float) sample_mean ;;
        running_mean <- tadd m1 m2 ;;
        v1 <- tmul (T0 (momentum self)) (running_var self) ;;
        v2 <- tmul (T0 (1 - momentum self)%float) sample_var ;;
        running_var <- tadd v1 v2 ;;
        Ok (sample_mean, sample_var, running_mean, running_var)
      else
        Ok (running_mean self, running_var self, running_mean self, running_var self)) ;;
  (* Normalize *)
  centred <- tsub inp sample_mean ;;
  shifted <- tadd sample_var (T0 (eps self)) ;;
  out_ <- tdiv centred (np_sqrt shifted) ;;
  (* Reshape gamma and beta to be broadcastable across N, H, W dimensions *)
  gamma_reshaped <- reshape_1C11 (num_features self) (Param.value (gamma self)) ;;
  beta_reshaped <- reshape_1C11 (num_features self) (Param.value (beta self)) ;;
  scaled <- tmul gamma_reshaped out_ ;;
  out <- tadd scaled beta_reshaped ;;
  Ok ({| eps := eps self; momentum := momentum self; num_features := num_features self;
         gamma := gamma self; beta := beta self;
         running_mean := running_mean; running_var := running_var;
         sample_mean := Some sample_mean; sample_var := Some sample_var;
         out_ := Some out_ |},
      out).

Definition backward (self : t) (grad : tensor) : Result (t * tensor) :=
  C <- match grad with
       | T4 a => Ok (Z.of_nat (length (hd [] a)))
       | _ => Raise ValueError
       end ;;
  (* Gradient w.r.t. the normalized input *)
  normed <- present (out_ self) ;;
  g1 <- tmul grad normed ;;
  grad_gamma <- sum_axis023 g1 ;;
  grad_beta <- sum_axis023 grad ;;
  (* Gradient w.r.t. input *)
  gamma_reshaped <- reshape_1C11 C (Param.value (gamma self)) ;;
  g2 <- tmul grad gamma_reshaped ;;
  s_var <- present (sample_var self) ;;
  shifted <- tadd s_var (T0 (eps self)) ;;
  grad_out <- tdiv g2 (np_sqrt shifted) ;;
  (* Sum gradients over all but the channel dimension *)
  m1 <- mean_axis023 grad_out ;;
  let mean_grad_out := per_channel m1 in
  g3 <- tmul grad_out normed ;;
  m2 <- mean_axis023 g3 ;;
  let mean_grad_out_inp := per_channel m2 in
  (* Final gradient w.r.t. the input *)
  d1 <- tsub grad_out mean_grad_out ;;
  d2 <- tmul normed mean_grad_out_inp ;;
  dx <- tsub d1 d2 ;;
  dx <- in_place PrimFloat.div dx (np_sqrt shifted) ;;
  (* self.gamma.grad = grad_gamma; self.beta.grad = grad_beta *)
  Ok ({| eps := eps self; momentum := momentum self; num_features := num_features self;
         gamma := Param.set_grad (gamma self) (T1 grad_gamma);
         beta := Param.set_grad (beta self) (T1 grad_beta);
         running_mean := running_mean self; running_var := running_var self;
         sample_mean := sample_mean self; sample_var := sample_var self;
         out_ := out_ self |},
      dx).

End BatchNorm2d.

(** ** The class hierarchy of [nn/modules.py]

    [isinstance] follows the base classes; [UserModule] stands for a class a
    caller derives directly from [Module] without overriding [state_dict]
    or [load_state_dict], with the further methods its body defines. *)
Inductive pyclass : Type :=
| Parameter_cls
| ModuleList_cls
| Module_cls
| Linear_cls
| SoftmaxLayer_cls
| ReLU_cls
| Sigmoid_cls
| LeakyReLULayer_cls
| Sequential_cls
| SoftmaxRegression_cls
| DropoutLayer_cls
| Conv2d_cls
| ConvTranspose2d_cls
| BatchNormLayer_cls
| BatchNorm2d_cls
| Flatten_cls
| Unflatten_cls
| MaxPool2d_cls
| AdaptiveAvgPool2d_cls
| UserModule (name : String.string) (methods : list String.string).

Definition pyclass_eq_dec (a b : pyclass) : {a = b} + {a <> b}.
Proof.
  decide equality;
    [apply (list_eq_dec String.string_dec) | apply String.string_dec].
Defined.

(** The base classes of a class, nearest first. *)
Definition bases (c : pyclass) : list pyclass :=
  match c with
  | Parameter_cls | ModuleList_cls | Module_cls => []
  | SoftmaxRegression_cls => [Sequential_cls; Module_cls]
  | _ => [Module_cls]
  end.

Definition issubclass (c target : pyclass) : bool :=
  if in_dec pyclass_eq_dec target (c :: bases c) then true else false.

Module Conv2d.

Record t : Type := {
  in_channels : Z;
  out_channels : Z;
  kernel_size : Z * Z;
  stride : Z;
  padding : Z;
  weight : Param.t;
  bias : Param.t
}.

(** [Conv2d(in_channels, out_channels, kernel_size, stride, padding)], with
    the random initial weight and bias as arguments. *)
Definition new (in_channels out_channels : Z) (kernel_size : int_or_pair)
    (stride padding : Z) (weight bias : tensor) : t :=
  {| in_channels := in_channels; out_channels := out_channels;
     kernel_size := as_pair kernel_size; stride := stride; padding := padding;
     weight := Param.new weight false; bias := Param.new bias false |}.

Definition forward (self : t) (inp : tensor) : Result (t * tensor) :=
  wv <- match Param.value (weight self) with T4 a => Ok a | _ => Raise ValueError end ;;
  let '(n_filters, d_filter, h_filter, w_filter) := Patch.shape4 wv in
  x <- match inp with T4 a => Ok a | _ => Raise ValueError end ;;
  let '(n_x, d_x, h_x, w_x) := Patch.shape4 x in
  qh <- floordiv (h_x - h_filter + 2 * padding self) (stride self) ;;
  let h_out := qh + 1 in
  qw <- floordiv (w_x - w_filter + 2 * padding self) (stride self) ;;
  let w_out := qw + 1 in
  (* Transform the input image into column shape *)
  x_col <- Patch.im2col_indices x h_filter w_filter
             (AnInt (padding self)) (AnInt (stride self)) ;;
  (* Reshape and permute the weights into a 2D array *)
  wr <- reshape2 n_filters (-1) (Param.value (weight self)) ;;
  let w_col := transpose wr in
  (* Perform matrix multiplication between the reshaped weights and the image columns *)
  prod <- dot (transpose w_col) (T2 x_col) ;;
  b <- reshape2 (-1) 1 (Param.value (bias self)) ;;
  out <- tadd prod b ;;
  (* Reshape the output into a suitable shape *)
  out <- reshape4 n_filters h_out w_out n_x out ;;
  match out with
  | T4 a => Ok (self, T4 (transpose_3012 a))
  | _ => Raise ValueError
  end.

(** [raise NotImplementedError] is the first statement; nothing after it runs. *)
Definition backward (self : t) (dout : tensor) : Result (t * tensor) :=
  Raise NotImplementedError.

End Conv2d.

Module ConvTranspose2d.

Record t : Type := {
  in_channels : Z;
  out_channels : Z;
  kernel_size : Z * Z;
  stride : Z * Z;
  padding : Z * Z;
  output_padding : Z * Z;
  weight : Param.t;
  bias : Param.t
}.

(** [ConvTranspose2d(in_channels, out_channels, kernel_size, stride, padding,
    output_padding)], with the random initial weight and bias as arguments. *)
Definition new (in_channels out_channels : Z)
    (kernel_size stride padding output_padding : int_or_pair)
    (weight bias : tensor) : t :=
  {| in_channels := in_channels; out_channels := out_channels;
     kernel_size := as_pair kernel_size; stride := as_pair stride;
     padding := as_pair padding; output_padding := as_pair output_padding;
     weight := Param.new weight false; bias := Param.new bias false |}.

Definition forward (self : t) (inp : tensor) : Result (t * tensor) :=
  x <- match inp with T4 a => Ok a | _ => Raise ValueError end ;;
  wv <- match Param.value (weight self) with T4 a => Ok a | _ => Raise IndexError end ;;
  let '(n, c, h, w) := Patch.shape4 x in
  let '(_, _, w2, w3) := Patch.shape4 wv in
  let '(d_w, d_h) := (w2, w3) in
  let out_h := (h - 1) * fst (stride self) - 2 * fst (padding self) + d_h
               + fst (output_padding self) in
  let out_w := (w - 1) * snd (stride self) - 2 * snd (padding self) + d_w
               + snd (output_padding self) in
  (* We need to col2im back to output dimensions *)
  inp_reshaped <- Patch.np_reshape2 c
                    (concat (map (@Patch.ravel3 float) (columns [] x))) ;;
  wr <- Patch.np_reshape2 (in_channels self) (concat (map (@Patch.ravel3 float) wv)) ;;
  let weights_reshaped := transpose2 wr in
  out_cols <- dot (T2 weights_reshaped) (T2 inp_reshaped) ;;
  out_cols <- match out_cols with T2 a => Ok a | _ => Raise ValueError end ;;
  out <- Patch.col2im_indices out_cols (n, out_channels self, out_h, out_w) d_h d_w
           (padding self) (stride self) ;;
  b <- reshape_1C11 (out_channels self) (Param.value (bias self)) ;;
  out <- in_place PrimFloat.add (T4 out) b ;;
  Ok (self, out).

Definition backward (self : t) (dout : tensor) : Result (t * tensor) :=
  Raise NotImplementedError.

End ConvTranspose2d.

Module MaxPool2d.

Record t : Type := {
  stride : Z;
  kernel_size : Z
}.

(** [MaxPool2d(kernel_size, stride=None)] *)
Definition new (kernel_size : Z) (stride : option Z) : t :=
  match stride with
  | None => {| stride := kernel_size; kernel_size := kernel_size |}
  | Some s => {| stride := s; kernel_size := kernel_size |}
  end.

(** [inp[n, c, h_start:h_end, w_start:w_end]] of one plane, flattened. *)
Definition window (plane : ten2) (h_start h_end w_start w_end : Z) : ten1 :=
  concat (map (slice w_start w_end) (slice h_start h_end plane)).

Definition forward (self : t) (inp : tensor) : Result (t * tensor) :=
  (* inp shape: (N, C, H, W) *)
  x <- match inp with T4 a => Ok a | _ => Raise ValueError end ;;
  let '(N, C, H, W) := Patch.shape4 x in
  (* Output dimensions *)
  qh <- floordiv (H - kernel_size self) (stride self) ;;
  let out_height := qh + 1 in
  qw <- floordiv (W - kernel_size self) (stride self) ;;
  let out_width := qw + 1 in
  (* Initialize the output tensor *)
  _ <- (Patch.np_zeros4 N C out_height out_width : Result ten4) ;;
  out <- map_result (fun img =>
           map_result (fun plane =>
             map_result (fun i =>
               map_result (fun j =>
                 let h_start := i * stride self in
                 let h_end := h_start + kernel_size self in
                 let w_start := j * stride self in
                 let w_end := w_start + kernel_size self in
                 (* Apply the max pooling operation *)
                 vmax (window plane h_start h_end w_start w_end))
               (Patch.np_arange out_width))
             (Patch.np_arange out_height))
           img) x ;;
  Ok (self, T4 out).

Definition backward (self : t) (grad : tensor) : Result (t * tensor) :=
  Raise NotImplementedError.

End MaxPool2d.

Module AdaptiveAvgPool2d.

Record t : Type := { output_size : Z * Z }.

Definition backward (self : t) (grad : tensor) : Result (t * tensor) :=
  Raise NotImplementedError.

End AdaptiveAvgPool2d.

Module Flatten.

(** The four attributes are [None] until the first [forward]. *)
Record t : Type := {
  out_d : option Z;
  out_h : option Z;
  out_channels : option Z;
  batch : option Z
}.

Definition new : t :=
  {| out_d := None; out_h := None; out_channels := None; batch := None |}.

Definition forward (self : t) (inp : tensor) : Result (t * tensor) :=
  (* (batch, out_channels, out_h, out_d) -> (batch, num_features, 1) *)
  x <- match inp with T4 a => Ok a | _ => Raise ValueError end ;;
  let '(b, c, h, d) := Patch.shape4 x in
  let self := {| out_d := Some d; out_h := Some h; out_channels := Some c;
                 batch := Some b |} in
  out <- reshape3 b (-1) 1 inp ;;
  Ok (self, out).

(** A side that is still [None] is a [TypeError] of [reshape]. *)
Definition backward (self : t) (grad : tensor) : Result (t * tensor) :=
  (* (batch, num_features, 1) -> (batch, out_channels, out_h, out_d) *)
  match batch self, out_channels self, out_h self, out_d self with
  | Some b, Some c, Some h, Some d =>
      out <- reshape4 b c h d grad ;;
      Ok (self, out)
  | _, _, _, _ => Raise TypeError
  end.

End Flatten.

Module Sequential.
Section WithMath.
Context {libm : Exp} {libp : Power}.

(** The layers a [Sequential] threads its input through.  [L_Other] is a
    layer of any other [Module] class, given by its [forward] as a function
    of the input: a layer that draws, or that keeps a mode of its own as a
    nested [Sequential] does, is not of this kind. *)
Inductive Layer : Type :=
| L_Linear (m : Linear.t)
| L_SoftmaxLayer (m : SoftmaxLayer.t)
| L_ReLU (m : ReLU.t)
| L_Sigmoid (m : Sigmoid.t)
| L_LeakyReLULayer (m : LeakyReLULayer.t)
| L_DropoutLayer (m : DropoutLayer.t)
| L_BatchNormLayer (m : BatchNormLayer.t)
| L_BatchNorm2d (m : BatchNorm2d.t)
| L_Other (cls : pyclass) (fwd : tensor -> Result tensor).

Definition class_of (l : Layer) : pyclass :=
  match l with
  | L_Linear _ => Linear_cls
  | L_SoftmaxLayer _ => SoftmaxLayer_cls
  | L_ReLU _ => ReLU_cls
  | L_Sigmoid _ => Sigmoid_cls
  | L_LeakyReLULayer _ => LeakyReLULayer_cls
  | L_DropoutLayer _ => DropoutLayer_cls
  | L_BatchNormLayer _ => BatchNormLayer_cls
  | L_BatchNorm2d _ => BatchNorm2d_cls
  | L_Other cls _ => cls
  end.

Definition isinstance (l : Layer) (cls : pyclass) : bool := issubclass (class_of l) cls.

(** A keyword argument [train=...] left out takes the default of the
    signature [forward(self, inp, train=True)]. *)
Definition train_default (kw : option bool) : bool :=
  match kw with
  | Some b => b
  | None => true
  end.

(** A [forward(self, inp)] called with [train=...] is a [TypeError]. *)
Definition no_kwargs {A} (kw : option bool) (c : Result A) : Result A :=
  match kw with
  | Some _ => Raise TypeError
  | None => c
  end.

Definition wrap {M} (c : M -> Layer) (r : Result (M * tensor)) : Result (Layer * tensor) :=
  '(m, out) <- r ;; Ok (c m, out).

(** [Module.__call__]: [layer(inp)] or [layer(inp, train=flag)] is
    [layer.forward] with the same arguments.  [draw] is what
    [np.random.binomial] returns if the layer asks for it. *)
Definition call (l : Layer) (inp : tensor) (train : option bool) (draw : tensor)
  : Result (Layer * tensor) :=
  match l with
  | L_Linear m => no_kwargs train (wrap L_Linear (Linear.forward m inp))
  | L_SoftmaxLayer m => no_kwargs train (wrap L_SoftmaxLayer (SoftmaxLayer.forward m inp))
  | L_ReLU m => no_kwargs train (wrap L_ReLU (ReLU.forward m inp))
  | L_Sigmoid m => no_kwargs train (wrap L_Sigmoid (Sigmoid.forward m inp))
  | L_LeakyReLULayer m =>
      no_kwargs train (wrap L_LeakyReLULayer (LeakyReLULayer.forward m inp))
  | L_DropoutLayer m =>
      wrap L_DropoutLayer (DropoutLayer.forward m inp (train_default train) draw)
  | L_BatchNormLayer m =>
      wrap L_BatchNormLayer (BatchNormLayer.forward m inp (train_default train))
  | L_BatchNorm2d m =>
      wrap L_BatchNorm2d (BatchNorm2d.forward m inp (train_default train))
  | L_Other cls fwd => no_kwargs train (out <- fwd inp ;; Ok (L_Other cls fwd, out))
  end.

Record t : Type := {
  layers : list Layer;
  if_train : bool
}.

(** The constructor, on the list of its arguments. *)
Definition new (args : list Layer) : t := {| layers := args; if_train := true |}.

Definition train (self : t) : t := {| layers := layers self; if_train := true |}.
Definition eval (self : t) : t := {| layers := layers self; if_train := false |}.

(** The keyword arguments [Sequential.forward] calls a layer with. *)
Definition train_kwarg (self : t) (layer : Layer) : option bool :=
  if isinstance layer DropoutLayer_cls || isinstance layer BatchNormLayer_cls
  then Some (if_train self)
  else None.

(** The loop of [Sequential.forward] over the remaining layers; the [k]-th
    layer of the list is handed [draws k]. *)
Fixpoint forward_loop (self : t) (todo : list Layer) (inp : tensor)
    (draws : nat -> tensor) (k : nat) : Result (list Layer * tensor) :=
  match todo with
  | [] => Ok ([], inp)
  | layer :: rest =>
      '(layer, inp) <- call layer inp (train_kwarg self layer) (draws k) ;;
      '(rest, out) <- forward_loop self rest inp draws (S k) ;;
      Ok (layer :: rest, out)
  end.

Definition forward (self : t) (inp : tensor) (draws : nat -> tensor)
  : Result (t * tensor) :=
  '(ls, out) <- forward_loop self (layers self) inp draws 0%nat ;;
  Ok ({| layers := ls; if_train := if_train self |}, out).

End WithMath.
End Sequential.

(* ================================================================== *)
(** * Hierarchical state serialization *)
(* ================================================================== *)

Module Serial.

Import Ascii String.
Local Open Scope string_scope.

(** ** Python objects, as far as reflection looks at them

    An instance is its class and its [__dict__]; the dictionary is kept in
    the order [dir] lists the names (sorted).  Ownership is a tree: no
    object is reachable through two paths. *)
#[warnings="-register-all"]
Inductive pyobj : Type :=
| PNone
| PBool (b : bool)
| PInt (z : Z)
| PFloat (x : float)
| PArray (a : tensor)
| PList (items : list pyobj)
| PInstance (cls : pyclass) (attrs : list (string * pyobj))
(** what [getattr] finds on the class rather than on the instance: a bound
    method, or one of [object]'s attributes *)
| PClassAttr (name : string).

(** An insertion-ordered [dict] with [str] keys. *)
Definition dict := list (string * pyobj).

Fixpoint lookup (k : string) (d : dict) : option pyobj :=
  match d with
  | [] => None
  | (k', v) :: rest => if String.eqb k k' then Some v else lookup k rest
  end.

(** [d[k] = v] *)
Fixpoint dict_set (k : string) (v : pyobj) (d : dict) : dict :=
  match d with
  | [] => [(k, v)]
  | (k', v') :: rest =>
      if String.eqb k k' then (k, v) :: rest else (k', v') :: dict_set k v rest
  end.

(** [obj.__dict__[k] = v], keeping the names sorted. *)
Fixpoint attrs_set (k : string) (v : pyobj) (d : dict) : dict :=
  match d with
  | [] => [(k, v)]
  | (k', v') :: rest =>
      match String.compare k k' with
      | Eq => (k, v) :: rest
      | Lt => (k, v) :: (k', v') :: rest
      | Gt => (k', v') :: attrs_set k v rest
      end
  end.

(** ** Strings *)

(** [s.split('.')]: never empty. *)
Fixpoint split_dot_aux (s : string) (cur : string) : list string :=
  match s with
  | EmptyString => [cur]
  | String c rest =>
      if Ascii.eqb c "."%char then cur :: split_dot_aux rest ""
      else split_dot_aux rest (String.append cur (String c ""))
  end.

Definition split_dot (s : string) : list string := split_dot_aux s "".

(** ['.'.join(parts)] *)
Definition join_dot (parts : list string) : string := String.concat "." parts.

(** [str(i)] of a non-negative [int], as an f-string formats it. *)
Definition str_of_nat (n : nat) : string :=
  DecimalString.NilZero.string_of_uint (Nat.to_uint n).

(** The ASCII characters [int] skips on both sides: blank, and tab to
    carriage return. *)
Definition is_space (c : ascii) : bool :=
  let n := nat_of_ascii c in
  ((n =? 32) || ((9 <=? n) && (n <=? 13)))%nat.

Definition digit_of (c : ascii) : option Z :=
  let n := nat_of_ascii c in
  if ((48 <=? n) && (n <=? 57))%nat then Some (Z.of_nat (n - 48)) else None.

Fixpoint lstrip (s : string) : string :=
  match s with
  | String c rest => if is_space c then lstrip rest else s
  | EmptyString => s
  end.

Fixpoint all_space (s : string) : bool :=
  match s with
  | EmptyString => true
  | String c rest => is_space c && all_space rest
  end.

(** Decimal digits with single underscores between them, then optional
    trailing blanks.  [after_digit] tells whether the previous character
    was a digit. *)
Fixpoint digits (s : string) (acc : Z) (after_digit : bool) : option Z :=
  match s with
  | EmptyString => if after_digit then Some acc else None
  | String c rest =>
      match digit_of c with
      | Some d => digits rest (10 * acc + d) true
      | None =>
          if Ascii.eqb c "_"%char
          then (if after_digit
                then match rest with
                     | String c' _ =>
                         match digit_of c' with
                         | Some _ => digits rest acc false
                         | None => None
                         end
                     | EmptyString => None
                     end
                else None)
          else if after_digit && all_space s then Some acc else None
      end
  end.

Fixpoint count_digits (s : string) : nat :=
  match s with
  | EmptyString => O
  | String c rest =>
      match digit_of c with
      | Some _ => S (count_digits rest)
      | None => count_digits rest
      end
  end.

(** [sys.int_info.default_max_str_digits] *)
Definition max_str_digits : nat := 4300.

(** A [str] of ASCII characters only; the keys are held as their UTF-8
    bytes. *)
Fixpoint ascii_only (s : string) : bool :=
  match s with
  | EmptyString => true
  | String c rest => (nat_of_ascii c <? 128)%nat && ascii_only rest
  end.

(** [int(s)] for an ASCII [str]: blanks around, an optional sign, decimal
    digits (no more than [max_str_digits] of them).  Anything else is a
    [ValueError].  Digits and blanks outside ASCII, which [int] also
    takes, are not in the model. *)
Definition py_int (s : string) : Result Z :=
  let body := lstrip s in
  let '(sign, body) :=
    match body with
    | String c rest =>
        if Ascii.eqb c "-"%char then (-1, rest)
        else if Ascii.eqb c "+"%char then (1, rest)
        else (1, body)
    | EmptyString => (1, body)
    end in
  match digits body 0 false with
  | Some n =>
      if (max_str_digits <? count_digits body)%nat then Raise ValueError
      else Ok (sign * n)
  | None => Raise ValueError
  end.

(** ** Attribute access *)

(** Names every instance inherits from [object] (CPython 3.11 and later). *)
Definition object_names : list string :=
  ["__class__"; "__delattr__"; "__dict__"; "__dir__"; "__doc__"; "__eq__";
   "__format__"; "__ge__"; "__getattribute__"; "__getstate__"; "__gt__";
   "__hash__"; "__init__"; "__init_subclass__"; "__le__"; "__lt__";
   "__module__"; "__ne__"; "__new__"; "__reduce__"; "__reduce_ex__";
   "__repr__"; "__setattr__"; "__sizeof__"; "__str__"; "__subclasshook__";
   "__weakref__"].

(** Names defined in the class bodies of [nn/modules.py]. *)
Definition Module_names : list string :=
  ["__call__"; "backward"; "forward"; "load_state_dict"; "state_dict"; "to"].

Definition class_names (cls : pyclass) : list string :=
  match cls with
  | Parameter_cls => []
  | ModuleList_cls =>
      ["__getitem__"; "__iter__"; "__len__"; "__setitem__"; "append"]
  | Sequential_cls | SoftmaxRegression_cls =>
      ["eval"; "parameters"; "train"] ++ Module_names
  | UserModule _ methods => methods ++ Module_names
  | _ => Module_names
  end.

Definition on_class (cls : pyclass) (name : string) : bool :=
  existsb (String.eqb name) (class_names cls ++ object_names).

(** [getattr(obj, name)] on an instance: the instance dictionary first,
    then the class. *)
Definition getattr (obj : pyobj) (name : string) : Result pyobj :=
  match obj with
  | PInstance cls attrs =>
      match lookup name attrs with
      | Some v => Ok v
      | None => if on_class cls name then Ok (PClassAttr name) else Raise AttributeError
      end
  | _ => Raise AttributeError
  end.

(** [setattr(obj, name, value)] for a name that goes into the dictionary of
    the instance: instances of the classes of this library take any such
    attribute; [None], numbers, arrays, lists and bound methods take none.
    Writing through [__class__] changes the class and not the instance.
    The names [object] keeps for itself ([__class__], [__dict__],
    [__weakref__]) and the attributes of an array that can be assigned
    ([shape], [dtype]) are left out. *)
Definition setattr (obj : pyobj) (name : string) (value : pyobj) : Result pyobj :=
  match obj with
  | PInstance cls attrs => Ok (PInstance cls (attrs_set name value attrs))
  | PClassAttr n => if String.eqb n "__class__" then Ok obj else Raise AttributeError
  | _ => Raise AttributeError
  end.

(** [self.name = value] where [name] was read with [getattr] before: an
    attribute found on the class stays on the class. *)
Definition put_back (self : pyobj) (name : string) (v : pyobj) : pyobj :=
  match self, v with
  | PInstance cls attrs, PClassAttr _ => self
  | PInstance cls attrs, _ => PInstance cls (attrs_set name v attrs)
  | _, _ => self
  end.

Definition class_is (obj : pyobj) (target : pyclass) : bool :=
  match obj with
  | PInstance cls _ => issubclass cls target
  | _ => false
  end.

(** [seq[idx]] on a Python list. *)
Definition list_get (items : list pyobj) (idx : Z) : Result pyobj :=
  if in_bounds (List.length items) idx
  then Ok (nth (norm_index (List.length items) idx) items PNone)
  else Raise IndexError.

Fixpoint list_put (items : list pyobj) (n : nat) (v : pyobj) : list pyobj :=
  match items, n with
  | [], _ => []
  | _ :: rest, O => v :: rest
  | x :: rest, S n' => x :: list_put rest n' v
  end.

(** An object that is subscripted or iterated as a Python list. *)
Definition as_list (v : pyobj) : Result (list pyobj) :=
  match v with
  | PList items => Ok items
  | _ => Raise TypeError
  end.

(** The Python list behind an attribute ([self.layers], [self.modules]). *)
Definition list_attr (obj : pyobj) (name : string) : Result (list pyobj) :=
  v <- getattr obj name ;;
  as_list v.

(** ** state_dict *)

(** [result[prefix + key] = value] for every item of [sub]. *)
Definition add_prefixed (prefix : string) (sub : dict) (result : dict) : dict :=
  fold_left (fun acc kv => dict_set (String.append prefix (fst kv)) (snd kv) acc)
            sub result.

(** The attributes of a [Parameter] go into the dictionary as they are. *)
Definition add_parameter (attr_name : string) (pattrs : dict) (result : dict)
  : Result dict :=
  match lookup "value" pattrs, lookup "grad" pattrs with
  | Some v, Some g =>
      Ok (dict_set (String.append attr_name ".grad") g
            (dict_set (String.append attr_name ".value") v result))
  | _, _ => Raise AttributeError
  end.

Section StateDict.
(** [obj.state_dict()], for the objects one level down. *)
Variable state_dict : pyobj -> Result dict.

(** [for i, submodule in enumerate(items): ... result[f'{prefix}{i}.{key}']] *)
Fixpoint add_enumerated (prefix : string) (only_modules : bool) (items : list pyobj)
    (i : nat) (result : dict) : Result dict :=
  match items with
  | [] => Ok result
  | sub :: rest =>
      if only_modules && negb (class_is sub Module_cls)
      then add_enumerated prefix only_modules rest (S i) result
      else
        sd <- (if class_is sub Module_cls then state_dict sub else Raise AttributeError) ;;
        add_enumerated prefix only_modules rest (S i)
          (add_prefixed (String.append prefix (String.append (str_of_nat i) ".")) sd result)
  end.

(** The items of the list stored under [name] in a dictionary of attributes. *)
Fixpoint add_list_attr (name prefix : string) (only_modules : bool)
    (attrs : list (string * pyobj)) (result : dict) : Result dict :=
  match attrs with
  | [] => Raise AttributeError
  | (k, v) :: rest =>
      if String.eqb k name
      then match v with
           | PList items => add_enumerated prefix only_modules items 0 result
           | _ => Raise TypeError
           end
      else add_list_attr name prefix only_modules rest result
  end.

(** The loop of [Module.state_dict] over [dir(self)]. *)
Fixpoint module_attrs (attrs : list (string * pyobj)) (result : dict) : Result dict :=
  match attrs with
  | [] => Ok result
  | (attr_name, attr) :: rest =>
      result <-
        match attr with
        | PInstance cls sub_attrs =>
            if issubclass cls Module_cls then
              (* recursive fetch data from submodule's state_dict *)
              sd <- state_dict attr ;;
              Ok (add_prefixed (String.append attr_name ".") sd result)
            else if issubclass cls ModuleList_cls then
              add_list_attr "modules" (String.append attr_name ".") false sub_attrs result
            else if issubclass cls Parameter_cls then
              add_parameter attr_name sub_attrs result
            else Ok result
        | _ => Ok result
        end ;;
      module_attrs rest result
  end.

End StateDict.

(** [obj.state_dict()], dispatched on the class of [obj]:
    [Sequential.state_dict] for a [Sequential], [Module.state_dict] for
    every other [Module]. *)
Fixpoint state_dict (obj : pyobj) : Result dict :=
  match obj with
  | PInstance cls attrs =>
      if issubclass cls Sequential_cls
      then add_list_attr state_dict "layers" "layers." true attrs []
      else if issubclass cls Module_cls
      then module_attrs state_dict attrs []
      else Raise AttributeError
  | _ => Raise AttributeError
  end.

(** ** load_state_dict *)

(** [BatchNorm2d.load_state_dict] for one item: an [if]/[elif] chain
    without an [else]. *)
Definition BatchNorm2d_load_item (self : pyobj) (key : string) (value : pyobj)
  : Result pyobj :=
  if String.eqb key "gamma.value" then
    gamma <- getattr self "gamma" ;;
    gamma <- setattr gamma "value" value ;;
    Ok (put_back self "gamma" gamma)
  else if String.eqb key "beta.value" then
    beta <- getattr self "beta" ;;
    beta <- setattr beta "value" value ;;
    Ok (put_back self "beta" beta)
  else if String.eqb key "running_mean.value" then setattr self "running_mean" value
  else if String.eqb key "running_var.value" then setattr self "running_var" value
  else Ok self.

(** [sub.load_state_dict({'': value})], which [Sequential.load_state_dict]
    reaches for a key without a dot: [''.split('.')] is [['']], and
    [int('')] is a [ValueError]. *)
Definition load_empty_key (sub : pyobj) (value : pyobj) : Result pyobj :=
  match sub with
  | PInstance cls _ =>
      if issubclass cls Sequential_cls then
        _ <- getattr sub "layers" ;; Raise ValueError
      else if issubclass cls BatchNorm2d_cls then BatchNorm2d_load_item sub "" value
      else if issubclass cls Module_cls then Ok sub
      else Raise AttributeError
  | _ => Raise AttributeError
  end.

(** [self.load_state_dict({key: value})] where [key.split('.')] is [res],
    dispatched on the class of [self].  The recursive calls rebuild the
    key from a tail of [res] and split it again, which gives that tail
    back. *)
Fixpoint load_item (res : list string) (self : pyobj) (value : pyobj) {struct res}
  : Result pyobj :=
  match self with
  | PInstance cls _ =>
      if issubclass cls Sequential_cls then
        (* Sequential.load_state_dict *)
        match res with
        | [] => Raise ValueError
        | p0 :: parts =>
            (* submodule = self.layers[int(parts[0])] *)
            layers <- getattr self "layers" ;;
            idx <- py_int p0 ;;
            layers <- as_list layers ;;
            submodule <- list_get layers idx ;;
            submodule <- match parts with
                         | [] => load_empty_key submodule value
                         | _ :: _ => load_item parts submodule value
                         end ;;
            Ok (put_back self "layers"
                  (PList (list_put layers (norm_index (List.length layers) idx) submodule)))
        end
      else if issubclass cls BatchNorm2d_cls then
        BatchNorm2d_load_item self (join_dot res) value
      else if issubclass cls Module_cls then
        (* Module.load_state_dict *)
        match res with
        | [r0; r1] =>
            param <- getattr self r0 ;;
            param <- setattr param r1 value ;;
            Ok (put_back self r0 param)
        | r0 :: ((r1 :: ((_ :: _) as rest2)) as rest1) =>
            submodule <- getattr self r0 ;;
            if class_is submodule Module_cls then
              submodule <- load_item rest1 submodule value ;;
              Ok (put_back self r0 submodule)
            else if class_is submodule ModuleList_cls then
              ind <- py_int r1 ;;
              modules <- list_attr submodule "modules" ;;
              child <- list_get modules ind ;;
              child <- load_item rest2 child value ;;
              Ok (put_back self r0
                    (put_back submodule "modules"
                       (PList (list_put modules (norm_index (List.length modules) ind)
                                 child))))
            else Ok self
        | _ => Ok self
        end
      else Raise AttributeError
  | _ => Raise AttributeError
  end.

(** [self.load_state_dict(state_dict)]: the items in order, stopping at
    the first one that raises. *)
Fixpoint load_state_dict (self : pyobj) (state_dict : dict) : Result pyobj :=
  match state_dict with
  | [] => Ok self
  | (key, value) :: rest =>
      self <- load_item (split_dot key) self value ;;
      load_state_dict self rest
  end.

(** ** ModuleList

    The methods on an instance whose [modules] attribute is a list, as
    [__init__] leaves it ([modules] holding another container is left out). *)

(** [self.append(module)] *)
Definition ModuleList_append (self module : pyobj) : Result pyobj :=
  if negb (class_is module Module_cls) then Raise TypeError
  else
    modules <- getattr self "modules" ;;
    match modules with
    | PList items => Ok (put_back self "modules" (PList (items ++ [module])))
    | _ => Raise AttributeError
    end.

(** [self[idx]] *)
Definition ModuleList_getitem (self : pyobj) (idx : Z) : Result pyobj :=
  modules <- list_attr self "modules" ;;
  list_get modules idx.

(** [self[idx] = module] *)
Definition ModuleList_setitem (self : pyobj) (idx : Z) (module : pyobj) : Result pyobj :=
  if negb (class_is module Module_cls) then Raise TypeError
  else
    modules <- list_attr self "modules" ;;
    if in_bounds (List.length modules) idx
    then Ok (put_back self "modules"
               (PList (list_put modules (norm_index (List.length modules) idx) module)))
    else Raise IndexError.

(** [len(self)] and [list(iter(self))] *)
Definition ModuleList_len (self : pyobj) : Result nat :=
  modules <- list_attr self "modules" ;;
  Ok (List.length modules).

Definition ModuleList_iter (self : pyobj) : Result (list pyobj) :=
  list_attr self "modules".

(** ** Building the objects *)

(** [Parameter(input_array, is_bias)] as an object; the attributes are
    written in sorted order. *)
Definition parameter (value grad : tensor) (is_bias : bool) : pyobj :=
  PInstance Parameter_cls
    [("grad", PArray grad); ("is_bias", PBool is_bias); ("value", PArray value)].

(** A [Linear] instance with the given parameters. *)
Definition linear (in_features out_features : Z) (weight bias : pyobj) : pyobj :=
  PInstance Linear_cls
    [("bias", bias); ("in_features", PInt in_features);
     ("out_features", PInt out_features); ("prev_inp", PNone); ("weight", weight)].

(** A [BatchNorm2d] instance with the given parameters and statistics. *)
Definition batch_norm_2d (num_features : Z) (eps momentum : float)
    (gamma beta : pyobj) (running_mean running_var : tensor) : pyobj :=
  PInstance BatchNorm2d_cls
    [("beta", beta); ("eps", PFloat eps); ("gamma", gamma);
     ("momentum", PFloat momentum); ("num_features", PInt num_features);
     ("running_mean", PArray running_mean); ("running_var", PArray running_var)].

(** [ModuleList(modules)] and [Sequential( *layers )]. *)
Definition module_list (modules : list pyobj) : pyobj :=
  PInstance ModuleList_cls [("modules", PList modules)].

Definition sequential (layers : list pyobj) (if_train : bool) : pyobj :=
  PInstance Sequential_cls [("if_train", PBool if_train); ("layers", PList layers)].

End Serial.

(* ================================================================== *)
(** * Inputs and claim-side definitions used by the theorems *)
(* ================================================================== *)

Module Inputs.

(** ** Patch transform *)
Section PatchInputs.
Import Patch.

(** A 1x1x4x4 image cut into four 2x2 windows by stride 2. *)
Definition g_tiles : geometry :=
  {| batch := 1; chans := 1; height := 4; width := 4;
     field_h := 2; field_w := 2; pad_h := 0; pad_w := 0;
     stride_h := 2; stride_w := 2 |}.

Definition x_tiles : @arr4 Z :=
  [[ [[1; 2; 3; 4]; [5; 6; 7; 8]; [9; 10; 11; 12]; [13; 14; 15; 16]] ]].

(** The same kernel on a 3x3 image: stride 2 >= field 2 and the output
    size is well defined (1x1), yet the last row and column lie in no
    window and come back as zeros. *)
Definition x_odd : @arr4 Z := [[ [[1; 2; 3]; [4; 5; 6]; [7; 8; 9]] ]].

(** Entry [(h, w)] of plane [(n, c)] of the zero-padded image, read off the
    image itself: [h] and [w] count from the corner of the padding. *)
Definition zero_padded {F : Type} {AF : Arith F} (g : geometry) (x : @arr4 F)
    (n c h w : nat) : F :=
  if ((pad_h g <=? h) && (h <? pad_h g + height g)
      && (pad_w g <=? w) && (w <? pad_w g + width g))%nat
  then get4 x n c (h - pad_h g) (w - pad_w g)
  else zero.

End PatchInputs.

(** ** Layers *)
Section LayerInputs.
Import Tensor.
Local Open Scope float_scope.

(** A float64 exponential to run the layers with: the argument is halved
    twelve times, a Taylor polynomial is taken and the result is squared
    twelve times.  Like the C library's it is 1 at 0, overflows to
    infinity at 1000 and underflows to 0 at -1000. *)
Definition taylor_exp (x : float) : float :=
  1 + x * (1 + x / 2 * (1 + x / 3 * (1 + x / 4 * (1 + x / 5 * (1 + x / 6 *
  (1 + x / 7 * (1 + x / 8 * (1 + x / 9 * (1 + x / 10))))))))).

Fixpoint square_n (n : nat) (y : float) : float :=
  match n with
  | O => y
  | S k => square_n k (y * y)
  end.

Definition exp_model (x : float) : float := square_n 12 (taylor_exp (x / 4096)).

Definition libm_model : Exp := {| np_exp := exp_model |}.

(** Two logits of one sample, the first one past the overflow threshold of
    [exp] (about 709.78). *)
Definition big_logits : tensor := T3 [[[1000]; [0]]].

Definition eps_1e5 : float := 0x1.4f8b588e368f1p-17.

(** A one-feature [BatchNormLayer] whose accumulators already hold 5
    (gamma) and 7 (beta) from an earlier backward call. *)
Definition bn_with_grads : BatchNormLayer.t :=
  {| BatchNormLayer.eps := eps_1e5; BatchNormLayer.momentum := 0.5;
     BatchNormLayer.n_features := 1%Z; BatchNormLayer.if_train := false;
     BatchNormLayer.gamma :=
       {| Param.value := T1 [1]; Param.grad := T1 [5]; Param.is_bias := false |};
     BatchNormLayer.beta :=
       {| Param.value := T1 [0]; Param.grad := T1 [7]; Param.is_bias := false |};
     BatchNormLayer.running_mean := T0 0; BatchNormLayer.running_var := T0 0;
     BatchNormLayer.out_ := None; BatchNormLayer.prev_inp := None;
     BatchNormLayer.sample_mean := None; BatchNormLayer.sample_var := None |}.

(** The same for [BatchNorm2d]: one channel, accumulators at 5 and 7. *)
Definition bn2d_with_grads : BatchNorm2d.t :=
  {| BatchNorm2d.eps := eps_1e5; BatchNorm2d.momentum := 0.5;
     BatchNorm2d.num_features := 1%Z;
     BatchNorm2d.gamma :=
       {| Param.value := T1 [1]; Param.grad := T1 [5]; Param.is_bias := false |};
     BatchNorm2d.beta :=
       {| Param.value := T1 [0]; Param.grad := T1 [7]; Param.is_bias := false |};
     BatchNorm2d.running_mean := T1 [0]; BatchNorm2d.running_var := T1 [1];
     BatchNorm2d.sample_mean := None; BatchNorm2d.sample_var := None;
     BatchNorm2d.out_ := None |}.

(** The accumulators of gamma and beta after one forward (train mode) and
    one backward call. *)
Definition BatchNormLayer_grads {libp : Power} (self : BatchNormLayer.t)
    (inp grad : tensor) : Result (tensor * tensor) :=
  '(self, _) <- BatchNormLayer.forward self inp true ;;
  '(self, _) <- BatchNormLayer.backward self grad ;;
  Ok (Param.grad (BatchNormLayer.gamma self), Param.grad (BatchNormLayer.beta self)).

Definition BatchNorm2d_grads (self : BatchNorm2d.t)
    (inp grad : tensor) : Result (tensor * tensor) :=
  '(self, _) <- BatchNorm2d.forward self inp true ;;
  '(self, _) <- BatchNorm2d.backward self grad ;;
  Ok (Param.grad (BatchNorm2d.gamma self), Param.grad (BatchNorm2d.beta self)).

(** A layer that has seen the input [-2, 3]. *)
Definition leaky_after_forward : LeakyReLULayer.t :=
  {| LeakyReLULayer.prev_inp := Some (T3 [[[-2]; [3]]]);
     LeakyReLULayer.leak := LeakyReLULayer.default_leak |}.

(** The forward pass the claim describes: kept entries are the input
    divided by [1 - p], dropped entries are 0. *)
Definition claimed_inverted_dropout (p : float) (inp draw : tensor) : Result tensor :=
  kept <- tmul inp draw ;;
  tdiv kept (T0 (1 - p)).

(** [BatchNorm2d(1, eps=0.0, momentum=0.5)] *)
Definition bn2d_fresh : BatchNorm2d.t := BatchNorm2d.new 1 0 0.5.

(** One input and one output channel, a kernel of height 2 and width 1,
    stride 1, no padding. *)
Definition tall_kernel : ConvTranspose2d.t :=
  ConvTranspose2d.new 1 1 (APair (2, 1)%Z) (AnInt 1) (AnInt 0) (AnInt 0)
    (T4 [[[[2]; [3]]]]) (T1 [0]).

(** One 3x3 image with one channel, and a [Conv2d] with one 2x2 filter
    that adds the two entries on the diagonal of a window to its bias 10. *)
Definition sample_3x3 : ten4 := [[ [[1; 2; 3]; [4; 5; 6]; [7; 8; 9]] ]].

Definition diagonal_filter : Conv2d.t :=
  Conv2d.new 1 1 (AnInt 2) 1 0 (T4 [[ [[1; 0]; [0; 1]] ]]) (T1 [10]).

(** The patch transform one [Conv2d.forward] call runs: the same padding
    and stride on both axes. *)
Definition conv_geometry (N C H W FH FW p s : nat) : Patch.geometry :=
  {| Patch.batch := N; Patch.chans := C; Patch.height := H; Patch.width := W;
     Patch.field_h := FH; Patch.field_w := FW; Patch.pad_h := p; Patch.pad_w := p;
     Patch.stride_h := s; Patch.stride_w := s |}.

(** [self.weight.value.reshape(n_filter, -1)]: row [f] lists the entries
    [weight[f][c][a][b]] of filter [f] over channel, filter row and filter
    column, in that order. *)
Definition filter_rows (wv : ten4) (NF C FH FW : nat) : ten2 :=
  Patch.tab NF (fun f => Patch.tab (C * (FH * FW)) (fun t =>
    Patch.get4 wv f (t / (FH * FW)) (t mod (FH * FW) / FW) (t mod FW))).

(** The patches [im2col_indices] cuts out of the padded input [xp]: row [r]
    is a position (channel, field row, field column) inside a patch, and
    column [l * N + n] is the patch of sample [n] at output location [l]. *)
Definition patch_columns (g : Patch.geometry) (xp : ten4) : ten2 :=
  Patch.tab (Patch.n_rows g) (fun r =>
    Patch.tab (Patch.n_locs g * Patch.batch g) (fun q =>
      let l := (q / Patch.batch g)%nat in
      let n := (q mod Patch.batch g)%nat in
      Patch.get4 xp n (Patch.k_of g r) (Patch.i_of g r l) (Patch.j_of g r l))).

(** [(side - 1) * stride - 2 * padding + kernel + output_padding] *)
Definition convt_out (side K s p op : nat) : nat :=
  ((side - 1) * s + K + op - 2 * p)%nat.

(** The scatter one [ConvTranspose2d.forward] call runs, for a square
    kernel of side [K]. *)
Definition convt_geometry (N OC h w K sh sw ph pw oph opw : nat) : Patch.geometry :=
  {| Patch.batch := N; Patch.chans := OC;
     Patch.height := convt_out h K sh ph oph; Patch.width := convt_out w K sw pw opw;
     Patch.field_h := K; Patch.field_w := K; Patch.pad_h := ph; Patch.pad_w := pw;
     Patch.stride_h := sh; Patch.stride_w := sw |}.

(** [self.weight.value.reshape(self.in_channels, -1).T] for a weight of
    shape [(C, OC, K, K)]: row [r] stands for output channel [r // (K*K)],
    kernel row [r % (K*K) // K] and kernel column [r % K], and lists the
    weight at that place over the input channels. *)
Definition kernel_rows (wv : ten4) (C OC K : nat) : ten2 :=
  Patch.tab (OC * (K * K)) (fun r => Patch.tab C (fun c =>
    Patch.get4 wv c (r / (K * K)) (r mod (K * K) / K) (r mod K))).

(** [inp.transpose(1, 0, 2, 3).reshape(c, -1)] for an input of shape
    [(N, C, h, w)]: row [c] lists channel [c] of every sample, column [q]
    being sample [q // (h*w)], row [q % (h*w) // w] and column [q % w]. *)
Definition input_rows (x : ten4) (N C h w : nat) : ten2 :=
  Patch.tab C (fun c => Patch.tab (N * (h * w)) (fun q =>
    Patch.get4 x (q / (h * w)) c (q mod (h * w) / w) (q mod w))).

(** One input and one output channel, a 2x2 kernel, stride 2, bias 10. *)
Definition square_kernel : ConvTranspose2d.t :=
  ConvTranspose2d.new 1 1 (AnInt 2) (AnInt 2) (AnInt 0) (AnInt 0)
    (T4 [[ [[1; 2]; [3; 4]] ]]) (T1 [10]).

(** The classes of [nn/modules.py] without a constructor of their own in
    [Sequential.Layer]: their [forward] takes the input alone, draws
    nothing and owns no further layers. *)
Definition plain_forward (cls : pyclass) : bool :=
  match cls with
  | Conv2d_cls | ConvTranspose2d_cls | Flatten_cls | Unflatten_cls
  | MaxPool2d_cls | AdaptiveAvgPool2d_cls => true
  | _ => false
  end.

(** A layer whose mode is the one the enclosing [Sequential] hands it.  A
    nested [Sequential] is none: it keeps an [if_train] of its own, which
    [train] and [eval] of the outer one do not touch. *)
Definition flat_layer (l : Sequential.Layer) : bool :=
  match l with
  | Sequential.L_Other cls _ => plain_forward cls
  | _ => true
  end.

(** [Sequential(DropoutLayer(0.5), ReLU())] *)
Definition dropout_then_relu : Sequential.t :=
  Sequential.new [Sequential.L_DropoutLayer (DropoutLayer.new 0.5);
                  Sequential.L_ReLU {| ReLU.prev_inp := None |}].

End LayerInputs.

(** ** Serialization *)
Section SerialInputs.
Import Tensor Serial Ascii String.
Local Open Scope string_scope.

(** The classes that inherit [Module.load_state_dict] unchanged. *)
Definition inherits_load (cls : pyclass) : bool :=
  negb (issubclass cls Sequential_cls) && negb (issubclass cls BatchNorm2d_cls)
  && issubclass cls Module_cls.

(** A [BatchNormLayer] instance as [__init__] leaves it. *)
Definition batch_norm_layer (n_features : Z) (gamma beta : pyobj) : pyobj :=
  PInstance BatchNormLayer_cls
    [("beta", beta); ("eps", PFloat 0x1.4f8b588e368f1p-17); ("gamma", gamma);
     ("if_train", PBool false); ("momentum", PFloat 0x1.ccccccccccccdp-1);
     ("n_features", PInt n_features); ("out_", PNone); ("prev_inp", PNone);
     ("running_mean", PInt 0); ("running_var", PInt 0);
     ("sample_mean", PNone); ("sample_var", PNone)].

Definition relu : pyobj := PInstance ReLU_cls [("prev_inp", PNone)].
Definition sigmoid : pyobj := PInstance Sigmoid_cls [("prev_inp", PNone)].

(** [Sequential(Linear(1, 1), BatchNormLayer(1), ModuleList([ReLU(), Sigmoid()]))]
    with small known parameter values and gradients. *)
Definition small_net : pyobj :=
  sequential
    [linear 1 1 (parameter (T2 [[1%float]]) (T2 [[4%float]]) false)
                (parameter (T1 [2%float]) (T1 [3%float]) true);
     batch_norm_layer 1 (parameter (T1 [0%float]) (T1 [5%float]) false)
                        (parameter (T1 [0%float]) (T1 [7%float]) false);
     module_list [relu; sigmoid]]
    true.

(** The same layers owned by a plain [Module] subclass instead. *)
Definition small_tree : pyobj :=
  PInstance (UserModule "Net" [])
    [("fc", linear 1 1 (parameter (T2 [[1%float]]) (T2 [[4%float]]) false)
                       (parameter (T1 [2%float]) (T1 [3%float]) true));
     ("heads", module_list [relu; sigmoid]);
     ("norm", batch_norm_layer 1 (parameter (T1 [0%float]) (T1 [5%float]) false)
                                 (parameter (T1 [0%float]) (T1 [7%float]) false))].

Definition layers_key (kv : string * pyobj) : Prop :=
  exists rest, fst kv = "layers." ++ rest.

Definition a_linear : pyobj :=
  linear 1 1 (parameter (T2 [[1%float]]) (T2 [[4%float]]) false)
             (parameter (T1 [2%float]) (T1 [3%float]) true).

Definition a_batch_norm_2d : pyobj :=
  batch_norm_2d 1 0x1.4f8b588e368f1p-17 0x1.ccccccccccccdp-1
    (parameter (T1 [1%float]) (T1 [0%float]) false)
    (parameter (T1 [0%float]) (T1 [0%float]) false)
    (T1 [0%float]) (T1 [1%float]).

(** The names [object] keeps for itself: [setattr] does not store them in
    the dictionary of the instance ([__class__] takes a class and
    [__dict__] a dictionary only, [__weakref__] cannot be written). *)
Definition reserved_names : list string := ["__class__"; "__dict__"; "__weakref__"].

Definition ordinary_name (name : string) : bool :=
  negb (existsb (String.eqb name) reserved_names).

(** The four keys [BatchNorm2d.load_state_dict] looks for. *)
Definition BatchNorm2d_keys : list string :=
  ["gamma.value"; "beta.value"; "running_mean.value"; "running_var.value"].

(** *** Trees of plain modules *)
(** A name without a dot in it. *)
Fixpoint dot_free (s : string) : bool :=
  match s with
  | EmptyString => true
  | String c rest => negb (Ascii.eqb c "."%char) && dot_free rest
  end.

(** The names of a dictionary of attributes in strictly increasing order,
    as [attrs_set] keeps them. *)
Fixpoint sorted_names (d : dict) : bool :=
  match d with
  | [] => true
  | (k, _) :: rest =>
      forallb (fun kv => match String.compare k (fst kv) with Lt => true | _ => false end)
              rest
      && sorted_names rest
  end.

(** [int(str(i))] stays within the digit limit for every index of a list of
    [n] items. *)
Definition indices_ok (n : nat) : bool :=
  forallb (fun i => (count_digits (str_of_nat i) <=? max_str_digits)%nat) (seq 0 n).

Section Plain.
Variable plain : pyobj -> bool.

(** The items of the list stored under [name], found as [add_list_attr]
    finds them. *)
Fixpoint plain_items (name : string) (attrs : list (string * pyobj)) : bool :=
  match attrs with
  | [] => true
  | (k, v) :: rest =>
      if String.eqb k name
      then match v with
           | PList items => forallb plain items && indices_ok (List.length items)
           | _ => true
           end
      else plain_items name rest
  end.

(** The attributes [Module.state_dict] exports something for. *)
Fixpoint plain_attrs (attrs : list (string * pyobj)) : bool :=
  match attrs with
  | [] => true
  | (attr_name, attr) :: rest =>
      match attr with
      | PInstance cls sub_attrs =>
          if issubclass cls Module_cls then dot_free attr_name && plain attr
          else if issubclass cls ModuleList_cls then
            dot_free attr_name && sorted_names sub_attrs && plain_items "modules" sub_attrs
          else if issubclass cls Parameter_cls then
            dot_free attr_name && sorted_names sub_attrs
          else true
      | _ => true
      end
      && plain_attrs rest
  end.

End Plain.

(** A tree of modules that all inherit [Module.state_dict] and
    [Module.load_state_dict]: no [Sequential] and no [BatchNorm2d] in it,
    at any depth; the names of the exported attributes have no dot. *)
Fixpoint plain_tree (obj : pyobj) : bool :=
  match obj with
  | PInstance cls attrs =>
      inherits_load cls && sorted_names attrs && plain_attrs plain_tree attrs
  | _ => false
  end.

Section Size.
Variable size : pyobj -> nat.

Fixpoint size_items (items : list pyobj) : nat :=
  match items with
  | [] => O
  | x :: rest => S (size x + size_items rest)
  end.

Fixpoint size_attrs (attrs : list (string * pyobj)) : nat :=
  match attrs with
  | [] => O
  | (_, v) :: rest => S (size v + size_attrs rest)
  end.

End Size.

(** The number of objects of a tree. *)
Fixpoint size (obj : pyobj) : nat :=
  match obj with
  | PList items => S (size_items size items)
  | PInstance _ attrs => S (size_attrs size attrs)
  | _ => 1%nat
  end.

(** An item of an export that [load_state_dict] finds a place for, and
    that leaves the object as it is when it is loaded. *)
Definition entry_ok (obj : pyobj) (kv : string * pyobj) : Prop :=
  (exists r0 r1 rest, split_dot (fst kv) = r0 :: r1 :: rest)
  /\ load_item (split_dot (fst kv)) obj (snd kv) = Ok obj.

(** A module that owns a [Linear], and a [ModuleList] of a [Linear] and an
    activation. *)
Definition deep_tree : pyobj :=
  PInstance (UserModule "Net" ["forward"])
    [("blocks", module_list [a_linear; relu]);
     ("fc", a_linear);
     ("scale", parameter (T1 [2%float]) (T1 [0%float]) false)].

End SerialInputs.

End Inputs.
Module PatchFacts.
Import Patch.

Section Lists.
Context {A : Type}.

Lemma tab_length (n : nat) (f : nat -> A) : length (tab n f) = n.
Proof. unfold tab. now rewrite length_map, length_seq. Qed.

Lemma tab_nth (n : nat) (f : nat -> A) (i : nat) (d : A) :
  (i < n)%nat -> nth i (tab n f) d = f i.
Proof.
  intros Hi. unfold tab.
  rewrite (nth_indep _ d (f 0%nat)) by (now rewrite length_map, length_seq).
  rewrite (map_nth f (seq 0 n) 0%nat i), seq_nth; auto.
Qed.

Lemma tab_ext (n : nat) (f g : nat -> A) :
  (forall i, (i < n)%nat -> f i = g i) -> tab n f = tab n g.
Proof.
  intros E. unfold tab. apply map_ext_in. intros i Hi.
  apply in_seq in Hi. apply E. lia.
Qed.

Lemma tab_self (l : list A) (d : A) : tab (length l) (fun i => nth i l d) = l.
Proof.
  apply nth_ext with (d := d) (d' := d).
  - apply tab_length.
  - intros i Hi. rewrite tab_length in Hi. now rewrite tab_nth.
Qed.

Lemma upd_length (n : nat) (f : A -> A) (l : list A) : length (upd n f l) = length l.
Proof. revert n. induction l as [|x t IH]; intros [|n]; simpl; auto. Qed.

Lemma upd_nth_same (n : nat) (f : A -> A) (l : list A) (d : A) :
  (n < length l)%nat -> nth n (upd n f l) d = f (nth n l d).
Proof.
  revert n. induction l as [|x t IH]; intros [|n] Hn; simpl in *; try lia; auto.
  apply IH. lia.
Qed.

Lemma upd_nth_other (n m : nat) (f : A -> A) (l : list A) (d : A) :
  n <> m -> nth m (upd n f l) d = nth m l d.
Proof.
  revert n m. induction l as [|x t IH]; intros [|n] [|m] Hn; simpl; auto; try lia.
Qed.

Lemma chunk_concat (w : nat) (ls : list (list A)) (q : nat) :
  Forall (fun r => length r = w) ls -> (q < length ls)%nat ->
  chunk w q (concat ls) = nth q ls [].
Proof.
  unfold chunk. intros Hu. revert q.
  induction Hu as [|x ls Hx Hu IH]; intros q Hq; simpl in *; [lia|].
  destruct q as [|q]; simpl.
  - rewrite firstn_app, <- Hx, firstn_all, Nat.sub_diag. simpl. apply app_nil_r.
  - rewrite skipn_app, Hx.
    replace (skipn (w + q * w) x) with (@nil A)
      by (symmetry; apply skipn_all2; lia).
    replace (w + q * w - w)%nat with (q * w)%nat by lia.
    simpl. apply IH. lia.
Qed.

Lemma chunk_nth (w q p : nat) (flat : list A) (d : A) :
  (p < w)%nat -> nth p (chunk w q flat) d = nth (q * w + p) flat d.
Proof.
  intros Hp. unfold chunk. rewrite nth_firstn, nth_skipn.
  apply Nat.ltb_lt in Hp. now rewrite Hp.
Qed.

Lemma concat_uniform_length (w : nat) (ls : list (list A)) :
  Forall (fun r => length r = w) ls -> length (concat ls) = (length ls * w)%nat.
Proof. induction 1; simpl; auto. rewrite length_app. lia. Qed.

Lemma concat_uniform_nth (w : nat) (ls : list (list A)) (q p : nat) (d : A) :
  Forall (fun r => length r = w) ls -> (q < length ls)%nat -> (p < w)%nat ->
  nth (q * w + p) (concat ls) d = nth p (nth q ls []) d.
Proof.
  intros Hu Hq Hp. rewrite <- (chunk_concat Hu Hq). now rewrite chunk_nth.
Qed.

End Lists.

Lemma map_tab {A B} (g : A -> B) (n : nat) (f : nat -> A) :
  map g (tab n f) = tab n (fun i => g (f i)).
Proof. unfold tab. now rewrite map_map. Qed.

Lemma map_seq_shift {A} (g : nat -> A) (a n : nat) :
  map g (seq a n) = tab n (fun i => g (a + i)%nat).
Proof.
  unfold tab. revert a. induction n as [|n IH]; intros a; simpl; auto.
  rewrite Nat.add_0_r. f_equal. rewrite IH, <- (seq_shift n 0), map_map.
  apply map_ext. intros i. f_equal. lia.
Qed.

Lemma tab_app {A} (n m : nat) (g : nat -> A) :
  tab (n + m) g = tab n g ++ tab m (fun i => g (n + i)%nat).
Proof. unfold tab at 1 2. rewrite seq_app, map_app. f_equal. apply map_seq_shift. Qed.

Lemma tab_const {A} (n : nat) (c : A) : tab n (fun _ => c) = repeat c n.
Proof.
  apply nth_ext with (d := c) (d' := c).
  - now rewrite tab_length, repeat_length.
  - intros i Hi. rewrite tab_length in Hi. now rewrite tab_nth, nth_repeat.
Qed.

(** [np.repeat] of a tabulated array. *)
Lemma repeat_each_tab {A} (n m : nat) (f : nat -> A) :
  flat_map (fun v => repeat v m) (tab n f) = tab (n * m) (fun i => f (i / m)%nat).
Proof.
  induction n as [|n IH]; [reflexivity|].
  assert (tab (S n) f = tab n f ++ [f n]) as ->.
  { replace (S n) with (n + 1)%nat by lia. rewrite tab_app. f_equal.
    unfold tab. simpl. now rewrite Nat.add_0_r. }
  rewrite flat_map_app, IH. simpl flat_map. rewrite app_nil_r.
  replace (S n * m)%nat with (n * m + m)%nat by lia.
  rewrite tab_app. f_equal.
  rewrite <- tab_const. apply tab_ext. intros i Hi. f_equal.
  apply Nat.div_unique with (r := i); lia.
Qed.

(** [np.tile] of a tabulated array. *)
Lemma tile_tab {A} (n m : nat) (f : nat -> A) :
  concat (repeat (tab n f) m) = tab (m * n) (fun i => f (i mod n)%nat).
Proof.
  induction m as [|m IH]; simpl; auto.
  rewrite IH, tab_app. f_equal.
  - apply tab_ext. intros i Hi. now rewrite Nat.mod_small.
  - apply tab_ext. intros i Hi. f_equal.
    destruct n as [|n]; [lia|].
    replace (S n + i)%nat with (i + 1 * S n)%nat by lia.
    now rewrite Nat.Div0.mod_add.
Qed.

Lemma np_arange_nat (n : nat) : np_arange (Z.of_nat n) = tab n Z.of_nat.
Proof. unfold np_arange, tab. now rewrite Nat2Z.id. Qed.

Lemma np_repeat_nat (a : list Z) (n : nat) :
  np_repeat a (Z.of_nat n) = Ok (flat_map (fun v => repeat v n) a).
Proof.
  unfold np_repeat. destruct (Z.ltb_spec (Z.of_nat n) 0); [lia|]. now rewrite Nat2Z.id.
Qed.

Lemma np_tile_nat (a : list Z) (n : nat) :
  np_tile a (Z.of_nat n) = Ok (concat (repeat a n)).
Proof.
  unfold np_tile. destruct (Z.ltb_spec (Z.of_nat n) 0); [lia|]. now rewrite Nat2Z.id.
Qed.

Section Geometry.
Variable g : geometry.
Hypothesis Hg : geometry_ok g.

Lemma floordiv_out (side pad field stride : nat) :
  (0 < stride)%nat -> (field <= side + 2 * pad)%nat ->
  floordiv (Z.of_nat side + 2 * Z.of_nat pad - Z.of_nat field) (Z.of_nat stride)
  = Ok (Z.of_nat ((side + 2 * pad - field) / stride)).
Proof.
  intros Hs Hf. unfold floordiv.
  destruct (Z.eqb_spec (Z.of_nat stride) 0); [lia|]. f_equal.
  rewrite Nat2Z.inj_div, Nat2Z.inj_sub by lia.
  rewrite Nat2Z.inj_add, Nat2Z.inj_mul. simpl Z.of_nat. lia.
Qed.

Lemma get_im2col_indices_tab :
  get_im2col_indices (x_shape g) (Z.of_nat (field_h g)) (Z.of_nat (field_w g))
    (padding g) (stride g)
  = Ok (tab (n_rows g) (fun r => Z.of_nat (k_of g r)),
        tab (n_rows g) (fun r => tab (n_locs g) (fun l => Z.of_nat (i_of g r l))),
        tab (n_rows g) (fun r => tab (n_locs g) (fun l => Z.of_nat (j_of g r l)))).
Proof.
  destruct Hg as (HN & HC & Hfh & Hfw & Hsh & Hsw & Hh & Hw & Hpad).
  unfold get_im2col_indices, x_shape, padding, stride.
  unfold padded_h, padded_w in Hh, Hw.
  rewrite !floordiv_out by assumption. cbn [bind].
  replace (Z.of_nat ((height g + 2 * pad_h g - field_h g) / stride_h g) + 1)
    with (Z.of_nat (out_h g)) by (unfold out_h, padded_h; lia).
  replace (Z.of_nat ((width g + 2 * pad_w g - field_w g) / stride_w g) + 1)
    with (Z.of_nat (out_w g)) by (unfold out_w, padded_w; lia).
  rewrite <- !Nat2Z.inj_mul.
  rewrite !np_arange_nat, !np_repeat_nat. cbn [bind].
  rewrite !np_tile_nat. cbn [bind].
  rewrite !repeat_each_tab, !tile_tab.
  unfold outer_add. rewrite !map_tab.
  f_equal. f_equal; [f_equal|].
  - unfold n_rows, n_locs, i_of. apply tab_ext. intros r Hr. rewrite map_tab.
    apply tab_ext. intros l Hl. lia.
  - unfold n_rows, n_locs, j_of.
    replace (field_h g * chans g * field_w g)%nat
      with (chans g * (field_h g * field_w g))%nat by lia.
    apply tab_ext. intros r Hr. rewrite map_tab.
    replace (out_w g * out_h g)%nat with (out_h g * out_w g)%nat by lia.
    apply tab_ext. intros l Hl. lia.
Qed.

End Geometry.

Section Shapes.
Context {F : Type} {AF : Arith F}.

Lemma Forall_nth_lt {A} (P : A -> Prop) (l : list A) (i : nat) (d : A) :
  Forall P l -> (i < length l)%nat -> P (nth i l d).
Proof. intros HF Hi. now apply Forall_nth. Qed.

Lemma Forall_upd {A} (P : A -> Prop) (f : A -> A) (n : nat) (l : list A) :
  Forall P l -> (forall x, P x -> P (f x)) -> Forall P (upd n f l).
Proof.
  intros HF Hf. revert n. induction HF as [|x t Hx Ht IH]; intros [|n]; simpl;
    constructor; auto.
Qed.

Lemma Forall_tab {A} (P : A -> Prop) (n : nat) (f : nat -> A) :
  (forall i, (i < n)%nat -> P (f i)) -> Forall P (tab n f).
Proof.
  intros Hf. unfold tab. apply Forall_forall. intros x Hx.
  apply in_map_iff in Hx. destruct Hx as [i [<- Hi]]. apply in_seq in Hi.
  apply Hf. lia.
Qed.

Lemma rect2_row (R W : nat) (a : @arr2 F) r :
  rect2 R W a -> (r < R)%nat -> length (nth r a []) = W.
Proof. intros [Hl HF] Hr. apply Forall_nth_lt; [exact HF | lia]. Qed.

Lemma rect3_plane (C H W : nat) (a : @arr3 F) c :
  rect3 C H W a -> (c < C)%nat -> rect2 H W (nth c a []).
Proof. intros [Hl HF] Hc. apply Forall_nth_lt; [exact HF | lia]. Qed.

Lemma rect4_img (N C H W : nat) (a : @arr4 F) n :
  rect4 N C H W a -> (n < N)%nat -> rect3 C H W (nth n a []).
Proof. intros [Hl HF] Hn. apply Forall_nth_lt; [exact HF | lia]. Qed.

(** Rectangular arrays are determined by their entries. *)
Lemma rect2_ext (R W : nat) (a b : @arr2 F) :
  rect2 R W a -> rect2 R W b ->
  (forall r c, (r < R)%nat -> (c < W)%nat -> get2 a r c = get2 b r c) -> a = b.
Proof.
  intros Ha Hb E. apply nth_ext with (d := []) (d' := []).
  - destruct Ha, Hb. congruence.
  - intros r Hr. destruct Ha as [La Fa]. rewrite La in Hr.
    apply nth_ext with (d := zero) (d' := zero).
    + rewrite (rect2_row (conj La Fa) Hr), (rect2_row Hb Hr). reflexivity.
    + intros c Hc. rewrite (rect2_row (conj La Fa) Hr) in Hc. now apply E.
Qed.

Lemma rect3_ext (C H W : nat) (a b : @arr3 F) :
  rect3 C H W a -> rect3 C H W b ->
  (forall c h w, (c < C)%nat -> (h < H)%nat -> (w < W)%nat ->
                 get3 a c h w = get3 b c h w) -> a = b.
Proof.
  intros Ha Hb E. apply nth_ext with (d := []) (d' := []).
  - destruct Ha, Hb. congruence.
  - intros c Hc. destruct Ha as [La Fa]. rewrite La in Hc.
    apply rect2_ext with (R := H) (W := W).
    + apply (rect3_plane (conj La Fa) Hc).
    + apply (rect3_plane Hb Hc).
    + intros h w Hh Hw. now apply E.
Qed.

Lemma rect4_ext (N C H W : nat) (a b : @arr4 F) :
  rect4 N C H W a -> rect4 N C H W b ->
  (forall n c h w, (n < N)%nat -> (c < C)%nat -> (h < H)%nat -> (w < W)%nat ->
                   get4 a n c h w = get4 b n c h w) -> a = b.
Proof.
  intros Ha Hb E. apply nth_ext with (d := []) (d' := []).
  - destruct Ha, Hb. congruence.
  - intros n Hn. destruct Ha as [La Fa]. rewrite La in Hn.
    apply rect3_ext with (C := C) (H := H) (W := W).
    + apply (rect4_img (conj La Fa) Hn).
    + apply (rect4_img Hb Hn).
    + intros c h w Hc Hh Hw. now apply E.
Qed.

Lemma shape4_rect (N C H W : nat) (a : @arr4 F) :
  rect4 N C H W a -> (0 < N)%nat -> (0 < C)%nat -> (0 < H)%nat ->
  shape4 a = (Z.of_nat N, Z.of_nat C, Z.of_nat H, Z.of_nat W).
Proof.
  intros Ha HN HC HH. unfold shape4.
  pose proof (rect4_img Ha HN) as H3.
  pose proof (rect3_plane H3 HC) as H2.
  pose proof (rect2_row H2 HH) as H1.
  destruct Ha as [La _], H3 as [L3 _], H2 as [L2 _].
  destruct a as [|img a']; cbn [length nth hd] in *; [lia|].
  destruct img as [|pl img']; cbn [length nth hd] in *; [lia|].
  destruct pl as [|row pl']; cbn [length nth hd] in *; [lia|].
  now subst.
Qed.

(** ** One write of the scatter *)

Lemma upd3_rect (C H W : nat) (img : @arr3 F) c h w v :
  rect3 C H W img -> rect3 C H W (upd3 img c h w v).
Proof.
  intros [Li Fi]. unfold upd3. split.
  - now rewrite upd_length.
  - apply Forall_upd; auto. intros pl [Lp Fp]. split.
    + now rewrite upd_length.
    + apply Forall_upd; auto. intros row Lr. now rewrite upd_length.
Qed.

Lemma upd3_get (C H W : nat) (img : @arr3 F) c' h' w' v c h w :
  rect3 C H W img -> (c < C)%nat -> (h < H)%nat -> (w < W)%nat ->
  get3 (upd3 img c' h' w' v) c h w
  = if ((c' =? c) && (h' =? h) && (w' =? w))%nat
    then add (get3 img c h w) v else get3 img c h w.
Proof.
  intros Hi Hc Hh Hw. unfold get3, upd3.
  pose proof (rect3_plane Hi Hc) as Hp.
  pose proof (rect2_row Hp Hh) as Hr.
  destruct Hi as [Li _], Hp as [Lp _].
  destruct (Nat.eqb_spec c' c) as [->|Nc]; simpl.
  2:{ now rewrite upd_nth_other. }
  rewrite upd_nth_same by lia.
  destruct (Nat.eqb_spec h' h) as [->|Nh]; simpl.
  2:{ now rewrite upd_nth_other. }
  rewrite upd_nth_same by lia.
  destruct (Nat.eqb_spec w' w) as [->|Nw]; simpl.
  2:{ now rewrite upd_nth_other. }
  now rewrite upd_nth_same by lia.
Qed.

(** ** The whole scatter of one sample *)

Section Scatter.
Variables (C Hp Wp : nat) (k : list Z) (i j : list (list Z)) (val : nat -> nat -> F).

Lemma fold_step_rect (ps : list (nat * nat)) (img : @arr3 F) :
  rect3 C Hp Wp img -> rect3 C Hp Wp (fold_left (step C Hp Wp k i j val) ps img).
Proof.
  revert img. induction ps as [|[r l] ps IH]; intros img Hi; simpl; auto.
  apply IH. now apply upd3_rect.
Qed.

Lemma fold_step_get (ps : list (nat * nat)) (img : @arr3 F) c h w :
  rect3 C Hp Wp img -> (c < C)%nat -> (h < Hp)%nat -> (w < Wp)%nat ->
  get3 (fold_left (step C Hp Wp k i j val) ps img) c h w
  = fold_left add (map (fun p => val (fst p) (snd p)) (filter (hits C Hp Wp k i j c h w) ps))
      (get3 img c h w).
Proof.
  revert img. induction ps as [|[r l] ps IH]; intros img Hi Hc Hh Hw; simpl; auto.
  rewrite IH by (auto using upd3_rect).
  rewrite (upd3_get _ _ _ _ Hi Hc Hh Hw).
  destruct ((idx_k C k r =? c) && (idx_ij Hp i r l =? h) && (idx_ij Wp j r l =? w))%nat;
    reflexivity.
Qed.

Lemma scatter_add_fold R L img :
  scatter_add C Hp Wp k i j val R L img = fold_left (step C Hp Wp k i j val) (grid R L) img.
Proof. reflexivity. Qed.

End Scatter.
End Shapes.

Lemma forallb_tab {A} (p : A -> bool) (n : nat) (f : nat -> A) :
  (forall i, (i < n)%nat -> p (f i) = true) -> forallb p (tab n f) = true.
Proof.
  intros Hf. apply forallb_forall. intros x Hx. unfold tab in Hx.
  apply in_map_iff in Hx. destruct Hx as [i [<- Hi]]. apply in_seq in Hi.
  apply Hf. lia.
Qed.

Lemma in_bounds_nat (len v : nat) : (v < len)%nat -> in_bounds len (Z.of_nat v) = true.
Proof.
  intros Hv. unfold in_bounds. apply andb_true_iff. split.
  - apply Z.leb_le. lia.
  - apply Z.ltb_lt. lia.
Qed.

Lemma norm_index_nat (len v : nat) : norm_index len (Z.of_nat v) = v.
Proof.
  unfold norm_index. destruct (Z.ltb_spec (Z.of_nat v) 0); [lia|]. apply Nat2Z.id.
Qed.

Lemma enumerate_tab {A B} (g : nat * A -> B) (a : list A) (d : A) :
  map g (combine (seq 0 (length a)) a) = tab (length a) (fun n => g (n, nth n a d)).
Proof.
  apply nth_ext with (d := g (O, d)) (d' := g (O, d)).
  - now rewrite length_map, length_combine, length_seq, tab_length, Nat.min_id.
  - intros n Hn.
    rewrite length_map, length_combine, length_seq, Nat.min_id in Hn.
    rewrite tab_nth by assumption.
    rewrite (map_nth g), combine_nth by (now rewrite length_seq).
    now rewrite seq_nth.
Qed.

Section Geometry.
Context {F : Type} {AF : Arith F}.
Variable g : geometry.
Hypothesis Hg : geometry_ok g.

Lemma n_rows_pos : (0 < n_rows g)%nat.
Proof. destruct Hg as (? & ? & ? & ? & _). unfold n_rows. nia. Qed.

Lemma out_h_pos : (0 < out_h g)%nat.
Proof. unfold out_h. lia. Qed.

Lemma out_w_pos : (0 < out_w g)%nat.
Proof. unfold out_w. lia. Qed.

Lemma k_of_lt r : (r < n_rows g)%nat -> (k_of g r < chans g)%nat.
Proof.
  unfold n_rows, k_of. intros Hr. apply Nat.Div0.div_lt_upper_bound. lia.
Qed.

Lemma span_h : (stride_h g * (out_h g - 1) + field_h g <= padded_h g)%nat.
Proof.
  destruct Hg as (_ & _ & _ & _ & Hs & _ & Hf & _). unfold out_h.
  pose proof (Nat.Div0.mul_div_le (padded_h g - field_h g) (stride_h g)). lia.
Qed.

Lemma span_w : (stride_w g * (out_w g - 1) + field_w g <= padded_w g)%nat.
Proof.
  destruct Hg as (_ & _ & _ & _ & _ & Hs & _ & Hf & _). unfold out_w.
  pose proof (Nat.Div0.mul_div_le (padded_w g - field_w g) (stride_w g)). lia.
Qed.

Lemma field_row_lt r : (r mod (field_h g * field_w g) / field_w g < field_h g)%nat.
Proof.
  destruct Hg as (_ & _ & Hfh & Hfw & _).
  apply Nat.Div0.div_lt_upper_bound.
  replace (field_w g * field_h g)%nat with (field_h g * field_w g)%nat by lia.
  apply Nat.mod_upper_bound. nia.
Qed.

Lemma field_col_lt r : (r mod field_w g < field_w g)%nat.
Proof.
  destruct Hg as (_ & _ & _ & Hfw & _). apply Nat.mod_upper_bound. lia.
Qed.

Lemma i_of_lt r l : (l < n_locs g)%nat -> (i_of g r l < padded_h g)%nat.
Proof.
  unfold n_locs, i_of. intros Hl.
  pose proof (field_row_lt r) as A1.
  assert (A2 : (l / out_w g < out_h g)%nat)
    by (apply Nat.Div0.div_lt_upper_bound; lia).
  pose proof span_h as A3. nia.
Qed.

Lemma j_of_lt r l : (j_of g r l < padded_w g)%nat.
Proof.
  unfold j_of.
  pose proof (field_col_lt r) as A1.
  pose proof out_w_pos as Hw.
  assert (A2 : (l mod out_w g < out_w g)%nat) by (apply Nat.mod_upper_bound; lia).
  pose proof span_w as A3. nia.
Qed.

Lemma idx_k_tab r : (r < n_rows g)%nat -> idx_k (chans g) (grid_k g) r = k_of g r.
Proof. intros Hr. unfold idx_k, grid_k. now rewrite tab_nth, norm_index_nat. Qed.

Lemma idx_i_tab r l :
  (r < n_rows g)%nat -> (l < n_locs g)%nat -> idx_ij (padded_h g) (grid_i g) r l = i_of g r l.
Proof.
  intros Hr Hl. unfold idx_ij, grid_i.
  rewrite !tab_nth by assumption. apply norm_index_nat.
Qed.

Lemma idx_j_tab r l :
  (r < n_rows g)%nat -> (l < n_locs g)%nat -> idx_ij (padded_w g) (grid_j g) r l = j_of g r l.
Proof.
  intros Hr Hl. unfold idx_ij, grid_j.
  rewrite !tab_nth by assumption. apply norm_index_nat.
Qed.

Lemma padded_h_pos : (0 < padded_h g)%nat.
Proof. destruct Hg as (_ & _ & ? & _ & _ & _ & ? & _). lia. Qed.

Lemma indices_ok_tab (a : @arr4 F) :
  rect4 (batch g) (chans g) (padded_h g) (padded_w g) a -> indices_ok a (grid_k g) (grid_i g) (grid_j g) = true.
Proof.
  intros Ha. unfold indices_ok.
  pose proof padded_h_pos. destruct Hg as (HN & HC & _).
  rewrite (shape4_rect Ha) by lia. rewrite !Nat2Z.id.
  rewrite !andb_true_iff. repeat split.
  - apply forallb_tab. intros r Hr. apply in_bounds_nat. now apply k_of_lt.
  - apply forallb_tab. intros r Hr. apply forallb_tab. intros l Hl.
    apply in_bounds_nat. now apply i_of_lt.
  - apply forallb_tab. intros r Hr. apply forallb_tab. intros l Hl.
    apply in_bounds_nat. now apply j_of_lt.
Qed.

Lemma grid_k_length : length (grid_k g) = n_rows g.
Proof. apply tab_length. Qed.

Lemma hd_grid_i_length : length (hd [] (grid_i g)) = n_locs g.
Proof.
  pose proof n_rows_pos as HR. unfold grid_i, tab at 1.
  destruct (n_rows g) as [|R']; [lia|]. simpl. apply tab_length.
Qed.


(** ** The pieces of [col2im_indices] *)

Lemma np_zeros4_nat (n c h w : nat) :
  np_zeros4 (Z.of_nat n) (Z.of_nat c) (Z.of_nat h) (Z.of_nat w)
  = Ok (repeat (repeat (repeat (repeat (zero : F) w) h) c) n).
Proof.
  unfold np_zeros4.
  destruct (Z.ltb_spec (Z.of_nat n) 0); [lia|].
  destruct (Z.ltb_spec (Z.of_nat c) 0); [lia|].
  destruct (Z.ltb_spec (Z.of_nat h) 0); [lia|].
  destruct (Z.ltb_spec (Z.of_nat w) 0); [lia|].
  simpl. now rewrite !Nat2Z.id.
Qed.

Lemma Forall_repeat_intro {A} (P : A -> Prop) (x : A) (n : nat) :
  P x -> Forall P (repeat x n).
Proof. intros Hx. induction n; simpl; auto. Qed.

Lemma zeros_rect (n c h w : nat) :
  rect4 n c h w (repeat (repeat (repeat (repeat (zero : F) w) h) c) n).
Proof.
  split; [apply repeat_length|]. apply Forall_repeat_intro.
  split; [apply repeat_length|]. apply Forall_repeat_intro.
  split; [apply repeat_length|]. apply Forall_repeat_intro.
  apply repeat_length.
Qed.

Lemma zeros_get (c h w : nat) (a b d : nat) :
  (a < c)%nat -> (b < h)%nat -> (d < w)%nat ->
  get3 (repeat (repeat (repeat (zero : F) w) h) c) a b d = zero.
Proof.
  intros Ha Hb Hd. unfold get3.
  now rewrite !nth_repeat_lt by assumption.
Qed.

Lemma np_reshape3_ok (a m n : nat) (flat : list F) :
  (0 < a)%nat -> (0 < n)%nat -> length flat = (a * m * n)%nat ->
  np_reshape3 (Z.of_nat a) (Z.of_nat n) flat
  = Ok (m, tab a (fun q => tab m (fun p => chunk n (q * m + p) flat))).
Proof.
  intros Ha Hn Hlen. unfold np_reshape3.
  destruct (Z.ltb_spec (Z.of_nat a) 0); [lia|].
  destruct (Z.ltb_spec (Z.of_nat n) 0); [lia|].
  destruct (Z.eqb_spec (Z.of_nat a * Z.of_nat n) 0); [nia|].
  simpl orb. cbv iota. rewrite !Nat2Z.id, Hlen.
  replace (a * m * n)%nat with (m * (a * n))%nat by lia.
  rewrite Nat.Div0.mod_mul, Nat.div_mul by nia. reflexivity.
Qed.

Lemma reshaped_get (a m n : nat) (cols : @arr2 F) (q p i : nat) :
  rect2 a (m * n) cols -> (q < a)%nat -> (p < m)%nat -> (i < n)%nat ->
  get3 (transpose_201 a m n
          (tab a (fun q => tab m (fun p => chunk n (q * m + p) (ravel2 cols))))) i q p
  = get2 cols q (p * n + i).
Proof.
  intros [Hl Hu] Hq Hp Hi. unfold transpose_201, get3 at 1.
  rewrite !tab_nth by assumption. unfold get3.
  rewrite !tab_nth by assumption. rewrite chunk_nth by assumption.
  unfold ravel2, get2.
  replace ((q * m + p) * n + i)%nat with (q * (m * n) + (p * n + i))%nat by lia.
  apply concat_uniform_nth; auto; [lia | nia].
Qed.

(** Python's [plane[p:-p]] on a side of [n + 2 p] entries. *)
Lemma slice_trim {A} (p n : nat) (l : list A) :
  (0 < p)%nat -> length l = (n + 2 * p)%nat ->
  slice (Z.of_nat p) (- Z.of_nat p) l = firstn n (skipn p l).
Proof.
  intros Hp Hl. unfold slice, clamp_index. rewrite Hl.
  destruct (Z.ltb_spec (Z.of_nat p) 0); [lia|].
  destruct (Z.ltb_spec (- Z.of_nat p) 0); [|lia].
  replace (Z.to_nat (Z.max 0 (Z.min (Z.of_nat p) (Z.of_nat (n + 2 * p))))) with p by lia.
  replace (Z.to_nat (Z.max 0 (Z.min (- Z.of_nat p + Z.of_nat (n + 2 * p))
                                (Z.of_nat (n + 2 * p))))) with (n + p)%nat by lia.
  f_equal. lia.
Qed.

Lemma trimmed_row_length {A} (p n : nat) (l : list A) :
  length l = (n + 2 * p)%nat -> length (firstn n (skipn p l)) = n.
Proof. intros Hl. rewrite length_firstn, length_skipn. lia. Qed.

Lemma trimmed_nth {A} (p n i : nat) (l : list A) (d : A) :
  (i < n)%nat -> nth i (firstn n (skipn p l)) d = nth (p + i) l d.
Proof.
  intros Hi. rewrite nth_firstn, nth_skipn.
  apply Nat.ltb_lt in Hi. now rewrite Hi.
Qed.


Lemma nth_map_lt {A B} (f : A -> B) (l : list A) (i : nat) (d : A) (d' : B) :
  (i < length l)%nat -> nth i (map f l) d' = f (nth i l d).
Proof.
  intros Hi. rewrite (nth_indep _ d' (f d)) by (now rewrite length_map).
  apply map_nth.
Qed.

Lemma Forall_skipn_intro {A} (P : A -> Prop) (p : nat) (l : list A) :
  Forall P l -> Forall P (skipn p l).
Proof.
  intros HF. revert p. induction HF; intros [|p]; simpl; auto.
Qed.

Lemma Forall_firstn_intro {A} (P : A -> Prop) (n : nat) (l : list A) :
  Forall P l -> Forall P (firstn n l).
Proof.
  intros HF. revert n. induction HF; intros [|n]; simpl; auto.
Qed.

Lemma trimmed_plane (plane : @arr2 F) :
  (0 < pad_h g)%nat -> (0 < pad_w g)%nat ->
  rect2 (padded_h g) (padded_w g) plane ->
  map (slice (Z.of_nat (pad_w g)) (- Z.of_nat (pad_w g)))
      (slice (Z.of_nat (pad_h g)) (- Z.of_nat (pad_h g)) plane)
  = map (fun row => firstn (width g) (skipn (pad_w g) row))
        (firstn (height g) (skipn (pad_h g) plane)).
Proof.
  intros Hph Hpw [Hl Hu].
  rewrite slice_trim with (n := height g) by (unfold padded_h in Hl; lia).
  apply map_ext_in. intros row Hrow.
  apply slice_trim; auto. fold (padded_w g).
  assert (HF : Forall (fun row => length row = padded_w g)
                 (firstn (height g) (skipn (pad_h g) plane)))
    by (apply Forall_firstn_intro, Forall_skipn_intro; exact Hu).
  rewrite Forall_forall in HF. rewrite (HF _ Hrow). reflexivity.
Qed.

Lemma trimmed_plane_rect (plane : @arr2 F) :
  rect2 (padded_h g) (padded_w g) plane ->
  rect2 (height g) (width g)
    (map (fun row => firstn (width g) (skipn (pad_w g) row))
         (firstn (height g) (skipn (pad_h g) plane))).
Proof.
  intros [Hl Hu]. split.
  - rewrite length_map. apply trimmed_row_length. exact Hl.
  - apply Forall_map.
    apply Forall_impl with (P := fun row => length row = padded_w g).
    + intros row Hr. now apply trimmed_row_length.
    + now apply Forall_firstn_intro, Forall_skipn_intro.
Qed.

Lemma trimmed_plane_get (plane : @arr2 F) (h w : nat) :
  rect2 (padded_h g) (padded_w g) plane ->
  (h < height g)%nat -> (w < width g)%nat ->
  get2 (map (fun row => firstn (width g) (skipn (pad_w g) row))
            (firstn (height g) (skipn (pad_h g) plane))) h w
  = get2 plane (pad_h g + h) (pad_w g + w).
Proof.
  intros [Hl Hu] Hh Hw. unfold get2.
  rewrite nth_map_lt with (d := [])
    by (rewrite trimmed_row_length; [exact Hh | exact Hl]).
  now rewrite !trimmed_nth.
Qed.

Lemma trimmed_spec (xp : @arr4 F) :
  rect4 (batch g) (chans g) (padded_h g) (padded_w g) xp ->
  rect4 (batch g) (chans g) (height g) (width g) (trimmed g xp)
  /\ forall n c h w,
       (n < batch g)%nat -> (c < chans g)%nat ->
       (h < height g)%nat -> (w < width g)%nat ->
       get4 (trimmed g xp) n c h w = get4 xp n c (pad_h g + h) (pad_w g + w).
Proof.
  intros Hx. unfold trimmed.
  destruct Hg as (_ & _ & _ & _ & _ & _ & _ & _ & Hpad).
  destruct (Nat.eq_dec (pad_h g) 0) as [E|E].
  - assert (E' : pad_w g = 0%nat) by tauto.
    unfold padded_h, padded_w in Hx. rewrite E, E' in *. simpl.
    rewrite !Nat.add_0_r in Hx. split; auto.
  - assert (E' : pad_w g <> 0%nat) by tauto.
    destruct (Z.eqb_spec (Z.of_nat (pad_h g)) 0) as [Z1|Z1]; [lia|].
    destruct (Z.eqb_spec (Z.of_nat (pad_w g)) 0) as [Z2|Z2]; [lia|]. simpl.
    destruct Hx as [Hl Hx]. split.
    + split; [now rewrite length_map|].
      apply Forall_map. eapply Forall_impl; [|exact Hx].
      intros img [Li Hi]. split; [now rewrite length_map|].
      apply Forall_map. eapply Forall_impl; [|exact Hi].
      intros plane Hp. rewrite trimmed_plane by (auto; lia).
      now apply trimmed_plane_rect.
    + intros n c h w Hn Hc Hh Hw. unfold get4, get3.
      pose proof (rect4_img (conj Hl Hx) Hn) as H3.
      pose proof (rect3_plane H3 Hc) as H2.
      rewrite nth_map_lt with (d := []) by lia.
      rewrite nth_map_lt with (d := []) by (destruct H3; lia).
      rewrite trimmed_plane by (auto; lia).
      now apply trimmed_plane_get.
Qed.

End Geometry.

Section Geometry.
Context {F : Type} {AF : Arith F}.
Variable g : geometry.
Hypothesis Hg : geometry_ok g.

Lemma hits_covers (c h w : nat) (p : nat * nat) :
  In p (grid (n_rows g) (n_locs g)) ->
  hits (chans g) (padded_h g) (padded_w g) (grid_k g) (grid_i g) (grid_j g)
       c (pad_h g + h) (pad_w g + w) p
  = covers g c h w p.
Proof.
  destruct p as [r l]. unfold grid. rewrite in_prod_iff, !in_seq.
  intros [Hr Hl]. unfold hits, covers. simpl fst. simpl snd.
  rewrite idx_k_tab, idx_i_tab, idx_j_tab by lia.
  now rewrite (Nat.add_comm h), (Nat.add_comm w).
Qed.

Lemma col2im_indices_sum (cols : @arr2 F) :
  rect2 (n_rows g) (n_locs g * batch g) cols ->
  exists res,
    col2im_indices cols (x_shape g) (Z.of_nat (field_h g)) (Z.of_nat (field_w g))
      (padding g) (stride g) = Ok res
    /\ rect4 (batch g) (chans g) (height g) (width g) res
    /\ forall n c h w,
         (n < batch g)%nat -> (c < chans g)%nat ->
         (h < height g)%nat -> (w < width g)%nat ->
         get4 res n c h w
         = fold_left add
             (map (fun p => get2 cols (fst p) (snd p * batch g + n)) (covering g c h w))
             zero.
Proof.
  intros Hc.
  pose proof (get_im2col_indices_tab Hg) as EI.
  pose proof (n_rows_pos Hg) as HR.
  pose proof (padded_h_pos Hg) as HHp.
  destruct Hg as (HN & HC & Hfh & Hfw & Hsh & Hsw & Hh & Hw & Hpad).
  unfold col2im_indices, x_shape, padding, stride in *.
  replace (Z.of_nat (height g) + 2 * Z.of_nat (pad_h g))
    with (Z.of_nat (padded_h g)) by (unfold padded_h; lia).
  replace (Z.of_nat (width g) + 2 * Z.of_nat (pad_w g))
    with (Z.of_nat (padded_w g)) by (unfold padded_w; lia).
  rewrite np_zeros4_nat. cbn [bind]. rewrite EI. cbn [bind].
  replace (Z.of_nat (chans g) * Z.of_nat (field_h g) * Z.of_nat (field_w g))
    with (Z.of_nat (n_rows g)) by (unfold n_rows; lia).
  rewrite np_reshape3_ok with (m := n_locs g).
  2: exact HR. 2: exact HN.
  2:{ unfold ravel2. destruct Hc as [Hl Hu].
      rewrite (concat_uniform_length Hu), Hl. lia. }
  cbn [bind]. rewrite !Nat2Z.id.
  fold (grid_k g) (grid_i g) (grid_j g).
  unfold np_add_at.
  rewrite (shape4_rect (zeros_rect _ _ _ _)) by lia. rewrite !Nat2Z.id.
  rewrite (grid_k_length g), (hd_grid_i_length Hg), !Nat.eqb_refl. cbn [orb andb guard bind].
  rewrite (indices_ok_tab Hg) by apply zeros_rect. cbn [guard bind].
  match goal with |- context [ Ok (map ?f (combine ?s ?a)) ] =>
    set (xp := map f (combine s a)) end.
  exists (trimmed g xp). split.
  { unfold trimmed.
    now destruct (negb (Z.of_nat (pad_h g) =? 0) || negb (Z.of_nat (pad_w g) =? 0)). }
  assert (Hxp : rect4 (batch g) (chans g) (padded_h g) (padded_w g) xp).
  { subst xp. split.
    - now rewrite length_map, length_combine, length_seq, repeat_length, Nat.min_id.
    - apply Forall_forall. intros img Hin. apply in_map_iff in Hin.
      destruct Hin as [[n z] [<- Hin]]. apply in_combine_r in Hin.
      apply repeat_spec in Hin. subst z.
      rewrite scatter_add_fold. apply fold_step_rect.
      destruct (zeros_rect (F:=F) 1 (chans g) (padded_h g) (padded_w g)) as [_ Hz].
      now inversion Hz. }
  destruct (trimmed_spec Hg Hxp) as [Hrect Hget]. split; [exact Hrect|].
  intros n c h w Hn Hcc Hhh Hww. rewrite Hget by assumption.
  subst xp. unfold get4.
  unfold arr4, arr3, arr2 in *.
  rewrite enumerate_tab with (d := []). rewrite repeat_length.
  rewrite tab_nth by assumption.
  rewrite nth_repeat_lt by assumption.
  rewrite scatter_add_fold.
  rewrite fold_step_get with (C := chans g) (Hp := padded_h g) (Wp := padded_w g).
  2:{ destruct (zeros_rect (F:=F) 1 (chans g) (padded_h g) (padded_w g)) as [_ Hz].
      now inversion Hz. }
  2: assumption. 2: (unfold padded_h; lia). 2: (unfold padded_w; lia).
  rewrite zeros_get by (unfold padded_h, padded_w; lia).
  unfold covering.
  rewrite (filter_ext_in _ (covers g c h w)) by (intros p Hp; now apply hits_covers).
  f_equal. apply map_ext_in. intros [r l] Hin.
  apply filter_In in Hin. destruct Hin as [Hin _].
  unfold grid in Hin. rewrite in_prod_iff, !in_seq in Hin. destruct Hin as [Hr Hl].
  simpl fst. simpl snd.
  assert (P1 : (if (n_rows g =? 1)%nat then 0%nat else r) = r)
    by (destruct (Nat.eqb_spec (n_rows g) 1); lia).
  assert (P2 : (if (n_locs g =? 1)%nat then 0%nat else l) = l)
    by (destruct (Nat.eqb_spec (n_locs g) 1); lia).
  rewrite P1, P2.
  apply reshaped_get; auto; lia.
Qed.

End Geometry.

Section Geometry.
Context {F : Type} {AF : Arith F}.
Variable g : geometry.
Hypothesis Hg : geometry_ok g.
Hypothesis Hh : (0 < height g)%nat.

Variable x : @arr4 F.
Hypothesis Hx : rect4 (batch g) (chans g) (height g) (width g) x.

Lemma shape4_x : shape4 x = x_shape g.
Proof.
  destruct Hg as (HN & HC & _). unfold x_shape. now apply shape4_rect.
Qed.

Lemma np_pad4_padded :
  np_pad4 x (Z.of_nat (pad_h g)) (Z.of_nat (pad_w g)) = Ok (padded g x).
Proof.
  unfold np_pad4, padded. rewrite shape4_x. unfold x_shape.
  destruct (Z.ltb_spec (Z.of_nat (pad_h g)) 0); [lia|].
  destruct (Z.ltb_spec (Z.of_nat (pad_w g)) 0); [lia|]. simpl orb. cbv iota.
  replace (Z.to_nat (Z.of_nat (width g) + 2 * Z.of_nat (pad_w g)))
    with (padded_w g) by (unfold padded_w; lia).
  now rewrite !Nat2Z.id.
Qed.

Lemma padded_plane_rect (plane : @arr2 F) :
  rect2 (height g) (width g) plane ->
  rect2 (padded_h g) (padded_w g)
    (repeat (repeat zero (padded_w g)) (pad_h g)
     ++ map (fun row => repeat zero (pad_w g) ++ row ++ repeat zero (pad_w g)) plane
     ++ repeat (repeat zero (padded_w g)) (pad_h g)).
Proof.
  intros [Hl Hu]. split.
  - rewrite !length_app, length_map, !repeat_length, Hl. unfold padded_h. lia.
  - rewrite !Forall_app. repeat split.
    + apply Forall_repeat_intro, repeat_length.
    + apply Forall_map. eapply Forall_impl; [|exact Hu].
      intros row Hr. cbv beta.
      rewrite !length_app, !repeat_length, Hr. unfold padded_w. lia.
    + apply Forall_repeat_intro, repeat_length.
Qed.

Lemma padded_rect : rect4 (batch g) (chans g) (padded_h g) (padded_w g) (padded g x).
Proof.
  destruct Hx as [Hl HF]. unfold padded. split; [now rewrite length_map|].
  apply Forall_map. eapply Forall_impl; [|exact HF].
  intros img [Li Hi]. split; [now rewrite length_map|].
  apply Forall_map. eapply Forall_impl; [|exact Hi].
  intros plane Hp. now apply padded_plane_rect.
Qed.

Lemma padded_get (n c h w : nat) :
  (n < batch g)%nat -> (c < chans g)%nat -> (h < height g)%nat -> (w < width g)%nat ->
  get4 (padded g x) n c (pad_h g + h) (pad_w g + w) = get4 x n c h w.
Proof.
  intros Hn Hc Hhh Hw. unfold padded, get4, get3.
  pose proof (rect4_img Hx Hn) as H3.
  pose proof (rect3_plane H3 Hc) as H2.
  pose proof (rect2_row H2 Hhh) as H1.
  destruct Hx as [Lx _], H3 as [L3 _], H2 as [L2 _].
  rewrite nth_map_lt with (d := []) by lia.
  rewrite nth_map_lt with (d := []) by lia.
  rewrite app_nth2; rewrite repeat_length; [|lia].
  replace (pad_h g + h - pad_h g)%nat with h by lia.
  rewrite app_nth1 by (rewrite length_map; lia).
  rewrite nth_map_lt with (d := []) by lia.
  rewrite app_nth2; rewrite repeat_length; [|lia].
  replace (pad_w g + w - pad_w g)%nat with w by lia.
  now rewrite app_nth1 by lia.
Qed.

Lemma np_reshape2_rows (R W : nat) (rows : @arr2 F) :
  (0 < R)%nat -> rect2 R W rows ->
  np_reshape2 (Z.of_nat R) (ravel2 rows) = Ok rows.
Proof.
  intros HR [Hl Hu]. unfold np_reshape2, ravel2.
  destruct (Z.leb_spec (Z.of_nat R) 0); [lia|].
  rewrite Nat2Z.id, (concat_uniform_length Hu), Hl.
  replace (R * W)%nat with (W * R)%nat by lia.
  rewrite Nat.Div0.mod_mul, Nat.div_mul by lia. simpl negb. cbv iota.
  f_equal. transitivity (tab (length rows) (fun q => nth q rows [])); [|apply tab_self].
  rewrite Hl. apply tab_ext. intros q Hq. apply chunk_concat; auto. lia.
Qed.

Lemma im2col_indices_spec :
  exists cols,
    im2col_indices x (Z.of_nat (field_h g)) (Z.of_nat (field_w g))
      (APair (padding g)) (APair (stride g)) = Ok cols
    /\ rect2 (n_rows g) (n_locs g * batch g) cols
    /\ forall r l n,
         (r < n_rows g)%nat -> (l < n_locs g)%nat -> (n < batch g)%nat ->
         get2 cols r (l * batch g + n)
         = get4 (padded g x) n (k_of g r) (i_of g r l) (j_of g r l).
Proof.
  pose proof (get_im2col_indices_tab Hg) as EI.
  pose proof (n_rows_pos Hg) as HR.
  pose proof (padded_h_pos Hg) as HHp.
  pose proof padded_rect as Hp.
  pose proof Hg as (HN & HC & _).
  unfold im2col_indices, as_pair.
  unfold padding at 1. unfold stride at 1.
  rewrite np_pad4_padded. cbn [bind].
  rewrite shape4_x, EI. cbn [bind].
  fold (grid_k g) (grid_i g) (grid_j g).
  unfold fancy_gather. rewrite (shape4_rect Hp) by lia.
  rewrite (indices_ok_tab Hg Hp), !Nat2Z.id.
  rewrite (grid_k_length g), (hd_grid_i_length Hg). cbn [bind].
  unfold x_shape.
  replace (Z.of_nat (field_h g) * Z.of_nat (field_w g) * Z.of_nat (chans g))
    with (Z.of_nat (n_rows g)) by (unfold n_rows; lia).
  destruct Hx as [Lx _]. rewrite Lx.
  match goal with |- context [transpose_120 _ _ _ ?c] => set (cols3 := c) end.
  set (t := transpose_120 (batch g) (n_rows g) (n_locs g) cols3).
  assert (Ht : rect3 (n_rows g) (n_locs g) (batch g) t).
  { subst t. unfold transpose_120. split; [apply tab_length|].
    apply Forall_tab. intros r Hr. split; [apply tab_length|].
    apply Forall_tab. intros l Hl. apply tab_length. }
  assert (Hrows : rect2 (n_rows g) (n_locs g * batch g) (map (@concat F) t)).
  { destruct Ht as [Lt Ft]. split; [now rewrite length_map|].
    apply Forall_map. eapply Forall_impl; [|exact Ft].
    intros pl [Lp Fp]. cbv beta. now rewrite (concat_uniform_length Fp), Lp. }
  exists (map (@concat F) t). split; [|split].
  - unfold ravel3. now apply np_reshape2_rows with (W := (n_locs g * batch g)%nat).
  - exact Hrows.
  - intros r l n Hr Hl Hn. unfold get2.
    destruct Ht as [Lt Ft].
    rewrite nth_map_lt with (d := []) by lia.
    assert (Hpl : rect2 (n_locs g) (batch g) (nth r t []))
      by (apply Forall_nth_lt; [exact Ft | lia]).
    destruct Hpl as [Lp Fp].
    rewrite concat_uniform_nth by (auto; lia).
    subst t. unfold transpose_120. rewrite !tab_nth by assumption.
    subst cols3. unfold get3 at 1.
    destruct Hp as [Lpad _]. unfold arr4, arr3, arr2 in *.
    rewrite nth_map_lt with (d := []) by lia.
    rewrite !tab_nth by assumption.
    rewrite idx_k_tab, idx_i_tab, idx_j_tab by assumption. reflexivity.
Qed.

End Geometry.

Lemma NoDup_list_prod {A B} (l : list A) (l' : list B) :
  NoDup l -> NoDup l' -> NoDup (list_prod l l').
Proof.
  intros Hl Hl'. induction Hl as [|x l Hx Hl IH]; simpl; [constructor|].
  apply NoDup_app.
  - clear -Hl'. induction Hl' as [|y l' Hy Hl' IH]; simpl; constructor; auto.
    intros Hin. apply in_map_iff in Hin. destruct Hin as [y' [E Hin]].
    inversion E. subst. contradiction.
  - exact IH.
  - intros [a b] Hin1 Hin2. apply in_map_iff in Hin1.
    destruct Hin1 as [y [E _]]. inversion E. subst.
    apply in_prod_iff in Hin2. tauto.
Qed.

Lemma filter_singleton {A} (p : A -> bool) (l : list A) (a : A) :
  NoDup l -> In a l -> p a = true ->
  (forall b, In b l -> p b = true -> b = a) ->
  filter p l = [a].
Proof.
  intros Hnd. induction Hnd as [|x l Hx Hnd IH]; intros Hin Hpa Huniq; [destruct Hin|].
  simpl. destruct Hin as [->|Hin].
  - rewrite Hpa. f_equal.
    destruct (filter p l) as [|b t] eqn:E; auto.
    assert (Hb : In b (filter p l)) by (rewrite E; now left).
    apply filter_In in Hb. destruct Hb as [Hb1 Hb2].
    assert (b = a) by (apply Huniq; [now right | assumption]).
    subst. contradiction.
  - destruct (p x) eqn:Epx.
    + assert (x = a) by (apply Huniq; [now left | assumption]).
      subst. contradiction.
    + apply IH; auto. intros b Hb. apply Huniq. now right.
Qed.

Section Cover.
Variable g : geometry.
Hypothesis Hg : geometry_ok g.
Hypothesis Ht : tiles g.

Variables c h w : nat.
Hypothesis Hc : (c < chans g)%nat.
Hypothesis Hh : (h < height g)%nat.
Hypothesis Hw : (w < width g)%nat.

Lemma tile_facts :
  ((h + pad_h g) mod stride_h g < field_h g
   /\ (h + pad_h g) / stride_h g < out_h g
   /\ (w + pad_w g) mod stride_w g < field_w g
   /\ (w + pad_w g) / stride_w g < out_w g
   /\ field_h g <= stride_h g /\ field_w g <= stride_w g)%nat.
Proof.
  destruct Ht as [[Hf1 T1] [Hf2 T2]].
  destruct (T1 (h + pad_h g)%nat) as [A1 A2]; [lia|].
  destruct (T2 (w + pad_w g)%nat) as [B1 B2]; [lia|].
  tauto.
Qed.

Lemma the_row_lt : ((the_row g c h w) < n_rows g)%nat.
Proof.
  destruct tile_facts as (A1 & A2 & B1 & B2 & _).
  unfold the_row, n_rows.
  pose proof (Nat.mul_le_mono_r _ _ (field_w g) A1) as M1.
  pose proof (Nat.mul_le_mono_r _ _ (field_h g * field_w g) Hc) as M2.
  lia.
Qed.

Lemma the_loc_lt : ((the_loc g h w) < n_locs g)%nat.
Proof.
  destruct tile_facts as (A1 & A2 & B1 & B2 & _).
  unfold the_loc, n_locs.
  pose proof (Nat.mul_le_mono_r _ _ (out_w g) A2) as M1.
  lia.
Qed.

Lemma the_row_k : k_of g (the_row g c h w) = c.
Proof.
  destruct tile_facts as (A1 & A2 & B1 & B2 & _).
  unfold k_of, the_row. symmetry.
  apply Nat.div_unique
    with (r := ((h + pad_h g) mod stride_h g * field_w g
                + (w + pad_w g) mod stride_w g)%nat); nia.
Qed.

Lemma the_row_mod :
  ((the_row g c h w) mod (field_h g * field_w g)
   = (h + pad_h g) mod stride_h g * field_w g + (w + pad_w g) mod stride_w g)%nat.
Proof.
  destruct tile_facts as (A1 & A2 & B1 & B2 & _).
  unfold the_row. symmetry.
  apply Nat.mod_unique with (q := c); nia.
Qed.

Lemma the_i : i_of g (the_row g c h w) (the_loc g h w) = (h + pad_h g)%nat.
Proof.
  destruct tile_facts as (A1 & A2 & B1 & B2 & _).
  destruct Hg as (_ & _ & _ & Hfw & Hsh & _).
  unfold i_of. rewrite the_row_mod.
  replace (((h + pad_h g) mod stride_h g * field_w g
            + (w + pad_w g) mod stride_w g) / field_w g)%nat
    with ((h + pad_h g) mod stride_h g)%nat
    by (apply Nat.div_unique with (r := ((w + pad_w g) mod stride_w g)%nat); nia).
  replace ((the_loc g h w) / out_w g)%nat with ((h + pad_h g) / stride_h g)%nat
    by (unfold the_loc;
        apply Nat.div_unique with (r := ((w + pad_w g) / stride_w g)%nat); nia).
  pose proof (Nat.div_mod_eq (h + pad_h g) (stride_h g)). lia.
Qed.

Lemma the_j : j_of g (the_row g c h w) (the_loc g h w) = (w + pad_w g)%nat.
Proof.
  destruct tile_facts as (A1 & A2 & B1 & B2 & _).
  destruct Hg as (_ & _ & _ & Hfw & _ & Hsw & _).
  unfold j_of.
  replace ((the_row g c h w) mod field_w g)%nat with ((w + pad_w g) mod stride_w g)%nat
    by (unfold the_row;
        apply Nat.mod_unique
          with (q := (c * field_h g + (h + pad_h g) mod stride_h g)%nat); nia).
  replace ((the_loc g h w) mod out_w g)%nat with ((w + pad_w g) / stride_w g)%nat
    by (unfold the_loc;
        apply Nat.mod_unique with (q := ((h + pad_h g) / stride_h g)%nat); nia).
  pose proof (Nat.div_mod_eq (w + pad_w g) (stride_w g)). lia.
Qed.

Lemma covers_unique (r l : nat) :
  (r < n_rows g)%nat -> (l < n_locs g)%nat ->
  covers g c h w (r, l) = true -> (r, l) = ((the_row g c h w), (the_loc g h w)).
Proof.
  intros Hr Hl Hcov. unfold covers in Hcov. simpl fst in Hcov. simpl snd in Hcov.
  rewrite !andb_true_iff, !Nat.eqb_eq in Hcov. destruct Hcov as [[Ek Ei] Ej].
  destruct tile_facts as (A1 & A2 & B1 & B2 & F1 & F2).
  pose proof (field_row_lt Hg r) as Ra.
  pose proof (field_col_lt Hg r) as Rb.
  pose proof (out_w_pos g) as Ow.
  destruct Hg as (_ & _ & Hfh & Hfw & Hsh & Hsw & _).
  unfold k_of, i_of, j_of in *.
  set (m := (r mod (field_h g * field_w g))%nat) in *.
  (* the row offset inside the field and the output row are forced *)
  assert (Ey : (l / out_w g = (h + pad_h g) / stride_h g)%nat)
    by (apply Nat.div_unique with (r := (m / field_w g)%nat); lia).
  assert (Ea : (m / field_w g = (h + pad_h g) mod stride_h g)%nat)
    by (apply Nat.mod_unique with (q := (l / out_w g)%nat); lia).
  assert (Ex : (l mod out_w g = (w + pad_w g) / stride_w g)%nat)
    by (apply Nat.div_unique with (r := (r mod field_w g)%nat); lia).
  assert (Eb : (r mod field_w g = (w + pad_w g) mod stride_w g)%nat)
    by (apply Nat.mod_unique with (q := (l mod out_w g)%nat); lia).
  assert (Em : (m mod field_w g = r mod field_w g)%nat).
  { subst m. pose proof (Nat.div_mod_eq r (field_h g * field_w g)) as D.
    rewrite D at 2.
    replace (field_h g * field_w g * (r / (field_h g * field_w g))
             + r mod (field_h g * field_w g))%nat
      with (r mod (field_h g * field_w g)
            + (field_h g * (r / (field_h g * field_w g))) * field_w g)%nat by lia.
    now rewrite Nat.Div0.mod_add. }
  pose proof (Nat.div_mod_eq r (field_h g * field_w g)) as D1. fold m in D1.
  pose proof (Nat.div_mod_eq m (field_w g)) as D2.
  pose proof (Nat.div_mod_eq l (out_w g)) as D3.
  unfold the_row, the_loc. f_equal; nia.
Qed.

Lemma covering_tiles : covering g c h w = [((the_row g c h w), (the_loc g h w))].
Proof.
  unfold covering. apply filter_singleton.
  - apply NoDup_list_prod; apply seq_NoDup.
  - unfold grid. apply in_prod_iff. rewrite !in_seq.
    pose proof the_row_lt. pose proof the_loc_lt. lia.
  - unfold covers. simpl fst. simpl snd.
    now rewrite the_row_k, the_i, the_j, !Nat.eqb_refl.
  - intros [r l] Hin Hcov. unfold grid in Hin.
    apply in_prod_iff in Hin. rewrite !in_seq in Hin.
    apply covers_unique; auto; lia.
Qed.

End Cover.

End PatchFacts.
Module PatchTheorems.
Import Patch PatchFacts Inputs.

Section RoundTrip.
Context {F : Type} {AF : Arith F}.
Variable g : geometry.
Hypothesis Hg : geometry_ok g.

(** Entry [(n, c, h, w)] of [col2im(im2col(x))] is [x[n][c][h][w]] added
    once per covering window. *)
Lemma round_trip_sum (x : @arr4 F) :
  rect4 (batch g) (chans g) (height g) (width g) x -> (0 < height g)%nat ->
  exists res,
    round_trip x (Z.of_nat (field_h g)) (Z.of_nat (field_w g)) (padding g) (stride g)
    = Ok res
    /\ rect4 (batch g) (chans g) (height g) (width g) res
    /\ forall n c h w,
         (n < batch g)%nat -> (c < chans g)%nat ->
         (h < height g)%nat -> (w < width g)%nat ->
         get4 res n c h w
         = fold_left add (map (fun _ => get4 x n c h w) (covering g c h w)) zero.
Proof.
  intros Hx Hh.
  destruct (im2col_indices_spec Hg Hh Hx) as (cols & E1 & Hrect & Hget).
  destruct (col2im_indices_sum Hg Hrect) as (res & E2 & Hres & Hval).
  exists res. split; [|split; [exact Hres|]].
  - unfold round_trip. rewrite E1. cbn [bind]. now rewrite (shape4_x Hg Hh Hx).
  - intros n c h w Hn Hc Hhh Hw. rewrite Hval by assumption.
    f_equal. apply map_ext_in. intros [r l] Hin.
    unfold covering in Hin. apply filter_In in Hin. destruct Hin as [Hin Hcov].
    unfold grid in Hin. apply in_prod_iff in Hin. rewrite !in_seq in Hin.
    unfold covers in Hcov. simpl fst in *. simpl snd in *.
    rewrite !andb_true_iff, !Nat.eqb_eq in Hcov. destruct Hcov as [[Ek Ei] Ej].
    rewrite Hget by lia. rewrite Ek, Ei, Ej.
    rewrite (Nat.add_comm h), (Nat.add_comm w). now apply padded_get.
Qed.

End RoundTrip.

(** C5 (amended).  Inside numpy's domain (non-empty batch, channels and
    field, positive strides, a field that fits the padded image, padding
    zero on both axes or on neither):
    (1) when the windows tile the image, i.e. stride >= field on each axis
    and every row and column of the unpadded image lies in some window,
    [col2im_indices(im2col_indices(x, ...), x.shape, ...)] returns an
    array of the shape of [x] whose every entry is [0 + x[n][c][h][w]],
    which is [x] itself wherever [0 + v = v];
    (2) for every column matrix of the right shape, each entry of the
    [col2im_indices] result is the sum, in C order, of the column entries
    of every window position covering it. *)
Theorem col2im_im2col_round_trip {F : Type} {AF : Arith F} (g : geometry) :
  geometry_ok g ->
  (forall x : @arr4 F,
     rect4 (batch g) (chans g) (height g) (width g) x -> (0 < height g)%nat ->
     tiles g ->
     exists res,
       round_trip x (Z.of_nat (field_h g)) (Z.of_nat (field_w g)) (padding g) (stride g)
       = Ok res
       /\ rect4 (batch g) (chans g) (height g) (width g) res
       /\ (forall n c h w,
             (n < batch g)%nat -> (c < chans g)%nat ->
             (h < height g)%nat -> (w < width g)%nat ->
             get4 res n c h w = add zero (get4 x n c h w))
       /\ ((forall v : F, add zero v = v) -> res = x))
  /\ (forall cols : @arr2 F,
        rect2 (n_rows g) (n_locs g * batch g) cols ->
        exists res,
          col2im_indices cols (x_shape g) (Z.of_nat (field_h g)) (Z.of_nat (field_w g))
            (padding g) (stride g) = Ok res
          /\ rect4 (batch g) (chans g) (height g) (width g) res
          /\ forall n c h w,
               (n < batch g)%nat -> (c < chans g)%nat ->
               (h < height g)%nat -> (w < width g)%nat ->
               get4 res n c h w
               = fold_left add
                   (map (fun p => get2 cols (fst p) (snd p * batch g + n))
                        (covering g c h w))
                   zero).
Proof.
  intros Hg. split.
  - intros x Hx Hh Ht.
    destruct (round_trip_sum Hg Hx Hh) as (res & E & Hres & Hval).
    assert (Hentry : forall n c h w,
               (n < batch g)%nat -> (c < chans g)%nat ->
               (h < height g)%nat -> (w < width g)%nat ->
               get4 res n c h w = add zero (get4 x n c h w)).
    { intros n c h w Hn Hc Hhh Hw. rewrite Hval by assumption.
      rewrite (covering_tiles Hg Ht Hc Hhh Hw). reflexivity. }
    exists res. split; [exact E|]. split; [exact Hres|]. split; [exact Hentry|].
    intros Hadd.
    apply rect4_ext with (N := batch g) (C := chans g) (H := height g) (W := width g);
      auto.
    intros n c h w Hn Hc Hhh Hw. rewrite Hentry by assumption. apply Hadd.
  - intros cols Hc. now apply col2im_indices_sum.
Qed.

Lemma col2im_im2col_round_trip_witness :
  round_trip x_tiles 2 2 (0, 0) (2, 2) = Ok x_tiles.
Proof.
  assert (Hg : geometry_ok g_tiles)
    by (unfold geometry_ok, padded_h, padded_w; simpl; repeat split; lia).
  assert (Hx : rect4 1 1 4 4 x_tiles)
    by (unfold rect4, rect3, rect2; simpl; repeat constructor).
  assert (Ht : tiles g_tiles).
  { unfold tiles, tiles_axis. simpl. split; (split; [lia|]); intros p Hp;
      assert (Hcase : (p = 0 \/ p = 1 \/ p = 2 \/ p = 3)%nat) by lia;
      destruct Hcase as [-> | [-> | [-> | ->]]]; cbv; repeat constructor. }
  destruct (proj1 (@col2im_im2col_round_trip Z Z_Arith g_tiles Hg) x_tiles Hx
              ltac:(simpl; lia) Ht) as (res & E & _ & _ & Hsame).
  transitivity (Ok res); [exact E | f_equal; apply Hsame; intros v; reflexivity].
Defined.

Lemma round_trip_loses_uncovered :
  round_trip x_odd 2 2 (0, 0) (2, 2) = Ok [[ [[1; 2; 0]; [4; 5; 0]; [0; 0; 0]] ]]
  /\ [[ [[1; 2; 0]; [4; 5; 0]; [0; 0; 0]] ]] <> x_odd.
Proof. split; [reflexivity | discriminate]. Qed.

(** A padding that is zero on one axis only: the trim
    [x_padded[:, :, 1:-1, 0:-0]] keeps no column at all. *)
Lemma round_trip_one_sided_padding :
  round_trip (F := Z) [[ [[1; 2]; [3; 4]] ]] 1 1 (1, 0) (1, 1) = Ok [[ [[]; []] ]].
Proof. reflexivity. Qed.

End PatchTheorems.

(* ================================================================== *)
(** * Theorems: the layers *)
(* ================================================================== *)

Module LayerFacts.
Import Tensor Inputs.
Local Open Scope float_scope.

(** ** Softmax *)

(** C1. [SoftmaxLayer.forward] exponentiates the raw logits: where [exp]
    overflows it returns NaN, while [softmax] of [nn/functional.py], which
    subtracts the per-sample maximum first, returns the probabilities 1 and 0. *)
Theorem SoftmaxLayer_forward_overflows (libm : Exp) :
  np_exp 1000 = infinity -> np_exp 0 = 1 -> np_exp (-1000) = 0 ->
  SoftmaxLayer.forward {| SoftmaxLayer.last_output := None |} big_logits
  = Ok ({| SoftmaxLayer.last_output := Some (T3 [[[nan]; [0]]]) |}, T3 [[[nan]; [0]]])
  /\ Functional.softmax big_logits = Ok (T3 [[[1]; [0]]]).
Proof.
  intros Hbig Hzero Hsmall. split.
  - unfold SoftmaxLayer.forward, big_logits. cbn -[PrimFloat.div PrimFloat.add].
    rewrite Hbig, Hzero. reflexivity.
  - unfold Functional.softmax, big_logits. cbn -[np_exp PrimFloat.div PrimFloat.add].
    change (1000 - 1000) with 0. change (0 - 1000) with (-1000).
    rewrite Hzero, Hsmall. reflexivity.
Qed.

Lemma SoftmaxLayer_forward_overflows_witness :
  @SoftmaxLayer.forward libm_model {| SoftmaxLayer.last_output := None |} big_logits
  = Ok ({| SoftmaxLayer.last_output := Some (T3 [[[nan]; [0]]]) |}, T3 [[[nan]; [0]]])
  /\ @Functional.softmax libm_model big_logits = Ok (T3 [[[1]; [0]]]).
Proof.
  apply (@SoftmaxLayer_forward_overflows libm_model); vm_compute; reflexivity.
Defined.

(** ** Gradient accumulation *)

(** X13. [Linear.backward] does accumulate: the new accumulators are the old
    ones plus the gradients of this call. *)
Lemma Linear_backward_accumulates (self self' : Linear.t) (grad grad_input prev : tensor) :
  Linear.prev_inp self = Some prev ->
  Linear.backward self grad = Ok (self', grad_input) ->
  exists grad_weight grad_bias,
    dot (transpose grad) prev = Ok grad_weight
    /\ sum_axis0 grad = Ok grad_bias
    /\ tadd (Param.grad (Linear.weight self)) grad_weight
       = Ok (Param.grad (Linear.weight self'))
    /\ tadd (Param.grad (Linear.bias self)) grad_bias
       = Ok (Param.grad (Linear.bias self')).
Proof.
  intros Hprev. unfold Linear.backward. rewrite Hprev.
  destruct (dot grad (Param.value (Linear.weight self))) as [gi|]; [|discriminate].
  cbn [bind cached].
  destruct (dot (transpose grad) prev) as [gw|]; [|discriminate]. cbn [bind].
  destruct (sum_axis0 grad) as [gb|]; [|discriminate]. cbn [bind].
  unfold in_place, tadd.
  destruct (tbin PrimFloat.add (Param.grad (Linear.weight self)) gw) as [wg|] eqn:Ew;
    [|discriminate]. cbn [bind].
  destruct (same_shape wg (Param.grad (Linear.weight self))); [|discriminate].
  cbn [bind].
  destruct (tbin PrimFloat.add (Param.grad (Linear.bias self)) gb) as [bg|] eqn:Eb;
    [|discriminate]. cbn [bind].
  destruct (same_shape bg (Param.grad (Linear.bias self))); [|discriminate].
  intros E. inversion E. subst. exists gw, gb. cbn. auto.
Qed.

(** Running a chain of calls that has returned: one call at a time. *)
Ltac next_bind H :=
  match type of H with
  | bind (cached ?o) _ = Ok _ =>
      destruct o eqn:?; cbn [bind cached] in H; [|discriminate H]
  | bind (present ?o) _ = Ok _ =>
      destruct o eqn:?; cbn [bind present] in H; [|discriminate H]
  | bind ?c _ = Ok _ => destruct c eqn:?; cbn [bind] in H; [|discriminate H]
  end.

Ltac by_run :=
  match goal with
  | E : ?c = Ok _ |- bind ?c _ = Ok _ => rewrite E; cbn [bind]; assumption
  end.

(** [BatchNormLayer.backward] does not: whatever the accumulators held,
    they are left holding the gradients of this call alone. *)
Lemma BatchNormLayer_backward_assigns (libp : Power) (self self' : BatchNormLayer.t)
    (grad dx : tensor) :
  BatchNormLayer.backward self grad = Ok (self', dx) ->
  exists g normed,
    squeeze_last grad = Ok g
    /\ BatchNormLayer.out_ self = Some normed
    /\ (p <- tmul g normed ;; sum_axis0 p)
       = Ok (Param.grad (BatchNormLayer.gamma self'))
    /\ sum_axis0 g = Ok (Param.grad (BatchNormLayer.beta self')).
Proof.
  unfold BatchNormLayer.backward. intros H.
  repeat next_bind H.
  inversion H; subst; clear H. cbn.
  eexists _, _. repeat split; try eassumption. by_run.
Qed.

(** Nor does [BatchNorm2d.backward]. *)
Lemma BatchNorm2d_backward_assigns (self self' : BatchNorm2d.t) (grad dx : tensor) :
  BatchNorm2d.backward self grad = Ok (self', dx) ->
  exists normed grad_gamma grad_beta,
    BatchNorm2d.out_ self = Some normed
    /\ (p <- tmul grad normed ;; sum_axis023 p) = Ok grad_gamma
    /\ sum_axis023 grad = Ok grad_beta
    /\ Param.grad (BatchNorm2d.gamma self') = T1 grad_gamma
    /\ Param.grad (BatchNorm2d.beta self') = T1 grad_beta.
Proof.
  unfold BatchNorm2d.backward. intros H.
  repeat next_bind H.
  inversion H; subst; clear H. cbn.
  eexists _, _, _. repeat split; try eassumption. by_run.
Qed.

(** C2. [BatchNormLayer.backward] and [BatchNorm2d.backward] assign the
    accumulators instead of adding to them: with 5 and 7 accumulated, a
    batch of the inputs 1 and 3 and upstream gradients 1 and 1 leaves
    0 and 2 behind, not 5 + 0 and 7 + 2. *)
Theorem BatchNorm_backward_overwrites_grad (libp : Power) :
  BatchNormLayer_grads bn_with_grads (T3 [[[1]]; [[3]]]) (T3 [[[1]]; [[1]]])
  = Ok (T1 [0], T1 [2])
  /\ BatchNorm2d_grads bn2d_with_grads (T4 [[[[1; 3]]]]) (T4 [[[[1; 1]]]])
     = Ok (T1 [0], T1 [2]).
Proof. split; vm_compute; reflexivity. Qed.

(** ** LeakyReLU *)

(** A float that is neither NaN nor below 0 is at least 0. *)
Lemma nonneg_or_neg (x : float) :
  PrimFloat.is_nan x = false -> PrimFloat.ltb x 0 = false -> PrimFloat.leb 0 x = true.
Proof.
  unfold PrimFloat.is_nan. rewrite eqb_spec, ltb_spec, leb_spec.
  change (Prim2SF 0) with (SpecFloat.S754_zero false).
  destruct (Prim2SF x) as [s|s| |s m e]; try destruct s; cbn; try congruence.
  all: unfold SpecFloat.SFeqb, SpecFloat.SFltb, SpecFloat.SFleb; cbn.
  all: try congruence.
Qed.

(** With a leak that is not negative, the second masked assignment also
    hits the entries the first one has just set to [leak]: no entry of the
    mask is left below 1. *)
Lemma leaky_mask_entry (leak x : float) :
  PrimFloat.leb 0 leak = true -> PrimFloat.is_nan x = false ->
  (let y := if PrimFloat.ltb x 0 then leak else x in
   if PrimFloat.leb 0 y then 1 else y) = 1.
Proof.
  intros Hleak Hx. cbv zeta.
  destruct (PrimFloat.ltb x 0) eqn:E.
  - now rewrite Hleak.
  - now rewrite (nonneg_or_neg Hx E).
Qed.

Lemma tmap_tmap (f g : float -> float) (t : tensor) :
  tmap g (tmap f t) = tmap (fun x => g (f x)) t.
Proof.
  destruct t; cbn; f_equal; rewrite ?map_map; try reflexivity;
    repeat (apply map_ext; intros; rewrite map_map); reflexivity.
Qed.

Lemma map_ext_concat {A B} (f g : A -> B) (l : list (list A)) :
  (forall x, In x (concat l) -> f x = g x) -> map (map f) l = map (map g) l.
Proof.
  intros H. apply map_ext_in. intros row Hrow. apply map_ext_in. intros x Hx.
  apply H. apply in_concat. eauto.
Qed.

Lemma in_ravel3 (a : ten3) (row : ten1) (x : float) :
  In row (concat a) -> In x row -> In x (concat (map (@concat float) a)).
Proof.
  intros Hrow Hx. apply in_concat in Hrow. destruct Hrow as [pl [Hpl Hin]].
  apply in_concat. exists (concat pl). split; [now apply in_map|].
  apply in_concat. eauto.
Qed.

Lemma tmap_ext_in (f g : float -> float) (t : tensor) :
  (forall x, In x (ravel t) -> f x = g x) -> tmap f t = tmap g t.
Proof.
  destruct t as [x|a|a|a|a]; cbn; intros H; f_equal.
  - apply H. now left.
  - now apply map_ext_in.
  - now apply map_ext_concat.
  - apply map_ext_concat. intros row Hrow. apply map_ext_in. intros x Hx.
    apply H. eapply in_ravel3; eassumption.
  - apply map_ext_in. intros img Himg. apply map_ext_concat. intros row Hrow.
    apply map_ext_in. intros x Hx. apply H.
    apply in_concat. exists (concat (map (@concat float) img)).
    split; [apply (in_map (fun img => concat (map (@concat float) img))); exact Himg|].
    eapply in_ravel3; eassumption.
Qed.

(** So for every leak that is not negative and every cached input without
    a NaN, the mask is all ones and the gradient passes through whole, at
    the negative inputs too. *)
Lemma LeakyReLU_backward_passes_grad_whole (self : LeakyReLULayer.t) (prev grad : tensor) :
  PrimFloat.leb 0 (LeakyReLULayer.leak self) = true ->
  LeakyReLULayer.prev_inp self = Some prev ->
  all_entries (fun x => negb (PrimFloat.is_nan x)) prev = true ->
  LeakyReLULayer.backward self grad
  = (out <- tmul grad (ones_like prev) ;;
     Ok ({| LeakyReLULayer.prev_inp := Some (ones_like prev);
            LeakyReLULayer.leak := LeakyReLULayer.leak self |}, out)).
Proof.
  intros Hleak Hprev Hnan. unfold LeakyReLULayer.backward. rewrite Hprev.
  cbn [bind cached]. rewrite tmap_tmap.
  assert (E : tmap (fun x => if PrimFloat.leb 0
                                   (if PrimFloat.ltb x 0 then LeakyReLULayer.leak self else x)
                             then 1 else if PrimFloat.ltb x 0 then LeakyReLULayer.leak self else x)
                prev = ones_like prev).
  { unfold ones_like. apply tmap_ext_in. intros x Hx.
    apply (leaky_mask_entry _ Hleak).
    unfold all_entries in Hnan. rewrite forallb_forall in Hnan.
    apply negb_true_iff. now apply Hnan. }
  rewrite E. reflexivity.
Qed.
(** C3. With the default leak 0.01, the cached input [-2, 3] and the
    upstream gradient [1, 1], [LeakyReLULayer.backward] returns [1, 1]: the
    mask is 1 at the negative input as well, not [leak]. *)
Theorem LeakyReLU_backward_mask_is_one :
  LeakyReLULayer.backward leaky_after_forward (T3 [[[1]; [1]]])
  = Ok ({| LeakyReLULayer.prev_inp := Some (T3 [[[1]; [1]]]);
           LeakyReLULayer.leak := LeakyReLULayer.default_leak |},
        T3 [[[1]; [1]]]).
Proof. vm_compute. reflexivity. Qed.

(** ** Dropout *)

Lemma Dropout_forward_does_not_rescale :
  DropoutLayer.forward (DropoutLayer.new 0.5) (T3 [[[2]; [6]]]) true (T3 [[[1]; [0]]])
  = Ok ({| DropoutLayer.dropout_rate := 0.5;
           DropoutLayer.filter := Some (T3 [[[1]; [0]]]);
           DropoutLayer.if_train := true |},
        T3 [[[2]; [0]]])
  /\ claimed_inverted_dropout 0.5 (T3 [[[2]; [6]]]) (T3 [[[1]; [0]]])
     = Ok (T3 [[[4]; [0]]]).
Proof. split; vm_compute; reflexivity. Qed.

(** C4 (amended).  For a rate numpy accepts, the train-mode forward is the
    input times the drawn 0/1 mask as it is, whatever the rate (kept
    entries are the input times 1, dropped entries the input times 0, and
    nothing is divided by [1 - p]), and the mask is cached; the eval-mode
    forward returns the input unchanged and leaves the cached mask alone;
    backward multiplies by the cached mask after a train-mode forward and
    passes the gradient through after an eval-mode one. *)
Theorem Dropout_forward_backward (self : DropoutLayer.t) (inp draw grad : tensor) :
  DropoutLayer.binomial_ok (1 - DropoutLayer.dropout_rate self) = true ->
  DropoutLayer.forward self inp true draw
  = (out <- tmul inp draw ;;
     Ok ({| DropoutLayer.dropout_rate := DropoutLayer.dropout_rate self;
            DropoutLayer.filter := Some draw;
            DropoutLayer.if_train := true |}, out))
  /\ DropoutLayer.forward self inp false draw
     = Ok ({| DropoutLayer.dropout_rate := DropoutLayer.dropout_rate self;
              DropoutLayer.filter := DropoutLayer.filter self;
              DropoutLayer.if_train := false |}, inp)
  /\ (forall self' out,
        DropoutLayer.forward self inp true draw = Ok (self', out) ->
        DropoutLayer.backward self' grad
        = (g <- tmul grad draw ;; Ok (self', g)))
  /\ (forall self' out,
        DropoutLayer.forward self inp false draw = Ok (self', out) ->
        out = inp /\ DropoutLayer.backward self' grad = Ok (self', grad)).
Proof.
  intros Hp. unfold DropoutLayer.forward. rewrite Hp. cbn [guard bind].
  repeat split.
  - intros self' out E. destruct (tmul inp draw) as [o|]; [|discriminate].
    cbn [bind] in E. inversion E. subst. reflexivity.
  - inversion H. reflexivity.
  - inversion H. reflexivity.
Qed.

Lemma Dropout_forward_backward_witness :
  DropoutLayer.forward (DropoutLayer.new 0.5) (T3 [[[2]; [6]]]) true (T3 [[[1]; [0]]])
  = (out <- tmul (T3 [[[2]; [6]]]) (T3 [[[1]; [0]]]) ;;
     Ok ({| DropoutLayer.dropout_rate := 0.5;
            DropoutLayer.filter := Some (T3 [[[1]; [0]]]);
            DropoutLayer.if_train := true |}, out)).
Proof.
  refine (proj1 (@Dropout_forward_backward (DropoutLayer.new 0.5) (T3 [[[2]; [6]]])
                   (T3 [[[1]; [0]]]) (T3 [[[1]; [1]]]) _)).
  vm_compute. reflexivity.
Defined.

(** ** Sequential and the train flag *)

(** What [Sequential.forward] hands to a [BatchNorm2d] is its input alone:
    the layer runs with its default [train=True] in either mode. *)
Lemma Sequential_calls_BatchNorm2d_without_flag (libm : Exp) (libp : Power)
    (self : Sequential.t)
    (m : BatchNorm2d.t) (inp draw : tensor) :
  Sequential.train_kwarg self (Sequential.L_BatchNorm2d m) = None
  /\ Sequential.call (Sequential.L_BatchNorm2d m) inp
       (Sequential.train_kwarg self (Sequential.L_BatchNorm2d m)) draw
     = Sequential.wrap Sequential.L_BatchNorm2d (BatchNorm2d.forward m inp true).
Proof. split; reflexivity. Qed.

(** The layers that do get the flag get the container's. *)
Lemma Sequential_passes_flag (libm : Exp) (libp : Power) (self : Sequential.t) :
  (forall m, Sequential.train_kwarg self (Sequential.L_DropoutLayer m)
             = Some (Sequential.if_train self))
  /\ (forall m, Sequential.train_kwarg self (Sequential.L_BatchNormLayer m)
                = Some (Sequential.if_train self)).
Proof. split; reflexivity. Qed.

(** C8. A [Sequential] in eval mode still runs a [BatchNorm2d] in train
    mode: on the batch [1, 3] the layer normalizes with the batch
    statistics (output [-1, 1]) and moves its running mean from 0 to 1,
    where the eval-mode forward of the layer returns [1, 3] and leaves the
    running mean at 0. *)
Theorem Sequential_eval_runs_BatchNorm2d_in_train_mode (libm : Exp) (libp : Power)
    (draws : nat -> tensor) :
  (match Sequential.forward
           (Sequential.eval (Sequential.new [Sequential.L_BatchNorm2d bn2d_fresh]))
           (T4 [[[[1; 3]]]]) draws with
   | Ok (self, out) =>
       match Sequential.layers self with
       | [Sequential.L_BatchNorm2d m] =>
           Some (Sequential.if_train self, BatchNorm2d.running_mean m, out)
       | _ => None
       end
   | Raise _ => None
   end) = Some (false, T4 [[[[1]]]], T4 [[[[-1; 1]]]])
  /\ (match BatchNorm2d.forward bn2d_fresh (T4 [[[[1; 3]]]]) false with
      | Ok (m, out) => Some (BatchNorm2d.running_mean m, out)
      | Raise _ => None
      end) = Some (T1 [0], T4 [[[[1; 3]]]]).
Proof. split; vm_compute; reflexivity. Qed.

(** ** ConvTranspose2d *)

(** C9. On a 1x1 input the 2x1 kernel gives an output of height 1 and
    width 2, where (H-1)*stride - 2*padding + kh + output_padding is 2 and
    the width formula gives 1: [forward] reads the kernel width as [d_h]
    and the kernel height as [d_w]. *)
Theorem ConvTranspose2d_forward_swaps_kernel_sides :
  ConvTranspose2d.forward tall_kernel (T4 [[[[1]]]]) = Ok (tall_kernel, T4 [[[[2; 3]]]])
  /\ shape (T4 [[[[2; 3]]]]) = [1; 1; 1; 2]%nat
  /\ ((1 - 1) * 1 - 2 * 0 + 2 + 0 = 2 /\ (1 - 1) * 1 - 2 * 0 + 1 + 0 = 1)%Z.
Proof. repeat split; vm_compute; reflexivity. Qed.

(** ** Unimplemented backward passes *)

(** C10. [backward] of [Conv2d], [ConvTranspose2d], [MaxPool2d] and
    [AdaptiveAvgPool2d] raises [NotImplementedError] for every layer state
    and every gradient, and so returns no gradient at all. *)
Theorem backward_not_implemented :
  (forall (self : Conv2d.t) (dout : tensor),
     Conv2d.backward self dout = Raise NotImplementedError)
  /\ (forall (self : ConvTranspose2d.t) (dout : tensor),
        ConvTranspose2d.backward self dout = Raise NotImplementedError)
  /\ (forall (self : MaxPool2d.t) (grad : tensor),
        MaxPool2d.backward self grad = Raise NotImplementedError)
  /\ (forall (self : AdaptiveAvgPool2d.t) (grad : tensor),
        AdaptiveAvgPool2d.backward self grad = Raise NotImplementedError).
Proof. repeat split. Qed.

End LayerFacts.

(* ================================================================== *)
(** * Theorems: serialization *)
(* ================================================================== *)

Module SerialFacts.
Import Tensor Serial Inputs Ascii String.
Local Open Scope string_scope.

(** ** Strings *)

Lemma append_empty_r (s : string) : s ++ "" = s.
Proof. induction s as [|c s IH]; simpl; congruence. Qed.

Lemma append_assoc (a b c : string) : (a ++ b) ++ c = a ++ (b ++ c).
Proof. induction a as [|x a IH]; simpl; congruence. Qed.

Lemma split_dot_aux_nonempty (s cur : string) : split_dot_aux s cur <> [].
Proof.
  revert cur. induction s as [|c s IH]; intros cur; simpl; [discriminate|].
  destruct (Ascii.eqb c "."%char); [discriminate | apply IH].
Qed.

(** ['.'.join(s.split('.'))] is [s]. *)
Lemma join_split_aux (s cur : string) : join_dot (split_dot_aux s cur) = cur ++ s.
Proof.
  revert cur. induction s as [|c s IH]; intros cur; simpl.
  - unfold join_dot. simpl. now rewrite append_empty_r.
  - destruct (Ascii.eqb_spec c "."%char) as [->|Hc].
    + unfold join_dot in *. simpl.
      destruct (split_dot_aux s "") as [|x l] eqn:E.
      * now apply split_dot_aux_nonempty in E.
      * rewrite <- E, IH. reflexivity.
    + rewrite IH, append_assoc. reflexivity.
Qed.

Lemma join_split (s : string) : join_dot (split_dot s) = s.
Proof. unfold split_dot. now rewrite join_split_aux. Qed.

(** A key that starts with ["layers."] splits into ["layers"] and the rest. *)
Lemma split_layers (rest : string) :
  split_dot ("layers." ++ rest) = "layers" :: split_dot rest.
Proof. reflexivity. Qed.

(** ** Sequential: export and import disagree on the prefix *)

Lemma dict_set_layers (k : string) (v : pyobj) (d : dict) :
  layers_key (k, v) -> Forall layers_key d -> Forall layers_key (dict_set k v d).
Proof.
  intros Hk Hd. induction Hd as [|[k' v'] d Hx Hd IH]; simpl.
  - constructor; auto.
  - destruct (String.eqb k k'); constructor; auto.
Qed.

Lemma add_prefixed_layers (prefix : string) (sub result : dict) :
  Forall layers_key result ->
  Forall layers_key (add_prefixed ("layers." ++ prefix) sub result).
Proof.
  unfold add_prefixed. revert result.
  induction sub as [|[k v] sub IH]; intros result Hr; simpl; auto.
  apply IH. apply dict_set_layers; auto.
  exists (prefix ++ k). simpl. reflexivity.
Qed.

Lemma add_enumerated_layers (f : pyobj -> Result dict) (items : list pyobj)
    (i : nat) (result out : dict) :
  Forall layers_key result ->
  add_enumerated f "layers." true items i result = Ok out ->
  Forall layers_key out.
Proof.
  revert i result. induction items as [|sub items IH]; intros i result Hr; simpl.
  - intros E. inversion E. now subst.
  - destruct (class_is sub Module_cls); simpl.
    + destruct (f sub) as [sd|]; [|discriminate]. cbn [bind].
      apply IH. apply (add_prefixed_layers (str_of_nat i ++ ".")). exact Hr.
    + apply IH. exact Hr.
Qed.

Lemma add_list_attr_layers (f : pyobj -> Result dict) (attrs : list (string * pyobj))
    (out : dict) :
  add_list_attr f "layers" "layers." true attrs [] = Ok out -> Forall layers_key out.
Proof.
  induction attrs as [|[k v] attrs IH]; simpl; [discriminate|].
  destruct (String.eqb k "layers"); [|exact IH].
  destruct v; try discriminate. apply add_enumerated_layers. constructor.
Qed.

(** An export that succeeds has found the list of layers on the instance. *)
Lemma add_list_attr_lookup (f : pyobj -> Result dict) (name prefix : string)
    (only_modules : bool) (attrs : list (string * pyobj)) (result out : dict) :
  add_list_attr f name prefix only_modules attrs result = Ok out ->
  exists v, lookup name attrs = Some v.
Proof.
  induction attrs as [|[k v] attrs IH]; simpl; [discriminate|].
  rewrite (String.eqb_sym name k).
  destruct (String.eqb k name); [eauto | exact IH].
Qed.

(** X12. Whatever a [Sequential] exports, feeding a non-empty export back to
    [load_state_dict] raises [ValueError]: every exported key starts with
    ["layers."], and [int("layers")] fails. *)
Lemma Sequential_import_of_export_raises (cls : pyclass) (attrs : list (string * pyobj))
    (sd : dict) :
  issubclass cls Sequential_cls = true ->
  state_dict (PInstance cls attrs) = Ok sd -> sd <> [] ->
  load_state_dict (PInstance cls attrs) sd = Raise ValueError.
Proof.
  intros Hcls Hsd Hne. simpl in Hsd. rewrite Hcls in Hsd.
  destruct (add_list_attr_lookup _ _ _ _ _ _ Hsd) as [v Hv].
  apply add_list_attr_layers in Hsd.
  destruct sd as [|[key value] sd]; [contradiction|].
  inversion Hsd as [|x l [rest Hkey] Hl]. subst. cbn [fst] in Hkey. subst key.
  cbn [load_state_dict]. rewrite split_layers. cbn [load_item].
  rewrite Hcls. unfold getattr. rewrite Hv. reflexivity.
Qed.

(** C6. For [Sequential(Linear, BatchNormLayer, ModuleList([ReLU, Sigmoid]))]
    the export has the keys [layers.0.bias.value], ..., and importing it
    into the same tree raises [ValueError] instead of restoring anything;
    the same layers under a plain [Module] subclass do survive the round
    trip. *)
Theorem Sequential_round_trip_raises :
  option_map (map fst)
    (match state_dict small_net with Ok sd => Some sd | Raise _ => None end)
  = Some ["layers.0.bias.value"; "layers.0.bias.grad";
          "layers.0.weight.value"; "layers.0.weight.grad";
          "layers.1.beta.value"; "layers.1.beta.grad";
          "layers.1.gamma.value"; "layers.1.gamma.grad"]
  /\ (sd <- state_dict small_net ;; load_state_dict small_net sd) = Raise ValueError
  /\ (sd <- state_dict small_tree ;; load_state_dict small_tree sd) = Ok small_tree.
Proof. repeat split; vm_compute; reflexivity. Qed.

(** ** Keys that match nothing *)

(** Keys that name no parameter and no submodule, accepted without an
    error and without any effect: a key without a dot and a key under a
    [Parameter] for [Module.load_state_dict], any unknown key (and even the
    exported [gamma.grad]) for [BatchNorm2d.load_state_dict]. *)
Lemma unknown_keys_are_dropped :
  load_state_dict a_linear [("no_such_parameter", PArray (T1 [9%float]))] = Ok a_linear
  /\ load_state_dict a_linear [("weight.value.extra", PArray (T1 [9%float]))]
     = Ok a_linear
  /\ load_state_dict a_batch_norm_2d
       [("no_such_parameter.value", PArray (T1 [9%float]));
        ("gamma.grad", PArray (T1 [9%float]))]
     = Ok a_batch_norm_2d.
Proof. repeat split; vm_compute; reflexivity. Qed.

Lemma eqb_not_in (key k : string) (l : list string) :
  ~ In key l -> In k l -> String.eqb key k = false.
Proof.
  intros Hn Hk. destruct (String.eqb_spec key k) as [->|]; [contradiction | reflexivity].
Qed.

(** C7 (amended).  What [load_state_dict] does with a key that matches
    nothing depends on how the method resolves it; some such keys raise
    and others are ignored:
    (1) [Module.load_state_dict] raises [AttributeError] for a key of two
        or more segments whose first segment is no attribute of the
        module, neither of the instance nor of its class;
    (2) [Sequential.load_state_dict] raises [ValueError] for a key whose
        first segment is an ASCII string that [int] rejects, and
    (3) [IndexError] for a key whose first segment is an integer outside
        the list of layers;
    (4) [Module.load_state_dict] ignores a key without a dot, and
    (5) a key of three or more segments whose first segment names an
        attribute that is neither a [Module] nor a [ModuleList];
    (6) [BatchNorm2d.load_state_dict] ignores every key other than
        [gamma.value], [beta.value], [running_mean.value] and
        [running_var.value]. *)
Theorem load_state_dict_unknown_keys (cls : pyclass) (attrs : list (string * pyobj))
    (value : pyobj) :
  (forall key r0 r1 rest,
     inherits_load cls = true ->
     split_dot key = r0 :: r1 :: rest ->
     lookup r0 attrs = None -> on_class cls r0 = false ->
     load_state_dict (PInstance cls attrs) [(key, value)] = Raise AttributeError)
  /\ (forall key p0 parts layers,
        issubclass cls Sequential_cls = true ->
        split_dot key = p0 :: parts ->
        lookup "layers" attrs = Some layers ->
        ascii_only p0 = true -> py_int p0 = Raise ValueError ->
        load_state_dict (PInstance cls attrs) [(key, value)] = Raise ValueError)
  /\ (forall key p0 parts idx layers,
        issubclass cls Sequential_cls = true ->
        split_dot key = p0 :: parts ->
        lookup "layers" attrs = Some (PList layers) ->
        py_int p0 = Ok idx ->
        in_bounds (List.length layers) idx = false ->
        load_state_dict (PInstance cls attrs) [(key, value)] = Raise IndexError)
  /\ (forall key r0,
        inherits_load cls = true ->
        split_dot key = [r0] ->
        load_state_dict (PInstance cls attrs) [(key, value)] = Ok (PInstance cls attrs))
  /\ (forall key r0 r1 r2 rest sub,
        inherits_load cls = true ->
        split_dot key = r0 :: r1 :: r2 :: rest ->
        getattr (PInstance cls attrs) r0 = Ok sub ->
        class_is sub Module_cls = false -> class_is sub ModuleList_cls = false ->
        load_state_dict (PInstance cls attrs) [(key, value)] = Ok (PInstance cls attrs))
  /\ (forall key,
        ~ In key BatchNorm2d_keys ->
        load_state_dict (PInstance BatchNorm2d_cls attrs) [(key, value)]
        = Ok (PInstance BatchNorm2d_cls attrs)).
Proof.
  unfold inherits_load. repeat split.
  - intros key r0 r1 rest Hcls Hkey Hlook Hclass.
    rewrite !andb_true_iff, !negb_true_iff in Hcls. destruct Hcls as [[Hs Hb] Hm].
    cbn [load_state_dict]. rewrite Hkey. cbn [load_item]. rewrite Hs, Hb, Hm.
    assert (E : getattr (PInstance cls attrs) r0 = Raise AttributeError)
      by (unfold getattr; now rewrite Hlook, Hclass).
    destruct rest as [|r2 rest]; now rewrite E.
  - intros key p0 parts layers Hs Hkey Hlayers _ Hint.
    cbn [load_state_dict]. rewrite Hkey. cbn [load_item]. rewrite Hs.
    unfold getattr. now rewrite Hlayers, Hint.
  - intros key p0 parts idx layers Hs Hkey Hlayers Hint Hidx.
    cbn [load_state_dict]. rewrite Hkey. cbn [load_item]. rewrite Hs.
    unfold getattr. rewrite Hlayers, Hint. cbn [bind as_list].
    unfold list_get. now rewrite Hidx.
  - intros key r0 Hcls Hkey.
    rewrite !andb_true_iff, !negb_true_iff in Hcls. destruct Hcls as [[Hs Hb] Hm].
    cbn [load_state_dict]. rewrite Hkey. cbn [load_item]. now rewrite Hs, Hb, Hm.
  - intros key r0 r1 r2 rest sub Hcls Hkey Hsub Hmod Hlist.
    rewrite !andb_true_iff, !negb_true_iff in Hcls. destruct Hcls as [[Hs Hb] Hm].
    cbn [load_state_dict]. rewrite Hkey. cbn [load_item]. rewrite Hs, Hb, Hm.
    rewrite Hsub. cbn [bind]. now rewrite Hmod, Hlist.
  - intros key Hkey. cbn [load_state_dict].
    pose proof (join_split key) as J.
    assert (E : load_item (split_dot key) (PInstance BatchNorm2d_cls attrs) value
                = BatchNorm2d_load_item (PInstance BatchNorm2d_cls attrs)
                    (join_dot (split_dot key)) value)
      by (destruct (split_dot key); reflexivity).
    rewrite E, J. unfold BatchNorm2d_load_item.
    rewrite !(@eqb_not_in key _ BatchNorm2d_keys Hkey) by (simpl; tauto).
    reflexivity.
Qed.

(** The six cases on a [Linear], on the three-layer [Sequential] and on a
    [BatchNorm2d]. *)
Lemma load_state_dict_unknown_keys_witness :
  load_state_dict a_linear [("no_such_parameter.value", PArray (T1 [9%float]))]
  = Raise AttributeError
  /\ load_state_dict small_net [("layers.0.weight.value", PArray (T1 [9%float]))]
     = Raise ValueError
  /\ load_state_dict small_net [("7.weight.value", PArray (T1 [9%float]))]
     = Raise IndexError
  /\ load_state_dict a_linear [("weight", PArray (T1 [9%float]))] = Ok a_linear
  /\ load_state_dict a_linear [("weight.value.extra", PArray (T1 [9%float]))]
     = Ok a_linear
  /\ load_state_dict a_batch_norm_2d [("gamma.grad", PArray (T1 [9%float]))]
     = Ok a_batch_norm_2d.
Proof.
  pose (v := PArray (T1 [9%float])).
  split; [|split; [|split; [|split; [|split]]]].
  - refine (proj1 (@load_state_dict_unknown_keys Linear_cls _ v)
              "no_such_parameter.value" "no_such_parameter" "value" [] _ _ _ _);
      vm_compute; reflexivity.
  - refine (proj1 (proj2 (@load_state_dict_unknown_keys Sequential_cls _ v))
              "layers.0.weight.value" "layers" ["0"; "weight"; "value"] _ _ _ _ _ _);
      vm_compute; reflexivity.
  - refine (proj1 (proj2 (proj2 (@load_state_dict_unknown_keys Sequential_cls _ v)))
              "7.weight.value" "7" ["weight"; "value"] 7%Z _ _ _ _ _ _);
      vm_compute; reflexivity.
  - refine (proj1 (proj2 (proj2 (proj2
              (@load_state_dict_unknown_keys Linear_cls _ v))))
              "weight" "weight" _ _); vm_compute; reflexivity.
  - refine (proj1 (proj2 (proj2 (proj2 (proj2
              (@load_state_dict_unknown_keys Linear_cls _ v)))))
              "weight.value.extra" "weight" "value" "extra" []
              (parameter (T2 [[1%float]]) (T2 [[4%float]]) false) _ _ _ _ _);
      vm_compute; reflexivity.
  - refine (proj2 (proj2 (proj2 (proj2 (proj2
              (@load_state_dict_unknown_keys BatchNorm2d_cls _ v)))))
              "gamma.grad" _).
    simpl. intros [H | [H | [H | [H | []]]]]; discriminate H.
Defined.

End SerialFacts.

Module ReshapeFacts.
Import Patch PatchFacts Tensor.

Lemma tab_S {B} (n : nat) (f : nat -> B) :
  tab (S n) f = f 0%nat :: tab n (fun i => f (S i)).
Proof. unfold tab. cbn [seq map]. now rewrite <- seq_shift, map_map. Qed.

Section Lists.
Context {A : Type}.

Lemma chunk_length (w q : nat) (flat : list A) :
  (q * w + w <= length flat)%nat -> length (chunk w q flat) = w.
Proof.
  intros H. unfold chunk. rewrite length_firstn, length_skipn. lia.
Qed.

(** A run cut into [n] chunks of width [w] and joined again. *)
Lemma concat_chunks (n w : nat) (flat : list A) :
  length flat = (n * w)%nat -> concat (tab n (fun q => chunk w q flat)) = flat.
Proof.
  revert flat. induction n as [|n IH]; intros flat H.
  - destruct flat; [reflexivity | discriminate].
  - rewrite tab_S. cbn [concat]. unfold chunk at 1. cbn [Nat.mul skipn].
    transitivity (firstn w flat ++ skipn w flat); [|apply firstn_skipn]. f_equal.
    transitivity (concat (tab n (fun q => chunk w q (skipn w flat))));
      [|apply IH; rewrite length_skipn; lia].
    f_equal. apply tab_ext. intros i Hi. unfold chunk. f_equal.
    rewrite skipn_skipn. f_equal. lia.
Qed.

Lemma chunk_of_chunks (b c i : nat) (flat : list A) :
  (i * (b * c) + b * c <= length flat)%nat ->
  concat (tab b (fun j => chunk c (i * b + j) flat)) = chunk (b * c) i flat.
Proof.
  intros H.
  rewrite <- (concat_chunks b c (chunk (b * c) i flat)) by (apply chunk_length; lia).
  f_equal. apply tab_ext. intros j Hj.
  unfold chunk. rewrite skipn_firstn_comm, firstn_firstn, skipn_skipn.
  assert (j * c + c <= b * c)%nat by nia.
  f_equal; [lia | f_equal; lia].
Qed.

End Lists.

(** ** Row-major flattening of rectangular arrays *)
Section Ravel.
Context {F : Type} {AF : Arith F}.

Lemma ravel2_length (R W : nat) (a : @arr2 F) :
  rect2 R W a -> length (concat a) = (R * W)%nat.
Proof. intros [HR HW]. rewrite (concat_uniform_length HW). now rewrite HR. Qed.

Lemma ravel2_nth (R W : nat) (a : @arr2 F) (r w : nat) :
  rect2 R W a -> (r < R)%nat -> (w < W)%nat ->
  nth (r * W + w) (concat a) zero = get2 a r w.
Proof.
  intros [HR HW] Hr Hw. unfold get2.
  apply concat_uniform_nth; auto. now rewrite HR.
Qed.

Lemma planes_uniform (C H W : nat) (a : @arr3 F) :
  rect3 C H W a -> Forall (fun r => length r = (H * W)%nat) (map (@concat F) a).
Proof.
  intros [HC HP]. apply Forall_forall. intros r Hr.
  apply in_map_iff in Hr. destruct Hr as [pl [<- Hin]].
  rewrite Forall_forall in HP. now apply ravel2_length, HP.
Qed.

Lemma ravel3_length (C H W : nat) (a : @arr3 F) :
  rect3 C H W a -> length (concat (map (@concat F) a)) = (C * (H * W))%nat.
Proof.
  intros Ha. rewrite (concat_uniform_length (planes_uniform Ha)).
  rewrite length_map. destruct Ha as [HC _]. now rewrite HC.
Qed.

Lemma ravel3_nth (C H W : nat) (a : @arr3 F) (c h w : nat) :
  rect3 C H W a -> (c < C)%nat -> (h < H)%nat -> (w < W)%nat ->
  nth (c * (H * W) + (h * W + w)) (concat (map (@concat F) a)) zero = get3 a c h w.
Proof.
  intros Ha Hc Hh Hw.
  assert (Hlen : length a = C) by apply Ha.
  rewrite (concat_uniform_nth (w := (H * W)%nat)); try apply (planes_uniform Ha);
    try (rewrite length_map; lia); try nia.
  rewrite (@nth_map_lt _ _ (@concat F) a c [] []) by lia.
  unfold get3. apply (ravel2_nth (R := H)); auto.
  now apply (rect3_plane Ha).
Qed.

Lemma images_uniform (N C H W : nat) (a : @arr4 F) :
  rect4 N C H W a ->
  Forall (fun r => length r = (C * (H * W))%nat)
         (map (fun img => concat (map (@concat F) img)) a).
Proof.
  intros [HN HI]. apply Forall_forall. intros r Hr.
  apply in_map_iff in Hr. destruct Hr as [img [<- Hin]].
  rewrite Forall_forall in HI. now apply ravel3_length, HI.
Qed.

Lemma ravel4_length (N C H W : nat) (a : @arr4 F) :
  rect4 N C H W a ->
  length (concat (map (fun img => concat (map (@concat F) img)) a))
  = (N * (C * (H * W)))%nat.
Proof.
  intros Ha. rewrite (concat_uniform_length (images_uniform Ha)).
  rewrite length_map. destruct Ha as [HN _]. now rewrite HN.
Qed.

Lemma ravel4_nth (N C H W : nat) (a : @arr4 F) (n c h w : nat) :
  rect4 N C H W a -> (n < N)%nat -> (c < C)%nat -> (h < H)%nat -> (w < W)%nat ->
  nth (n * (C * (H * W)) + (c * (H * W) + (h * W + w)))
      (concat (map (fun img => concat (map (@concat F) img)) a)) zero
  = get4 a n c h w.
Proof.
  intros Ha Hn Hc Hh Hw.
  assert (Hlen : length a = N) by apply Ha.
  assert (Hb1 : (h * W + w < H * W)%nat) by nia.
  assert (Hb2 : (c * (H * W) + H * W <= C * (H * W))%nat) by nia.
  rewrite (concat_uniform_nth (w := (C * (H * W))%nat)); try apply (images_uniform Ha);
    try (rewrite length_map; lia); try lia.
  rewrite (@nth_map_lt _ _ (fun img => concat (map (@concat F) img)) a n [] []) by lia.
  unfold get4. apply (ravel3_nth (C := C)); auto.
  now apply (rect4_img Ha).
Qed.

End Ravel.

(** ** Arrays built over a run of entries *)
Section Build.

Lemma build3_rect (a b c : nat) (flat : ten1) :
  length flat = (a * (b * c))%nat -> rect3 a b c (build3 a b c flat).
Proof.
  intros Hlen. unfold build3. split; [apply tab_length|].
  apply Forall_tab. intros i Hi. split; [apply tab_length|].
  apply Forall_tab. intros j Hj. apply chunk_length. rewrite Hlen.
  assert (i * b + j + 1 <= a * b)%nat by nia. nia.
Qed.

Lemma build3_get (a b c : nat) (flat : ten1) (i j k : nat) :
  (i < a)%nat -> (j < b)%nat -> (k < c)%nat ->
  get3 (build3 a b c flat) i j k = nth (i * (b * c) + (j * c + k)) flat 0%float.
Proof.
  intros Hi Hj Hk. unfold get3, build3.
  rewrite (tab_nth _ _ Hi), (tab_nth _ _ Hj), (chunk_nth _ _ _ Hk).
  f_equal. nia.
Qed.

Lemma build3_ravel (a b c : nat) (flat : ten1) :
  length flat = (a * (b * c))%nat -> ravel (T3 (build3 a b c flat)) = flat.
Proof.
  intros Hlen. cbn [ravel]. unfold build3. rewrite map_tab.
  transitivity (concat (tab a (fun q => chunk (b * c) q flat)));
    [|apply concat_chunks; lia].
  f_equal. apply tab_ext. intros i Hi. apply chunk_of_chunks. rewrite Hlen. nia.
Qed.

Lemma build4_rect (a b c d : nat) (flat : ten1) :
  length flat = (a * (b * (c * d)))%nat -> rect4 a b c d (build4 a b c d flat).
Proof.
  intros Hlen. unfold build4. split; [apply tab_length|].
  apply Forall_tab. intros i Hi. split; [apply tab_length|].
  apply Forall_tab. intros j Hj. split; [apply tab_length|].
  apply Forall_tab. intros k Hk. apply chunk_length. rewrite Hlen.
  assert (i * b + j + 1 <= a * b)%nat by nia.
  assert ((i * b + j) * c + k + 1 <= a * b * c)%nat by nia. nia.
Qed.

Lemma build4_get (a b c d : nat) (flat : ten1) (i j k l : nat) :
  (i < a)%nat -> (j < b)%nat -> (k < c)%nat -> (l < d)%nat ->
  get4 (build4 a b c d flat) i j k l
  = nth (i * (b * (c * d)) + (j * (c * d) + (k * d + l))) flat 0%float.
Proof.
  intros Hi Hj Hk Hl. unfold get4, get3, build4.
  rewrite (tab_nth _ _ Hi), (tab_nth _ _ Hj), (tab_nth _ _ Hk), (chunk_nth _ _ _ Hl).
  f_equal. nia.
Qed.

(** Cutting the flattened array back into its own shape gives the array. *)
Lemma build4_ravel (N C H W : nat) (x : ten4) :
  rect4 N C H W x -> build4 N C H W (ravel (T4 x)) = x.
Proof.
  intros Hx. apply rect4_ext with (N := N) (C := C) (H := H) (W := W); auto.
  - apply build4_rect. cbn [ravel]. apply (ravel4_length Hx).
  - intros n c h w Hn Hc Hh Hw. rewrite build4_get by assumption.
    cbn [ravel]. exact (ravel4_nth Hx Hn Hc Hh Hw).
Qed.

End Build.

(** ** The sides numpy settles on *)

Lemma fold_mul_nat (l : list nat) (acc : nat) :
  fold_left Z.mul (map Z.of_nat l) (Z.of_nat acc) = Z.of_nat (fold_left Nat.mul l acc).
Proof.
  revert acc. induction l as [|x l IH]; intros acc; simpl; [reflexivity|].
  now rewrite <- Nat2Z.inj_mul, IH.
Qed.

Lemma filter_all {A} (p : A -> bool) (l : list A) :
  forallb p l = true -> List.filter p l = l.
Proof.
  induction l as [|x l IH]; simpl; [reflexivity|].
  intros H. apply andb_true_iff in H. destruct H as [Hx Hl]. rewrite Hx. now rewrite IH.
Qed.

Lemma filter_none {A} (p : A -> bool) (l : list A) :
  forallb (fun x => negb (p x)) l = true -> List.filter p l = [].
Proof.
  induction l as [|x l IH]; simpl; [reflexivity|].
  intros H. apply andb_true_iff in H. destruct H as [Hx Hl].
  apply negb_true_iff in Hx. rewrite Hx. now apply IH.
Qed.

(** Sides given in full are taken as they are when they multiply to the
    number of entries. *)
Lemma fix_known_dimensions (shape : list nat) (size : nat) :
  fold_left Nat.mul shape 1%nat = size ->
  fix_unknown_dimension (map Z.of_nat shape) size = Ok shape.
Proof.
  intros H. unfold fix_unknown_dimension.
  rewrite (@filter_all _ (fun d => 0 <=? d)), (@filter_none _ (fun d => d <? 0)).
  - cbn [length].
    change (fold_left Z.mul (map Z.of_nat shape) 1)
      with (fold_left Z.mul (map Z.of_nat shape) (Z.of_nat 1)).
    rewrite (fold_mul_nat shape 1), H, Z.eqb_refl.
    rewrite map_map. f_equal. rewrite <- (map_id shape) at 2.
    apply map_ext. intros a. apply Nat2Z.id.
  - rewrite forallb_forall. intros z Hz. apply in_map_iff in Hz.
    destruct Hz as [n [<- _]]. apply negb_true_iff, Z.ltb_ge. lia.
  - rewrite forallb_forall. intros z Hz. apply in_map_iff in Hz.
    destruct Hz as [n [<- _]]. apply Z.leb_le. lia.
Qed.

(** [reshape((b, -1, 1))] of [b * m] entries infers the middle side [m]. *)
Lemma fix_middle_dimension (b m : nat) :
  (0 < b)%nat ->
  fix_unknown_dimension [Z.of_nat b; -1; 1] (b * m) = Ok [b; m; 1%nat].
Proof.
  intros Hb. unfold fix_unknown_dimension. cbn [List.filter].
  replace (0 <=? Z.of_nat b) with true by (symmetry; apply Z.leb_le; lia).
  replace (Z.of_nat b <? 0) with false by (symmetry; apply Z.ltb_ge; lia).
  change (0 <=? -1) with false. change (0 <=? 1) with true.
  change (-1 <? 0) with true. change (1 <? 0) with false.
  cbn [length fold_left map].
  replace (1 * Z.of_nat b * 1) with (Z.of_nat b) by lia.
  assert (E1 : Z.of_nat (b * m) mod Z.of_nat b = 0)
    by (rewrite Nat2Z.inj_mul, Z.mul_comm; apply Z_mod_mult).
  assert (E2 : Z.of_nat (b * m) / Z.of_nat b = Z.of_nat m)
    by (rewrite Nat2Z.inj_mul, Z.mul_comm; apply Z.div_mul; lia).
  rewrite E1, E2.
  replace (Z.of_nat b =? 0) with false by (symmetry; apply Z.eqb_neq; lia).
  cbn [orb negb Z.eqb].
  replace (Z.of_nat b <? 0) with false by (symmetry; apply Z.ltb_ge; lia).
  change (-1 <? 0) with true. change (1 <? 0) with false.
  rewrite !Nat2Z.id. reflexivity.
Qed.

End ReshapeFacts.

Module FlattenFacts.
Import Patch PatchFacts Tensor ReshapeFacts.

(** X5. For a 4-D input with no empty batch, channel or row axis,
    [Flatten.forward] returns the entries in the same row-major order as an
    array of shape [(N, C*H*W, 1)], and [Flatten.backward] of that array
    gives the input back. *)
Theorem Flatten_backward_of_forward (self : Flatten.t) (N C H W : nat) (x : ten4) :
  rect4 N C H W x -> (0 < N)%nat -> (0 < C)%nat -> (0 < H)%nat ->
  exists self' y,
    Flatten.forward self (T4 x) = Ok (self', T3 y)
    /\ rect3 N (C * (H * W)) 1 y
    /\ ravel (T3 y) = ravel (T4 x)
    /\ Flatten.backward self' (T3 y) = Ok (self', T4 x).
Proof.
  intros Hx HN HC HH.
  assert (Hlen : length (ravel (T4 x)) = (N * (C * (H * W)))%nat)
    by (cbn [ravel]; apply (ravel4_length Hx)).
  unfold Flatten.forward. cbn [bind].
  rewrite (shape4_rect Hx HN HC HH).
  unfold reshape3. rewrite Hlen, (fix_middle_dimension _ HN). cbn [bind].
  eexists _, _. split; [reflexivity|].
  assert (Hflat : length (ravel (T4 x)) = (N * (C * (H * W) * 1))%nat) by lia.
  split; [now apply build3_rect|]. split; [now apply build3_ravel|].
  unfold Flatten.backward. cbn [Flatten.batch Flatten.out_channels Flatten.out_h Flatten.out_d].
  unfold reshape4. rewrite (build3_ravel _ _ _ _ Hflat), Hlen.
  rewrite (fix_known_dimensions [N; C; H; W]) by (cbn; lia).
  cbn [bind]. now rewrite (build4_ravel Hx).
Qed.

Lemma Flatten_backward_of_forward_witness :
  exists self' y,
    Flatten.forward Flatten.new (T4 [[ [[1; 2]; [3; 4]]; [[5; 6]; [7; 8]] ]])%float
    = Ok (self', T3 y)
    /\ Flatten.backward self' (T3 y)
       = Ok (self', T4 [[ [[1; 2]; [3; 4]]; [[5; 6]; [7; 8]] ]])%float.
Proof.
  destruct (@Flatten_backward_of_forward Flatten.new 1 2 2 2
              [[ [[1; 2]; [3; 4]]; [[5; 6]; [7; 8]] ]]%float)
    as (self' & y & E1 & _ & _ & E2).
  - unfold rect4, rect3, rect2. simpl. repeat constructor.
  - lia.
  - lia.
  - lia.
  - exists self', y. split; assumption.
Defined.

End FlattenFacts.

Module SequentialFacts.
Import Tensor.

Section WithMath.
Context {libm : Exp} {libp : Power}.

(** The loop looks at the draws only at the positions it hands out. *)
Lemma forward_loop_ext (self : Sequential.t) (todo : list Sequential.Layer)
    (inp : tensor) (d1 d2 : nat -> tensor) (k1 k2 : nat) :
  (forall i, (i < length todo)%nat -> d1 (k1 + i)%nat = d2 (k2 + i)%nat) ->
  Sequential.forward_loop self todo inp d1 k1 = Sequential.forward_loop self todo inp d2 k2.
Proof.
  revert inp k1 k2. induction todo as [|layer rest IH]; intros inp k1 k2 H; cbn [Sequential.forward_loop].
  - reflexivity.
  - assert (E : d1 k1 = d2 k2).
    { specialize (H 0%nat). rewrite !Nat.add_0_r in H. apply H. simpl. lia. }
    rewrite E. destruct (Sequential.call layer inp _ (d2 k2)) as [[l out]|]; cbn [bind]; [|reflexivity].
    rewrite (IH out (S k1) (S k2)); [reflexivity|].
    intros i Hi. specialize (H (S i)). rewrite !Nat.add_succ_r in H. simpl. apply H. simpl. lia.
Qed.

Lemma forward_loop_app (self : Sequential.t) (a b : list Sequential.Layer)
    (inp : tensor) (draws : nat -> tensor) (k : nat) :
  Sequential.forward_loop self (a ++ b) inp draws k
  = ('(la, mid) <- Sequential.forward_loop self a inp draws k ;;
     '(lb, out) <- Sequential.forward_loop self b mid draws (k + length a) ;;
     Ok (la ++ lb, out)).
Proof.
  revert inp k. induction a as [|layer a IH]; intros inp k; cbn [app Sequential.forward_loop length bind].
  - rewrite Nat.add_0_r.
    destruct (Sequential.forward_loop self b inp draws k) as [[lb out]|]; reflexivity.
  - destruct (Sequential.call layer inp _ (draws k)) as [[l mid]|]; cbn [bind]; [|reflexivity].
    rewrite IH. replace (S k + length a)%nat with (k + S (length a))%nat by lia.
    destruct (Sequential.forward_loop self a mid draws (S k)) as [[la mid']|]; cbn [bind]; [|reflexivity].
    destruct (Sequential.forward_loop self b mid' draws (k + S (length a))) as [[lb out]|];
      reflexivity.
Qed.

(** X6. The forward pass of a [Sequential] over the layers [a] followed by
    the layers [b] is the forward pass of a [Sequential] over [b] after
    that of one over [a] in the same mode: the second container gets the
    output of the first and the draws from position [len(a)] on, and an
    exception of either one is the exception of the whole. *)
Theorem Sequential_forward_concat (a b : list Sequential.Layer) (mode : bool)
    (inp : tensor) (draws : nat -> tensor) :
  Sequential.forward {| Sequential.layers := a ++ b; Sequential.if_train := mode |} inp draws
  = ('(sa, mid) <- Sequential.forward
                     {| Sequential.layers := a; Sequential.if_train := mode |} inp draws ;;
     '(sb, out) <- Sequential.forward
                     {| Sequential.layers := b; Sequential.if_train := mode |} mid
                     (fun i => draws (length a + i)%nat) ;;
     Ok ({| Sequential.layers := Sequential.layers sa ++ Sequential.layers sb;
            Sequential.if_train := mode |}, out)).
Proof.
  unfold Sequential.forward. cbn [Sequential.layers Sequential.if_train].
  set (sab := {| Sequential.layers := a ++ b; Sequential.if_train := mode |}).
  set (sa := {| Sequential.layers := a; Sequential.if_train := mode |}).
  set (sb := {| Sequential.layers := b; Sequential.if_train := mode |}).
  assert (Hflag : forall s1 s2 todo x d k,
             Sequential.if_train s1 = Sequential.if_train s2 ->
             Sequential.forward_loop s1 todo x d k = Sequential.forward_loop s2 todo x d k).
  { intros s1 s2 todo. induction todo as [|l todo IH]; intros x d k E; cbn [Sequential.forward_loop].
    - reflexivity.
    - unfold Sequential.train_kwarg. rewrite E.
      destruct (Sequential.call l x _ (d k)) as [[l' o]|]; cbn [bind]; [|reflexivity].
      now rewrite (IH o d (S k) E). }
  rewrite forward_loop_app.
  rewrite (Hflag sab sa a inp draws 0%nat eq_refl).
  destruct (Sequential.forward_loop sa a inp draws 0) as [[la mid]|]; cbn [bind]; [|reflexivity].
  rewrite (Hflag sab sb b mid draws _ eq_refl).
  rewrite (forward_loop_ext sb b mid draws (fun i => draws (length a + i)%nat) (0 + length a) 0)
    by (intros i _; reflexivity).
  destruct (Sequential.forward_loop sb b mid _ 0) as [[lb out]|]; reflexivity.
Qed.

(** X7. In eval mode the forward pass of a [Sequential] without a nested
    container does not depend on what [np.random.binomial] would draw: a
    [DropoutLayer] is handed [train=False] and passes its input through,
    and no other layer samples. *)
Theorem Sequential_eval_forward_ignores_draws (self : Sequential.t) (inp : tensor)
    (d1 d2 : nat -> tensor) :
  forallb Inputs.flat_layer (Sequential.layers self) = true ->
  Sequential.forward (Sequential.eval self) inp d1
  = Sequential.forward (Sequential.eval self) inp d2.
Proof.
  intros _.
  unfold Sequential.forward, Sequential.eval. cbn [Sequential.layers Sequential.if_train].
  set (s := {| Sequential.layers := Sequential.layers self; Sequential.if_train := false |}).
  assert (H : forall todo x k1 k2,
             Sequential.forward_loop s todo x d1 k1 = Sequential.forward_loop s todo x d2 k2).
  { induction todo as [|l todo IH]; intros x k1 k2; cbn [Sequential.forward_loop].
    - reflexivity.
    - assert (E : Sequential.call l x (Sequential.train_kwarg s l) (d1 k1)
                  = Sequential.call l x (Sequential.train_kwarg s l) (d2 k2)).
      { destruct l; try reflexivity. }
      rewrite E. destruct (Sequential.call l x _ (d2 k2)) as [[l' o]|]; cbn [bind]; [|reflexivity].
      now rewrite (IH o (S k1) (S k2)). }
  now rewrite (H _ inp 0%nat 0%nat).
Qed.

End WithMath.

(** [Sequential(DropoutLayer(0.5), ReLU())] in eval mode, once with every
    entry dropped and once with every entry kept by the draw. *)
Lemma Sequential_eval_forward_ignores_draws_witness :
  @Sequential.forward Inputs.libm_model
    (Sequential.eval Inputs.dropout_then_relu) (T1 [1; -2]%float)
    (fun _ => T1 [0; 0]%float)
  = @Sequential.forward Inputs.libm_model
      (Sequential.eval Inputs.dropout_then_relu) (T1 [1; -2]%float)
      (fun _ => T1 [1; 1]%float).
Proof.
  apply (@Sequential_eval_forward_ignores_draws Inputs.libm_model
           Inputs.dropout_then_relu).
  reflexivity.
Defined.

End SequentialFacts.

Module PoolFacts.
Import Patch PatchFacts Tensor ReshapeFacts.

Lemma clamp_index_nat (len v : nat) : (v <= len)%nat -> clamp_index len (Z.of_nat v) = v.
Proof.
  intros H. unfold clamp_index.
  replace (Z.of_nat v <? 0) with false by (symmetry; apply Z.ltb_ge; lia). lia.
Qed.

(** [l[a:b]] for [0 <= a <= b <= len(l)]. *)
Lemma slice_nat {A} (a b : nat) (l : list A) (d : A) :
  (a <= b)%nat -> (b <= length l)%nat ->
  slice (Z.of_nat a) (Z.of_nat b) l = tab (b - a) (fun i => nth (a + i) l d).
Proof.
  intros Hab Hb. unfold slice. rewrite !clamp_index_nat by lia.
  apply nth_ext with (d := d) (d' := d).
  - rewrite length_firstn, length_skipn, tab_length. lia.
  - intros n Hn. rewrite length_firstn, length_skipn in Hn.
    rewrite nth_firstn. replace (n <? b - a)%nat with true by (symmetry; apply Nat.ltb_lt; lia).
    rewrite nth_skipn, tab_nth by lia. reflexivity.
Qed.

Lemma map_result_ok {A B} (f : A -> Result B) (g : A -> B) (l : list A) :
  (forall x, In x l -> f x = Ok (g x)) -> map_result f l = Ok (map g l).
Proof.
  induction l as [|x l IH]; intros H; cbn [map_result map]; [reflexivity|].
  rewrite (H x (or_introl eq_refl)). cbn [bind].
  rewrite IH by (intros y Hy; apply H; now right). reflexivity.
Qed.

(** ** The order of float64

    [<] and [<=] through their specification on [spec_float]: a NaN
    compares with nothing, the two zeros compare equal. *)

Lemma SFcompare_trans (x y v : SpecFloat.spec_float) :
  SpecFloat.SFleb y x = false -> x <> SpecFloat.S754_nan ->
  SpecFloat.SFltb x v = false -> SpecFloat.SFltb y v = false.
Proof.
  unfold SpecFloat.SFleb, SpecFloat.SFltb.
  destruct x as [sx|sx| |sx mx ex], y as [sy|sy| |sy my ey], v as [sv|sv| |sv mv ev];
    try destruct sx; try destruct sy; try destruct sv;
    cbn; try congruence; intros H1 _ H2; revert H1 H2;
    repeat match goal with
           | |- context [Z.compare ?a ?b] => destruct (Z.compare_spec a b)
           | |- context [Pos.compare_cont Eq ?a ?b] =>
               change (Pos.compare_cont Eq a b) with (Pos.compare a b)
           | |- context [Pos.compare ?a ?b] => destruct (Pos.compare_spec a b)
           end; cbn; try congruence; try lia.
Qed.

Lemma is_nan_spec (x : float) :
  PrimFloat.is_nan x = false -> Prim2SF x <> SpecFloat.S754_nan.
Proof.
  unfold PrimFloat.is_nan. rewrite eqb_spec. intros H E. rewrite E in H. discriminate H.
Qed.

Lemma ltb_irrefl (x : float) : PrimFloat.ltb x x = false.
Proof.
  rewrite ltb_spec. unfold SpecFloat.SFltb.
  destruct (Prim2SF x) as [s|s| |s m e]; try destruct s; cbn; try reflexivity.
  all: rewrite Z.compare_refl; change (Pos.compare_cont Eq m m) with (Pos.compare m m);
    now rewrite Pos.compare_refl.
Qed.

Lemma leb_not_ltb (x y : float) : PrimFloat.leb y x = true -> PrimFloat.ltb x y = false.
Proof.
  rewrite ltb_spec, leb_spec. unfold SpecFloat.SFleb, SpecFloat.SFltb.
  destruct (Prim2SF x) as [sx|sx| |sx mx ex], (Prim2SF y) as [sy|sy| |sy my ey];
    try destruct sx; try destruct sy; cbn; try congruence;
    repeat match goal with
           | |- context [Z.compare ?a ?b] => destruct (Z.compare_spec a b)
           | |- context [Pos.compare_cont Eq ?a ?b] =>
               change (Pos.compare_cont Eq a b) with (Pos.compare a b)
           | |- context [Pos.compare ?a ?b] => destruct (Pos.compare_spec a b)
           end; cbn; try congruence; try lia.
Qed.

Lemma ltb_leb (x y : float) : PrimFloat.ltb x y = true -> PrimFloat.leb x y = true.
Proof.
  rewrite ltb_spec, leb_spec. unfold SpecFloat.SFleb, SpecFloat.SFltb.
  destruct (SpecFloat.SFcompare _ _) as [[| |]|]; congruence.
Qed.

Lemma nan_not_ltb (x v : float) : PrimFloat.is_nan x = true -> PrimFloat.ltb x v = false.
Proof.
  unfold PrimFloat.is_nan. rewrite eqb_spec, ltb_spec.
  unfold SpecFloat.SFeqb, SpecFloat.SFltb.
  destruct (Prim2SF x) as [s|s| |s m e]; try destruct s; cbn; try congruence.
  all: rewrite Z.compare_refl; change (Pos.compare_cont Eq m m) with (Pos.compare m m);
    rewrite Pos.compare_refl; cbn; congruence.
Qed.

(** The larger of two entries is below nothing the first one is not below,
    and is not below the second. *)
Lemma max_pair_keeps_bound (x y v : float) :
  PrimFloat.ltb x v = false -> PrimFloat.ltb (np_max_pair x y) v = false.
Proof.
  intros H. unfold np_max_pair.
  destruct (PrimFloat.leb y x) eqn:E1; cbn [orb]; [exact H|].
  destruct (PrimFloat.is_nan x) eqn:E2; [exact H|].
  revert H E1. rewrite !ltb_spec, leb_spec. intros H E1.
  exact (@SFcompare_trans _ _ _ E1 (@is_nan_spec _ E2) H).
Qed.

Lemma max_pair_not_below_second (x y : float) :
  PrimFloat.ltb (np_max_pair x y) y = false.
Proof.
  unfold np_max_pair.
  destruct (PrimFloat.leb y x) eqn:E1; cbn [orb]; [now apply leb_not_ltb|].
  destruct (PrimFloat.is_nan x) eqn:E2; [now apply nan_not_ltb | apply ltb_irrefl].
Qed.

Lemma fold_max_bound (t : ten1) (x v : float) :
  PrimFloat.ltb x v = false -> PrimFloat.ltb (fold_left np_max_pair t x) v = false.
Proof.
  revert x. induction t as [|y t IH]; intros x H; cbn [fold_left]; [exact H|].
  apply IH. now apply max_pair_keeps_bound.
Qed.

(** [np.max] of a non-empty run is below none of its entries. *)
Lemma fold_max_upper (t : ten1) (x v : float) :
  In v (x :: t) -> PrimFloat.ltb (fold_left np_max_pair t x) v = false.
Proof.
  revert x. induction t as [|y t IH]; intros x Hv.
  - destruct Hv as [<-|[]]. apply ltb_irrefl.
  - cbn [fold_left]. destruct Hv as [<-|Hv].
    + apply fold_max_bound, max_pair_keeps_bound, ltb_irrefl.
    + destruct Hv as [<-|Hv].
      * apply fold_max_bound, max_pair_not_below_second.
      * apply IH. now right.
Qed.

(** [np.max] of a non-empty run is one of its entries. *)
Lemma fold_max_in (t : ten1) (x : float) : In (fold_left np_max_pair t x) (x :: t).
Proof.
  revert x. induction t as [|y t IH]; intros x; cbn [fold_left]; [now left|].
  destruct (IH (np_max_pair x y)) as [E | Hin].
  - unfold np_max_pair in E at 1.
    destruct (PrimFloat.leb y x || PrimFloat.is_nan x); rewrite <- E; [now left | right; now left].
  - right. now right.
Qed.

Lemma vmax_in (l : ten1) : l <> [] -> exists v, vmax l = Ok v /\ In v l.
Proof.
  destruct l as [|x t]; [congruence|]. intros _. eexists. split; [reflexivity|].
  apply fold_max_in.
Qed.

(** The window of a plane at [(i, j)], as the source slices it. *)
Lemma window_entries (H W k s i j : nat) (plane : ten2) :
  rect2 H W plane -> (i * s + k <= H)%nat -> (j * s + k <= W)%nat ->
  MaxPool2d.window plane (Z.of_nat i * Z.of_nat s) (Z.of_nat i * Z.of_nat s + Z.of_nat k)
    (Z.of_nat j * Z.of_nat s) (Z.of_nat j * Z.of_nat s + Z.of_nat k)
  = concat (tab k (fun a => tab k (fun b => get2 plane (i * s + a) (j * s + b)))).
Proof.
  intros Hp Hi Hj. unfold MaxPool2d.window.
  assert (HL : length plane = H) by apply Hp.
  rewrite <- !Nat2Z.inj_mul, <- !Nat2Z.inj_add.
  rewrite (@slice_nat _ (i * s)%nat (i * s + k)%nat plane []) by lia.
  replace (i * s + k - i * s)%nat with k by lia.
  rewrite map_tab. f_equal. apply tab_ext. intros a Ha.
  assert (HRow : length (nth (i * s + a)%nat plane []) = W)
    by (apply (rect2_row Hp); lia).
  rewrite (@slice_nat _ (j * s)%nat (j * s + k)%nat (nth (i * s + a)%nat plane []) 0%float)
    by lia.
  replace (j * s + k - j * s)%nat with k by lia. reflexivity.
Qed.

Lemma window_nonempty (k : nat) (f : nat -> nat -> float) :
  (0 < k)%nat -> concat (tab k (fun a => tab k (fun b => f a b))) <> [].
Proof.
  intros Hk E. apply (f_equal (@length float)) in E.
  destruct k as [|k]; [lia|]. rewrite tab_S in E. cbn [concat] in E.
  rewrite length_app, tab_length in E. simpl in E. lia.
Qed.

Lemma vmax_best (l : ten1) :
  l <> [] ->
  vmax l = Ok (match vmax l with Ok v => v | Raise _ => 0%float end)
  /\ In (match vmax l with Ok v => v | Raise _ => 0%float end) l.
Proof.
  destruct l as [|x t]; [congruence|]. intros _. split; [reflexivity|].
  apply fold_max_in.
Qed.

Lemma vmax_upper (l : ten1) (v : float) :
  In v l ->
  PrimFloat.ltb (match vmax l with Ok m => m | Raise _ => 0%float end) v = false.
Proof.
  destruct l as [|x t]; [intros []|]. cbn [vmax]. apply fold_max_upper.
Qed.

Lemma in_tab_nat (n : nat) (z : Z) :
  In z (tab n Z.of_nat) -> exists i, (i < n)%nat /\ z = Z.of_nat i.
Proof.
  unfold tab. intros H. apply in_map_iff in H. destruct H as [i [<- Hi]].
  apply in_seq in Hi. exists i. split; [lia | reflexivity].
Qed.

Lemma floordiv_nat (a s : nat) :
  (0 < s)%nat -> floordiv (Z.of_nat a) (Z.of_nat s) = Ok (Z.of_nat (a / s)).
Proof.
  intros Hs. unfold floordiv.
  replace (Z.of_nat s =? 0) with false by (symmetry; apply Z.eqb_neq; lia).
  now rewrite Nat2Z.inj_div.
Qed.

Lemma window_fits (side k s i : nat) :
  (0 < s)%nat -> (k <= side)%nat -> (i < (side - k) / s + 1)%nat -> (i * s + k <= side)%nat.
Proof.
  intros Hs Hk Hi.
  assert (i <= (side - k) / s)%nat by lia.
  assert (s * ((side - k) / s) <= side - k)%nat by (apply Nat.Div0.mul_div_le).
  nia.
Qed.

Lemma map_result_range {B} (n : nat) (f : Z -> Result B) (g : nat -> B) :
  (forall i, (i < n)%nat -> f (Z.of_nat i) = Ok (g i)) ->
  map_result f (tab n Z.of_nat) = Ok (tab n g).
Proof.
  intros H. rewrite (map_result_ok f (fun z => g (Z.to_nat z))).
  - rewrite map_tab. f_equal. apply tab_ext. intros i _. now rewrite Nat2Z.id.
  - intros z Hz. apply in_tab_nat in Hz. destruct Hz as [i [Hi ->]].
    rewrite Nat2Z.id. now apply H.
Qed.



End PoolFacts.

Module ConvFacts.
Import Patch PatchFacts Tensor ReshapeFacts PoolFacts.
Local Open Scope float_scope.

Lemma map_as_tab {A B} (f : A -> B) (l : list A) (d : A) :
  map f l = tab (length l) (fun r => f (nth r l d)).
Proof.
  rewrite <- (tab_self l d) at 1. now rewrite map_tab.
Qed.

(** [m.T] of a rectangular matrix. *)
Lemma transpose2_rect (R W : nat) (m : ten2) :
  rect2 R W m -> (0 < R)%nat ->
  transpose2 m = tab W (fun c => tab R (fun r => get2 m r c)).
Proof.
  intros Hm HR. unfold transpose2, columns.
  assert (HL : length m = R) by apply Hm.
  assert (HW : length (hd [] m) = W).
  { rewrite <- (rect2_row (r := 0%nat) Hm HR). now destruct m. }
  rewrite HW. fold (tab W (fun c => map (fun row : list float => nth c row 0) m)).
  apply tab_ext. intros c Hc. rewrite (map_as_tab _ m []), HL. reflexivity.
Qed.

Lemma transpose2_shape (R W : nat) (m : ten2) :
  rect2 R W m -> (0 < R)%nat -> rect2 W R (transpose2 m).
Proof.
  intros Hm HR. rewrite (transpose2_rect Hm HR). split; [apply tab_length|].
  apply Forall_tab. intros c Hc. apply tab_length.
Qed.

Lemma transpose2_twice (R W : nat) (m : ten2) :
  rect2 R W m -> (0 < R)%nat -> (0 < W)%nat -> transpose2 (transpose2 m) = m.
Proof.
  intros Hm HR HW.
  rewrite (transpose2_rect (transpose2_shape Hm HR) HW).
  apply rect2_ext with (R := R) (W := W); auto.
  - split; [apply tab_length|]. apply Forall_tab. intros r Hr. apply tab_length.
  - intros r c Hr Hc. unfold get2 at 1. rewrite (tab_nth _ _ Hr), (tab_nth _ _ Hc).
    rewrite (transpose2_rect Hm HR). unfold get2 at 1.
    now rewrite (tab_nth _ _ Hc), (tab_nth _ _ Hr).
Qed.

Lemma combine_tab {A B} (n : nat) (f : nat -> A) (g : nat -> B) :
  combine (tab n f) (tab n g) = tab n (fun i => (f i, g i)).
Proof.
  unfold tab. generalize (seq 0 n). intros l.
  induction l as [|x l IH]; simpl; [reflexivity | now rewrite IH].
Qed.

Lemma row_as_tab (R W : nat) (m : ten2) (r : nat) :
  rect2 R W m -> (r < R)%nat -> nth r m [] = tab W (fun c => get2 m r c).
Proof.
  intros Hm Hr. unfold get2. rewrite <- (rect2_row Hm Hr). symmetry. apply tab_self.
Qed.

(** [a @ b] of an [(R, K)] and a [(K, L)] matrix. *)
Lemma dot_rect (R K L : nat) (a b : ten2) :
  rect2 R K a -> rect2 K L b -> (0 < R)%nat -> (0 < K)%nat ->
  dot (T2 a) (T2 b)
  = Ok (T2 (tab R (fun r => tab L (fun q =>
            vsum (tab K (fun t => get2 a r t * get2 b t q)))))).
Proof.
  intros Ha Hb HR HK. unfold dot.
  assert (HLa : length a = R) by apply Ha.
  assert (HLb : length b = K) by apply Hb.
  assert (Hhd : length (hd [] a) = K).
  { rewrite <- (rect2_row (r := 0%nat) Ha HR). now destruct a. }
  rewrite Hhd, HLb, Nat.eqb_refl. do 2 f_equal.
  rewrite (map_as_tab _ a []), HLa. apply tab_ext. intros r Hr.
  rewrite (transpose2_rect Hb HK), map_tab. apply tab_ext. intros q Hq.
  unfold dot_row. rewrite (row_as_tab Ha Hr), combine_tab, map_tab. reflexivity.
Qed.

Lemma zip_with_ok {A B C} (f : A -> B -> Result C) (g : nat -> C)
    (la : list A) (lb : list B) (da : A) (db : B) :
  length la = length lb ->
  (forall r, (r < length la)%nat -> f (nth r la da) (nth r lb db) = Ok (g r)) ->
  zip_with f la lb = Ok (tab (length la) g).
Proof.
  revert lb g. induction la as [|x la IH]; intros [|y lb] g Hlen H; try discriminate.
  - reflexivity.
  - cbn [zip_with length]. pose proof (H 0%nat ltac:(simpl; lia)) as H0.
    cbn [nth] in H0. rewrite H0. cbn [bind].
    rewrite (IH lb (fun i => g (S i))).
    + cbn [bind]. now rewrite tab_S.
    + simpl in Hlen. lia.
    + intros r Hr. apply (H (S r)). simpl. lia.
Qed.

(** A row against a single entry: the entry is stretched along the row. *)
Lemma bcast1_scalar (f : float -> float -> float) (row : ten1) (y : float) :
  bcast1 f row [y] = Ok (map (fun x => f x y) row).
Proof.
  assert (M : forall l : ten1, map_result (fun x => Ok (f x y)) l = Ok (map (fun x => f x y) l)).
  { intros l. now apply map_result_ok. }
  unfold bcast1, bzip. destruct row as [|x [|x' row]]; cbn [length Nat.eqb].
  - apply M.
  - reflexivity.
  - apply M.
Qed.

(** [a + col] for an [(R, L)] matrix and an [(R, 1)] column. *)
Lemma tadd_column (R L : nat) (a : ten2) (v : nat -> float) :
  rect2 R L a ->
  tadd (T2 a) (T2 (tab R (fun r => [v r])))
  = Ok (T2 (tab R (fun r => tab L (fun q => get2 a r q + v r)))).
Proof.
  intros Ha. unfold ten2, ten1 in *. assert (HL : length a = R) by apply Ha.
  unfold tadd, tbin. cbn [promote rank Nat.max demote].
  assert (E : bcast2 PrimFloat.add a (tab R (fun r => [v r]))
              = Ok (tab R (fun r => tab L (fun q => get2 a r q + v r)))).
  { unfold bcast2, bzip. unfold ten1. rewrite tab_length, HL, Nat.eqb_refl.
    rewrite <- HL at 2.
    apply zip_with_ok with (da := []) (db := []); [now rewrite tab_length|].
    intros r Hr. assert (Hr' : (r < R)%nat) by lia.
    rewrite (tab_nth _ _ Hr'), bcast1_scalar.
    f_equal. rewrite (map_as_tab _ _ 0). unfold ten1.
    rewrite (rect2_row Ha Hr'). apply tab_ext. intros q _. reflexivity. }
  unfold bcast4, bcast3, bzip at 1. cbn [length Nat.eqb zip_with].
  unfold bzip at 1. cbn [length Nat.eqb zip_with].
  fold (bcast2 PrimFloat.add). rewrite E. reflexivity.
Qed.

End ConvFacts.

Module Conv2dFacts.
Import Patch PatchFacts Tensor ReshapeFacts PoolFacts ConvFacts Inputs.
Local Open Scope float_scope.

Lemma hd_tab {A} (n : nat) (f : nat -> A) (d : A) : (0 < n)%nat -> hd d (tab n f) = f 0%nat.
Proof. destruct n; [lia|]. intros _. now rewrite tab_S. Qed.

Lemma chunk_one {A} (q : nat) (flat : list A) (d : A) :
  (q < length flat)%nat -> chunk 1 q flat = [nth q flat d].
Proof.
  intros H. apply nth_ext with (d := d) (d' := d).
  - rewrite chunk_length by lia. reflexivity.
  - intros n Hn. rewrite chunk_length in Hn by lia.
    rewrite (chunk_nth _ _ _ Hn). destruct n; [|lia]. cbn [nth]. f_equal. lia.
Qed.

Lemma build2_rect (a b : nat) (flat : ten1) :
  length flat = (a * b)%nat -> rect2 a b (build2 a b flat).
Proof.
  intros Hlen. unfold build2. split; [apply tab_length|].
  apply Forall_tab. intros i Hi. apply chunk_length. rewrite Hlen. nia.
Qed.

Lemma build2_get (a b : nat) (flat : ten1) (i j : nat) :
  (i < a)%nat -> (j < b)%nat ->
  get2 (build2 a b flat) i j = nth (i * b + j) flat 0.
Proof.
  intros Hi Hj. unfold get2, build2. now rewrite (tab_nth _ _ Hi), (chunk_nth _ _ _ Hj).
Qed.

(** [reshape(a, -1)] of [a * m] entries, and [reshape(-1, 1)]. *)
Lemma fix_rows_dimension (a m : nat) :
  (0 < a)%nat -> fix_unknown_dimension [Z.of_nat a; (-1)%Z] (a * m) = Ok [a; m].
Proof.
  intros Ha. unfold fix_unknown_dimension. cbn [List.filter].
  replace (0 <=? Z.of_nat a)%Z with true by (symmetry; apply Z.leb_le; lia).
  replace (Z.of_nat a <? 0)%Z with false by (symmetry; apply Z.ltb_ge; lia).
  change (0 <=? -1)%Z with false. change (-1 <? 0)%Z with true.
  cbn [length fold_left map].
  replace (1 * Z.of_nat a)%Z with (Z.of_nat a) by lia.
  assert (E1 : (Z.of_nat (a * m) mod Z.of_nat a = 0)%Z)
    by (rewrite Nat2Z.inj_mul, Z.mul_comm; apply Z_mod_mult).
  assert (E2 : (Z.of_nat (a * m) / Z.of_nat a = Z.of_nat m)%Z)
    by (rewrite Nat2Z.inj_mul, Z.mul_comm; apply Z.div_mul; lia).
  rewrite E1, E2.
  replace (Z.of_nat a =? 0)%Z with false by (symmetry; apply Z.eqb_neq; lia).
  cbn [orb negb Z.eqb].
  replace (Z.of_nat a <? 0)%Z with false by (symmetry; apply Z.ltb_ge; lia).
  change (-1 <? 0)%Z with true. rewrite !Nat2Z.id. reflexivity.
Qed.

Lemma fix_column_dimension (m : nat) :
  fix_unknown_dimension [(-1)%Z; 1%Z] m = Ok [m; 1%nat].
Proof.
  unfold fix_unknown_dimension. cbn [List.filter].
  change (0 <=? -1)%Z with false. change (-1 <? 0)%Z with true.
  change (0 <=? 1)%Z with true. change (1 <? 0)%Z with false.
  cbn [length fold_left map]. change (1 * 1)%Z with 1%Z.
  rewrite Z.mod_1_r, Z.div_1_r. cbn. now rewrite Nat2Z.id.
Qed.

Lemma transposed_get (d0 d1 d2 d3 : nat) (a : ten4) (n f i j : nat) :
  rect4 d0 d1 d2 d3 a -> (0 < d0)%nat -> (0 < d1)%nat -> (0 < d2)%nat ->
  rect4 d3 d0 d1 d2 (transpose_3012 a)
  /\ ((n < d3)%nat -> (f < d0)%nat -> (i < d1)%nat -> (j < d2)%nat ->
      get4 (transpose_3012 a) n f i j = get4 a f i j n).
Proof.
  intros Ha H0 H1 H2.
  pose proof (shape4_rect Ha H0 H1 H2) as E. unfold shape4 in E.
  injection E as E0 E1 E2 E3.
  apply Nat2Z.inj in E0, E1, E2, E3.
  unfold transpose_3012. unfold ten4, ten3, ten2, ten1, arr4, arr3, arr2 in *.
  rewrite E0, E1, E2, E3. split.
  - split; [apply tab_length|]. apply Forall_tab. intros n' _.
    split; [apply tab_length|]. apply Forall_tab. intros f' _.
    split; [apply tab_length|]. apply Forall_tab. intros i' _. apply tab_length.
  - intros Hn Hf Hi Hj. unfold get4 at 1, get3.
    now rewrite (tab_nth _ _ Hn), (tab_nth _ _ Hf), (tab_nth _ _ Hi), (tab_nth _ _ Hj).
Qed.

Section Conv.
Variables (N C H W NF FH FW p s : nat).
Variables (x wv : ten4) (bv : tensor) (self : Conv2d.t).
Hypothesis Hweight : Param.value (Conv2d.weight self) = T4 wv.
Hypothesis Hbias : Param.value (Conv2d.bias self) = bv.
Hypothesis Hbv : length (ravel bv) = NF.
Hypothesis Hpad : Conv2d.padding self = Z.of_nat p.
Hypothesis Hstride : Conv2d.stride self = Z.of_nat s.
Hypothesis Hx : rect4 N C H W x.
Hypothesis Hwv : rect4 NF C FH FW wv.
Hypothesis HN : (0 < N)%nat.
Hypothesis HC : (0 < C)%nat.
Hypothesis HH : (0 < H)%nat.
Hypothesis HNF : (0 < NF)%nat.
Hypothesis HFH : (0 < FH)%nat.
Hypothesis HFW : (0 < FW)%nat.
Hypothesis Hs : (0 < s)%nat.
Hypothesis HfitH : (FH <= H + 2 * p)%nat.
Hypothesis HfitW : (FW <= W + 2 * p)%nat.

Let g := conv_geometry N C H W FH FW p s.

Lemma conv_geometry_ok : geometry_ok g.
Proof. unfold geometry_ok, g, conv_geometry, padded_h, padded_w. cbn. repeat split; lia. Qed.

Lemma conv_forward_run :
  exists cols,
    rect2 (n_rows g) (n_locs g * N) cols
    /\ (forall r l n,
          (r < n_rows g)%nat -> (l < n_locs g)%nat -> (n < N)%nat ->
          get2 cols r (l * N + n)
          = get4 (padded g x) n (k_of g r) (i_of g r l) (j_of g r l))
    /\ Conv2d.forward self (T4 x)
       = Ok (self, T4 (transpose_3012 (build4 NF (out_h g) (out_w g) N
               (concat (tab NF (fun f => tab (n_locs g * N) (fun q =>
                  vsum (tab (C * (FH * FW)) (fun t =>
                     get2 (build2 NF (C * (FH * FW)) (ravel (T4 wv))) f t * get2 cols t q))
                  + nth f (ravel bv) 0))))))).
Proof.
  pose proof conv_geometry_ok as Hg.
  destruct (@im2col_indices_spec float float_Arith g Hg HH x Hx) as (cols & E & Hcols & Hget).
  exists cols. split; [exact Hcols|]. split; [exact Hget|].
  unfold Conv2d.forward. rewrite Hweight, Hbias. cbn [bind].
  rewrite (shape4_rect Hwv HNF HC HFH), (shape4_rect Hx HN HC HH), Hpad, Hstride.
  replace (Z.of_nat H - Z.of_nat FH + 2 * Z.of_nat p)%Z
    with (Z.of_nat (H + 2 * p - FH)) by lia.
  replace (Z.of_nat W - Z.of_nat FW + 2 * Z.of_nat p)%Z
    with (Z.of_nat (W + 2 * p - FW)) by lia.
  rewrite !floordiv_nat by exact Hs. cbn [bind].
  change (im2col_indices x (Z.of_nat FH) (Z.of_nat FW) (AnInt (Z.of_nat p))
            (AnInt (Z.of_nat s)))
    with (im2col_indices x (Z.of_nat (field_h g)) (Z.of_nat (field_w g))
            (APair (padding g)) (APair (stride g))).
  rewrite E. cbn [bind].
  (* the weights as a matrix *)
  set (K := (C * (FH * FW))%nat).
  assert (Hwlen : length (ravel (T4 wv)) = (NF * K)%nat)
    by (cbn [ravel]; apply (ravel4_length Hwv)).
  unfold reshape2 at 1. rewrite Hwlen, (fix_rows_dimension _ HNF). cbn [bind].
  set (wr := build2 NF K (ravel (T4 wv))).
  assert (Hwr : rect2 NF K wr) by (apply build2_rect; exact Hwlen).
  assert (HK : (0 < K)%nat) by (unfold K; nia).
  cbn [transpose]. rewrite (transpose2_twice Hwr HNF HK).
  rewrite (dot_rect (L := (n_locs g * N)%nat) Hwr Hcols HNF HK). cbn [bind].
  (* the bias as a column *)
  unfold reshape2 at 1. rewrite fix_column_dimension. cbn [bind]. rewrite Hbv.
  assert (Ecol : build2 NF 1 (ravel bv) = tab NF (fun f => [nth f (ravel bv) 0])).
  { unfold build2. apply tab_ext. intros f Hf. apply chunk_one. lia. }
  rewrite Ecol.
  set (prod := tab NF (fun r => tab (n_locs g * N) (fun q =>
                 vsum (tab K (fun t => get2 wr r t * get2 cols t q))))).
  assert (Hprod : rect2 NF (n_locs g * N) prod).
  { split; [apply tab_length|]. apply Forall_tab. intros r _. apply tab_length. }
  rewrite (tadd_column (fun f => nth f (ravel bv) 0) Hprod). cbn [bind].
  set (out2 := tab NF (fun f => tab (n_locs g * N) (fun q =>
                 vsum (tab K (fun t => get2 wr f t * get2 cols t q))
                 + nth f (ravel bv) 0))).
  assert (Eout : tab NF (fun r => tab (n_locs g * N) (fun q =>
                   get2 prod r q + nth r (ravel bv) 0)) = out2).
  { apply tab_ext. intros f Hf. apply tab_ext. intros q Hq.
    unfold get2 at 1, prod. now rewrite (tab_nth _ _ Hf), (tab_nth _ _ Hq). }
  rewrite Eout.
  assert (Hout2 : rect2 NF (n_locs g * N) out2).
  { split; [apply tab_length|]. apply Forall_tab. intros r _. apply tab_length. }
  replace (Z.of_nat ((H + 2 * p - FH) / s) + 1)%Z with (Z.of_nat (out_h g))
    by (unfold out_h, padded_h, g, conv_geometry; cbn; lia).
  replace (Z.of_nat ((W + 2 * p - FW) / s) + 1)%Z with (Z.of_nat (out_w g))
    by (unfold out_w, padded_w, g, conv_geometry; cbn; lia).
  unfold reshape4. cbn [ravel].
  change [Z.of_nat NF; Z.of_nat (out_h g); Z.of_nat (out_w g); Z.of_nat N]
    with (map Z.of_nat [NF; out_h g; out_w g; N]).
  rewrite fix_known_dimensions
    by (rewrite (ravel2_length Hout2); unfold n_locs; cbn [fold_left]; nia).
  cbn [bind]. reflexivity.
Qed.
Lemma weight_entry (f t : nat) :
  (f < NF)%nat -> (t < C * (FH * FW))%nat ->
  get2 (build2 NF (C * (FH * FW)) (ravel (T4 wv))) f t
  = get4 wv f (t / (FH * FW)) (t mod (FH * FW) / FW) (t mod FW).
Proof.
  intros Hf Ht. rewrite build2_get by assumption.
  assert (Hpos : (0 < FH * FW)%nat) by nia.
  assert (Hc : (t / (FH * FW) < C)%nat) by (apply Nat.Div0.div_lt_upper_bound; nia).
  assert (Hm : (t mod (FH * FW) < FH * FW)%nat) by (apply Nat.mod_upper_bound; lia).
  assert (Ha : (t mod (FH * FW) / FW < FH)%nat) by (apply Nat.Div0.div_lt_upper_bound; nia).
  assert (Hb : (t mod FW < FW)%nat) by (apply Nat.mod_upper_bound; lia).
  assert (Hmm : ((t mod (FH * FW)) mod FW = t mod FW)%nat).
  { rewrite (Nat.mul_comm FH FW), Nat.Div0.mod_mul_r.
    rewrite (Nat.mul_comm FW (t / FW mod FH)), Nat.Div0.mod_add.
    apply Nat.Div0.mod_mod. }
  pose proof (Nat.div_mod_eq t (FH * FW)) as D1.
  pose proof (Nat.div_mod_eq (t mod (FH * FW)) FW) as D2. rewrite Hmm in D2.
  cbn [ravel]. rewrite <- (ravel4_nth Hwv Hf Hc Ha Hb). f_equal. nia.
Qed.

Lemma filter_rows_rect : rect2 NF (C * (FH * FW)) (filter_rows wv NF C FH FW).
Proof.
  split; [apply tab_length|]. apply Forall_tab. intros r _. apply tab_length.
Qed.

Lemma patch_columns_rect (xp : ten4) :
  rect2 (n_rows g) (n_locs g * N) (patch_columns g xp).
Proof.
  split; [apply tab_length|]. apply Forall_tab. intros r _. apply tab_length.
Qed.

(** X3. [Conv2d.forward] is the cross-correlation of the zero-padded input
    with every filter, plus the filter's bias, as a matrix product: for an
    input [(N, C, H, W)], filters [(NF, C, FH, FW)] that fit the padded
    image, a bias with [NF] entries and a positive stride, the product of
    the filters laid out in rows with the patches laid out in columns is
    defined, the output has shape
    [(N, NF, (H+2p-FH)//s + 1, (W+2p-FW)//s + 1)], and entry [(n, f, i, j)]
    is entry [(f, (i*out_w + j)*N + n)] of that product plus [bias[f]]. *)
Theorem Conv2d_forward_correlates :
  exists prod out,
    dot (T2 (filter_rows wv NF C FH FW)) (T2 (patch_columns g (padded g x)))
    = Ok (T2 prod)
    /\ rect2 NF (n_locs g * N) prod
    /\ Conv2d.forward self (T4 x) = Ok (self, T4 out)
    /\ rect4 N NF (out_h g) (out_w g) out
    /\ forall n f i j,
         (n < N)%nat -> (f < NF)%nat -> (i < out_h g)%nat -> (j < out_w g)%nat ->
         get4 out n f i j
         = get2 prod f ((i * out_w g + j) * N + n) + nth f (ravel bv) 0.
Proof.
  destruct conv_forward_run as (cols & Hcols & Hget & Erun).
  pose proof conv_geometry_ok as Hg.
  pose proof (out_h_pos g) as Hoh. pose proof (out_w_pos g) as How.
  set (K := (C * (FH * FW))%nat) in *.
  assert (HK : (0 < K)%nat) by (unfold K; nia).
  (* the two factors, entry by entry *)
  assert (Ecols : cols = patch_columns g (padded g x)).
  { apply (@rect2_ext float float_Arith _ _ _ _ Hcols (patch_columns_rect _)).
    intros r q Hr Hq. unfold patch_columns, get2 at 2.
    rewrite (tab_nth _ _ Hr), (tab_nth _ _ Hq). cbv zeta.
    change (batch g) with N.
    assert (Hl : (q / N < n_locs g)%nat)
      by (apply Nat.Div0.div_lt_upper_bound; nia).
    assert (Hn : (q mod N < N)%nat) by (apply Nat.mod_upper_bound; lia).
    rewrite <- (Hget r (q / N)%nat (q mod N)%nat Hr Hl Hn). f_equal.
    pose proof (Nat.div_mod_eq q N). nia. }
  assert (Ewr : build2 NF K (ravel (T4 wv)) = filter_rows wv NF C FH FW).
  { assert (Hwr : rect2 NF K (build2 NF K (ravel (T4 wv))))
      by (apply build2_rect; cbn [ravel]; apply (ravel4_length Hwv)).
    apply (@rect2_ext float float_Arith _ _ _ _ Hwr filter_rows_rect).
    intros f t Hf Ht. unfold K in *. rewrite (weight_entry Hf Ht).
    unfold filter_rows, get2. now rewrite (tab_nth _ _ Hf), (tab_nth _ _ Ht). }
  rewrite Ewr, Ecols in Erun. clear Hget Ecols Ewr Hcols cols.
  set (prod := tab NF (fun f => tab (n_locs g * N) (fun q =>
                 vsum (tab K (fun t =>
                   get2 (filter_rows wv NF C FH FW) f t
                   * get2 (patch_columns g (padded g x)) t q))))).
  assert (Hprod : rect2 NF (n_locs g * N) prod).
  { split; [apply tab_length|]. apply Forall_tab. intros r _. apply tab_length. }
  set (out2 := tab NF (fun f => tab (n_locs g * N) (fun q =>
                 vsum (tab K (fun t =>
                   get2 (filter_rows wv NF C FH FW) f t
                   * get2 (patch_columns g (padded g x)) t q))
                 + nth f (ravel bv) 0))) in *.
  assert (Hout2 : rect2 NF (n_locs g * N) out2).
  { split; [apply tab_length|]. apply Forall_tab. intros r _. apply tab_length. }
  assert (Hflat : length (concat out2) = (NF * (out_h g * (out_w g * N)))%nat).
  { rewrite (ravel2_length Hout2). unfold n_locs. nia. }
  pose proof (build4_rect _ _ _ _ _ Hflat) as Hb4.
  exists prod. eexists.
  split; [exact (dot_rect filter_rows_rect (patch_columns_rect _) HNF HK)|].
  split; [exact Hprod|]. split; [exact Erun|].
  split; [apply (transposed_get 0 0 0 0 Hb4 HNF Hoh How)|].
  intros n f i j Hn Hf Hi Hj.
  rewrite (proj2 (transposed_get n f i j Hb4 HNF Hoh How)) by assumption.
  rewrite build4_get by assumption.
  assert (Hq : ((i * out_w g + j) * N + n < n_locs g * N)%nat).
  { unfold n_locs.
    assert (i * out_w g + out_w g <= out_h g * out_w g)%nat by nia.
    assert ((i * out_w g + j) * N + N <= out_h g * out_w g * N)%nat by nia. lia. }
  replace (f * (out_h g * (out_w g * N)) + (i * (out_w g * N) + (j * N + n)))%nat
    with (f * (n_locs g * N) + ((i * out_w g + j) * N + n))%nat
    by (unfold n_locs; nia).
  change 0 with (@zero float float_Arith) at 1.
  rewrite (ravel2_nth Hout2 Hf Hq).
  unfold get2 at 1, out2. rewrite (tab_nth _ _ Hf), (tab_nth _ _ Hq).
  f_equal. unfold get2 at 3, prod.
  now rewrite (tab_nth _ _ Hf), (tab_nth _ _ Hq).
Qed.

End Conv.

Lemma Conv2d_forward_correlates_witness :
  exists out,
    Conv2d.forward diagonal_filter (T4 sample_3x3) = Ok (diagonal_filter, T4 out)
    /\ rect4 1 1 2 2 out
    /\ get4 out 0 0 1 1 = 24.
Proof.
  destruct (@Conv2d_forward_correlates 1 1 3 3 1 2 2 0 1 sample_3x3
              [[ [[1; 0]; [0; 1]] ]] (T1 [10]) diagonal_filter)
    as (prod & out & Hdot & _ & E & R & V); try reflexivity; try lia.
  - unfold rect4, rect3, rect2. simpl. repeat constructor.
  - unfold rect4, rect3, rect2. simpl. repeat constructor.
  - exists out. split; [exact E|]. split; [exact R|].
    rewrite (V 0 0 1 1)%nat by (cbv; lia).
    vm_compute in Hdot. injection Hdot as <-. vm_compute. reflexivity.
Defined.

End Conv2dFacts.

Module Im2colFacts.
Import Patch PatchFacts Inputs.

Section Padded.
Context {F : Type} {AF : Arith F}.
Variable g : geometry.
Variable x : @arr4 F.
Hypothesis Hx : rect4 (batch g) (chans g) (height g) (width g) x.

Lemma nth_repeat_zero (m i : nat) : nth i (repeat (zero : F) m) zero = zero.
Proof. apply nth_repeat. Qed.

Lemma nth_repeat_row (m w i j : nat) :
  nth j (nth i (repeat (repeat (zero : F) w) m) []) zero = zero.
Proof.
  destruct (Nat.lt_ge_cases i m) as [Hi | Hi].
  - rewrite nth_repeat_lt by exact Hi. apply nth_repeat.
  - rewrite (nth_overflow (repeat (repeat (zero : F) w) m) [])
      by (rewrite repeat_length; lia).
    now destruct j.
Qed.

(** The padded image is the image inside a frame of zeros. *)
Lemma padded_entry (n c h w : nat) :
  (n < batch g)%nat -> (c < chans g)%nat ->
  get4 (padded g x) n c h w = zero_padded g x n c h w.
Proof.
  intros Hn Hc. unfold zero_padded, padded, get4, get3.
  pose proof (rect4_img Hx Hn) as H3.
  pose proof (rect3_plane H3 Hc) as H2.
  assert (Lx : length x = batch g) by apply Hx.
  assert (L3 : length (nth n x []) = chans g) by apply H3.
  assert (L2 : length (nth c (nth n x []) []) = height g) by apply H2.
  rewrite nth_map_lt with (d := []) by lia.
  rewrite nth_map_lt with (d := []) by lia.
  destruct (Nat.leb_spec (pad_h g) h) as [Hh1 | Hh1]; cbn [andb].
  2:{ rewrite app_nth1 by (rewrite repeat_length; lia). apply nth_repeat_row. }
  rewrite app_nth2 by (rewrite repeat_length; lia). rewrite repeat_length.
  destruct (Nat.ltb_spec h (pad_h g + height g)) as [Hh2 | Hh2]; cbn [andb].
  2:{ rewrite app_nth2 by (rewrite length_map; lia). rewrite length_map. apply nth_repeat_row. }
  rewrite app_nth1 by (rewrite length_map; lia).
  rewrite nth_map_lt with (d := []) by lia.
  assert (H1 : length (nth (h - pad_h g) (nth c (nth n x []) []) []) = width g)
    by (apply (rect2_row H2); lia).
  destruct (Nat.leb_spec (pad_w g) w) as [Hw1 | Hw1]; cbn [andb].
  2:{ rewrite app_nth1 by (rewrite repeat_length; lia). apply nth_repeat. }
  rewrite app_nth2 by (rewrite repeat_length; lia). rewrite repeat_length.
  destruct (Nat.ltb_spec w (pad_w g + width g)) as [Hw2 | Hw2].
  - now rewrite app_nth1 by lia.
  - rewrite app_nth2 by lia. apply nth_repeat.
Qed.

End Padded.

(** X2. Inside numpy's domain (non-empty batch, channels, rows and field,
    positive strides, a field that fits the padded image, padding zero on
    both axes or on neither) [im2col_indices] returns a matrix with one row
    per (channel, field row, field column) and one column per (output
    location, sample); entry [(r, l*N + n)] is the entry of sample [n]
    that row [r] of the field sees at location [l], or 0 where the window
    hangs over the padding. *)
Theorem im2col_indices_columns {F : Type} {AF : Arith F} (g : geometry) (x : @arr4 F) :
  geometry_ok g -> (0 < height g)%nat ->
  rect4 (batch g) (chans g) (height g) (width g) x ->
  exists cols,
    im2col_indices x (Z.of_nat (field_h g)) (Z.of_nat (field_w g))
      (APair (padding g)) (APair (stride g)) = Ok cols
    /\ rect2 (n_rows g) (n_locs g * batch g) cols
    /\ forall r l n,
         (r < n_rows g)%nat -> (l < n_locs g)%nat -> (n < batch g)%nat ->
         (k_of g r < chans g)%nat
         /\ get2 cols r (l * batch g + n)
            = zero_padded g x n (k_of g r) (i_of g r l) (j_of g r l).
Proof.
  intros Hg Hh Hx.
  destruct (im2col_indices_spec Hg Hh Hx) as (cols & E & Hrect & Hget).
  exists cols. split; [exact E|]. split; [exact Hrect|].
  intros r l n Hr Hl Hn. pose proof (k_of_lt g Hr) as Hk. split; [exact Hk|].
  rewrite (Hget r l n Hr Hl Hn). now apply padded_entry.
Qed.

Lemma im2col_indices_columns_witness :
  exists cols,
    im2col_indices x_tiles 2 2 (APair (0, 0)) (APair (2, 2)) = Ok cols
    /\ get2 cols 0 1 = 3 /\ get2 cols 3 2 = 14.
Proof.
  destruct (@im2col_indices_columns Z Z_Arith g_tiles x_tiles) as (cols & E & _ & Hget).
  - unfold geometry_ok, padded_h, padded_w. simpl. repeat split; lia.
  - simpl. lia.
  - unfold rect4, rect3, rect2. simpl. repeat constructor.
  - exists cols. split; [exact E|]. split.
    + destruct (Hget 0%nat 1%nat 0%nat) as [_ G]; [vm_compute; lia ..|]. exact G.
    + destruct (Hget 3%nat 2%nat 0%nat) as [_ G]; [vm_compute; lia ..|]. exact G.
Defined.

(** X1. For a non-empty field that fits the padded image, positive strides
    and at least one channel, [get_im2col_indices] returns the channel
    index [k[r] = r // (fh*fw)], the row index
    [i[r][l] = (r % (fh*fw)) // fw + sh * (l // out_w)] and the column index
    [j[r][l] = r % fw + sw * (l % out_w)] for [r < C*fh*fw] and
    [l < out_h*out_w], and each of them is a valid index of the padded
    image: no window reaches outside it. *)
Theorem get_im2col_indices_grid (N C H W FH FW ph pw sh sw : nat) :
  (0 < C)%nat -> (0 < FH)%nat -> (0 < FW)%nat -> (0 < sh)%nat -> (0 < sw)%nat ->
  (FH <= H + 2 * ph)%nat -> (FW <= W + 2 * pw)%nat ->
  let oh := ((H + 2 * ph - FH) / sh + 1)%nat in
  let ow := ((W + 2 * pw - FW) / sw + 1)%nat in
  exists k i j,
    get_im2col_indices (Z.of_nat N, Z.of_nat C, Z.of_nat H, Z.of_nat W)
      (Z.of_nat FH) (Z.of_nat FW) (Z.of_nat ph, Z.of_nat pw) (Z.of_nat sh, Z.of_nat sw)
    = Ok (k, i, j)
    /\ length k = (C * (FH * FW))%nat
    /\ length i = (C * (FH * FW))%nat
    /\ length j = (C * (FH * FW))%nat
    /\ forall r l,
         (r < C * (FH * FW))%nat -> (l < oh * ow)%nat ->
         length (nth r i []) = (oh * ow)%nat
         /\ length (nth r j []) = (oh * ow)%nat
         /\ nth r k 0 = Z.of_nat (r / (FH * FW))
         /\ nth l (nth r i []) 0 = Z.of_nat (r mod (FH * FW) / FW + sh * (l / ow))
         /\ nth l (nth r j []) 0 = Z.of_nat (r mod FW + sw * (l mod ow))
         /\ (r / (FH * FW) < C)%nat
         /\ (r mod (FH * FW) / FW + sh * (l / ow) < H + 2 * ph)%nat
         /\ (r mod FW + sw * (l mod ow) < W + 2 * pw)%nat.
Proof.
  intros HC HFH HFW Hsh Hsw HfH HfW oh ow.
  set (g := {| batch := 1; chans := C; height := H + 2 * ph; width := W + 2 * pw;
               field_h := FH; field_w := FW; pad_h := 0; pad_w := 0;
               stride_h := sh; stride_w := sw |}).
  assert (Hg : geometry_ok g).
  { unfold geometry_ok, g, padded_h, padded_w. cbn. repeat split; lia. }
  pose proof (get_im2col_indices_tab Hg) as E.
  assert (E' : get_im2col_indices (Z.of_nat N, Z.of_nat C, Z.of_nat H, Z.of_nat W)
                 (Z.of_nat FH) (Z.of_nat FW) (Z.of_nat ph, Z.of_nat pw)
                 (Z.of_nat sh, Z.of_nat sw)
               = get_im2col_indices (x_shape g) (Z.of_nat (field_h g))
                   (Z.of_nat (field_w g)) (padding g) (stride g)).
  { unfold get_im2col_indices, x_shape, padding, stride, g.
    cbn [batch chans height width field_h field_w pad_h pad_w stride_h stride_w].
    replace (Z.of_nat (H + 2 * ph) + 2 * Z.of_nat 0 - Z.of_nat FH)
      with (Z.of_nat H + 2 * Z.of_nat ph - Z.of_nat FH) by lia.
    replace (Z.of_nat (W + 2 * pw) + 2 * Z.of_nat 0 - Z.of_nat FW)
      with (Z.of_nat W + 2 * Z.of_nat pw - Z.of_nat FW) by lia.
    reflexivity. }
  rewrite E', E. eexists _, _, _. split; [reflexivity|].
  assert (Hoh : out_h g = oh) by (unfold out_h, padded_h, g, oh; cbn; f_equal; f_equal; lia).
  assert (How : out_w g = ow) by (unfold out_w, padded_w, g, ow; cbn; f_equal; f_equal; lia).
  assert (HR : n_rows g = (C * (FH * FW))%nat) by reflexivity.
  assert (HL : n_locs g = (oh * ow)%nat) by (unfold n_locs; now rewrite Hoh, How).
  rewrite !tab_length, HR.
  split; [reflexivity|]. split; [reflexivity|]. split; [reflexivity|].
  intros r l Hr Hl. rewrite <- HR in Hr. rewrite <- HL in Hl. rewrite <- HL.
  rewrite !(tab_nth _ _ Hr), !tab_length, !(tab_nth _ _ Hl).
  pose proof (i_of_lt Hg r Hl) as Bi. pose proof (j_of_lt Hg r l) as Bj.
  pose proof (k_of_lt g Hr) as Bk.
  unfold i_of, j_of, k_of, padded_h, padded_w in *.
  cbn [g chans height width field_h field_w pad_h pad_w stride_h stride_w] in *.
  rewrite How in *.
  repeat split; try reflexivity; lia.
Qed.

Lemma get_im2col_indices_grid_witness :
  exists k i j,
    get_im2col_indices (1, 1, 3, 3) 2 2 (0, 0) (1, 1) = Ok (k, i, j)
    /\ nth 2 k 0 = 0 /\ nth 3 (nth 2 i []) 0 = 2 /\ nth 3 (nth 2 j []) 0 = 1.
Proof.
  destruct (@get_im2col_indices_grid 1 1 3 3 2 2 0 0 1 1)
    as (k & i & j & E & _ & _ & _ & Hg); try lia.
  exists k, i, j. split; [exact E|].
  destruct (Hg 2%nat 3%nat) as (_ & _ & Hk & Hi & Hj & _); [simpl; lia | simpl; lia |].
  repeat split; assumption.
Defined.

End Im2colFacts.

Module AttrFacts.
Import Tensor Serial Inputs Ascii String.
Local Open Scope string_scope.

Lemma compare_refl (k : string) : String.compare k k = Eq.
Proof.
  pose proof (String.compare_antisym k k) as H.
  destruct (String.compare k k); simpl in H; congruence.
Qed.

Lemma compare_gt_neq (k k' : string) : String.compare k k' = Gt -> String.eqb k k' = false.
Proof.
  intros H. destruct (String.eqb_spec k k') as [->|]; [|reflexivity].
  rewrite compare_refl in H. discriminate.
Qed.

Lemma compare_lt_neq (k k' : string) : String.compare k k' = Lt -> String.eqb k k' = false.
Proof.
  intros H. destruct (String.eqb_spec k k') as [->|]; [|reflexivity].
  rewrite compare_refl in H. discriminate.
Qed.

(** [obj.k = v] and then [obj.k]. *)
Lemma lookup_attrs_set (k : string) (v : pyobj) (d : dict) :
  lookup k (attrs_set k v d) = Some v.
Proof.
  induction d as [|[k' v'] d IH]; cbn [attrs_set lookup].
  - now rewrite String.eqb_refl.
  - destruct (String.compare k k') eqn:E; cbn [lookup].
    + now rewrite String.eqb_refl.
    + now rewrite String.eqb_refl.
    + now rewrite (compare_gt_neq _ _ E).
Qed.

(** [obj.k = v] leaves every other attribute alone. *)
Lemma lookup_attrs_set_other (k k2 : string) (v : pyobj) (d : dict) :
  k2 <> k -> lookup k2 (attrs_set k v d) = lookup k2 d.
Proof.
  intros Hne. assert (Hk : String.eqb k2 k = false) by now apply String.eqb_neq.
  induction d as [|[k' v'] d IH]; cbn [attrs_set lookup].
  - now rewrite Hk.
  - destruct (String.compare k k') eqn:E; cbn [lookup].
    + apply String.compare_eq_iff in E. subst k'. now rewrite Hk.
    + now rewrite Hk.
    + now rewrite IH.
Qed.

End AttrFacts.

Module ModuleListFacts.
Import Tensor Serial Inputs AttrFacts Ascii String.
Local Open Scope string_scope.

Lemma list_put_length (items : list pyobj) (n : nat) (v : pyobj) :
  List.length (list_put items n v) = List.length items.
Proof.
  revert n. induction items as [|x items IH]; intros [|n]; cbn [list_put List.length]; auto.
Qed.

Lemma list_put_same (items : list pyobj) (n : nat) (v : pyobj) :
  (n < List.length items)%nat -> nth n (list_put items n v) PNone = v.
Proof.
  revert n. induction items as [|x items IH]; intros [|n] H; cbn in *; try lia; auto.
  apply IH. lia.
Qed.

Lemma list_put_other (items : list pyobj) (n m : nat) (v : pyobj) :
  n <> m -> nth m (list_put items n v) PNone = nth m items PNone.
Proof.
  revert n m. induction items as [|x items IH]; intros [|n] [|m] H; cbn; try lia; auto.
Qed.

Lemma norm_index_lt (len : nat) (idx : Z) :
  in_bounds len idx = true -> (norm_index len idx < len)%nat.
Proof.
  unfold in_bounds, norm_index. intros H. apply andb_true_iff in H.
  destruct H as [H1 H2]. apply Z.leb_le in H1. apply Z.ltb_lt in H2.
  destruct (Z.ltb_spec idx 0); lia.
Qed.

Section OneList.
Variables (cls : pyclass) (attrs : list (string * pyobj)) (items : list pyobj).
Hypothesis Hmodules : lookup "modules" attrs = Some (PList items).
Let self := PInstance cls attrs.

Lemma modules_of_self : list_attr self "modules" = Ok items.
Proof. unfold list_attr, getattr, self. now rewrite Hmodules. Qed.

Lemma modules_after (new_items : list pyobj) :
  list_attr (put_back self "modules" (PList new_items)) "modules" = Ok new_items.
Proof.
  unfold list_attr, getattr, put_back, self. now rewrite lookup_attrs_set.
Qed.

(** X8. [ModuleList.append] takes a [Module] and nothing else; afterwards
    the list is one longer, the new module is its last item ([self[-1]]
    and [self[len - 1]]) and the items before it are the ones that were
    there. *)
Theorem ModuleList_append_then_getitem (module : pyobj) :
  (class_is module Module_cls = false ->
   ModuleList_append self module = Raise TypeError)
  /\ (class_is module Module_cls = true ->
      exists self',
        ModuleList_append self module = Ok self'
        /\ ModuleList_len self' = Ok (S (List.length items))
        /\ ModuleList_getitem self' (-1) = Ok module
        /\ ModuleList_getitem self' (Z.of_nat (List.length items)) = Ok module
        /\ ModuleList_iter self' = Ok (items ++ [module])%list
        /\ forall i, (i < List.length items)%nat ->
             ModuleList_getitem self' (Z.of_nat i) = ModuleList_getitem self (Z.of_nat i)).
Proof.
  split; intros Hm; unfold ModuleList_append; rewrite Hm; cbn [negb]; [reflexivity|].
  assert (Eg : getattr self "modules" = Ok (PList items))
    by (unfold getattr, self; now rewrite Hmodules).
  rewrite Eg. cbn [bind]. eexists. split; [reflexivity|].
  unfold ModuleList_len, ModuleList_getitem, ModuleList_iter.
  rewrite !modules_after, modules_of_self. cbn [bind].
  assert (Hlen : List.length (items ++ [module])%list = S (List.length items))
    by (rewrite length_app; simpl; lia).
  unfold list_get. rewrite Hlen.
  assert (Hlast : nth (List.length items) (items ++ [module])%list PNone = module)
    by (rewrite app_nth2, Nat.sub_diag by lia; reflexivity).
  repeat split.
  - unfold in_bounds, norm_index.
    replace (- Z.of_nat (S (List.length items)) <=? -1)%Z with true
      by (symmetry; apply Z.leb_le; lia).
    replace (-1 <? Z.of_nat (S (List.length items)))%Z with true
      by (symmetry; apply Z.ltb_lt; lia).
    cbn [andb]. change (-1 <? 0)%Z with true. cbv iota.
    replace (Z.to_nat (-1 + Z.of_nat (S (List.length items)))) with (List.length items) by lia.
    now rewrite Hlast.
  - rewrite PatchFacts.in_bounds_nat by lia. rewrite PatchFacts.norm_index_nat.
    now rewrite Hlast.
  - intros i Hi. rewrite !PatchFacts.in_bounds_nat by lia.
    rewrite !PatchFacts.norm_index_nat. now rewrite app_nth1 by lia.
Qed.

(** X9. [ModuleList.__setitem__] takes a [Module] at an index inside the
    list, counted from either end; afterwards [self[idx]] is that module,
    the length is the same and every other position holds what it held. *)
Theorem ModuleList_setitem_then_getitem (idx : Z) (module : pyobj) :
  (class_is module Module_cls = false ->
   ModuleList_setitem self idx module = Raise TypeError)
  /\ (class_is module Module_cls = true -> in_bounds (List.length items) idx = false ->
      ModuleList_setitem self idx module = Raise IndexError)
  /\ (class_is module Module_cls = true -> in_bounds (List.length items) idx = true ->
      exists self',
        ModuleList_setitem self idx module = Ok self'
        /\ ModuleList_len self' = Ok (List.length items)
        /\ ModuleList_getitem self' idx = Ok module
        /\ forall idx',
             in_bounds (List.length items) idx' = true ->
             norm_index (List.length items) idx' <> norm_index (List.length items) idx ->
             ModuleList_getitem self' idx' = ModuleList_getitem self idx').
Proof.
  unfold ModuleList_setitem. split; [|split]; intros Hm; rewrite Hm; cbn [negb];
    [reflexivity| |]; intros Hb; rewrite modules_of_self; cbn [bind]; rewrite Hb;
    [reflexivity|].
  eexists. split; [reflexivity|].
  unfold ModuleList_len, ModuleList_getitem. rewrite modules_after, modules_of_self.
  cbn [bind]. unfold list_get. rewrite list_put_length, Hb.
  repeat split.
  - now rewrite list_put_same by now apply norm_index_lt.
  - intros idx' Hb' Hne. rewrite Hb'. rewrite list_put_other by congruence. reflexivity.
Qed.

End OneList.

Lemma ModuleList_append_then_getitem_witness :
  exists self',
    ModuleList_append (module_list [relu]) sigmoid = Ok self'
    /\ ModuleList_getitem self' (-1) = Ok sigmoid.
Proof.
  destruct (proj2 (@ModuleList_append_then_getitem ModuleList_cls
                     [("modules", PList [relu])] [relu] eq_refl sigmoid)
              eq_refl) as (self' & E & _ & G & _).
  exists self'. split; [exact E | exact G].
Defined.

Lemma ModuleList_setitem_then_getitem_witness :
  exists self',
    ModuleList_setitem (module_list [relu; relu]) (-1)%Z sigmoid = Ok self'
    /\ ModuleList_getitem self' (-1)%Z = Ok sigmoid.
Proof.
  destruct (proj2 (proj2 (@ModuleList_setitem_then_getitem ModuleList_cls
                            [("modules", PList [relu; relu])] [relu; relu]
                            eq_refl (-1)%Z sigmoid)) eq_refl eq_refl)
    as (self' & E & _ & G & _).
  exists self'. split; [exact E | exact G].
Defined.

End ModuleListFacts.

Module LoadFacts.
Import Tensor Serial Inputs AttrFacts SerialFacts Ascii String.
Local Open Scope string_scope.

Lemma getattr_after_set (cls : pyclass) (attrs : dict) (k name : string) (v : pyobj) :
  name <> k ->
  getattr (PInstance cls (attrs_set k v attrs)) name = getattr (PInstance cls attrs) name.
Proof. intros H. unfold getattr. now rewrite lookup_attrs_set_other. Qed.

(** X10. [Module.load_state_dict] with a key of two segments [a.b], where
    [a] names an attribute that is an instance (a [Parameter], say) and
    neither [a] nor [b] is one of the names [object] keeps for itself, sets
    attribute [b] of that instance to the value and changes nothing else:
    not another attribute of the module, not another attribute of the
    instance. *)
Theorem Module_load_state_dict_sets (cls p_cls : pyclass) (attrs pattrs : dict)
    (key a b : string) (value : pyobj) :
  inherits_load cls = true ->
  split_dot key = [a; b] ->
  ordinary_name a = true -> ordinary_name b = true ->
  lookup a attrs = Some (PInstance p_cls pattrs) ->
  exists self' p',
    load_state_dict (PInstance cls attrs) [(key, value)] = Ok self'
    /\ getattr self' a = Ok p'
    /\ getattr p' b = Ok value
    /\ (forall name, name <> a ->
          getattr self' name = getattr (PInstance cls attrs) name)
    /\ (forall name, name <> b ->
          getattr p' name = getattr (PInstance p_cls pattrs) name).
Proof.
  unfold inherits_load. intros Hcls Hkey _ _ Ha.
  rewrite !andb_true_iff, !negb_true_iff in Hcls. destruct Hcls as [[Hs Hb] Hm].
  exists (PInstance cls (attrs_set a (PInstance p_cls (attrs_set b value pattrs)) attrs)),
         (PInstance p_cls (attrs_set b value pattrs)).
  split.
  - cbn [load_state_dict]. rewrite Hkey. cbn [load_item]. rewrite Hs, Hb, Hm.
    unfold getattr. rewrite Ha. reflexivity.
  - split; [unfold getattr; now rewrite lookup_attrs_set|].
    split; [unfold getattr; now rewrite lookup_attrs_set|].
    split; intros name Hne; now apply getattr_after_set.
Qed.

Lemma Module_load_state_dict_sets_witness :
  exists self' p',
    load_state_dict a_linear [("weight.value", PArray (T2 [[9%float]]))] = Ok self'
    /\ getattr self' "weight" = Ok p'
    /\ getattr p' "value" = Ok (PArray (T2 [[9%float]])).
Proof.
  destruct (@Module_load_state_dict_sets Linear_cls Parameter_cls
              [("bias", parameter (T1 [2%float]) (T1 [3%float]) true);
               ("in_features", PInt 1); ("out_features", PInt 1); ("prev_inp", PNone);
               ("weight", parameter (T2 [[1%float]]) (T2 [[4%float]]) false)]
              [("grad", PArray (T2 [[4%float]])); ("is_bias", PBool false);
               ("value", PArray (T2 [[1%float]]))]
              "weight.value" "weight" "value" (PArray (T2 [[9%float]]))
              eq_refl eq_refl eq_refl eq_refl eq_refl)
    as (self' & p' & E & G1 & G2 & _).
  exists self', p'. repeat split; assumption.
Defined.

(** X11. A [BatchNorm2d] exports the values and gradients of [gamma] and
    [beta] and nothing of its running statistics; importing such an export
    into another [BatchNorm2d] copies the two values and leaves the other
    layer's gradients and running statistics as they were. *)
Theorem BatchNorm2d_export_import (n n' : Z) (eps mom eps' mom' : float)
    (gv gg bv bg gv' gg' bv' bg' rm rv rm' rv' : tensor) :
  state_dict (batch_norm_2d n eps mom (parameter gv gg false) (parameter bv bg false) rm rv)
  = Ok [("beta.value", PArray bv); ("beta.grad", PArray bg);
        ("gamma.value", PArray gv); ("gamma.grad", PArray gg)]
  /\ load_state_dict
       (batch_norm_2d n' eps' mom' (parameter gv' gg' false) (parameter bv' bg' false)
          rm' rv')
       [("beta.value", PArray bv); ("beta.grad", PArray bg);
        ("gamma.value", PArray gv); ("gamma.grad", PArray gg)]
     = Ok (batch_norm_2d n' eps' mom' (parameter gv gg' false) (parameter bv bg' false)
             rm' rv').
Proof. split; reflexivity. Qed.

Lemma Sequential_import_of_export_raises_witness :
  exists sd,
    state_dict small_net = Ok sd /\ load_state_dict small_net sd = Raise ValueError.
Proof.
  eexists. split; [vm_compute; reflexivity|].
  apply (@Sequential_import_of_export_raises Sequential_cls _ _ eq_refl);
    [vm_compute; reflexivity | discriminate].
Defined.

End LoadFacts.

Module LinearFacts.
Import Tensor Inputs LayerFacts.
Local Open Scope float_scope.

Lemma Linear_backward_accumulates_witness :
  exists grad_weight grad_bias,
    dot (transpose (T2 [[1]])) (T2 [[5]]) = Ok grad_weight
    /\ sum_axis0 (T2 [[1]]) = Ok grad_bias
    /\ tadd (T2 [[4]]) grad_weight = Ok (T2 [[9]])
    /\ tadd (T1 [3]) grad_bias = Ok (T1 [4]).
Proof.
  apply (@Linear_backward_accumulates
           {| Linear.in_features := 1; Linear.out_features := 1;
              Linear.weight := {| Param.value := T2 [[2]]; Param.grad := T2 [[4]];
                                  Param.is_bias := false |};
              Linear.bias := {| Param.value := T1 [0]; Param.grad := T1 [3];
                                Param.is_bias := true |};
              Linear.prev_inp := Some (T2 [[5]]) |}
           {| Linear.in_features := 1; Linear.out_features := 1;
              Linear.weight := {| Param.value := T2 [[2]]; Param.grad := T2 [[9]];
                                  Param.is_bias := false |};
              Linear.bias := {| Param.value := T1 [0]; Param.grad := T1 [4];
                                Param.is_bias := true |};
              Linear.prev_inp := Some (T2 [[5]]) |}
           (T2 [[1]]) (T2 [[2]]) (T2 [[5]]) eq_refl).
  vm_compute. reflexivity.
Defined.

End LinearFacts.

Module RoundTripFacts.
Import Tensor Serial Inputs AttrFacts SerialFacts Ascii String.
Local Open Scope string_scope.

(** ** Strings *)

Lemma split_dot_aux_prefix (a s cur : string) :
  dot_free a = true ->
  split_dot_aux (a ++ "." ++ s) cur = (cur ++ a) :: split_dot_aux s "".
Proof.
  revert cur. induction a as [|c a IH]; intros cur Ha.
  - simpl. now rewrite append_empty_r.
  - simpl in Ha. apply andb_prop in Ha. destruct Ha as [Hc Ha].
    change (String c a ++ "." ++ s) with (String c (a ++ "." ++ s)).
    cbn [split_dot_aux].
    destruct (Ascii.eqb c "."%char); [discriminate|].
    rewrite (IH _ Ha). now rewrite append_assoc.
Qed.

Lemma split_dot_prefix (a s : string) :
  dot_free a = true -> split_dot ((a ++ ".") ++ s) = a :: split_dot s.
Proof.
  intros Ha. unfold split_dot. rewrite append_assoc.
  now rewrite split_dot_aux_prefix.
Qed.

Lemma split_dot_cons (s : string) : exists r0 rest, split_dot s = r0 :: rest.
Proof.
  unfold split_dot. destruct (split_dot_aux s "") as [|r0 rest] eqn:E.
  - now apply split_dot_aux_nonempty in E.
  - eauto.
Qed.

(** ** [int(str(i))] *)

Lemma digits_of_uint (d : Decimal.uint) (a : nat) (b : bool) :
  d <> Decimal.Nil \/ b = true ->
  digits (DecimalString.NilEmpty.string_of_uint d) (Z.of_nat a) b
  = Some (Z.of_nat (Nat.of_uint_acc d a)).
Proof.
  revert a b.
  induction d as [|d IH|d IH|d IH|d IH|d IH|d IH|d IH|d IH|d IH|d IH];
    intros a b Hb;
    [ destruct Hb as [Hb|Hb]; [congruence | subst b; reflexivity] | .. ];
    cbn [DecimalString.NilEmpty.string_of_uint digits Nat.of_uint_acc];
    (match goal with
     | |- context [digit_of ?c] =>
         let v := eval vm_compute in (digit_of c) in
         change (digit_of c) with v
     end);
    cbv iota beta;
    (match goal with
     | |- digits _ ?z true = Some (Z.of_nat (Nat.of_uint_acc _ ?n)) =>
         replace z with (Z.of_nat n) by (rewrite Nat.tail_mul_spec; lia)
     end);
    apply IH; now right.
Qed.

Lemma first_of_uint (d : Decimal.uint) :
  d <> Decimal.Nil ->
  exists c rest, DecimalString.NilEmpty.string_of_uint d = String c rest
                 /\ is_space c = false /\ Ascii.eqb c "-"%char = false
                 /\ Ascii.eqb c "+"%char = false.
Proof.
  destruct d; [congruence | ..]; intros _; do 2 eexists;
    (split; [reflexivity | repeat split; reflexivity]).
Qed.

Lemma py_int_of_uint (d : Decimal.uint) :
  (count_digits (DecimalString.NilZero.string_of_uint d) <= max_str_digits)%nat ->
  py_int (DecimalString.NilZero.string_of_uint d) = Ok (Z.of_nat (Nat.of_uint d)).
Proof.
  intros Hc. destruct (Decimal.uint_eq_dec d Decimal.Nil) as [->|Hd].
  - reflexivity.
  - assert (E : DecimalString.NilZero.string_of_uint d
                = DecimalString.NilEmpty.string_of_uint d) by (destruct d; [congruence | reflexivity ..]).
    rewrite E in *.
    destruct (first_of_uint Hd) as (c & rest & Es & Hs & Hm & Hp).
    pose proof (@digits_of_uint d 0 false (or_introl Hd)) as Ed.
    change (Z.of_nat 0) with 0 in Ed. fold (Nat.of_uint d) in Ed.
    unfold py_int. rewrite Es. cbn [lstrip]. rewrite Hs, Hm, Hp.
    cbv beta iota zeta. rewrite <- Es, Ed.
    destruct (Nat.ltb_spec max_str_digits
                (count_digits (DecimalString.NilEmpty.string_of_uint d))); [lia|].
    f_equal. lia.
Qed.

Lemma py_int_str (i : nat) :
  (count_digits (str_of_nat i) <= max_str_digits)%nat ->
  py_int (str_of_nat i) = Ok (Z.of_nat i).
Proof.
  intros Hc. unfold str_of_nat in *. rewrite (py_int_of_uint _ Hc).
  now rewrite DecimalNat.Unsigned.of_to.
Qed.

Lemma dot_free_of_uint (d : Decimal.uint) :
  dot_free (DecimalString.NilEmpty.string_of_uint d) = true.
Proof. induction d; simpl; auto. Qed.

Lemma dot_free_str (i : nat) : dot_free (str_of_nat i) = true.
Proof.
  unfold str_of_nat, DecimalString.NilZero.string_of_uint.
  destruct (Nat.to_uint i) eqn:E; try reflexivity;
    rewrite <- E at 1; try (rewrite <- E); apply dot_free_of_uint.
Qed.

(** ** Dictionaries of attributes *)

Lemma lookup_in (k : string) (v : pyobj) (d : dict) :
  lookup k d = Some v -> In (k, v) d.
Proof.
  induction d as [|[k' v'] d IH]; simpl; [discriminate|].
  destruct (String.eqb_spec k k') as [->|Hk].
  - intros E. inversion E. now left.
  - intros E. right. auto.
Qed.

Lemma sorted_lookup (k : string) (v : pyobj) (d : dict) :
  sorted_names d = true -> In (k, v) d -> lookup k d = Some v.
Proof.
  induction d as [|[k' v'] d IH]; simpl; [contradiction|].
  intros Hs Hin. apply andb_prop in Hs. destruct Hs as [Hall Hs].
  destruct Hin as [E|Hin].
  - inversion E. subst. now rewrite String.eqb_refl.
  - rewrite forallb_forall in Hall. specialize (Hall _ Hin). simpl in Hall.
    destruct (String.compare k' k) eqn:Ec; try discriminate.
    apply compare_lt_neq in Ec. rewrite String.eqb_sym, Ec. auto.
Qed.

(** Writing back what is already there changes nothing. *)
Lemma attrs_set_same (k : string) (v : pyobj) (d : dict) :
  sorted_names d = true -> lookup k d = Some v -> attrs_set k v d = d.
Proof.
  induction d as [|[k' v'] d IH]; simpl; [discriminate|].
  intros Hs Hl. apply andb_prop in Hs. destruct Hs as [Hall Hs].
  destruct (String.compare k k') eqn:Ec.
  - apply String.compare_eq_iff in Ec. subst k'.
    rewrite String.eqb_refl in Hl. now inversion Hl.
  - pose proof (compare_lt_neq _ _ Ec) as En. rewrite En in Hl.
    apply lookup_in in Hl. rewrite forallb_forall in Hall.
    specialize (Hall _ Hl). simpl in Hall.
    rewrite String.compare_antisym, Ec in Hall. discriminate.
  - pose proof (compare_gt_neq _ _ Ec) as En. rewrite En in Hl.
    now rewrite IH.
Qed.

Lemma put_back_same (cls c : pyclass) (attrs sub : dict) (k : string) :
  sorted_names attrs = true -> lookup k attrs = Some (PInstance c sub) ->
  put_back (PInstance cls attrs) k (PInstance c sub) = PInstance cls attrs.
Proof. intros Hs Hl. simpl. now rewrite attrs_set_same. Qed.

Lemma put_back_list_same (cls : pyclass) (attrs : dict) (k : string) (items : list pyobj) :
  sorted_names attrs = true -> lookup k attrs = Some (PList items) ->
  put_back (PInstance cls attrs) k (PList items) = PInstance cls attrs.
Proof. intros Hs Hl. simpl. now rewrite attrs_set_same. Qed.

Lemma list_put_nth (items : list pyobj) (i : nat) :
  list_put items i (nth i items PNone) = items.
Proof.
  revert i. induction items as [|x items IH]; intros [|i]; simpl; auto.
  now rewrite IH.
Qed.

Lemma dict_set_Forall (P : string * pyobj -> Prop) (k : string) (v : pyobj) (d : dict) :
  P (k, v) -> Forall P d -> Forall P (dict_set k v d).
Proof.
  intros Hk Hd. induction Hd as [|[k' v'] d Hx Hd IH]; simpl.
  - constructor; auto.
  - destruct (String.eqb k k'); constructor; auto.
Qed.

Lemma add_prefixed_Forall (P : string * pyobj -> Prop) (prefix : string)
    (sub result : dict) :
  (forall kv, In kv sub -> P (prefix ++ fst kv, snd kv)) ->
  Forall P result -> Forall P (add_prefixed prefix sub result).
Proof.
  unfold add_prefixed. revert result.
  induction sub as [|[k v] sub IH]; intros result Hs Hr; simpl; auto.
  apply IH.
  - intros kv Hin. apply Hs. now right.
  - apply dict_set_Forall; auto. apply (Hs (k, v)). now left.
Qed.

Lemma add_enumerated_Forall (P : string * pyobj -> Prop) (f : pyobj -> Result dict)
    (prefix : string) (only : bool) (items : list pyobj) :
  forall (i : nat) (result out : dict),
  Forall P result ->
  (forall j sub sd kv,
     nth_error items j = Some sub -> class_is sub Module_cls = true ->
     f sub = Ok sd -> In kv sd ->
     P ((prefix ++ (str_of_nat (i + j) ++ ".")) ++ fst kv, snd kv)) ->
  add_enumerated f prefix only items i result = Ok out -> Forall P out.
Proof.
  induction items as [|sub items IH]; intros i result out Hr Hs; simpl.
  - intros E. inversion E. now subst.
  - assert (Hrest : forall j sub' sd kv,
              nth_error items j = Some sub' -> class_is sub' Module_cls = true ->
              f sub' = Ok sd -> In kv sd ->
              P ((prefix ++ (str_of_nat (S i + j) ++ ".")) ++ fst kv, snd kv)).
    { intros j sub' sd kv Hj Hc Hf Hin.
      replace (S i + j)%nat with (i + S j)%nat by lia.
      apply (Hs (S j) sub' sd kv); auto. }
    destruct (class_is sub Module_cls) eqn:Ec.
    + rewrite andb_false_r. destruct (f sub) as [sd|] eqn:Ef; [|discriminate].
      cbn [bind]. apply IH; auto.
      apply add_prefixed_Forall; auto.
      intros kv Hin. specialize (Hs O sub sd kv eq_refl Ec Ef Hin).
      now rewrite Nat.add_0_r in Hs.
    + destruct only; simpl.
      * apply IH; auto.
      * discriminate.
Qed.

Lemma add_list_attr_inv (plain : pyobj -> bool) (f : pyobj -> Result dict)
    (name prefix : string) (only : bool) (attrs : dict) (result out : dict) :
  add_list_attr f name prefix only attrs result = Ok out ->
  exists items,
    lookup name attrs = Some (PList items)
    /\ add_enumerated f prefix only items 0 result = Ok out
    /\ (plain_items plain name attrs = true ->
        forallb plain items = true /\ indices_ok (List.length items) = true).
Proof.
  induction attrs as [|[k v] attrs IH]; simpl; [discriminate|].
  rewrite (String.eqb_sym name k).
  destruct (String.eqb k name); [|exact IH].
  destruct v; try discriminate. intros E. exists items.
  repeat split; auto; apply andb_prop in H; tauto.
Qed.

(** ** Sizes *)

Lemma size_lookup (k : string) (v : pyobj) (d : dict) :
  lookup k d = Some v -> (size v < S (size_attrs size d))%nat.
Proof.
  induction d as [|[k' v'] d IH]; simpl; [discriminate|].
  destruct (String.eqb k k').
  - intros E. inversion E. subst. lia.
  - intros E. specialize (IH E). lia.
Qed.

Lemma size_in_attrs (k : string) (v : pyobj) (d : dict) :
  In (k, v) d -> (size v < S (size_attrs size d))%nat.
Proof.
  induction d as [|[k' v'] d IH]; simpl; [contradiction|].
  intros [E|Hin].
  - inversion E. subst. lia.
  - specialize (IH Hin). lia.
Qed.

Lemma size_in_items (x : pyobj) (items : list pyobj) :
  In x items -> (size x < S (size_items size items))%nat.
Proof.
  induction items as [|y items IH]; simpl; [contradiction|].
  intros [E|Hin].
  - subst. lia.
  - specialize (IH Hin). lia.
Qed.

(** ** One item of an export, loaded *)

Lemma inherits_load_cases (cls : pyclass) :
  inherits_load cls = true ->
  issubclass cls Sequential_cls = false /\ issubclass cls BatchNorm2d_cls = false
  /\ issubclass cls Module_cls = true.
Proof.
  unfold inherits_load. intros H.
  apply andb_prop in H. destruct H as [H H3].
  apply andb_prop in H. destruct H as [H1 H2].
  apply negb_true_iff in H1. apply negb_true_iff in H2. auto.
Qed.

Lemma load_item_two (cls : pyclass) (attrs : dict) (r0 r1 : string) (v : pyobj) :
  inherits_load cls = true ->
  load_item [r0; r1] (PInstance cls attrs) v
  = (param <- getattr (PInstance cls attrs) r0 ;;
     param <- setattr param r1 v ;;
     Ok (put_back (PInstance cls attrs) r0 param)).
Proof.
  intros H. destruct (inherits_load_cases _ H) as (H1 & H2 & H3).
  cbn [load_item]. now rewrite H1, H2, H3.
Qed.

Lemma load_item_deep (cls : pyclass) (attrs : dict) (r0 r1 r2 : string)
    (rest : list string) (v : pyobj) :
  inherits_load cls = true ->
  load_item (r0 :: r1 :: r2 :: rest) (PInstance cls attrs) v
  = (submodule <- getattr (PInstance cls attrs) r0 ;;
     if class_is submodule Module_cls then
       submodule <- load_item (r1 :: r2 :: rest) submodule v ;;
       Ok (put_back (PInstance cls attrs) r0 submodule)
     else if class_is submodule ModuleList_cls then
       ind <- py_int r1 ;;
       modules <- list_attr submodule "modules" ;;
       child <- list_get modules ind ;;
       child <- load_item (r2 :: rest) child v ;;
       Ok (put_back (PInstance cls attrs) r0
             (put_back submodule "modules"
                (PList (list_put modules (norm_index (List.length modules) ind) child))))
     else Ok (PInstance cls attrs)).
Proof.
  intros H. destruct (inherits_load_cases _ H) as (H1 & H2 & H3).
  cbn [load_item]. now rewrite H1, H2, H3.
Qed.

Section OneModule.
Variables (cls : pyclass) (attrs : dict).
Hypothesis Hcls : inherits_load cls = true.
Hypothesis Hsorted : sorted_names attrs = true.

Lemma entry_via_module (A : string) (c : pyclass) (sub : dict) (kv : string * pyobj) :
  lookup A attrs = Some (PInstance c sub) -> dot_free A = true ->
  issubclass c Module_cls = true ->
  entry_ok (PInstance c sub) kv ->
  entry_ok (PInstance cls attrs) ((A ++ ".") ++ fst kv, snd kv).
Proof.
  intros Hl Ha Hc [(r0 & r1 & rest & Es) El].
  unfold entry_ok. cbn [fst snd]. rewrite (@split_dot_prefix _ _ Ha), Es in *.
  split; [eauto|].
  rewrite (@load_item_deep _ _ _ _ _ _ _ Hcls).
  unfold getattr. rewrite Hl. cbn [bind class_is]. rewrite Hc, El. cbn [bind].
  now rewrite put_back_same.
Qed.

Lemma entry_via_parameter (A field : string) (c : pyclass) (sub : dict) (v : pyobj) :
  lookup A attrs = Some (PInstance c sub) -> dot_free A = true ->
  dot_free field = true ->
  sorted_names sub = true -> lookup field sub = Some v ->
  entry_ok (PInstance cls attrs) ((A ++ ".") ++ field, v).
Proof.
  intros Hl Ha Hf Hs Hv.
  unfold entry_ok. cbn [fst snd]. rewrite (@split_dot_prefix _ _ Ha).
  assert (Ef : split_dot field = [field]).
  { pose proof (@split_dot_aux_prefix field "" "" Hf) as E.
    unfold split_dot.
    assert (E2 : forall s cur, dot_free s = true -> split_dot_aux s cur = [cur ++ s]).
    { clear. induction s as [|x s IH]; intros cur Hs; simpl.
      - now rewrite append_empty_r.
      - simpl in Hs. apply andb_prop in Hs. destruct Hs as [Hx Hs].
        destruct (Ascii.eqb x "."%char); [discriminate|].
        rewrite IH by exact Hs. now rewrite append_assoc. }
    now rewrite E2. }
  rewrite Ef. split; [eauto|].
  rewrite (@load_item_two _ _ _ _ _ Hcls).
  unfold getattr. rewrite Hl. cbn [bind setattr].
  rewrite (@attrs_set_same _ _ _ Hs Hv). now rewrite put_back_same.
Qed.

Lemma entry_via_list (A : string) (c : pyclass) (sub : dict) (items : list pyobj)
    (i : nat) (child : pyobj) (kv : string * pyobj) :
  lookup A attrs = Some (PInstance c sub) -> dot_free A = true ->
  issubclass c Module_cls = false -> issubclass c ModuleList_cls = true ->
  sorted_names sub = true -> lookup "modules" sub = Some (PList items) ->
  nth_error items i = Some child ->
  (count_digits (str_of_nat i) <= max_str_digits)%nat ->
  entry_ok child kv ->
  entry_ok (PInstance cls attrs)
    (((A ++ ".") ++ (str_of_nat i ++ ".")) ++ fst kv, snd kv).
Proof.
  intros Hl Ha Hc1 Hc2 Hs Hm Hi Hd [(r0 & r1 & rest & Es) El].
  unfold entry_ok. cbn [fst snd].
  rewrite append_assoc, (@split_dot_prefix _ _ Ha),
    (@split_dot_prefix _ _ (dot_free_str i)), Es in *.
  split; [eauto|].
  rewrite (@load_item_deep _ _ _ _ _ _ _ Hcls).
  unfold getattr at 1. rewrite Hl. cbn [bind class_is]. rewrite Hc1, Hc2.
  rewrite (@py_int_str _ Hd). cbn [bind].
  unfold list_attr, getattr. rewrite Hm. cbn [bind as_list].
  assert (Hlt : (i < List.length items)%nat)
    by (apply nth_error_Some; congruence).
  assert (Hn : nth i items PNone = child) by (now apply nth_error_nth).
  unfold list_get.
  rewrite (@PatchFacts.in_bounds_nat _ _ Hlt), PatchFacts.norm_index_nat, Hn.
  cbn [bind]. rewrite El. cbn [bind].
  replace (list_put items i child) with items
    by (rewrite <- Hn; symmetry; apply list_put_nth).
  rewrite (@put_back_list_same _ _ _ _ Hs Hm). now rewrite put_back_same.
Qed.

End OneModule.

Lemma size_pos (o : pyobj) : (0 < size o)%nat.
Proof. destruct o; simpl; lia. Qed.

Lemma indices_ok_lt (n i : nat) :
  indices_ok n = true -> (i < n)%nat ->
  (count_digits (str_of_nat i) <= max_str_digits)%nat.
Proof.
  unfold indices_ok. rewrite forallb_forall. intros H Hi.
  apply Nat.leb_le. apply H. apply in_seq. lia.
Qed.

(** Every item of the export of a plain tree goes back to where it came
    from. *)
Lemma export_entries (n : nat) :
  forall o, (size o <= n)%nat -> plain_tree o = true ->
  forall sd, state_dict o = Ok sd -> Forall (entry_ok o) sd.
Proof.
  induction n as [|n IHn]; intros o Hn Hp sd Hsd.
  - pose proof (size_pos o). lia.
  - destruct o as [| | | | | |cls attrs|]; try discriminate.
    cbn [plain_tree] in Hp.
    apply andb_prop in Hp. destruct Hp as [Hp Hattrs].
    apply andb_prop in Hp. destruct Hp as [Hcls Hsorted].
    destruct (inherits_load_cases _ Hcls) as (H1 & H2 & H3).
    cbn [state_dict] in Hsd. rewrite H1, H3 in Hsd.
    cbn [size] in Hn.
    assert (G : forall suf result out,
              (forall k v, In (k, v) suf -> In (k, v) attrs) ->
              plain_attrs plain_tree suf = true ->
              Forall (entry_ok (PInstance cls attrs)) result ->
              module_attrs state_dict suf result = Ok out ->
              Forall (entry_ok (PInstance cls attrs)) out).
    { induction suf as [|[A attr] suf IHs]; intros result out Hin Hpl Hr Hm.
      - simpl in Hm. inversion Hm. now subst.
      - cbn [module_attrs] in Hm. cbn [plain_attrs] in Hpl.
        apply andb_prop in Hpl. destruct Hpl as [Hpa Hpl].
        assert (HinA : In (A, attr) attrs) by (apply Hin; now left).
        pose proof (sorted_lookup _ _ _ Hsorted HinA) as HlA.
        assert (Hsz : (size attr <= n)%nat)
          by (pose proof (size_in_attrs _ _ _ HinA); lia).
        assert (Hin' : forall k v, In (k, v) suf -> In (k, v) attrs)
          by (intros; apply Hin; now right).
        destruct attr as [| | | | | |c sub|];
          try (cbn [bind] in Hm; apply (IHs _ _ Hin' Hpl Hr Hm)).
        destruct (issubclass c Module_cls) eqn:Ec1.
        + apply andb_prop in Hpa. destruct Hpa as [Ha Hpt].
          destruct (state_dict (PInstance c sub)) as [sdsub|] eqn:Esub;
            [|discriminate].
          cbn [bind] in Hm. refine (IHs _ _ Hin' Hpl _ Hm).
          apply add_prefixed_Forall; auto.
          intros kv Hkv.
          apply (@entry_via_module cls attrs Hcls Hsorted A c sub kv); auto.
          pose proof (IHn _ Hsz Hpt _ Esub) as F.
          rewrite Forall_forall in F. auto.
        + destruct (issubclass c ModuleList_cls) eqn:Ec2.
          * apply andb_prop in Hpa. destruct Hpa as [Hpa Hpi].
            apply andb_prop in Hpa. destruct Hpa as [Ha Hss].
            destruct (add_list_attr state_dict "modules" (A ++ ".") false sub result)
              as [result'|] eqn:El; [|discriminate].
            cbn [bind] in Hm. refine (IHs _ _ Hin' Hpl _ Hm).
            destruct (add_list_attr_inv plain_tree _ _ _ _ _ _ El)
              as (items & Hlm & Hen & Hitems).
            destruct (Hitems Hpi) as [Hall Hidx].
            refine (@add_enumerated_Forall _ _ _ _ _ _ _ _ Hr _ Hen).
            intros j child sdc kv Hj Hc Hsdc Hkv. cbn [Nat.add].
            assert (Hjlt : (j < List.length items)%nat)
              by (apply nth_error_Some; congruence).
            assert (Hci : In child items) by (eapply nth_error_In; eauto).
            apply (@entry_via_list cls attrs Hcls Hsorted A c sub items j child kv);
              auto.
            -- now apply indices_ok_lt with (n := List.length items).
            -- rewrite forallb_forall in Hall.
               assert (Hcs : (size child <= n)%nat).
               { pose proof (size_in_items _ _ Hci).
                 pose proof (size_lookup _ _ Hlm) as Hl2. cbn [size] in Hl2.
                 cbn [size] in Hsz. lia. }
               pose proof (IHn _ Hcs (Hall _ Hci) _ Hsdc) as F.
               rewrite Forall_forall in F. auto.
          * destruct (issubclass c Parameter_cls) eqn:Ec3.
            -- apply andb_prop in Hpa. destruct Hpa as [Ha Hss].
               unfold add_parameter in Hm.
               destruct (lookup "value" sub) as [v|] eqn:Ev; [|discriminate].
               destruct (lookup "grad" sub) as [g|] eqn:Eg; [|discriminate].
               cbn [bind] in Hm. refine (IHs _ _ Hin' Hpl _ Hm).
               apply dict_set_Forall; [|apply dict_set_Forall; auto].
               ++ replace (A ++ ".grad") with ((A ++ ".") ++ "grad")
                    by (rewrite append_assoc; reflexivity).
                  apply (@entry_via_parameter cls attrs Hcls Hsorted A "grad" c sub g);
                    auto.
               ++ replace (A ++ ".value") with ((A ++ ".") ++ "value")
                    by (rewrite append_assoc; reflexivity).
                  apply (@entry_via_parameter cls attrs Hcls Hsorted A "value" c sub v);
                    auto.
            -- cbn [bind] in Hm. apply (IHs _ _ Hin' Hpl Hr Hm). }
    apply (G attrs [] sd); auto.
Qed.

Lemma load_entries (o : pyobj) (sd : dict) :
  Forall (entry_ok o) sd -> load_state_dict o sd = Ok o.
Proof.
  induction 1 as [|[k v] sd [_ Hx] _ IH]; simpl; [reflexivity|].
  simpl in Hx. rewrite Hx. exact IH.
Qed.



End RoundTripFacts.

Module ActivationFacts.
Import Tensor PatchFacts LayerFacts PoolFacts ConvFacts.

(** ** An array and a scalar *)

Lemma bzip_scalar {A B C} (f : A -> B -> Result C) (la : list A) (y : B) :
  bzip f la [y] = map_result (fun x => f x y) la.
Proof.
  unfold bzip. destruct la as [|x [|x' la]]; cbn [length Nat.eqb]; reflexivity.
Qed.

Lemma bcast2_scalar (f : float -> float -> float) (m : ten2) (y : float) :
  bcast2 f m [[y]] = Ok (map (map (fun x => f x y)) m).
Proof.
  unfold bcast2. rewrite bzip_scalar. apply map_result_ok.
  intros row _. apply bcast1_scalar.
Qed.

Lemma bcast3_scalar (f : float -> float -> float) (m : ten3) (y : float) :
  bcast3 f m [[[y]]] = Ok (map (map (map (fun x => f x y))) m).
Proof.
  unfold bcast3. rewrite bzip_scalar. apply map_result_ok.
  intros row _. apply bcast2_scalar.
Qed.

Lemma bcast4_scalar (f : float -> float -> float) (m : ten4) (y : float) :
  bcast4 f m [[[[y]]]] = Ok (map (map (map (map (fun x => f x y)))) m).
Proof.
  unfold bcast4. rewrite bzip_scalar. apply map_result_ok.
  intros row _. apply bcast3_scalar.
Qed.

(** [t (op) y] for a scalar [y] applies the operation to every entry. *)
Lemma tbin_scalar (f : float -> float -> float) (t : tensor) (y : float) :
  tbin f t (T0 y) = Ok (tmap (fun x => f x y) t).
Proof.
  unfold tbin. cbn [promote]. rewrite bcast4_scalar. cbn [bind].
  destruct t; reflexivity.
Qed.

Lemma ravel_tmap (f : float -> float) (t : tensor) :
  ravel (tmap f t) = map f (ravel t).
Proof.
  destruct t as [x|a|a|a|a]; cbn [ravel tmap map]; try reflexivity.
  - now rewrite concat_map.
  - rewrite concat_map, !map_map. f_equal. apply map_ext. intros p.
    now rewrite concat_map.
  - rewrite concat_map, !map_map. f_equal. apply map_ext. intros img.
    rewrite concat_map, !map_map. f_equal. apply map_ext. intros p.
    now rewrite concat_map.
Qed.

Lemma hd_map_length {A B} (f : A -> B) (l : list (list A)) :
  length (hd [] (map (map f) l)) = length (hd [] l).
Proof. destruct l; simpl; [reflexivity | apply length_map]. Qed.

Lemma shape_tmap (f : float -> float) (t : tensor) : shape (tmap f t) = shape t.
Proof.
  destruct t as [x|a|a|a|a]; cbn [shape tmap]; rewrite ?length_map; try reflexivity.
  - now rewrite hd_map_length.
  - destruct a as [|p a]; [reflexivity|]. cbn [map hd].
    now rewrite length_map, hd_map_length.
  - destruct a as [|img a]; [reflexivity|]. cbn [map hd]. rewrite length_map.
    destruct img as [|p img]; [reflexivity|]. cbn [map hd].
    now rewrite length_map, hd_map_length.
Qed.

Lemma tmap_id (f : float -> float) (t : tensor) :
  (forall x, In x (ravel t) -> f x = x) -> tmap f t = t.
Proof.
  intros H. rewrite (tmap_ext_in f (fun x => x) t H).
  destruct t; cbn [tmap]; f_equal; rewrite ?map_id; try reflexivity.
  - rewrite <- (map_id a) at 2. apply map_ext. intros. apply map_id.
  - rewrite <- (map_id a) at 2. apply map_ext. intros p.
    rewrite <- (map_id p) at 2. apply map_ext. intros. apply map_id.
  - rewrite <- (map_id a) at 2. apply map_ext. intros img.
    rewrite <- (map_id img) at 2. apply map_ext. intros p.
    rewrite <- (map_id p) at 2. apply map_ext. intros. apply map_id.
Qed.

(** ** ReLU *)

(** [np.maximum(x, 0)] is never below zero. *)
Lemma maximum_zero_entry (x : float) : PrimFloat.ltb (np_max_pair x 0) 0 = false.
Proof.
  unfold np_max_pair, PrimFloat.is_nan.
  destruct (PrimFloat.leb 0 x) eqn:E1; cbn [orb].
  - revert E1. rewrite ltb_spec, leb_spec.
    change (Prim2SF 0) with (SpecFloat.S754_zero false).
    destruct (Prim2SF x) as [s|s| |s m e]; try destruct s; cbn; congruence.
  - destruct (PrimFloat.eqb x x) eqn:E2; cbn [negb]; [reflexivity|].
    revert E1 E2. rewrite ltb_spec, leb_spec, eqb_spec.
    change (Prim2SF 0) with (SpecFloat.S754_zero false).
    destruct (Prim2SF x) as [s|s| |s m e]; try destruct s; cbn; try congruence.
    all: unfold SpecFloat.SFeqb, SpecFloat.SFcompare.
    all: rewrite Z.compare_refl, Pos.compare_refl; cbn; congruence.
Qed.

Lemma maximum_zero_keeps (x : float) :
  PrimFloat.ltb 0 x = true -> np_max_pair x 0 = x.
Proof. intros H. unfold np_max_pair. now rewrite (@ltb_leb _ _ H). Qed.

Lemma maximum_zero_clips (x : float) :
  PrimFloat.ltb x 0 = true -> np_max_pair x 0 = 0%float.
Proof.
  intros H. unfold np_max_pair.
  destruct (PrimFloat.leb 0 x) eqn:E1.
  - apply leb_not_ltb in E1. congruence.
  - destruct (PrimFloat.is_nan x) eqn:E2; [|reflexivity].
    apply (@nan_not_ltb x 0%float) in E2. congruence.
Qed.


End ActivationFacts.

Module LinearForwardFacts.
Import Patch PatchFacts Tensor ReshapeFacts PoolFacts ConvFacts ActivationFacts.
Local Open Scope float_scope.

Lemma bcast1_rows (L : nat) (row b : ten1) :
  length row = L -> length b = L ->
  bcast1 PrimFloat.add row b = Ok (tab L (fun q => nth q row 0 + nth q b 0)).
Proof.
  intros Hr Hb. unfold bcast1, bzip. rewrite Hr, Hb, Nat.eqb_refl.
  rewrite <- Hr. apply zip_with_ok with (da := 0) (db := 0); [lia|].
  reflexivity.
Qed.

(** [a + b] for an [(R, L)] matrix and a vector of [L] entries. *)
Lemma tadd_row (R L : nat) (a : ten2) (b : ten1) :
  rect2 R L a -> length b = L ->
  tadd (T2 a) (T1 b)
  = Ok (T2 (tab R (fun r => tab L (fun q => get2 a r q + nth q b 0)))).
Proof.
  intros Ha Hb. unfold ten2, ten1 in *. assert (HL : length a = R) by apply Ha.
  unfold tadd, tbin. cbn [promote rank Nat.max demote].
  assert (E : bcast2 PrimFloat.add a [b]
              = Ok (tab R (fun r => tab L (fun q => get2 a r q + nth q b 0)))).
  { unfold bcast2. rewrite bzip_scalar.
    rewrite (@map_result_ok _ _ _
               (fun row : list float => tab L (fun q => nth q row 0 + nth q b 0))).
    - f_equal. rewrite (map_as_tab _ a []), HL. reflexivity.
    - intros row Hrow. apply bcast1_rows; auto.
      destruct Ha as [_ HF]. rewrite Forall_forall in HF. auto. }
  unfold bcast4, bcast3. unfold bzip at 1. cbn [length Nat.eqb zip_with].
  unfold bzip at 1. cbn [length Nat.eqb zip_with].
  unfold bcast2, ten2, ten1 in *. rewrite E. reflexivity.
Qed.

(** X16. [Linear.forward] is the affine map: for an input of shape
    [(N, I)], a weight of shape [(O, I)] and a bias of [O] entries (no side
    empty) the product [inp.dot(weight.T)] is defined, and the method caches
    the input, leaves the parameters alone and returns the [(N, O)] array
    whose entry [(n, o)] is entry [(n, o)] of that product plus [bias[o]]:
    the bias runs along the rows. *)
Theorem Linear_forward_affine (self : Linear.t) (N I O : nat)
    (x w : ten2) (b : ten1) :
  Param.value (Linear.weight self) = T2 w ->
  Param.value (Linear.bias self) = T1 b ->
  rect2 N I x -> rect2 O I w -> length b = O ->
  (0 < N)%nat -> (0 < I)%nat -> (0 < O)%nat ->
  exists prod self' out,
    dot (T2 x) (T2 (transpose2 w)) = Ok (T2 prod)
    /\ rect2 N O prod
    /\ Linear.forward self (T2 x) = Ok (self', T2 out)
    /\ Linear.prev_inp self' = Some (T2 x)
    /\ Linear.weight self' = Linear.weight self
    /\ Linear.bias self' = Linear.bias self
    /\ rect2 N O out
    /\ forall n o, (n < N)%nat -> (o < O)%nat ->
         get2 out n o = get2 prod n o + nth o b 0.
Proof.
  intros Hw Hb Hx Hrw Hlb HN HI HO.
  unfold Linear.forward. cbn [Linear.weight Linear.bias]. rewrite Hw, Hb.
  cbn [transpose].
  rewrite (dot_rect Hx (transpose2_shape Hrw HO) HN HI). cbn [bind].
  set (y := tab N (fun r => tab O (fun q =>
              vsum (tab I (fun t => get2 x r t * get2 (transpose2 w) t q))))).
  assert (Hy : rect2 N O y).
  { split; [apply tab_length|]. apply Forall_tab. intros r Hr. apply tab_length. }
  rewrite (@tadd_row _ _ _ _ Hy Hlb). cbn [bind].
  exists y. do 2 eexists. split; [reflexivity|]. split; [exact Hy|].
  split; [reflexivity|]. cbn [Linear.prev_inp Linear.weight Linear.bias].
  repeat split.
  - apply tab_length.
  - apply Forall_tab. intros r Hr. apply tab_length.
  - intros n o Hn Ho. unfold get2 at 1.
    now rewrite (tab_nth _ _ Hn), (tab_nth _ _ Ho).
Qed.

Lemma Linear_forward_affine_witness :
  exists self' out,
    Linear.forward
      {| Linear.in_features := 2; Linear.out_features := 1;
         Linear.weight := Param.new (T2 [[3; 4]]) false;
         Linear.bias := Param.new (T1 [5]) true;
         Linear.prev_inp := None |}
      (T2 [[1; 2]]) = Ok (self', T2 out)
    /\ get2 out 0 0 = 16.
Proof.
  destruct (@Linear_forward_affine
              {| Linear.in_features := 2; Linear.out_features := 1;
                 Linear.weight := Param.new (T2 [[3; 4]]) false;
                 Linear.bias := Param.new (T1 [5]) true;
                 Linear.prev_inp := None |}
              1 2 1 [[1; 2]] [[3; 4]] [5] eq_refl eq_refl)
    as (prod & self' & out & Hdot & _ & E & _ & _ & _ & _ & Hget).
  - split; [reflexivity|]. repeat constructor.
  - split; [reflexivity|]. repeat constructor.
  - reflexivity.
  - lia.
  - lia.
  - lia.
  - exists self', out. split; [exact E|].
    rewrite (Hget 0%nat 0%nat) by lia.
    vm_compute in Hdot. injection Hdot as <-. reflexivity.
Defined.

End LinearForwardFacts.

Module ConvTransposeFacts.
Import Patch PatchFacts Tensor ReshapeFacts PoolFacts ConvFacts Conv2dFacts
       ActivationFacts Inputs.
Local Open Scope float_scope.

Lemma shape_rect4 (N C H W : nat) (a : ten4) :
  rect4 N C H W a -> (0 < N)%nat -> (0 < C)%nat -> (0 < H)%nat ->
  shape (T4 a) = [N; C; H; W].
Proof.
  intros Ha HN HC HH. pose proof (shape4_rect Ha HN HC HH) as E.
  unfold shape4 in E. cbn [shape].
  injection E as E1 E2 E3 E4.
  apply Nat2Z.inj in E1, E2, E3, E4. unfold ten4, ten3, ten2, ten1 in *.
  now rewrite E1, E2, E3, E4.
Qed.

Lemma bzip_same_length {A B C} (f : A -> B -> Result C) (la : list A) (lb : list B) :
  length la = length lb -> bzip f la lb = zip_with f la lb.
Proof. intros E. unfold bzip. now rewrite E, Nat.eqb_refl. Qed.

(** [a + b] for an [(N, C, H, W)] array and a [(1, C, 1, 1)] one. *)
Lemma tadd_per_channel (N C H W : nat) (a : ten4) (bv : ten1) :
  rect4 N C H W a -> length bv = C ->
  tadd (T4 a) (per_channel bv)
  = Ok (T4 (tab N (fun n => tab C (fun f => tab H (fun y => tab W (fun x =>
            get4 a n f y x + nth f bv 0)))))).
Proof.
  intros Ha Hb. unfold ten4, ten3, ten2, ten1 in *.
  assert (HL : length a = N) by apply Ha.
  unfold tadd, tbin, per_channel. cbn [promote rank Nat.max demote].
  unfold bcast4. rewrite bzip_scalar.
  rewrite (@map_result_ok _ _ _
             (fun img : list (list (list float)) =>
                tab C (fun f => tab H (fun y => tab W (fun x =>
                  get3 img f y x + nth f bv 0))))).
  - cbn [bind]. do 2 f_equal. rewrite (map_as_tab _ a []), HL. reflexivity.
  - intros img Himg.
    assert (Hi : rect3 C H W img).
    { destruct Ha as [_ HF]. rewrite Forall_forall in HF. auto. }
    assert (HLi : length img = C) by apply Hi.
    unfold bcast3. unfold ten3, ten2, ten1 in *.
    rewrite bzip_same_length by (now rewrite length_map, HLi, Hb).
    rewrite <- HLi at 1.
    apply zip_with_ok with (da := []) (db := []);
      [now rewrite length_map, HLi, Hb|].
    intros f Hf. rewrite HLi in Hf.
    assert (Hfb : (f < length bv)%nat) by lia.
    rewrite (@nth_map_lt _ _ (fun x : float => [[x]]) bv f 0 [] Hfb).
    rewrite bcast2_scalar. f_equal.
    pose proof (rect3_plane Hi Hf) as Hp.
    assert (HLp : length (nth f img []) = H) by apply Hp.
    rewrite (map_as_tab _ (nth f img []) []), HLp.
    apply tab_ext. intros y Hy.
    rewrite (map_as_tab _ (nth y (nth f img []) []) 0), (rect2_row Hp Hy).
    reflexivity.
Qed.

(** Row [q] of a flattened [(A, B, D)] array, taken apart. *)
Lemma split3 (A B D q : nat) :
  (q < A * (B * D))%nat -> (0 < B)%nat -> (0 < D)%nat ->
  (q / (B * D) < A /\ q mod (B * D) / D < B /\ q mod D < D
   /\ q = q / (B * D) * (B * D) + (q mod (B * D) / D * D + q mod D))%nat.
Proof.
  intros Hq HB HD.
  assert (HBD : (0 < B * D)%nat) by nia.
  assert (H1 : (q / (B * D) < A)%nat) by (apply Nat.Div0.div_lt_upper_bound; nia).
  assert (Hm : (q mod (B * D) < B * D)%nat) by (apply Nat.mod_upper_bound; lia).
  assert (H2 : (q mod (B * D) / D < B)%nat) by (apply Nat.Div0.div_lt_upper_bound; nia).
  assert (H3 : (q mod D < D)%nat) by (apply Nat.mod_upper_bound; lia).
  assert (E : ((q mod (B * D)) mod D = q mod D)%nat).
  { rewrite (Nat.mul_comm B D), Nat.Div0.mod_mul_r.
    rewrite (Nat.mul_comm D), Nat.Div0.mod_add. apply Nat.Div0.mod_mod. }
  repeat split; auto.
  rewrite <- E.
  pose proof (Nat.div_mod_eq q (B * D)) as E1.
  pose proof (Nat.div_mod_eq (q mod (B * D)) D) as E2.
  nia.
Qed.

Section ConvT.
Variables (N C OC K h w sh sw ph pw oph opw : nat).
Variable self : ConvTranspose2d.t.
Variables (x wv : ten4) (bv : ten1).
Hypothesis Hin : ConvTranspose2d.in_channels self = Z.of_nat C.
Hypothesis Hout : ConvTranspose2d.out_channels self = Z.of_nat OC.
Hypothesis Hstride : ConvTranspose2d.stride self = (Z.of_nat sh, Z.of_nat sw).
Hypothesis Hpadding : ConvTranspose2d.padding self = (Z.of_nat ph, Z.of_nat pw).
Hypothesis Hopad :
  ConvTranspose2d.output_padding self = (Z.of_nat oph, Z.of_nat opw).
Hypothesis Hweight : Param.value (ConvTranspose2d.weight self) = T4 wv.
Hypothesis Hbias : Param.value (ConvTranspose2d.bias self) = T1 bv.
Hypothesis Hx : rect4 N C h w x.
Hypothesis Hwv : rect4 C OC K K wv.
Hypothesis Hbv : length bv = OC.
Hypothesis HN : (0 < N)%nat.
Hypothesis HC : (0 < C)%nat.
Hypothesis HOC : (0 < OC)%nat.
Hypothesis HK : (0 < K)%nat.
Hypothesis Hh : (0 < h)%nat.
Hypothesis Hw : (0 < w)%nat.
Hypothesis Hsh : (0 < sh)%nat.
Hypothesis Hsw : (0 < sw)%nat.
Hypothesis Hoph : (oph < sh)%nat.
Hypothesis Hopw : (opw < sw)%nat.
Hypothesis Hfit_h : (2 * ph < (h - 1) * sh + K + oph)%nat.
Hypothesis Hfit_w : (2 * pw < (w - 1) * sw + K + opw)%nat.
Hypothesis Hpads : ph = 0%nat <-> pw = 0%nat.

Let g := convt_geometry N OC h w K sh sw ph pw oph opw.

Lemma convt_geometry_ok : geometry_ok g.
Proof.
  unfold geometry_ok, padded_h, padded_w, g, convt_geometry, convt_out.
  cbn [batch chans height width field_h field_w pad_h pad_w stride_h stride_w].
  repeat split; try assumption; try nia; apply Hpads.
Qed.

Lemma convt_locs : out_h g = h /\ out_w g = w.
Proof.
  unfold out_h, out_w, padded_h, padded_w, g, convt_geometry, convt_out.
  cbn [batch chans height width field_h field_w pad_h pad_w stride_h stride_w].
  split.
  - replace ((h - 1) * sh + K + oph - 2 * ph + 2 * ph - K)%nat
      with (oph + (h - 1) * sh)%nat by nia.
    rewrite Nat.div_add by lia. rewrite (Nat.div_small oph sh) by lia. lia.
  - replace ((w - 1) * sw + K + opw - 2 * pw + 2 * pw - K)%nat
      with (opw + (w - 1) * sw)%nat by nia.
    rewrite Nat.div_add by lia. rewrite (Nat.div_small opw sw) by lia. lia.
Qed.

Lemma convt_height_pos : (0 < height g)%nat.
Proof. unfold g, convt_geometry, convt_out. cbn [height]. nia. Qed.

(** [inp.transpose(1, 0, 2, 3).reshape(c, -1)] *)
Lemma input_matrix :
  exists m,
    np_reshape2 (Z.of_nat C) (concat (map (@ravel3 float) (columns [] x))) = Ok m
    /\ rect2 C (N * (h * w)) m
    /\ forall c q, (c < C)%nat -> (q < N * (h * w))%nat ->
         get2 m c q = get4 x (q / (h * w)) c (q mod (h * w) / w) (q mod w).
Proof.
  unfold ten4, ten3, ten2, ten1 in *.
  assert (HL : length x = N) by apply Hx.
  assert (Hhd : length (hd [] x) = C).
  { pose proof (shape4_rect Hx HN HC Hh) as E. unfold shape4 in E.
    injection E as _ E2 _ _. now apply Nat2Z.inj in E2. }
  set (m := tab C (fun c => ravel3 (map (fun img : list (list (list float)) =>
                                          nth c img []) x))).
  assert (Em : map (@ravel3 float) (columns [] x) = m).
  { unfold columns. rewrite Hhd. fold (tab C (fun c =>
        map (fun row : list (list (list float)) => nth c row []) x)).
    now rewrite map_tab. }
  assert (Hplanes : forall c, (c < C)%nat ->
            rect3 N h w (map (fun img : list (list (list float)) => nth c img []) x)).
  { intros c Hc. split; [now rewrite length_map|].
    apply Forall_forall. intros p Hp. apply in_map_iff in Hp.
    destruct Hp as [img [<- Himg]].
    assert (Hi : rect3 C h w img).
    { destruct Hx as [_ HF]. rewrite Forall_forall in HF. auto. }
    apply (rect3_plane Hi Hc). }
  assert (Hm : rect2 C (N * (h * w)) m).
  { split; [apply tab_length|]. apply Forall_tab. intros c Hc.
    apply (ravel3_length (Hplanes c Hc)). }
  exists m. rewrite Em. split.
  - apply (np_reshape2_rows g convt_height_pos HC Hm).
  - split; [exact Hm|]. intros c q Hc Hq.
    destruct (@split3 N h w q Hq Hh Hw) as (Hn & Hy & Hz & E).
    unfold get2, m. rewrite (tab_nth _ _ Hc).
    rewrite E at 1. unfold ravel3.
    rewrite (ravel3_nth (Hplanes c Hc) Hn Hy Hz).
    unfold get4, get3.
    assert (Hn' : (q / (h * w) < length x)%nat) by lia.
    now rewrite (@nth_map_lt _ _ (fun img : list (list (list float)) => nth c img [])
                   x _ [] [] Hn').
Qed.

(** [self.weight.value.reshape(self.in_channels, -1)] *)
Lemma weight_matrix :
  exists m,
    np_reshape2 (Z.of_nat C) (concat (map (@ravel3 float) wv)) = Ok m
    /\ rect2 C (OC * (K * K)) m
    /\ forall c r, (c < C)%nat -> (r < OC * (K * K))%nat ->
         get2 m c r = get4 wv c (r / (K * K)) (r mod (K * K) / K) (r mod K).
Proof.
  unfold ten4, ten3, ten2, ten1 in *.
  assert (HL : length wv = C) by apply Hwv.
  assert (Hm : rect2 C (OC * (K * K)) (map (@ravel3 float) wv)).
  { split; [now rewrite length_map|]. apply (images_uniform Hwv). }
  exists (map (@ravel3 float) wv). split.
  - apply (np_reshape2_rows g convt_height_pos HC Hm).
  - split; [exact Hm|]. intros c r Hc Hr.
    destruct (@split3 OC K K r Hr HK HK) as (Hf & Ha & Hb & E).
    assert (Hc' : (c < length wv)%nat) by lia.
    unfold get2. rewrite (@nth_map_lt _ _ (@ravel3 float) wv c [] [] Hc').
    rewrite E at 1. unfold ravel3.
    rewrite (ravel3_nth (rect4_img Hwv Hc) Hf Ha Hb). reflexivity.
Qed.

(** X17. [ConvTranspose2d.forward] with a square [K]x[K] kernel scatters the
    product of the reshaped weight and the reshaped input and adds the
    bias: for an input [(N, C, h, w)], a weight [(C, OC, K, K)], a bias of
    [OC] entries, positive strides, an output padding below the stride
    and a padding that is zero on both axes or on neither, that product is
    defined, the output has shape [(N, OC, out_h, out_w)] with
    [out_h = (h-1)*stride - 2*padding + K + output_padding], and entry
    [(n, f, Y, X)] is [bias[f]] plus the sum, over the kernel positions and
    input locations [(r, l)] that land on [(f, Y, X)], of the product
    entry [(r, l*N + n)]. *)
Theorem ConvTranspose2d_forward_scatters :
  exists prod out,
    dot (T2 (kernel_rows wv C OC K)) (T2 (input_rows x N C h w)) = Ok (T2 prod)
    /\ rect2 (OC * (K * K)) (N * (h * w)) prod
    /\ ConvTranspose2d.forward self (T4 x) = Ok (self, T4 out)
    /\ rect4 N OC (height g) (width g) out
    /\ forall n f Y X,
         (n < N)%nat -> (f < OC)%nat -> (Y < height g)%nat -> (X < width g)%nat ->
         get4 out n f Y X
         = fold_left PrimFloat.add
             (map (fun p => get2 prod (fst p) (snd p * N + n)) (covering g f Y X))
             0
           + nth f bv 0.
Proof.
  pose proof convt_geometry_ok as Hg.
  destruct convt_locs as [Eoh Eow].
  pose proof convt_height_pos as Hgh.
  assert (Hgw : (0 < width g)%nat)
    by (unfold g, convt_geometry, convt_out; cbn [width]; nia).
  destruct input_matrix as (mi & Ei & Hmi & Hgi).
  destruct weight_matrix as (mw & Ew & Hmw & Hgw').
  assert (HR : (0 < OC * (K * K))%nat) by nia.
  (* the two factors, entry by entry *)
  assert (Hkr : rect2 (OC * (K * K)) C (kernel_rows wv C OC K)).
  { split; [apply tab_length|]. apply Forall_tab. intros r _. apply tab_length. }
  assert (Hir : rect2 C (N * (h * w)) (input_rows x N C h w)).
  { split; [apply tab_length|]. apply Forall_tab. intros r _. apply tab_length. }
  assert (Emw : transpose2 mw = kernel_rows wv C OC K).
  { rewrite (transpose2_rect Hmw HC). apply tab_ext. intros r Hr.
    apply tab_ext. intros c Hc. now apply Hgw'. }
  assert (Emi : mi = input_rows x N C h w).
  { apply (@rect2_ext float float_Arith _ _ _ _ Hmi Hir).
    intros c q Hc Hq. rewrite (Hgi c q Hc Hq).
    unfold input_rows, get2. now rewrite (tab_nth _ _ Hc), (tab_nth _ _ Hq). }
  subst mi. clear Hgi Hgw'.
  set (cols := tab (OC * (K * K)) (fun r => tab (N * (h * w)) (fun q =>
                 vsum (tab C (fun c => get2 (kernel_rows wv C OC K) r c
                                       * get2 (input_rows x N C h w) c q))))).
  assert (Hprod : rect2 (OC * (K * K)) (N * (h * w)) cols).
  { split; [apply tab_length|]. apply Forall_tab. intros r _. apply tab_length. }
  assert (Hcols : rect2 (n_rows g) (n_locs g * batch g) cols).
  { unfold n_rows, n_locs. rewrite Eoh, Eow.
    cbn [g convt_geometry chans field_h field_w batch].
    replace (h * w * N)%nat with (N * (h * w))%nat by lia. exact Hprod. }
  destruct (@col2im_indices_sum float float_Arith g Hg cols Hcols)
    as (res & Eres & Hres & Hget).
  cbn [g convt_geometry batch chans height width] in Hres.
  pose proof (@tadd_per_channel _ _ _ _ _ _ Hres Hbv) as Eadd.
  set (out := tab N (fun n => tab OC (fun f =>
                tab (convt_out h K sh ph oph) (fun y =>
                  tab (convt_out w K sw pw opw) (fun x0 =>
                    get4 res n f y x0 + nth f bv 0))))) in *.
  assert (Hrect : rect4 N OC (convt_out h K sh ph oph) (convt_out w K sw pw opw) out).
  { split; [apply tab_length|]. apply Forall_tab. intros n _.
    split; [apply tab_length|]. apply Forall_tab. intros f _.
    split; [apply tab_length|]. apply Forall_tab. intros y _. apply tab_length. }
  exists cols, out.
  split; [exact (dot_rect Hkr Hir HR HC)|]. split; [exact Hprod|].
  split; [|split; [exact Hrect|]].
  - unfold ConvTranspose2d.forward. rewrite Hweight. cbn [bind].
    rewrite (shape4_rect Hx HN HC Hh), (shape4_rect Hwv HC HOC HK).
    rewrite Hin, Hout, Hstride, Hpadding, Hopad. cbn [fst snd].
    rewrite Ei, Ew. cbn [bind]. rewrite Emw.
    rewrite (dot_rect Hkr Hir HR HC). cbn [bind].
    fold cols.
    replace ((Z.of_nat h - 1) * Z.of_nat sh - 2 * Z.of_nat ph + Z.of_nat K
             + Z.of_nat oph)%Z
      with (Z.of_nat (height g))
      by (unfold g, convt_geometry, convt_out; cbn [height]; nia).
    replace ((Z.of_nat w - 1) * Z.of_nat sw - 2 * Z.of_nat pw + Z.of_nat K
             + Z.of_nat opw)%Z
      with (Z.of_nat (width g))
      by (unfold g, convt_geometry, convt_out; cbn [width]; nia).
    change (col2im_indices cols
              (Z.of_nat N, Z.of_nat OC, Z.of_nat (height g), Z.of_nat (width g))
              (Z.of_nat K) (Z.of_nat K) (Z.of_nat ph, Z.of_nat pw)
              (Z.of_nat sh, Z.of_nat sw))
      with (col2im_indices cols (x_shape g) (Z.of_nat (field_h g))
              (Z.of_nat (field_w g)) (padding g) (stride g)).
    rewrite Eres. cbn [bind].
    rewrite Hbias. unfold reshape_1C11. cbn [ravel]. rewrite Hbv, Z.eqb_refl.
    cbn [bind]. unfold in_place. fold tadd. rewrite Eadd. cbn [bind].
    unfold same_shape.
    rewrite (shape_rect4 Hrect HN HOC), (shape_rect4 Hres HN HOC)
      by (unfold g, convt_geometry in Hgh; cbn in Hgh; exact Hgh).
    destruct (list_eq_dec Nat.eq_dec _ _) as [_|Hne]; [reflexivity|congruence].
  - intros n f Y X Hn Hf HY HX.
    cbn [g convt_geometry height width] in HY, HX.
    unfold get4 at 1, get3, out.
    rewrite (tab_nth _ _ Hn), (tab_nth _ _ Hf), (tab_nth _ _ HY), (tab_nth _ _ HX).
    f_equal. rewrite (Hget n f Y X Hn Hf HY HX).
    reflexivity.
Qed.

End ConvT.

Lemma ConvTranspose2d_forward_scatters_witness :
  exists out,
    ConvTranspose2d.forward square_kernel (T4 [[ [[1; 2]; [3; 4]] ]])
    = Ok (square_kernel, T4 out)
    /\ rect4 1 1 4 4 out
    /\ get4 out 0 0 3 3 = 26.
Proof.
  edestruct (@ConvTranspose2d_forward_scatters 1 1 1 2 2 2 2 2 0 0 0 0 square_kernel
               [[ [[1; 2]; [3; 4]] ]] [[ [[1; 2]; [3; 4]] ]] [10])
    as (prod & out & Hdot & _ & E & Hrect & Hget);
    try reflexivity; try lia; try (repeat constructor; fail);
    try (split; intros; reflexivity).
  exists out. split; [exact E|]. split; [exact Hrect|].
  rewrite Hget by (vm_compute; lia).
  vm_compute in Hdot. injection Hdot as <-. vm_compute. reflexivity.
Defined.

End ConvTransposeFacts.

Module ShapeErrorFacts.
Import Patch PatchFacts Tensor ReshapeFacts PoolFacts ConvFacts Conv2dFacts Inputs.
Local Open Scope float_scope.

(** X18. [Linear.forward] on an [(N, I')] input, with a weight of shape
    [(O, I)] and [I' <> I], raises [ValueError] (the matrix product does),
    whatever the bias. *)
Theorem Linear_forward_rejects_width (self : Linear.t) (N I' O I : nat) (x w : ten2) :
  Param.value (Linear.weight self) = T2 w ->
  rect2 N I' x -> rect2 O I w -> (0 < N)%nat -> (0 < O)%nat -> I' <> I ->
  Linear.forward self (T2 x) = Raise ValueError.
Proof.
  intros Hw Hx Hrw HN HO Hne. unfold ten2, ten1 in *.
  unfold Linear.forward. cbn [Linear.weight]. rewrite Hw. cbn [transpose].
  unfold dot.
  assert (Hhd : length (hd [] x) = I').
  { rewrite <- (rect2_row (r := 0%nat) Hx HN). now destruct x. }
  assert (Ht : length (transpose2 w) = I) by apply (transpose2_shape Hrw HO).
  unfold ten2, ten1 in *. rewrite Hhd, Ht.
  destruct (Nat.eqb_spec I' I); [contradiction | reflexivity].
Qed.

Lemma Linear_forward_rejects_width_witness :
  Linear.forward
    {| Linear.in_features := 2; Linear.out_features := 1;
       Linear.weight := Param.new (T2 [[3; 4]]) false;
       Linear.bias := Param.new (T1 [5]) true;
       Linear.prev_inp := None |}
    (T2 [[1; 2; 3]]) = Raise ValueError.
Proof.
  apply (@Linear_forward_rejects_width
           {| Linear.in_features := 2; Linear.out_features := 1;
              Linear.weight := Param.new (T2 [[3; 4]]) false;
              Linear.bias := Param.new (T1 [5]) true;
              Linear.prev_inp := None |}
           1 3 1 2 [[1; 2; 3]] [[3; 4]] eq_refl);
    try lia; split; try reflexivity; repeat constructor.
Defined.

Section Channels.
Variables (N C Cw H W NF FH FW p s : nat).
Variables (x wv : ten4) (self : Conv2d.t).
Hypothesis Hweight : Param.value (Conv2d.weight self) = T4 wv.
Hypothesis Hpad : Conv2d.padding self = Z.of_nat p.
Hypothesis Hstride : Conv2d.stride self = Z.of_nat s.
Hypothesis Hx : rect4 N C H W x.
Hypothesis Hwv : rect4 NF Cw FH FW wv.
Hypothesis HN : (0 < N)%nat.
Hypothesis HC : (0 < C)%nat.
Hypothesis HCw : (0 < Cw)%nat.
Hypothesis HH : (0 < H)%nat.
Hypothesis HNF : (0 < NF)%nat.
Hypothesis HFH : (0 < FH)%nat.
Hypothesis HFW : (0 < FW)%nat.
Hypothesis Hs : (0 < s)%nat.
Hypothesis HfitH : (FH <= H + 2 * p)%nat.
Hypothesis HfitW : (FW <= W + 2 * p)%nat.
Hypothesis Hne : Cw <> C.

(** X19. [Conv2d.forward] on an input with [C] channels, with filters made
    for [Cw <> C] channels, raises [ValueError]: the patches are taken
    and the product of the [(NF, Cw*FH*FW)] weight matrix with the
    [(C*FH*FW, ...)] column matrix fails. *)
Theorem Conv2d_forward_rejects_channels :
  Conv2d.forward self (T4 x) = Raise ValueError.
Proof.
  set (g := conv_geometry N C H W FH FW p s).
  assert (Hg : geometry_ok g).
  { unfold geometry_ok, g, conv_geometry, padded_h, padded_w. cbn. repeat split; lia. }
  destruct (@im2col_indices_spec float float_Arith g Hg HH x Hx)
    as (cols & E & Hcols & _).
  unfold Conv2d.forward. rewrite Hweight. cbn [bind].
  rewrite (shape4_rect Hwv HNF HCw HFH), (shape4_rect Hx HN HC HH), Hpad, Hstride.
  replace (Z.of_nat H - Z.of_nat FH + 2 * Z.of_nat p)%Z
    with (Z.of_nat (H + 2 * p - FH)) by lia.
  replace (Z.of_nat W - Z.of_nat FW + 2 * Z.of_nat p)%Z
    with (Z.of_nat (W + 2 * p - FW)) by lia.
  rewrite !floordiv_nat by exact Hs. cbn [bind].
  change (im2col_indices x (Z.of_nat FH) (Z.of_nat FW) (AnInt (Z.of_nat p))
            (AnInt (Z.of_nat s)))
    with (im2col_indices x (Z.of_nat (field_h g)) (Z.of_nat (field_w g))
            (APair (padding g)) (APair (stride g))).
  rewrite E. cbn [bind].
  set (K := (Cw * (FH * FW))%nat).
  assert (Hwlen : length (ravel (T4 wv)) = (NF * K)%nat)
    by (cbn [ravel]; apply (ravel4_length Hwv)).
  unfold reshape2 at 1. rewrite Hwlen, (fix_rows_dimension _ HNF). cbn [bind].
  set (wr := build2 NF K (ravel (T4 wv))).
  assert (Hwr : rect2 NF K wr) by (apply build2_rect; exact Hwlen).
  assert (HK : (0 < K)%nat) by (unfold K; nia).
  cbn [transpose]. rewrite (transpose2_twice Hwr HNF HK).
  unfold dot.
  assert (Hhd : length (hd [] wr) = K).
  { rewrite <- (rect2_row (r := 0%nat) Hwr HNF). now destruct wr. }
  assert (Hlc : length cols = (C * (FH * FW))%nat) by apply Hcols.
  unfold ten2, ten1, arr2 in *. rewrite Hhd, Hlc.
  destruct (Nat.eqb_spec K (C * (FH * FW))) as [Eq|]; [|reflexivity].
  exfalso. unfold K in Eq. apply Hne.
  apply Nat.mul_cancel_r in Eq; [exact Eq | nia].
Qed.

End Channels.

Lemma Conv2d_forward_rejects_channels_witness :
  Conv2d.forward diagonal_filter (T4 [[ [[1; 2]; [3; 4]]; [[5; 6]; [7; 8]] ]])
  = Raise ValueError.
Proof.
  apply (@Conv2d_forward_rejects_channels 1 2 1 2 2 1 2 2 0 1
           [[ [[1; 2]; [3; 4]]; [[5; 6]; [7; 8]] ]] [[ [[1; 0]; [0; 1]] ]]
           diagonal_filter);
    try reflexivity; try lia;
    unfold rect4, rect3, rect2; simpl; repeat constructor.
Defined.

End ShapeErrorFacts.

Module LoadExportFacts.
Import Tensor Serial Inputs AttrFacts SerialFacts ModuleListFacts RoundTripFacts
       Ascii String.
Local Open Scope string_scope.

(** ** Writing into a dictionary *)

Lemma dict_set_key_in (K : string) (v : pyobj) (r : dict) :
  In K (map fst (dict_set K v r)).
Proof.
  induction r as [|[k' v'] r IH]; simpl; [now left|].
  destruct (String.eqb K k'); simpl; auto.
Qed.

Lemma dict_set_keys_in (K k : string) (v : pyobj) (r : dict) :
  In k (map fst r) -> In k (map fst (dict_set K v r)).
Proof.
  induction r as [|[k' v'] r IH]; simpl; [contradiction|].
  destruct (String.eqb_spec K k') as [->|Hne]; simpl; tauto.
Qed.

Lemma dict_set_keys_present (K : string) (v : pyobj) (r : dict) :
  In K (map fst r) -> map fst (dict_set K v r) = map fst r.
Proof.
  induction r as [|[k' v'] r IH]; simpl; [contradiction|].
  destruct (String.eqb_spec K k') as [->|Hne]; simpl; [reflexivity|].
  intros [E|Hin]; [congruence|]. now rewrite IH.
Qed.

Lemma dict_set_overwrite (K : string) (v0 v : pyobj) (r : dict) :
  dict_set K v (dict_set K v0 r) = dict_set K v r.
Proof.
  induction r as [|[k' v'] r IH]; simpl.
  - now rewrite String.eqb_refl.
  - destruct (String.eqb K k') eqn:E; simpl.
    + now rewrite String.eqb_refl.
    + now rewrite E, IH.
Qed.

Lemma dict_set_commute (K K' : string) (v v' : pyobj) (r : dict) :
  K <> K' -> In K (map fst r) ->
  dict_set K v (dict_set K' v' r) = dict_set K' v' (dict_set K v r).
Proof.
  intros Hne. assert (Hne' : K' <> K) by congruence.
  apply String.eqb_neq in Hne, Hne'.
  induction r as [|[k0 v0] r IH]; [contradiction|].
  intros Hin. cbn [dict_set].
  destruct (String.eqb K' k0) eqn:E1; destruct (String.eqb K k0) eqn:E2; cbn [dict_set].
  - apply String.eqb_eq in E1, E2. subst. now rewrite String.eqb_refl in Hne.
  - now rewrite ?E1, ?E2, ?Hne, ?Hne', ?String.eqb_refl.
  - now rewrite ?E1, ?E2, ?Hne, ?Hne', ?String.eqb_refl.
  - rewrite E1, E2. f_equal. apply IH.
    destruct Hin as [E|Hin]; [|exact Hin].
    simpl in E. subst. now rewrite String.eqb_refl in E2.
Qed.

Lemma dict_set_nodup (K : string) (v : pyobj) (r : dict) :
  NoDup (map fst r) -> NoDup (map fst (dict_set K v r)).
Proof.
  induction r as [|[k' v'] r IH]; simpl; intros Hn.
  - constructor; [intros []|constructor].
  - inversion Hn as [|? ? Hnot Hn']; subst.
    destruct (String.eqb_spec K k') as [->|Hne]; simpl.
    + now constructor.
    + constructor; [|auto]. intros Hin. apply Hnot.
      clear -Hin Hne. induction r as [|[k0 v0] r IH]; simpl in *.
      * destruct Hin as [E|[]]. congruence.
      * destruct (String.eqb_spec K k0) as [->|H0]; simpl in *; tauto.
Qed.

Lemma add_prefixed_nodup (P : string) (sd r : dict) :
  NoDup (map fst r) -> NoDup (map fst (add_prefixed P sd r)).
Proof.
  unfold add_prefixed. revert r. induction sd as [|[k v] sd IH]; intros r Hr; simpl; auto.
  apply IH. now apply dict_set_nodup.
Qed.

Lemma add_enumerated_nodup (f : pyobj -> Result dict) (P : string) (only : bool)
    (items : list pyobj) (i : nat) (r out : dict) :
  NoDup (map fst r) -> add_enumerated f P only items i r = Ok out ->
  NoDup (map fst out).
Proof.
  revert i r. induction items as [|x items IH]; intros i r Hr; simpl.
  - intros E. inversion E. now subst.
  - destruct (only && negb (class_is x Module_cls)); [now apply IH|].
    destruct (if class_is x Module_cls then f x else Raise AttributeError)
      as [sd|]; [|discriminate].
    cbn [bind]. apply IH. now apply add_prefixed_nodup.
Qed.

Lemma add_list_attr_nodup (f : pyobj -> Result dict) (name P : string) (only : bool)
    (attrs : dict) (r out : dict) :
  NoDup (map fst r) -> add_list_attr f name P only attrs r = Ok out ->
  NoDup (map fst out).
Proof.
  intros Hr. induction attrs as [|[k v] attrs IH]; simpl; [discriminate|].
  destruct (String.eqb k name); [|exact IH].
  destruct v; try discriminate. now apply add_enumerated_nodup.
Qed.

Lemma module_attrs_nodup (f : pyobj -> Result dict) (attrs : dict) (r out : dict) :
  NoDup (map fst r) -> module_attrs f attrs r = Ok out -> NoDup (map fst out).
Proof.
  revert r. induction attrs as [|[A attr] attrs IH]; intros r Hr; simpl.
  - intros E. inversion E. now subst.
  - destruct attr as [| | | | | |c sub|]; cbn [bind]; try (now apply IH).
    destruct (issubclass c Module_cls).
    + destruct (f (PInstance c sub)) as [sd|]; [|discriminate]. cbn [bind].
      apply IH. now apply add_prefixed_nodup.
    + destruct (issubclass c ModuleList_cls).
      * destruct (add_list_attr f "modules" (A ++ ".") false sub r) as [r'|] eqn:E;
          [|discriminate].
        cbn [bind]. apply IH. eapply add_list_attr_nodup; eauto.
      * destruct (issubclass c Parameter_cls); [|now apply IH].
        unfold add_parameter.
        destruct (lookup "value" sub); [|discriminate].
        destruct (lookup "grad" sub); [|discriminate].
        cbn [bind]. apply IH. now apply dict_set_nodup, dict_set_nodup.
Qed.

(** The keys of an export are all different. *)
Lemma state_dict_nodup (m : pyobj) (sd : dict) :
  state_dict m = Ok sd -> NoDup (map fst sd).
Proof.
  destruct m as [| | | | | |cls attrs|]; try discriminate. cbn [state_dict].
  destruct (issubclass cls Sequential_cls).
  - apply add_list_attr_nodup. constructor.
  - destruct (issubclass cls Module_cls); [|discriminate].
    apply module_attrs_nodup. constructor.
Qed.

(** ** A write that commutes with the rest of an export *)

Lemma add_prefixed_commute (K : string) (v : pyobj) (P : string) (sd r : dict) :
  (forall kv, In kv sd -> P ++ fst kv <> K) -> In K (map fst r) ->
  add_prefixed P sd (dict_set K v r) = dict_set K v (add_prefixed P sd r).
Proof.
  unfold add_prefixed. revert r.
  induction sd as [|[k0 v0] sd IH]; intros r Hne Hin; simpl; [reflexivity|].
  rewrite <- dict_set_commute; auto.
  - apply IH; [intros kv Hkv; apply Hne; now right|].
    now apply dict_set_keys_in.
  - intros E. apply (Hne (k0, v0)); [now left | now symmetry].
Qed.

Lemma add_prefixed_keys_in (K P : string) (sd r : dict) :
  In K (map fst r) -> In K (map fst (add_prefixed P sd r)).
Proof.
  unfold add_prefixed. revert r. induction sd as [|[k0 v0] sd IH]; intros r Hin; simpl; auto.
  apply IH. now apply dict_set_keys_in.
Qed.

(** Changing one value of the sub-dictionary changes that value of the
    prefixed copy. *)
Lemma add_prefixed_set (P k : string) (v : pyobj) (sd r : dict) :
  NoDup (map fst sd) -> In k (map fst sd) ->
  add_prefixed P (dict_set k v sd) r = dict_set (P ++ k) v (add_prefixed P sd r)
  /\ In (P ++ k) (map fst (add_prefixed P sd r)).
Proof.
  revert r. induction sd as [|[k0 v0] sd IH]; intros r Hn Hin; [contradiction|].
  simpl in Hn. inversion Hn as [|? ? Hnot Hn']; subst.
  assert (Hinj : forall a b, P ++ a = P ++ b -> a = b).
  { clear. induction P as [|c P IH]; simpl; intros a b E; [exact E|].
    inversion E. auto. }
  cbn [dict_set]. destruct (String.eqb_spec k k0) as [->|Hne].
  - unfold add_prefixed. cbn [fold_left fst snd].
    fold (add_prefixed P sd (dict_set (P ++ k0) v r)).
    fold (add_prefixed P sd (dict_set (P ++ k0) v0 r)).
    assert (Hk : forall kv, In kv sd -> P ++ fst kv <> P ++ k0).
    { intros kv Hkv E. apply Hinj in E. apply Hnot. rewrite <- E.
      now apply in_map. }
    split.
    + rewrite <- (dict_set_overwrite (P ++ k0) v0 v r).
      apply add_prefixed_commute; auto. apply dict_set_key_in.
    + apply add_prefixed_keys_in, dict_set_key_in.
  - destruct Hin as [E|Hin]; [simpl in E; congruence|].
    unfold add_prefixed. cbn [fold_left fst snd].
    fold (add_prefixed P (dict_set k v sd) (dict_set (P ++ k0) v0 r)).
    fold (add_prefixed P sd (dict_set (P ++ k0) v0 r)).
    apply IH; auto.
Qed.

(** ** Keys that cannot meet *)

Lemma key_prefix_neq (A0 A K k : string) (rest : list string) :
  dot_free A0 = true -> A0 <> A -> split_dot K = A :: rest ->
  (A0 ++ ".") ++ k <> K.
Proof.
  intros Hd Hne HK E. subst K. rewrite (@split_dot_prefix _ _ Hd) in HK.
  inversion HK. congruence.
Qed.

Lemma digits_str (i : nat) : digits (str_of_nat i) 0 false = Some (Z.of_nat i).
Proof.
  unfold str_of_nat. rewrite <- (DecimalNat.Unsigned.of_to i) at 2.
  destruct (Decimal.uint_eq_dec (Nat.to_uint i) Decimal.Nil) as [E|Hd].
  - rewrite E. reflexivity.
  - replace (DecimalString.NilZero.string_of_uint (Nat.to_uint i))
      with (DecimalString.NilEmpty.string_of_uint (Nat.to_uint i))
      by (destruct (Nat.to_uint i); [congruence | reflexivity ..]).
    apply (@digits_of_uint (Nat.to_uint i) 0 false). now left.
Qed.

Lemma str_of_nat_inj (i j : nat) : str_of_nat i = str_of_nat j -> i = j.
Proof.
  intros E. pose proof (digits_str i) as Hi. rewrite E, digits_str in Hi.
  inversion Hi. lia.
Qed.

Lemma key_index_neq (A K k : string) (i j : nat) (rest : list string) :
  dot_free A = true -> i <> j -> split_dot K = A :: str_of_nat j :: rest ->
  ((A ++ ".") ++ (str_of_nat i ++ ".")) ++ k <> K.
Proof.
  intros Hd Hne HK E. subst K.
  rewrite append_assoc, (@split_dot_prefix _ _ Hd),
    (@split_dot_prefix _ _ (dot_free_str i)) in HK.
  inversion HK as [E]. apply str_of_nat_inj in E. congruence.
Qed.

(** ** Where a key of an export comes from *)

Lemma dict_set_keys_inv (K k : string) (v : pyobj) (r : dict) :
  In k (map fst (dict_set K v r)) -> k = K \/ In k (map fst r).
Proof.
  induction r as [|[k' v'] r IH]; simpl.
  - intros [E|[]]. now left.
  - destruct (String.eqb_spec K k') as [->|Hne]; simpl; intuition.
Qed.

Lemma add_prefixed_keys_inv (P K : string) (sd r : dict) :
  In K (map fst (add_prefixed P sd r)) ->
  In K (map fst r) \/ exists k, In k (map fst sd) /\ K = P ++ k.
Proof.
  unfold add_prefixed. revert r.
  induction sd as [|[k0 v0] sd IH]; intros r Hin; simpl in *; [now left|].
  destruct (IH _ Hin) as [H|(k & Hk & E)].
  - apply dict_set_keys_inv in H. destruct H as [E|H]; [|now left].
    right. exists k0. split; [now left | exact E].
  - right. exists k. split; [now right | exact E].
Qed.

Lemma add_enumerated_keys_inv (f : pyobj -> Result dict) (P : string) (only : bool)
    (items : list pyobj) (K : string) :
  forall (i : nat) (r out : dict),
  add_enumerated f P only items i r = Ok out -> In K (map fst out) ->
  In K (map fst r)
  \/ exists j child sd k,
       nth_error items j = Some child /\ class_is child Module_cls = true
       /\ f child = Ok sd /\ In k (map fst sd)
       /\ K = (P ++ (str_of_nat (i + j) ++ ".")) ++ k.
Proof.
  induction items as [|x items IH]; intros i r out; simpl.
  - intros E Hin. inversion E. subst. now left.
  - assert (Hshift : forall r',
              add_enumerated f P only items (S i) r' = Ok out -> In K (map fst out) ->
              In K (map fst r')
              \/ exists j child sd k,
                   nth_error (x :: items) j = Some child
                   /\ class_is child Module_cls = true
                   /\ f child = Ok sd /\ In k (map fst sd)
                   /\ K = (P ++ (str_of_nat (i + j) ++ ".")) ++ k).
    { intros r' E Hin. destruct (IH _ _ _ E Hin) as [H|(j & child & sd & k & H1 & H2 & H3 & H4 & H5)];
        [now left|].
      right. exists (S j), child, sd, k. repeat split; auto.
      now replace (i + S j)%nat with (S i + j)%nat by lia. }
    destruct (class_is x Module_cls) eqn:Ec.
    + rewrite andb_false_r. destruct (f x) as [sd|] eqn:Ef; [|discriminate].
      cbn [bind]. intros E Hin. destruct (Hshift _ E Hin) as [H|H]; [|now right].
      apply add_prefixed_keys_inv in H. destruct H as [H|(k & Hk & EK)]; [now left|].
      right. exists O, x, sd, k. repeat split; auto. now rewrite Nat.add_0_r.
    + destruct only; simpl; [|discriminate]. intros E Hin.
      destruct (Hshift _ E Hin) as [H|H]; [now left | now right].
Qed.

Lemma add_list_attr_found (f : pyobj -> Result dict) (name P : string) (only : bool)
    (attrs : dict) (r out : dict) :
  add_list_attr f name P only attrs r = Ok out ->
  exists items, lookup name attrs = Some (PList items)
                /\ add_enumerated f P only items 0 r = Ok out.
Proof.
  induction attrs as [|[k v] attrs IH]; simpl; [discriminate|].
  rewrite (String.eqb_sym name k).
  destruct (String.eqb k name); [|exact IH].
  destruct v; try discriminate. eauto.
Qed.

Lemma add_list_attr_of_lookup (f : pyobj -> Result dict) (name P : string) (only : bool)
    (attrs : dict) (r : dict) (items : list pyobj) :
  lookup name attrs = Some (PList items) ->
  add_list_attr f name P only attrs r = add_enumerated f P only items 0 r.
Proof.
  induction attrs as [|[k v] attrs IH]; simpl; [discriminate|].
  rewrite (String.eqb_sym name k).
  destruct (String.eqb k name); [|exact IH].
  intros E. inversion E. reflexivity.
Qed.

Lemma module_attrs_keys_inv (f : pyobj -> Result dict) (K : string) (suf : dict) :
  forall (r out : dict),
  module_attrs f suf r = Ok out -> In K (map fst out) ->
  In K (map fst r)
  \/ exists A c sub,
       In (A, PInstance c sub) suf
       /\ ((issubclass c Module_cls = true
            /\ exists sd k, f (PInstance c sub) = Ok sd /\ In k (map fst sd)
                            /\ K = (A ++ ".") ++ k)
           \/ (issubclass c Module_cls = false /\ issubclass c ModuleList_cls = true
               /\ exists items j child sd k,
                    lookup "modules" sub = Some (PList items)
                    /\ nth_error items j = Some child
                    /\ class_is child Module_cls = true
                    /\ f child = Ok sd /\ In k (map fst sd)
                    /\ K = ((A ++ ".") ++ (str_of_nat j ++ ".")) ++ k)
           \/ (issubclass c Module_cls = false /\ issubclass c ModuleList_cls = false
               /\ issubclass c Parameter_cls = true
               /\ exists field val grad,
                    (field = "value" \/ field = "grad")
                    /\ lookup "value" sub = Some val /\ lookup "grad" sub = Some grad
                    /\ K = (A ++ ".") ++ field)).
Proof.
  induction suf as [|[A attr] suf IH]; intros r out; simpl.
  - intros E Hin. inversion E. subst. now left.
  - assert (Hrest : forall r', module_attrs f suf r' = Ok out -> In K (map fst out) ->
              In K (map fst r')
              \/ exists A0 c sub,
                   In (A0, PInstance c sub) ((A, attr) :: suf)
                   /\ ((issubclass c Module_cls = true
                        /\ exists sd k, f (PInstance c sub) = Ok sd /\ In k (map fst sd)
                                        /\ K = (A0 ++ ".") ++ k)
                       \/ (issubclass c Module_cls = false
                           /\ issubclass c ModuleList_cls = true
                           /\ exists items j child sd k,
                                lookup "modules" sub = Some (PList items)
                                /\ nth_error items j = Some child
                                /\ class_is child Module_cls = true
                                /\ f child = Ok sd /\ In k (map fst sd)
                                /\ K = ((A0 ++ ".") ++ (str_of_nat j ++ ".")) ++ k)
                       \/ (issubclass c Module_cls = false
                           /\ issubclass c ModuleList_cls = false
                           /\ issubclass c Parameter_cls = true
                           /\ exists field val grad,
                                (field = "value" \/ field = "grad")
                                /\ lookup "value" sub = Some val
                                /\ lookup "grad" sub = Some grad
                                /\ K = (A0 ++ ".") ++ field))).
    { intros r' E Hin. destruct (IH _ _ E Hin) as [H|(A0 & c & sub & Hin0 & H)];
        [now left|].
      right. exists A0, c, sub. split; [now right | exact H]. }
    destruct attr as [| | | | | |c sub|]; cbn [bind]; try (exact (Hrest r)).
    destruct (issubclass c Module_cls) eqn:Ec1.
    + destruct (f (PInstance c sub)) as [sd|] eqn:Ef; [|discriminate]. cbn [bind].
      intros E Hin. destruct (Hrest _ E Hin) as [H|H]; [|now right].
      apply add_prefixed_keys_inv in H. destruct H as [H|(k & Hk & EK)]; [now left|].
      right. exists A, c, sub. split; [now left|]. left. split; [exact Ec1|].
      now exists sd, k.
    + destruct (issubclass c ModuleList_cls) eqn:Ec2.
      * destruct (add_list_attr f "modules" (A ++ ".") false sub r) as [r'|] eqn:El;
          [|discriminate].
        cbn [bind]. intros E Hin. destruct (Hrest _ E Hin) as [H|H]; [|now right].
        destruct (add_list_attr_found _ _ _ _ _ _ El) as (items & Hl & Hen).
        destruct (add_enumerated_keys_inv _ _ _ _ _ _ _ Hen H)
          as [H'|(j & child & sd & k & H1 & H2 & H3 & H4 & H5)]; [now left|].
        right. exists A, c, sub. split; [now left|]. right. left.
        repeat split; auto. now exists items, j, child, sd, k.
      * destruct (issubclass c Parameter_cls) eqn:Ec3; [|exact (Hrest r)].
        unfold add_parameter.
        destruct (lookup "value" sub) as [val|] eqn:Ev; [|discriminate].
        destruct (lookup "grad" sub) as [g|] eqn:Eg; [|discriminate].
        cbn [bind]. intros E Hin. destruct (Hrest _ E Hin) as [H|H]; [|now right].
        apply dict_set_keys_inv in H. destruct H as [EK|H].
        -- right. exists A, c, sub. split; [now left|]. right. right.
           repeat split; auto. exists "grad", val, g. repeat split; auto.
           rewrite EK, append_assoc. reflexivity.
        -- apply dict_set_keys_inv in H. destruct H as [EK|H]; [|now left].
           right. exists A, c, sub. split; [now left|]. right. right.
           repeat split; auto. exists "value", val, g. repeat split; auto.
           rewrite EK, append_assoc. reflexivity.
Qed.

(** ** The rest of an export does not see the write *)

Lemma add_enumerated_commute (K : string) (v : pyobj) (f : pyobj -> Result dict)
    (P : string) (only : bool) (items : list pyobj) :
  forall (i : nat) (r out : dict),
  (forall j k, (i <= j)%nat -> (P ++ (str_of_nat j ++ ".")) ++ k <> K) ->
  In K (map fst r) ->
  add_enumerated f P only items i r = Ok out ->
  add_enumerated f P only items i (dict_set K v r) = Ok (dict_set K v out)
  /\ In K (map fst out).
Proof.
  induction items as [|x items IH]; intros i r out Hne Hin; simpl.
  - intros E. inversion E. subst. auto.
  - assert (Hne' : forall j k, (S i <= j)%nat ->
                     (P ++ (str_of_nat j ++ ".")) ++ k <> K)
      by (intros j k Hj; apply Hne; lia).
    destruct (only && negb (class_is x Module_cls)); [now apply IH|].
    destruct (if class_is x Module_cls then f x else Raise AttributeError)
      as [sd|]; [|discriminate].
    cbn [bind]. intros E.
    rewrite add_prefixed_commute; auto.
    apply IH; auto. now apply add_prefixed_keys_in.
Qed.

Lemma module_attrs_commute (K : string) (v : pyobj) (f : pyobj -> Result dict)
    (plain : pyobj -> bool) (A : string) (rest : list string) (attrs : dict) :
  split_dot K = A :: rest ->
  (forall A0 x, In (A0, x) attrs -> A0 <> A) ->
  plain_attrs plain attrs = true ->
  forall (r out : dict),
  In K (map fst r) -> module_attrs f attrs r = Ok out ->
  module_attrs f attrs (dict_set K v r) = Ok (dict_set K v out)
  /\ In K (map fst out).
Proof.
  intros HK. induction attrs as [|[A0 attr] attrs IH]; intros Hnames Hpl r out Hin; simpl.
  - intros E. inversion E. subst. auto.
  - assert (HA0 : A0 <> A) by (apply (Hnames A0 attr); now left).
    assert (Hnames' : forall A1 x, In (A1, x) attrs -> A1 <> A)
      by (intros A1 x Hx; apply (Hnames A1 x); now right).
    cbn [plain_attrs] in Hpl. apply andb_prop in Hpl. destruct Hpl as [Hpa Hpl].
    destruct attr as [| | | | | |c sub|]; cbn [bind]; try (now apply IH).
    destruct (issubclass c Module_cls) eqn:Ec1.
    + apply andb_prop in Hpa. destruct Hpa as [Hd _].
      destruct (f (PInstance c sub)) as [sd|]; [|discriminate]. cbn [bind].
      intros E. rewrite add_prefixed_commute; auto.
      * apply IH; auto. now apply add_prefixed_keys_in.
      * intros kv _. now apply (key_prefix_neq _ Hd HA0 HK).
    + destruct (issubclass c ModuleList_cls) eqn:Ec2.
      * apply andb_prop in Hpa. destruct Hpa as [Hpa _].
        apply andb_prop in Hpa. destruct Hpa as [Hd _].
        destruct (add_list_attr f "modules" (A0 ++ ".") false sub r) as [r'|] eqn:El;
          [|discriminate].
        cbn [bind]. intros E.
        destruct (add_list_attr_found _ _ _ _ _ _ El) as (items & Hl & Hen).
        rewrite (@add_list_attr_of_lookup f "modules" (A0 ++ ".") false sub (dict_set K v r) items Hl).
        destruct (@add_enumerated_commute K v f (A0 ++ ".") false items 0 r r')
          as [E' Hin']; auto.
        { intros j k _. rewrite append_assoc.
          now apply (key_prefix_neq _ Hd HA0 HK). }
        rewrite E'. cbn [bind]. now apply IH.
      * destruct (issubclass c Parameter_cls) eqn:Ec3; [|now apply IH].
        apply andb_prop in Hpa. destruct Hpa as [Hd _].
        unfold add_parameter.
        destruct (lookup "value" sub) as [val|]; [|discriminate].
        destruct (lookup "grad" sub) as [g|]; [|discriminate].
        cbn [bind]. intros E.
        assert (N1 : A0 ++ ".value" <> K).
        { replace (A0 ++ ".value") with ((A0 ++ ".") ++ "value")
            by (rewrite append_assoc; reflexivity).
          now apply (key_prefix_neq _ Hd HA0 HK). }
        assert (N2 : A0 ++ ".grad" <> K).
        { replace (A0 ++ ".grad") with ((A0 ++ ".") ++ "grad")
            by (rewrite append_assoc; reflexivity).
          now apply (key_prefix_neq _ Hd HA0 HK). }
        rewrite <- (@dict_set_commute K (A0 ++ ".value")) by (auto; congruence).
        rewrite <- (@dict_set_commute K (A0 ++ ".grad"))
          by (try congruence; now apply dict_set_keys_in).
        apply IH; auto. now apply dict_set_keys_in, dict_set_keys_in.
Qed.

(** ** Lists taken apart *)

Lemma module_attrs_app (f : pyobj -> Result dict) (l1 l2 : dict) (r : dict) :
  module_attrs f (l1 ++ l2)%list r = (r' <- module_attrs f l1 r ;; module_attrs f l2 r').
Proof.
  revert r. induction l1 as [|[A attr] l1 IH]; intros r; [reflexivity|].
  cbn [app module_attrs].
  match goal with
  | |- (x <- ?step ;; _) = _ => destruct step as [r1|e]
  end; cbn [bind]; [apply IH | reflexivity].
Qed.

Lemma add_enumerated_app (f : pyobj -> Result dict) (P : string) (only : bool)
    (l1 l2 : list pyobj) :
  forall (i : nat) (r : dict),
  add_enumerated f P only (l1 ++ l2)%list i r
  = (r' <- add_enumerated f P only l1 i r ;;
     add_enumerated f P only l2 (i + List.length l1) r').
Proof.
  induction l1 as [|x l1 IH]; intros i r.
  - cbn [app add_enumerated bind List.length]. now rewrite Nat.add_0_r.
  - cbn [app add_enumerated List.length].
    replace (i + S (List.length l1))%nat with (S i + List.length l1)%nat by lia.
    destruct (only && negb (class_is x Module_cls)); [apply IH|].
    destruct (if class_is x Module_cls then f x else Raise AttributeError)
      as [sd|]; cbn [bind]; [apply IH | reflexivity].
Qed.

Lemma sorted_names_keys (d d' : dict) :
  map fst d = map fst d' -> sorted_names d = sorted_names d'.
Proof.
  revert d'. induction d as [|[k v] d IH]; intros [|[k' v'] d'] E; try discriminate;
    [reflexivity|].
  simpl in E. inversion E. subst. cbn [sorted_names]. f_equal; [|now apply IH].
  clear -H1. revert d' H1. induction d as [|[a b] d IH]; intros [|[a' b'] d'] E;
    try discriminate; [reflexivity|].
  simpl in E. inversion E. subst. cbn [forallb fst]. f_equal. now apply IH.
Qed.

Lemma sorted_names_suffix (pre l : dict) :
  sorted_names (pre ++ l)%list = true -> sorted_names l = true.
Proof.
  induction pre as [|[k v] pre IH]; [auto|]. cbn [app sorted_names].
  intros H. apply andb_prop in H. tauto.
Qed.

Lemma sorted_head_lt (A : string) (x : pyobj) (post : dict) (A0 : string) (x0 : pyobj) :
  sorted_names ((A, x) :: post) = true -> In (A0, x0) post -> A0 <> A.
Proof.
  cbn [sorted_names]. intros H Hin. apply andb_prop in H. destruct H as [H _].
  rewrite forallb_forall in H. specialize (H _ Hin). cbn [fst] in H.
  intros ->. now rewrite compare_refl in H.
Qed.

Lemma attrs_set_replace (pre post : dict) (A : string) (x y : pyobj) :
  sorted_names (pre ++ (A, x) :: post)%list = true ->
  attrs_set A y (pre ++ (A, x) :: post)%list = (pre ++ (A, y) :: post)%list.
Proof.
  induction pre as [|[k0 v0] pre IH]; cbn [app attrs_set]; intros Hs.
  - now rewrite compare_refl.
  - cbn [sorted_names] in Hs. apply andb_prop in Hs. destruct Hs as [Hall Hs].
    rewrite forallb_forall in Hall.
    assert (Hin : In (A, x) (pre ++ (A, x) :: post)%list)
      by (apply in_or_app; right; now left).
    specialize (Hall _ Hin). cbn [fst] in Hall.
    rewrite String.compare_antisym.
    destruct (String.compare k0 A); try discriminate. cbn [CompOpp].
    now rewrite IH.
Qed.

Lemma plain_attrs_app (plain : pyobj -> bool) (l1 l2 : dict) :
  plain_attrs plain (l1 ++ l2)%list = plain_attrs plain l1 && plain_attrs plain l2.
Proof.
  induction l1 as [|[A attr] l1 IH]; [reflexivity|].
  cbn [app plain_attrs]. now rewrite IH, andb_assoc.
Qed.

Lemma list_put_replace (ipre ipost : list pyobj) (child child' : pyobj) :
  list_put (ipre ++ child :: ipost)%list (List.length ipre) child'
  = (ipre ++ child' :: ipost)%list.
Proof. induction ipre as [|x ipre IH]; simpl; [reflexivity | now rewrite IH]. Qed.

Lemma plain_is_module (m : pyobj) :
  plain_tree m = true ->
  exists c sub, m = PInstance c sub /\ inherits_load c = true
                /\ issubclass c Module_cls = true.
Proof.
  destruct m as [| | | | | |c sub|]; try discriminate. cbn [plain_tree].
  intros H. apply andb_prop in H. destruct H as [H _].
  apply andb_prop in H. destruct H as [H _].
  exists c, sub. repeat split; auto. now destruct (inherits_load_cases _ H) as (_ & _ & ?).
Qed.

Lemma sorted_attrs_set_present (k : string) (x y : pyobj) (d : dict) :
  sorted_names d = true -> lookup k d = Some x ->
  sorted_names (attrs_set k y d) = true.
Proof.
  intros Hs Hl. apply lookup_in in Hl.
  destruct (in_split _ _ Hl) as (pre & post & ->).
  rewrite (attrs_set_replace _ _ _ _ y Hs).
  rewrite <- Hs. apply sorted_names_keys. rewrite !map_app. reflexivity.
Qed.

Lemma plain_items_of_lookup (plain : pyobj -> bool) (name : string) (attrs : dict)
    (items : list pyobj) :
  lookup name attrs = Some (PList items) ->
  plain_items plain name attrs = forallb plain items && indices_ok (List.length items).
Proof.
  induction attrs as [|[k v] attrs IH]; simpl; [discriminate|].
  rewrite (String.eqb_sym name k).
  destruct (String.eqb k name); [|exact IH].
  intros E. inversion E. reflexivity.
Qed.

Lemma split_dot_plain (s : string) : dot_free s = true -> split_dot s = [s].
Proof.
  intros Hs. unfold split_dot.
  assert (E : forall cur, split_dot_aux s cur = [cur ++ s]).
  { induction s as [|x s IH]; intros cur; simpl.
    - now rewrite append_empty_r.
    - simpl in Hs. apply andb_prop in Hs. destruct Hs as [Hx Hs].
      destruct (Ascii.eqb x "."%char); [discriminate|].
      rewrite IH by exact Hs. now rewrite append_assoc. }
  now rewrite E.
Qed.

(** ** Loading one exported key *)

(** Loading a value under a key of the export changes that entry of the
    export and nothing else. *)
Lemma load_one_exported (n : nat) :
  forall m, (size m <= n)%nat -> plain_tree m = true ->
  forall sd K v, state_dict m = Ok sd -> In K (map fst sd) ->
  exists m', load_item (split_dot K) m v = Ok m'
             /\ plain_tree m' = true
             /\ state_dict m' = Ok (dict_set K v sd).
Proof.
  induction n as [|n IHn]; intros m Hn Hp sd K v Hsd HK.
  - pose proof (size_pos m). lia.
  - destruct m as [| | | | | |cls attrs|]; try discriminate.
    cbn [plain_tree] in Hp.
    apply andb_prop in Hp. destruct Hp as [Hp Hattrs].
    apply andb_prop in Hp. destruct Hp as [Hcls Hsorted].
    destruct (inherits_load_cases _ Hcls) as (H1 & H2 & H3).
    assert (Esd : forall a, state_dict (PInstance cls a) = module_attrs state_dict a []).
    { intros a. cbn [state_dict]. now rewrite H1, H3. }
    rewrite Esd in Hsd. cbn [size] in Hn.
    destruct (@module_attrs_keys_inv state_dict K _ _ _ Hsd HK)
      as [[]|(A & c & sub & HinA & Hkind)].
    pose proof (sorted_lookup _ _ _ Hsorted HinA) as HlA.
    assert (Hszsub : (size (PInstance c sub) <= n)%nat)
      by (pose proof (size_in_attrs _ _ _ HinA); lia).
    destruct (in_split _ _ HinA) as (pre & post & Eattrs). subst attrs.
    rewrite module_attrs_app in Hsd.
    destruct (module_attrs state_dict pre []) as [r0|] eqn:Epre; [|discriminate].
    cbn [bind] in Hsd.
    change ((A, PInstance c sub) :: post)
      with ([(A, PInstance c sub)] ++ post)%list in Hsd.
    rewrite module_attrs_app in Hsd.
    destruct (module_attrs state_dict [(A, PInstance c sub)] r0) as [r1|] eqn:Estep;
      [|discriminate].
    cbn [bind] in Hsd.
    rewrite plain_attrs_app in Hattrs. apply andb_prop in Hattrs.
    destruct Hattrs as [Hpre Hmp].
    change ((A, PInstance c sub) :: post)
      with ([(A, PInstance c sub)] ++ post)%list in Hmp.
    rewrite plain_attrs_app in Hmp. apply andb_prop in Hmp. destruct Hmp as [Hmid Hpost].
    assert (Hpostnames : forall A0 x, In (A0, x) post -> A0 <> A).
    { intros A0 x Hx. apply (@sorted_head_lt A (PInstance c sub) post A0 x); auto.
      apply (sorted_names_suffix pre). exact Hsorted. }
    assert (Finish : forall sub',
              load_item (split_dot K)
                (PInstance cls (pre ++ (A, PInstance c sub) :: post)%list) v
              = Ok (PInstance cls
                      (attrs_set A sub' (pre ++ (A, PInstance c sub) :: post)%list)) ->
              plain_attrs plain_tree [(A, sub')] = true ->
              module_attrs state_dict [(A, sub')] r0 = Ok (dict_set K v r1) ->
              In K (map fst r1) ->
              (exists rest, split_dot K = A :: rest) ->
              exists m',
                load_item (split_dot K)
                  (PInstance cls (pre ++ (A, PInstance c sub) :: post)%list) v = Ok m'
                /\ plain_tree m' = true
                /\ state_dict m' = Ok (dict_set K v sd)).
    { intros sub' Eload Hplain Estep' HinK [rest Hseg].
      rewrite (attrs_set_replace _ _ _ _ sub' Hsorted) in Eload.
      exists (PInstance cls (pre ++ (A, sub') :: post)%list).
      split; [exact Eload|]. split.
      - cbn [plain_tree]. rewrite Hcls. cbn [andb].
        rewrite (@sorted_names_keys _ (pre ++ (A, PInstance c sub) :: post)%list)
          by (rewrite !map_app; reflexivity).
        rewrite Hsorted. cbn [andb].
        change ((A, sub') :: post) with ([(A, sub')] ++ post)%list.
        now rewrite !plain_attrs_app, Hpre, Hplain, Hpost.
      - rewrite Esd, module_attrs_app, Epre. cbn [bind].
        change ((A, sub') :: post) with ([(A, sub')] ++ post)%list.
        rewrite module_attrs_app, Estep'. cbn [bind].
        apply (@module_attrs_commute K v state_dict plain_tree A rest post Hseg
                 Hpostnames Hpost r1 sd HinK Hsd). }
    cbn [plain_attrs] in Hmid. rewrite andb_true_r in Hmid.
    cbn [module_attrs] in Estep.
    destruct Hkind as [(Ec1 & sdc & k & Ef & Hk & EK)
                      |[(Ec1 & Ec2 & items & j & child & sdc & k & Hlm & Hj & Hcm & Ef & Hk & EK)
                       |(Ec1 & Ec2 & Ec3 & field & val & g & Hf & Ev & Eg & EK)]].
    + (* a sub-module *)
      rewrite Ec1 in Hmid, Estep. apply andb_prop in Hmid. destruct Hmid as [Ha Hpt].
      rewrite Ef in Estep. cbn [bind] in Estep. inversion Estep as [Er1]. clear Estep. subst r1.
      destruct (IHn _ Hszsub Hpt _ _ v Ef Hk) as (sub' & Eload & Hpt' & Esd').
      destruct (plain_is_module _ Hpt') as (c' & s' & -> & Hc' & Hm').
      assert (Hseg : exists r0' r1' rest, split_dot k = r0' :: r1' :: rest).
      { pose proof (@export_entries (size (PInstance c sub)) _ (Nat.le_refl _) Hpt _ Ef) as F.
        rewrite Forall_forall in F. apply in_map_iff in Hk.
        destruct Hk as [[k0 x0] [E0 Hin0]]. simpl in E0. subst k0.
        destruct (F _ Hin0) as [Hs _]. exact Hs. }
      destruct Hseg as (r0' & r1' & rest & Es).
      destruct (@add_prefixed_set (A ++ ".") k v sdc r0 (state_dict_nodup _ Ef) Hk)
        as [Eset HinK].
      apply (Finish (PInstance c' s')).
      * rewrite EK, (@split_dot_prefix _ _ Ha), Es.
        rewrite (@load_item_deep _ _ _ _ _ _ _ Hcls).
        unfold getattr. rewrite HlA. cbn [bind class_is]. rewrite Ec1.
        rewrite <- Es, Eload. reflexivity.
      * cbn [plain_attrs]. rewrite Hm', Ha, Hpt'. reflexivity.
      * cbn [module_attrs]. rewrite Hm', Esd'. cbn [bind].
        now rewrite Eset, EK.
      * now rewrite EK.
      * rewrite EK, (@split_dot_prefix _ _ Ha). eauto.
    + (* an item of a ModuleList *)
      rewrite Ec1, Ec2 in Hmid, Estep.
      apply andb_prop in Hmid. destruct Hmid as [Hmid Hpi].
      apply andb_prop in Hmid. destruct Hmid as [Ha Hss].
      rewrite (@plain_items_of_lookup plain_tree "modules" sub _ Hlm) in Hpi.
      apply andb_prop in Hpi. destruct Hpi as [Hall Hidx].
      rewrite (@add_list_attr_of_lookup state_dict "modules" (A ++ ".") false sub r0
                 items Hlm) in Estep.
      destruct (nth_error_split _ _ Hj) as (ipre & ipost & Eitems & Hlen).
      assert (Hjlt : (j < List.length items)%nat)
        by (apply nth_error_Some; congruence).
      assert (Hci : In child items) by (eapply nth_error_In; eauto).
      rewrite forallb_forall in Hall.
      assert (Hcs : (size child <= n)%nat).
      { pose proof (size_in_items _ _ Hci).
        pose proof (size_lookup _ _ Hlm) as Hl2. cbn [size] in Hl2.
        cbn [size] in Hszsub. lia. }
      destruct (IHn _ Hcs (Hall _ Hci) _ _ v Ef Hk) as (child' & Eload & Hpt' & Esd').
      destruct (plain_is_module _ Hpt') as (c' & s' & Ech & Hc' & Hm').
      assert (Hseg : exists r0' r1' rest, split_dot k = r0' :: r1' :: rest).
      { pose proof (@export_entries (size child) _ (Nat.le_refl _) (Hall _ Hci) _ Ef) as F.
        rewrite Forall_forall in F. apply in_map_iff in Hk.
        destruct Hk as [[k0 x0] [E0 Hin0]]. simpl in E0. subst k0.
        destruct (F _ Hin0) as [Hs _]. exact Hs. }
      destruct Hseg as (r0' & r1' & rest & Es).
      assert (HsegK : split_dot K = A :: str_of_nat j :: r0' :: r1' :: rest).
      { rewrite EK, append_assoc, (@split_dot_prefix _ _ Ha),
          (@split_dot_prefix _ _ (dot_free_str j)), Es. reflexivity. }
      (* the export of the list before and after *)
      subst items.
      rewrite add_enumerated_app in Estep.
      destruct (add_enumerated state_dict (A ++ ".") false ipre 0 r0) as [ra|] eqn:Ea;
        [|discriminate].
      cbn [bind] in Estep. cbn [add_enumerated] in Estep.
      rewrite Hcm in Estep. cbn [andb negb] in Estep. rewrite Ef in Estep.
      cbn [bind] in Estep. rewrite Nat.add_0_l, Hlen in Estep.
      destruct (add_enumerated state_dict (A ++ ".") false ipost (S j)
                  (add_prefixed ((A ++ ".") ++ (str_of_nat j ++ ".")) sdc ra))
        as [rr|] eqn:Epost; [|discriminate].
      cbn [bind] in Estep. inversion Estep. subst rr. clear Estep.
      destruct (@add_prefixed_set ((A ++ ".") ++ (str_of_nat j ++ ".")) k v sdc ra
                  (state_dict_nodup _ Ef) Hk) as [Eset HinK].
      rewrite <- EK in Eset, HinK.
      destruct (@add_enumerated_commute K v state_dict (A ++ ".") false ipost (S j)
                  (add_prefixed ((A ++ ".") ++ (str_of_nat j ++ ".")) sdc ra) r1)
        as [Ecomm HinK1]; auto.
      { intros i k0 Hi. apply (@key_index_neq A K k0 i j (r0' :: r1' :: rest) Ha); [lia | exact HsegK]. }
      apply (Finish (PInstance c
                       (attrs_set "modules" (PList (ipre ++ child' :: ipost)%list) sub))).
      * rewrite HsegK. rewrite (@load_item_deep _ _ _ _ _ _ _ Hcls).
        unfold getattr at 1. rewrite HlA. cbn [bind class_is]. rewrite Ec1, Ec2.
        rewrite (@py_int_str j) by (now apply indices_ok_lt with (n := List.length (ipre ++ child :: ipost)%list)).
        cbn [bind]. unfold list_attr, getattr. rewrite Hlm. cbn [bind as_list].
        unfold list_get.
        rewrite (@PatchFacts.in_bounds_nat _ _ Hjlt), PatchFacts.norm_index_nat.
        rewrite (nth_error_nth _ _ PNone Hj). cbn [bind].
        rewrite <- Es, Eload. cbn [bind put_back].
        rewrite <- Hlen, list_put_replace. rewrite Ech. reflexivity.
      * cbn [plain_attrs]. rewrite Ec1, Ec2, Ha. cbn [andb].
        rewrite (sorted_attrs_set_present _ _ _ Hss Hlm). cbn [andb].
        rewrite (@plain_items_of_lookup plain_tree "modules" _ _ (lookup_attrs_set _ _ _)).
        rewrite andb_true_r. apply andb_true_intro. split.
        -- apply forallb_forall. intros x Hx. apply in_app_or in Hx.
           destruct Hx as [Hx|[<-|Hx]]; [| exact Hpt' |];
             apply Hall; apply in_or_app; [now left | right; now right].
        -- rewrite <- Hidx. f_equal. rewrite !length_app. reflexivity.
      * cbn [module_attrs]. rewrite Ec1, Ec2.
        rewrite (@add_list_attr_of_lookup state_dict "modules" (A ++ ".") false _ r0
                   _ (lookup_attrs_set _ _ _)).
        rewrite add_enumerated_app, Ea. cbn [bind add_enumerated].
        rewrite Ech in *. cbn [class_is]. rewrite Hm'. cbn [andb negb].
        rewrite Esd'. cbn [bind]. rewrite Nat.add_0_l, Hlen, Eset, Ecomm.
        reflexivity.
      * exact HinK1.
      * eauto.
    + (* a field of a Parameter *)
      rewrite Ec1, Ec2, Ec3 in Hmid, Estep.
      apply andb_prop in Hmid. destruct Hmid as [Ha Hss].
      unfold add_parameter in Estep. rewrite Ev, Eg in Estep. cbn [bind] in Estep.
      inversion Estep as [Er1]. clear Estep. subst r1.
      assert (Hfd : dot_free field = true) by (destruct Hf as [->| ->]; reflexivity).
      assert (Hfl : exists old, lookup field sub = Some old)
        by (destruct Hf as [->| ->]; eauto).
      destruct Hfl as [old Hold].
      assert (HsegK : split_dot K = [A; field]).
      { rewrite EK, (@split_dot_prefix _ _ Ha), (split_dot_plain _ Hfd). reflexivity. }
      apply (Finish (PInstance c (attrs_set field v sub))).
      * rewrite HsegK, (@load_item_two _ _ _ _ _ Hcls).
        unfold getattr. rewrite HlA. reflexivity.
      * cbn [plain_attrs]. rewrite Ec1, Ec2, Ec3, Ha. cbn [andb].
        now rewrite (sorted_attrs_set_present _ _ _ Hss Hold).
      * cbn [module_attrs]. rewrite Ec1, Ec2, Ec3. unfold add_parameter.
        assert (EKv : (A ++ ".") ++ "value" = A ++ ".value")
          by (rewrite append_assoc; reflexivity).
        assert (EKg : (A ++ ".") ++ "grad" = A ++ ".grad")
          by (rewrite append_assoc; reflexivity).
        destruct Hf as [->| ->].
        -- rewrite lookup_attrs_set, lookup_attrs_set_other, Eg by discriminate.
           cbn [bind]. rewrite EK, EKv.
           assert (Nvg : A ++ ".value" <> A ++ ".grad").
           { intros E. rewrite <- EKv, <- EKg in E. apply (f_equal split_dot) in E.
             rewrite !(@split_dot_prefix _ _ Ha) in E. discriminate. }
           rewrite (@dict_set_commute (A ++ ".value") (A ++ ".grad") v g
                      (dict_set (A ++ ".value") val r0) Nvg (dict_set_key_in _ _ _)).
           now rewrite dict_set_overwrite.
        -- rewrite lookup_attrs_set, lookup_attrs_set_other, Ev by discriminate.
           cbn [bind]. rewrite EK, EKg. now rewrite dict_set_overwrite.
      * rewrite EK. destruct Hf as [->| ->].
        -- replace ((A ++ ".") ++ "value") with (A ++ ".value")
             by (rewrite append_assoc; reflexivity).
           apply dict_set_keys_in, dict_set_key_in.
        -- replace ((A ++ ".") ++ "grad") with (A ++ ".grad")
             by (rewrite append_assoc; reflexivity).
           apply dict_set_key_in.
      * eauto.
Qed.

(** ** Loading a whole dictionary *)

Lemma fold_dict_set_tail (k : string) (v : pyobj) (sd t : dict) :
  (forall kv, In kv sd -> fst kv <> k) ->
  fold_left (fun acc kv => dict_set (fst kv) (snd kv) acc) sd ((k, v) :: t)
  = (k, v) :: fold_left (fun acc kv => dict_set (fst kv) (snd kv) acc) sd t.
Proof.
  revert t. induction sd as [|[k' v'] sd IH]; intros t Hne; [reflexivity|].
  cbn [fold_left fst snd dict_set].
  assert (Hk : k' <> k) by (apply (Hne (k', v')); now left).
  apply String.eqb_neq in Hk. rewrite Hk.
  apply IH. intros kv Hkv. apply Hne. now right.
Qed.

(** Writing, over a dictionary, one with the same keys in the same order
    gives that one. *)
Lemma fold_dict_set_same_keys (sd sd0 : dict) :
  NoDup (map fst sd0) -> map fst sd = map fst sd0 ->
  fold_left (fun acc kv => dict_set (fst kv) (snd kv) acc) sd sd0 = sd.
Proof.
  revert sd0. induction sd as [|[k v] sd IH]; intros [|[k0 v0] sd0] Hn E;
    try discriminate; [reflexivity|].
  simpl in E. inversion E as [[Ek Et]]. subst k0.
  simpl in Hn. inversion Hn as [|? ? Hnot Hn']; subst.
  cbn [fold_left fst snd dict_set]. rewrite String.eqb_refl.
  rewrite fold_dict_set_tail.
  - f_equal. now apply IH.
  - intros kv Hkv E'. apply Hnot. rewrite <- Et, <- E'. now apply in_map.
Qed.



End LoadExportFacts.
